(* ===== verification/_CoqProject ===== *)
-Q . S2P
Prelude.v
Base.v
Hash.v
Model.v
Chunking.v
Dedup.v
BinFormat.v
Protocol.v
Backend.v
SyntheticBackend.v
Store.v
Publish.v
Restore.v
Retention.v
Gc.v
FileSystem.v
StateCodec.v
Persistence.v
Recovery.v
LocalBackend.v
Accounting.v
ProtoOps.v
Coordinator.v
References.v
Explain.v
Liveness.v
Catalogue.v
LocalLiveness.v
Cli.v
CliReads.v
Restart.v
Tools.v
Examples.v
