(* ===== verification/Prelude.v ===== *)
(** * Checkpoint Store: a verification development

    A model of the Checkpoint Store runtime (C++20, under [src/]) as executable
    definitions, and the theorems that make it correct.  Paths below are
    relative to [src/]; the headers are under [include/checkpointstore/].

    ** The program and how its parts interact

    A [CheckpointStore] object owns the authoritative metadata: families,
    checkpoints with their manifests and chunks, blobs, replicas, placements,
    retention policies, the deduplication table and the collector's state.
    [publish] cuts a byte string into chunks, shares or writes one blob per
    digest through a storage backend, reads everything back, checks the
    manifest and commits the metadata, or rolls back.  [restore] and
    [verify_checkpoint] read the blobs through the replicas and check every
    digest.  Retention computes which checkpoints are protected, the collector
    sweeps the others and removes objects whose count is zero.  Persistence
    writes the whole state to a file and reads it back.  The coordinator wraps a
    store in a process that answers framed requests and fences stale producers;
    the worker is its client; the command line opens a store, runs one command
    and saves.

    ** Conventions

    A member function is a value of [ST S E A] (this file): from the state of
    its object to an outcome ([Ok] or [Throw]) and the state it leaves, which is
    returned on both kinds of outcome, as an exception undoes no assignment.
    [frames R m] says that [m] relates the state before and after by [R]
    whatever the outcome; most invariants are proved by walking a body with it.
    Unsigned integers are [Z] with their wrap-around written out ([u64],
    [incr64]); bytes are [Byte.byte]; structs are records with an updater
    notation; an [enum class] is a module with the enumerators and a constructor
    for any other value.  A [std::unordered_map] is a [gmap] whose traversal
    order is a parameter ([IterOrder], Base.v).  Shared backend objects live in
    a heap indexed by pointers ([s_heap], Store.v), so two ids may name one
    object.  Clock readings are arguments.  Code thrown by the standard library
    inside [publish] ([std::out_of_range] of [walk_entries]) is an error of code
    [kInternal] there, which its [catch] block treats alike.

    ** Files, and the code they model

    - Prelude: the error and state monads, framing, record update, bytes, words,
      lists.  Base: [base/error.hpp], [base/strong.hpp], [identity/*.hpp],
      [src/error.cpp], [src/identity.cpp], hexadecimal text.
    - Hash: SHA-256 and CRC-32 ([crypto/hash.hpp], [src/hash.cpp]).  Model: the
      enumerations and records of [model.hpp].  Chunking, Dedup, BinFormat,
      Protocol: the files of the same names.
    - Backend: key validation and the interface [IBackend] as a type class, its
      laws as the class [BackendLaws] ([storage/backend.hpp], [src/backend.cpp]).
      SyntheticBackend and LocalBackend are its two implementations, with
      instances of both classes; the store's theorems are proved against them.
    - FileSystem: the disk, with faults that let an operation fail half-way and a
      log of every state the disk has been in; a crash leaves one of them.
    - Store, Publish, Restore, Retention, Gc, Accounting: the members of
      [CheckpointStore] ([src/store.cpp], [src/restore.cpp], [src/retention.cpp],
      [src/gc.cpp], [src/accounting.cpp], [src/replication.cpp],
      [src/tier.cpp]; the state is [src/impl.hpp]).
    - StateCodec, Persistence, Recovery: [src/persistence.cpp]; the codecs of the
      records, the two members with the file writing, and their theorems.
    - ProtoOps, Coordinator, Tools: [tools/proto_ops.hpp],
      [tools/coordinator.cpp], [tools/worker.cpp].
    - Explain: [src/explain.cpp].  Cli, CliReads: [cli/cli.cpp].  Examples:
      [examples/], every program; the unit of their sizes is a parameter.
    - References, Liveness, Catalogue, LocalLiveness, Restart: no code of their
      own; the theorems that span several components.

    ** What the theorems show

    - The whole store: [store_refines_catalogue] (Catalogue.v).  Over any history
      of operations, restarts and collections included, a store on reliable
      backends refines a finite map from checkpoint ids to bytes: what was
      published and not collected is restored exactly, any other id is refused.
      The hypotheses on a publication are that SHA-256 and the 64-bit ids cut
      from it do not collide on what is stored, that ids do not run out, and
      that an object is written only for a digest the table did not know
      ([stored_anew]; [failed_publication_keeps_references] and
      [rewritten_blob_loses_reference] show what happens otherwise).
    - Publication: [publish_atomic] (a failure leaves the catalogue as it was),
      [publish_durable], [publish_fencing], and [publish_succeeds] (it does
      return where it ought to, on every [ReliableBackend]; LocalLiveness shows
      the filesystem backend to be one on a disk in order).
    - Reading: [restore_correct], [verify_checkpoint_correct] and the round trip
      [publish_restore_round_trip].
    - Retention and collection: [protected_set_is_closure],
      [eligible_is_unprotected], [keep_latest_n_exact], [gc_run_safe], and
      [references_exact], which ties the counters of the dedup table to the
      catalogue over whole histories, restarts included, in which a publication
      that fails after the guards had only pieces new to the table, and one that
      succeeds wrote objects only for digests new to it.
    - The disk: [save_state_never_torn], [local_commit_never_torn],
      [local_stays_below_root], [local_write_transactional].
    - Recovery: [save_load_round_trip], [load_state_intact_only],
      [load_state_typed], [load_state_in_bounds], [save_deterministic],
      [recovery_generations_fresh], [reset_authority_revalidates].
    - The processes: [rpc_transparent] (a request over a connection is the local
      call), [revoked_epoch_is_fenced], [stale_worker_is_refused],
      [reading_commands_keep_files], and [published_survives_restart], which
      composes publication, saving, a new process and restoring.
      [restore_examples_succeed] runs two of the example programs from an empty
      directory to what they print, at the sizes of the sources.
    - The layers below: SHA-256 streaming, CRC-32, the frame and payload codecs,
      chunking, key validation, reference counting.
    Where the code does not do what it says, an [Example] evaluates the case and
    stands next to the definitions concerned.

    ** Fuel

    [range_loop] and [slice_loop] (Chunking) get one unit per byte and advance by
    at least one byte ([range_loop_tiles]).  [consume_blocks], [pad_zeros] (64
    units: the padding is shorter) and [hash_buffers] consume input in every
    step ([consume_blocks_spec], [pad_zeros_absorbed], [hash_buffers_absorbed]).
    [protect_loop] gets one unit more than there are checkpoints, and every
    round but the last protects another one ([protect_loop_spec]).
    [serve_connection] gets one unit more than there are bytes, and every
    request consumes some ([serve_enough_fuel]).

    ** Not modelled, and why

    - Mutexes and threads: every public member of the store holds its mutex from
      the first to the last statement, so operations are steps; [LocalBackend]
      and [SyntheticBackend] lock their tables in the same way.
    - Sockets: a connection is the bytes it delivers and whether each send gets
      through; the coordinator serves one connection after the other.  What the
      coordinator prints is left out, what the worker and the command line print
      is modelled.
    - The coordinator's state file is on a disk of its own, apart from the one of
      its backend; in the command line both are on the same disk.
    - The Windows build (flushing, [ReplaceFile]); symbolic links; normalisation
      of [.] and [..] in the paths of roots and state files (keys are resolved
      against the root by [path_join], FileSystem.v); failing allocations, the
      buffer of the size a publish request names included ([handle_publish]);
      opening a directory as a stream, which is taken to fail.
    - The overflow of signed 64-bit nanoseconds when a very long time-to-live is
      added to a creation time ([ttl_protects]), which is undefined in C++.
    - [Expected<T>], which cannot be instantiated; the benchmarks and tests, which
      only call the library, and the CUDA demonstration. *)
From Stdlib Require Export ZArith Lia ZifyNat.
From Stdlib Require Export Strings.Ascii Strings.Byte.
From stdpp Require Export base tactics numbers list gmap strings sorting fin_maps.

#[global] Open Scope string_scope.
#[global] Open Scope list_scope.
#[global] Open Scope Z_scope.

(** ** Results of fallible code

    C++ code that throws becomes a value: [Ok] for a normal return and [Throw]
    for an exception of type [E]. *)
Inductive result (E A : Type) : Type :=
  | Ok (a : A)
  | Throw (e : E).
Arguments Ok {E A} a.
Arguments Throw {E A} e.

#[export] Instance result_eq_dec {E A} `{EqDecision E, EqDecision A} : EqDecision (result E A).
Proof. solve_decision. Defined.

#[export] Instance result_ret {E} : MRet (result E) := λ A a, Ok a.
#[export] Instance result_bind {E} : MBind (result E) := λ A B f r,
  match r with Ok a => f a | Throw e => Throw e end.

Definition is_ok {E A} (r : result E A) : bool :=
  match r with Ok _ => true | Throw _ => false end.

Lemma result_bind_ok {E A B} (r : result E A) (f : A → result E B) b :
  (r ≫= f) = Ok b ↔ ∃ a, r = Ok a ∧ f a = Ok b.
Proof. destruct r; naive_solver. Qed.

(** ** Stateful code that can throw

    A member function is a function from the state of its object to an outcome
    together with the state it leaves.  The state is returned on both kinds of
    outcome: an exception does not undo the assignments made before it. *)
Definition ST (S E A : Type) : Type := S → result E A * S.

#[export] Instance ST_ret {S E} : MRet (ST S E) := λ A a s, (Ok a, s).
#[export] Instance ST_bind {S E} : MBind (ST S E) := λ A B f m s,
  match m s with
  | (Ok a, s') => f a s'
  | (Throw e, s') => (Throw e, s')
  end.

Definition throw {S E A} (e : E) : ST S E A := λ s, (Throw e, s).
Definition get {S E} : ST S E S := λ s, (Ok s, s).
Definition gets {S E A} (f : S → A) : ST S E A := λ s, (Ok (f s), s).
Definition modify {S E} (f : S → S) : ST S E unit := λ s, (Ok tt, f s).
Definition lift_result {S E A} (r : result E A) : ST S E A := λ s, (r, s).

(** [if (c) throw e;] *)
Definition throw_if {S E} (c : bool) (e : E) : ST S E unit :=
  if c then throw e else mret tt.

(** [try { m } catch (...) { }] with the outcome kept as a value. *)
Definition attempt {S E A} (m : ST S E A) : ST S E (result E A) := λ s,
  let '(r, s') := m s in (Ok r, s').

(** [for (x : xs) body(x)] *)
Fixpoint for_each {S E A} (xs : list A) (body : A → ST S E unit) : ST S E unit :=
  match xs with
  | [] => mret tt
  | x :: xs' => body x ≫= λ _, for_each xs' body
  end.

(** Run code that acts on a part of the state. *)
Definition zoom {S T E A} (get : S → T) (put : T → S → S) (m : ST T E A) : ST S E A := λ s,
  let '(r, t) := m (get s) in (r, put t s).

Section st_lemmas.
Context {S E : Type}.

Lemma st_bind_ok {A B} (m : ST S E A) (f : A → ST S E B) s b s' :
  (m ≫= f) s = (Ok b, s') ↔ ∃ a s1, m s = (Ok a, s1) ∧ f a s1 = (Ok b, s').
Proof. unfold mbind, ST_bind. destruct (m s) as [[a|e] s1]; naive_solver. Qed.

Lemma st_bind_throw {A B} (m : ST S E A) (f : A → ST S E B) s e s' :
  (m ≫= f) s = (Throw e, s') ↔
    m s = (Throw e, s') ∨ ∃ a s1, m s = (Ok a, s1) ∧ f a s1 = (Throw e, s').
Proof. unfold mbind, ST_bind. destruct (m s) as [[a|e'] s1]; naive_solver. Qed.

Lemma st_bind_run {A B} (m : ST S E A) (f : A → ST S E B) s a s1 :
  m s = (Ok a, s1) → (m ≫= f) s = f a s1.
Proof. unfold mbind, ST_bind. by intros ->. Qed.

Lemma st_bind_run_throw {A B} (m : ST S E A) (f : A → ST S E B) s e s1 :
  m s = (Throw e, s1) → (m ≫= f) s = (Throw e, s1).
Proof. unfold mbind, ST_bind. by intros ->. Qed.

Lemma throw_if_ok c (e : E) (s : S) s' :
  throw_if c e s = (Ok tt, s') ↔ c = false ∧ s' = s.
Proof. destruct c; unfold throw_if, throw, mret, ST_ret; naive_solver. Qed.
End st_lemmas.

(** ** Framing

    [frames R m]: whatever the outcome, the state [m] leaves is related to the
    one it started from.  For a preorder [R] the property composes, so the
    frame of a long member function follows from those of its statements. *)
Definition frames {S E A} (R : S → S → Prop) (m : ST S E A) : Prop :=
  ∀ s, R s (m s).2.

Section frames_lemmas.
Context {S E : Type} (R : S → S → Prop) `{!PreOrder R}.

Lemma frames_ret {A} (a : A) : frames R (mret a : ST S E A).
Proof. intros s. simpl. reflexivity. Qed.
Lemma frames_throw {A} (e : E) : frames R (throw e : ST S E A).
Proof. intros s. simpl. reflexivity. Qed.
Lemma frames_get : frames R (get : ST S E S).
Proof. intros s. simpl. reflexivity. Qed.
Lemma frames_gets {A} (f : S → A) : frames R (gets f : ST S E A).
Proof. intros s. simpl. reflexivity. Qed.
Lemma frames_lift_result {A} (r : result E A) : frames R (lift_result r : ST S E A).
Proof. intros s. simpl. reflexivity. Qed.
Lemma frames_throw_if c (e : E) : frames R (throw_if c e : ST S E unit).
Proof. intros s. destruct c; simpl; reflexivity. Qed.
Lemma frames_modify (f : S → S) :
  (∀ s, R s (f s)) → frames R (modify f : ST S E unit).
Proof. intros H s. apply H. Qed.
Lemma frames_bind {A B} (m : ST S E A) (f : A → ST S E B) :
  frames R m → (∀ a, frames R (f a)) → frames R (m ≫= f).
Proof.
  intros Hm Hf s. unfold mbind, ST_bind. specialize (Hm s).
  destruct (m s) as [[a|e] s1]; simpl in *; [|done].
  etrans; [done|apply Hf].
Qed.
Lemma frames_attempt {A} (m : ST S E A) : frames R m → frames R (attempt m).
Proof. intros Hm s. unfold attempt. specialize (Hm s). by destruct (m s). Qed.
Lemma frames_for_each {A} (xs : list A) (body : A → ST S E unit) :
  (∀ x, x ∈ xs → frames R (body x)) → frames R (for_each xs body).
Proof.
  induction xs as [|x xs IH]; intros H; simpl.
  - apply frames_ret.
  - apply frames_bind; [apply H; left|]. intros _. apply IH. intros y Hy. apply H. by right.
Qed.
End frames_lemmas.

(** Follow a bind, with the frame of its first statement. *)
Lemma run_framed {S E A C} (R : S → S → Prop) (m : ST S E A) (k : A → ST S E C)
    (Q : result E C → S → Prop) s :
  frames R m → (∀ e s1, R s s1 → Q (Throw e) s1) →
  (∀ a s1, m s = (Ok a, s1) → R s s1 → Q (k a s1).1 (k a s1).2) →
  Q ((m ≫= k) s).1 ((m ≫= k) s).2.
Proof.
  intros Hm Ht Hk. specialize (Hm s). unfold mbind, ST_bind.
  destruct (m s) as [[a|e] s1] eqn:E1; cbn [fst snd] in *; [by apply Hk|by apply Ht].
Qed.

Create HintDb frames.
#[export] Hint Resolve frames_ret frames_throw frames_get frames_gets
  frames_lift_result frames_throw_if frames_bind frames_attempt : frames.

(** Walk through a monadic body, leaving the assignments. *)
Ltac frame_step :=
  match goal with
  | |- frames _ (_ ≫= _) => apply frames_bind; [apply _| |intros ?]
  | |- frames _ (mret _) => apply frames_ret; apply _
  | |- frames _ (throw _) => apply frames_throw; apply _
  | |- frames _ get => apply frames_get; apply _
  | |- frames _ (gets _) => apply frames_gets; apply _
  | |- frames _ (lift_result _) => apply frames_lift_result; apply _
  | |- frames _ (throw_if _ _) => apply frames_throw_if; apply _
  | |- frames _ (for_each _ _) => apply frames_for_each; [apply _|intros ? ?]
  | |- frames _ (attempt _) => apply frames_attempt
  | |- frames _ (modify _) => apply frames_modify; intros ?
  | |- frames _ (match ?x with _ => _ end) => destruct x
  end.
Ltac solve_frames := repeat first [progress cbn beta iota zeta | frame_step].

(** ** Record update

    [r <| field := v |>] is the C++ assignment [r.field = v].  A record states
    once how it is rebuilt from its fields ([Eta]); the updater of a field is
    obtained from that by replacing the one occurrence of its projection. *)
Class Eta (R : Type) := eta : R → R.
Class Updater {R T : Type} (proj : R → T) := update : (T → T) → R → R.
#[global] Hint Mode Eta + : typeclass_instances.
Arguments update {R T} proj {_} f r /.

Ltac head_of t := match t with ?f _ => head_of f | _ => t end.

Ltac build_updater R T proj :=
  let eta_inst_ := match constr:(@eta R _) with @eta _ ?i => i end in
  let eta_head_ := head_of eta_inst_ in
  let eta_fun_ := eval unfold eta_head_ in eta_inst_ in
  exact (fun (f_ : T → T) (r_ : R) =>
    ltac:(let body_ := eval cbv beta in (eta_fun_ r_) in
          match body_ with
          | context C [proj r_] => let b_ := context C [f_ (proj r_)] in exact b_
          end)).

#[export] Hint Extern 0 (@Updater ?R ?T ?proj) => build_updater R T proj : typeclass_instances.

Notation "r <| proj := v |>" := (update proj (λ _, v) r)
  (at level 12, left associativity, proj at level 60, v at level 200, format "r  <| proj  :=  v |>").
Notation "r <| proj ::= f |>" := (update proj f r)
  (at level 12, left associativity, proj at level 60, f at level 200, format "r  <| proj  ::=  f |>").


(** ** Bytes

    [std::byte] and [std::uint8_t] are [Byte.byte]; [byte_val] reads one as an
    integer and [byte_of] is the truncating [static_cast] from an integer. *)
Abbreviation byte := Byte.byte.

Definition byte_val (b : byte) : Z := Z.of_N (Byte.to_N b).
Definition byte_of (z : Z) : byte := default x00 (Byte.of_N (Z.to_N (z mod 256))).

Lemma byte_val_range b : 0 ≤ byte_val b < 256.
Proof. unfold byte_val. pose proof (Byte.to_N_bounded b). lia. Qed.

Lemma byte_of_val b : byte_of (byte_val b) = b.
Proof.
  unfold byte_of. rewrite Z.mod_small by apply byte_val_range.
  unfold byte_val. by rewrite N2Z.id, Byte.of_to_N.
Qed.

Lemma byte_val_of z : byte_val (byte_of z) = z mod 256.
Proof.
  unfold byte_of. assert (0 ≤ z mod 256 < 256) by (apply Z.mod_pos_bound; lia).
  destruct (Byte.of_N (Z.to_N (z mod 256))) as [b|] eqn:E; simpl.
  - apply Byte.to_of_N in E. unfold byte_val. rewrite E. lia.
  - apply Byte.of_N_None_iff in E. lia.
Qed.

Lemma byte_val_inj b1 b2 : byte_val b1 = byte_val b2 → b1 = b2.
Proof. intros H. by rewrite <- (byte_of_val b1), <- (byte_of_val b2), H. Qed.

#[export] Instance byte_eq_dec : EqDecision byte := Byte.byte_eq_dec.
#[export] Program Instance byte_countable : Countable byte :=
  inj_countable Byte.to_N Byte.of_N _.
Next Obligation. intros b. apply Byte.of_to_N. Qed.

(** ** Machine words

    Unsigned integers are kept in [Z], reduced to their width where the code
    computes with them. *)
Definition is_u8 (z : Z) : Prop := 0 ≤ z < 2 ^ 8.
Definition is_u16 (z : Z) : Prop := 0 ≤ z < 2 ^ 16.
Definition is_u32 (z : Z) : Prop := 0 ≤ z < 2 ^ 32.
Definition is_u64 (z : Z) : Prop := 0 ≤ z < 2 ^ 64.
Definition u32 (z : Z) : Z := z mod 2 ^ 32.
Definition u64 (z : Z) : Z := z mod 2 ^ 64.

#[global] Arguments u32 : simpl never.
#[global] Arguments u64 : simpl never.
#[global] Arguments byte_val : simpl never.
#[global] Arguments byte_of : simpl never.

Lemma u32_range z : is_u32 (u32 z).
Proof. apply Z.mod_pos_bound. lia. Qed.
Lemma u64_range z : is_u64 (u64 z).
Proof. apply Z.mod_pos_bound. lia. Qed.
Lemma u32_id z : is_u32 z → u32 z = z.
Proof. apply Z.mod_small. Qed.
Lemma u64_id z : is_u64 z → u64 z = z.
Proof. apply Z.mod_small. Qed.

(** Bitwise operations do not leave the width. *)
Lemma u64_land z : u64 z = Z.land z (Z.ones 64).
Proof. rewrite Z.land_ones by lia. done. Qed.
Lemma u64_lor x y : is_u64 x → is_u64 y → is_u64 (Z.lor x y).
Proof.
  intros Hx Hy. assert (Z.lor x y = u64 (Z.lor x y)) as ->; [|apply u64_range].
  by rewrite u64_land, Z.land_lor_distr_l, <- !u64_land, !u64_id.
Qed.

(** [++c] on a [std::uint64_t]. *)
Definition incr64 (z : Z) : Z := u64 (z + 1).

(** The size of a container as a [std::uint64_t] or [std::size_t]. *)
Definition zlen {A} (l : list A) : Z := Z.of_nat (length l).

#[global] Arguments zlen : simpl never.

Lemma zlen_nonneg {A} (l : list A) : 0 ≤ zlen l.
Proof. unfold zlen. lia. Qed.
Lemma zlen_app {A} (l k : list A) : zlen (l ++ k) = zlen l + zlen k.
Proof. unfold zlen. rewrite length_app. lia. Qed.

(** ** Hash maps

    The order in which a [std::unordered_map] is traversed is unspecified.  It
    is a parameter of every definition that traverses one: any function that
    lists each binding exactly once. *)
Class IterOrder := {
  iter_order : ∀ {K : Type} `{Countable K} {A : Type}, gmap K A → list (K * A);
  iter_order_perm : ∀ {K : Type} `{Countable K} {A : Type} (m : gmap K A),
    iter_order m ≡ₚ map_to_list m
}.

(** One such order, for evaluation. *)
Definition canonical_order : IterOrder :=
  {| iter_order K _ _ A m := map_to_list m; iter_order_perm K _ _ A m := reflexivity _ |}.

Section iter_order.
Context `{IterOrder} `{Countable K} {A : Type}.
Implicit Types m : gmap K A.

Lemma elem_of_iter_order m k a : (k, a) ∈ iter_order m ↔ m !! k = Some a.
Proof. rewrite iter_order_perm. apply elem_of_map_to_list. Qed.
Lemma length_iter_order m : length (iter_order m) = size m.
Proof. rewrite iter_order_perm. apply length_map_to_list. Qed.
Lemma NoDup_iter_order m : NoDup (iter_order m).*1.
Proof. rewrite iter_order_perm. apply NoDup_fst_map_to_list. Qed.
End iter_order.

(** ** Enumerations

    Proofs shared by the modules that model [enum class] types. *)
Ltac enum_of_to wf of_int to_int :=
  let He := fresh in
  match goal with e : _ |- _ => intros He; destruct e end; try reflexivity;
  unfold wf in He; unfold of_int, to_int; repeat case_match; subst; try reflexivity; exfalso; lia.
Ltac enum_range wf to_int :=
  let He := fresh in
  match goal with e : _ |- _ => intros He; destruct e end;
  unfold wf in He; unfold is_u8, is_u32, to_int; lia.

Ltac enum_of_wf wf of_int :=
  intros Hv; unfold is_u8 in Hv; unfold of_int; repeat case_match; simpl; try exact I; lia.

(** ** Checking a property of every small integer by evaluation *)
Lemma Z_forall_below (P : Z → Prop) `{∀ x, Decision (P x)} n :
  bool_decide (Forall P (seqZ 0 n)) = true → ∀ x, 0 ≤ x < n → P x.
Proof.
  intros Hall%bool_decide_eq_true x Hx. rewrite Forall_forall in Hall.
  apply Hall, elem_of_seqZ. lia.
Qed.

(** Splitting the base-[b] digits of a number. *)
Lemma mod_pow_succ b n v : 0 < b → 0 ≤ n →
  v mod b ^ (n + 1) = (v / b ^ n) mod b * b ^ n + v mod b ^ n.
Proof.
  intros Hb Hn. assert (0 < b ^ n) by (apply Z.pow_pos_nonneg; lia).
  rewrite Z.pow_add_r, Z.pow_1_r by lia.
  rewrite Z.rem_mul_r by lia. lia.
Qed.

(** ** Lists *)
Lemma filter_all {A} (P : A → Prop) `{∀ x, Decision (P x)} l : Forall P l → filter P l = l.
Proof. induction 1 as [|x l Hx _ IH]; [done|]. by rewrite filter_cons_True, IH. Qed.
Lemma filter_none {A} (P : A → Prop) `{∀ x, Decision (P x)} l : Forall (λ x, ¬ P x) l → filter P l = [].
Proof. induction 1 as [|x l Hx _ IH]; [done|]. by rewrite filter_cons_False. Qed.
