(* ===== verification/Base.v ===== *)
(** * Base: errors, strong identities, generations, authority tags, hexadecimal text

    [include/checkpointstore/base/error.hpp], [src/error.cpp],
    [include/checkpointstore/base/strong.hpp],
    [include/checkpointstore/identity/*.hpp], [src/identity.cpp] and the byte
    helpers at the end of [src/hash.cpp]. *)
From S2P Require Import Prelude.

(** ** Errors

    [ErrorCode] and the exception type.  [what()] is the [message] field. *)
Module ErrorCode.
Inductive t := kNone | kInvalidArgument | kNotFound | kAlreadyExists | kConflict
  | kStaleAuthority | kStaleGeneration | kPermissionDenied | kNotSupported | kCapacityExceeded
  | kIntegrity | kCorrupt | kChecksumMismatch | kDigestMismatch | kTruncated | kBadMagic
  | kUnsupportedVersion | kMalformed | kMissing | kOverflow | kIo | kBackendUnavailable
  | kTransaction | kGcConcurrency | kQuarantined | kRetry | kDeadlock | kInternal
  | other (v : Z).
#[global] Instance t_eq_dec : EqDecision t.
Proof. solve_decision. Defined.

Definition to_u32 (e : t) : Z :=
  match e with | kNone => 0 | kInvalidArgument => 1 | kNotFound => 2 | kAlreadyExists => 3
    | kConflict => 4 | kStaleAuthority => 5 | kStaleGeneration => 6 | kPermissionDenied => 7
    | kNotSupported => 8 | kCapacityExceeded => 9 | kIntegrity => 10 | kCorrupt => 11
    | kChecksumMismatch => 12 | kDigestMismatch => 13 | kTruncated => 14 | kBadMagic => 15
    | kUnsupportedVersion => 16 | kMalformed => 17 | kMissing => 18 | kOverflow => 19
    | kIo => 20 | kBackendUnavailable => 21 | kTransaction => 22 | kGcConcurrency => 23
    | kQuarantined => 24 | kRetry => 25 | kDeadlock => 26 | kInternal => 27 | other v => v
    end.
Definition of_u32 (v : Z) : t :=
  match v with | 0 => kNone | 1 => kInvalidArgument | 2 => kNotFound | 3 => kAlreadyExists
    | 4 => kConflict | 5 => kStaleAuthority | 6 => kStaleGeneration | 7 => kPermissionDenied
    | 8 => kNotSupported | 9 => kCapacityExceeded | 10 => kIntegrity | 11 => kCorrupt
    | 12 => kChecksumMismatch | 13 => kDigestMismatch | 14 => kTruncated | 15 => kBadMagic
    | 16 => kUnsupportedVersion | 17 => kMalformed | 18 => kMissing | 19 => kOverflow
    | 20 => kIo | 21 => kBackendUnavailable | 22 => kTransaction | 23 => kGcConcurrency
    | 24 => kQuarantined | 25 => kRetry | 26 => kDeadlock | 27 => kInternal | _ => other v
    end.
Definition to_string (e : t) : string :=
  match e with
  | kNone => "none"
  | kInvalidArgument => "invalid_argument"
  | kNotFound => "not_found"
  | kAlreadyExists => "already_exists"
  | kConflict => "conflict"
  | kStaleAuthority => "stale_authority"
  | kStaleGeneration => "stale_generation"
  | kPermissionDenied => "permission_denied"
  | kNotSupported => "not_supported"
  | kCapacityExceeded => "capacity_exceeded"
  | kIntegrity => "integrity"
  | kCorrupt => "corrupt"
  | kChecksumMismatch => "checksum_mismatch"
  | kDigestMismatch => "digest_mismatch"
  | kTruncated => "truncated"
  | kBadMagic => "bad_magic"
  | kUnsupportedVersion => "unsupported_version"
  | kMalformed => "malformed"
  | kMissing => "missing"
  | kOverflow => "overflow"
  | kIo => "io"
  | kBackendUnavailable => "backend_unavailable"
  | kTransaction => "transaction"
  | kGcConcurrency => "gc_concurrency"
  | kQuarantined => "quarantined"
  | kRetry => "retry"
  | kDeadlock => "deadlock"
  | kInternal => "internal"
  | other _ => "unknown"
  end.

Definition wf (e : t) : Prop :=
  match e with other v => 28 ≤ v < 2 ^ 32 | _ => True end.
Lemma ErrorCode_of_to e : wf e → of_u32 (to_u32 e) = e.
Proof. enum_of_to wf of_u32 to_u32. Qed.
Lemma ErrorCode_to_of v : to_u32 (of_u32 v) = v.
Proof. unfold of_u32. repeat case_match; reflexivity. Qed.
Lemma ErrorCode_range e : wf e → is_u32 (to_u32 e).
Proof. enum_range wf to_u32. Qed.
End ErrorCode.

(** [is_error(code)] *)
Definition is_error (code : ErrorCode.t) : bool := bool_decide (code ≠ ErrorCode.kNone).

Record CheckpointStoreError := mkError {
  error_code : ErrorCode.t;
  error_message : string;
  error_context : string
}.
#[export] Instance CheckpointStoreError_eq_dec : EqDecision CheckpointStoreError.
Proof. solve_decision. Defined.

(** The two-argument constructor, used by [throw_error]. *)
Definition store_error (code : ErrorCode.t) (message : string) : CheckpointStoreError :=
  mkError code message "".

Abbreviation outcome := (result CheckpointStoreError).

(** [throw_error] in code without state and in a member function. *)
Definition throw_error {A} (code : ErrorCode.t) (message : string) : outcome A :=
  Throw (store_error code message).
Definition raise {S A} (code : ErrorCode.t) (message : string) : ST S CheckpointStoreError A :=
  throw (store_error code message).
Definition raise_if {S} (c : bool) (code : ErrorCode.t) (message : string) :
    ST S CheckpointStoreError unit :=
  throw_if c (store_error code message).

(** The error code of an outcome. *)
Definition outcome_code {A} (r : outcome A) : ErrorCode.t :=
  match r with Ok _ => ErrorCode.kNone | Throw e => error_code e end.

(** ** Strong identities and generations

    The tag of [BasicId<Tag>] is a phantom parameter: identities of different
    kinds have different types and cannot be mixed.  Generations likewise. *)
Record BasicId (Tag : Type) := mkId { id_value : Z }.
Arguments mkId {Tag} id_value.
Arguments id_value {Tag} b.
#[export] Instance BasicId_eq_dec {Tag} : EqDecision (BasicId Tag).
Proof. solve_decision. Defined.
#[export] Program Instance BasicId_countable {Tag} : Countable (BasicId Tag) :=
  inj_countable' id_value mkId _.
Next Obligation. by intros Tag []. Qed.

Definition null_id {Tag} : BasicId Tag := mkId 0.
Definition is_null {Tag} (i : BasicId Tag) : bool := id_value i =? 0.
Definition is_valid {Tag} (i : BasicId Tag) : bool := negb (id_value i =? 0).

Record BasicGeneration (Tag : Type) := mkGen { gen_value : Z }.
Arguments mkGen {Tag} gen_value.
Arguments gen_value {Tag} b.
#[export] Instance BasicGeneration_eq_dec {Tag} : EqDecision (BasicGeneration Tag).
Proof. solve_decision. Defined.

(** The default constructor: generations start at one. *)
Definition first_gen {Tag} : BasicGeneration Tag := mkGen 1.
Definition precedes {Tag} (g other : BasicGeneration Tag) : bool := gen_value g <? gen_value other.
Definition follows {Tag} (g other : BasicGeneration Tag) : bool := gen_value g >? gen_value other.
Definition equal_to {Tag} (g other : BasicGeneration Tag) : bool := gen_value g =? gen_value other.
Definition equal_or_precedes {Tag} (g other : BasicGeneration Tag) : bool :=
  gen_value g <=? gen_value other.
Definition equal_or_follows {Tag} (g other : BasicGeneration Tag) : bool :=
  gen_value g >=? gen_value other.
Definition next {Tag} (g : BasicGeneration Tag) : BasicGeneration Tag := mkGen (incr64 (gen_value g)).

(** [AuthorityTag<Generation, BootId>]: an incarnation with a generation. *)
Record AuthorityTag (GenTag BootTag : Type) := mkAuthority {
  auth_boot : BasicId BootTag;
  auth_generation : BasicGeneration GenTag
}.
Arguments mkAuthority {GenTag BootTag}.
Arguments auth_boot {GenTag BootTag}.
Arguments auth_generation {GenTag BootTag}.
#[export] Instance AuthorityTag_eq_dec {G B} : EqDecision (AuthorityTag G B).
Proof. solve_decision. Defined.

Definition wf_id {Tag} (i : BasicId Tag) : Prop := is_u64 (id_value i).
Definition wf_gen {Tag} (g : BasicGeneration Tag) : Prop := is_u64 (gen_value g).

(** The tags of [namespace detail] and the identity and generation types. *)
Variant CheckpointIdTag : Type := .
Variant CheckpointVersionIdTag : Type := .
Variant CheckpointFamilyIdTag : Type := .
Variant ManifestIdTag : Type := .
Variant ChunkIdTag : Type := .
Variant BlobIdTag : Type := .
Variant ReplicaIdTag : Type := .
Variant PlacementIdTag : Type := .
Variant StorageTierIdTag : Type := .
Variant StorageBackendIdTag : Type := .
Variant StorageNodeIdTag : Type := .
Variant VolumeIdTag : Type := .
Variant RestoreIdTag : Type := .
Variant RestorePlanIdTag : Type := .
Variant GcEpochIdTag : Type := .
Variant RetentionPolicyIdTag : Type := .
Variant OwnerIdTag : Type := .
Variant WorkerIdTag : Type := .
Variant WorkerBootIdTag : Type := .
Variant AttemptIdTag : Type := .
Variant DispatchIdTag : Type := .
Variant ReservationIdTag : Type := .
Variant ObservationIdTag : Type := .
Variant CoordinatorEpochTag : Type := .
Variant CheckpointGenerationTag : Type := .
Variant CheckpointFamilyGenerationTag : Type := .
Variant ManifestGenerationTag : Type := .
Variant ChunkGenerationTag : Type := .
Variant BlobGenerationTag : Type := .
Variant ReplicaGenerationTag : Type := .
Variant PlacementGenerationTag : Type := .
Variant BackendGenerationTag : Type := .
Variant VolumeGenerationTag : Type := .
Variant RestoreGenerationTag : Type := .
Variant GcGenerationTag : Type := .
Variant RetentionGenerationTag : Type := .
Variant AttemptGenerationTag : Type := .
Variant DispatchGenerationTag : Type := .
Variant ObservationGenerationTag : Type := .
Variant PolicyGenerationTag : Type := .

Abbreviation CheckpointId := (BasicId CheckpointIdTag).
Abbreviation CheckpointVersionId := (BasicId CheckpointVersionIdTag).
Abbreviation CheckpointFamilyId := (BasicId CheckpointFamilyIdTag).
Abbreviation ManifestId := (BasicId ManifestIdTag).
Abbreviation ChunkId := (BasicId ChunkIdTag).
Abbreviation BlobId := (BasicId BlobIdTag).
Abbreviation ReplicaId := (BasicId ReplicaIdTag).
Abbreviation PlacementId := (BasicId PlacementIdTag).
Abbreviation StorageTierId := (BasicId StorageTierIdTag).
Abbreviation StorageBackendId := (BasicId StorageBackendIdTag).
Abbreviation StorageNodeId := (BasicId StorageNodeIdTag).
Abbreviation VolumeId := (BasicId VolumeIdTag).
Abbreviation RestoreId := (BasicId RestoreIdTag).
Abbreviation RestorePlanId := (BasicId RestorePlanIdTag).
Abbreviation GcEpochId := (BasicId GcEpochIdTag).
Abbreviation RetentionPolicyId := (BasicId RetentionPolicyIdTag).
Abbreviation OwnerId := (BasicId OwnerIdTag).
Abbreviation WorkerId := (BasicId WorkerIdTag).
Abbreviation WorkerBootId := (BasicId WorkerBootIdTag).
Abbreviation AttemptId := (BasicId AttemptIdTag).
Abbreviation DispatchId := (BasicId DispatchIdTag).
Abbreviation ReservationId := (BasicId ReservationIdTag).
Abbreviation ObservationId := (BasicId ObservationIdTag).
Abbreviation CoordinatorEpoch := (BasicGeneration CoordinatorEpochTag).
Abbreviation CheckpointGeneration := (BasicGeneration CheckpointGenerationTag).
Abbreviation CheckpointFamilyGeneration := (BasicGeneration CheckpointFamilyGenerationTag).
Abbreviation ManifestGeneration := (BasicGeneration ManifestGenerationTag).
Abbreviation ChunkGeneration := (BasicGeneration ChunkGenerationTag).
Abbreviation BlobGeneration := (BasicGeneration BlobGenerationTag).
Abbreviation ReplicaGeneration := (BasicGeneration ReplicaGenerationTag).
Abbreviation PlacementGeneration := (BasicGeneration PlacementGenerationTag).
Abbreviation BackendGeneration := (BasicGeneration BackendGenerationTag).
Abbreviation VolumeGeneration := (BasicGeneration VolumeGenerationTag).
Abbreviation RestoreGeneration := (BasicGeneration RestoreGenerationTag).
Abbreviation GcGeneration := (BasicGeneration GcGenerationTag).
Abbreviation RetentionGeneration := (BasicGeneration RetentionGenerationTag).
Abbreviation AttemptGeneration := (BasicGeneration AttemptGenerationTag).
Abbreviation DispatchGeneration := (BasicGeneration DispatchGenerationTag).
Abbreviation ObservationGeneration := (BasicGeneration ObservationGenerationTag).
Abbreviation PolicyGeneration := (BasicGeneration PolicyGenerationTag).
Abbreviation ScopedAuthority G := (AuthorityTag G WorkerBootIdTag).

(** ** Hexadecimal text *)
Definition kHex : string := "0123456789abcdef".
(** [kHex[n]] for [0 <= n < 16] *)
Definition hex_digit (n : Z) : Ascii.ascii :=
  default "0"%char (String.get (Z.to_nat n) kHex).

(** [to_hex_string(std::uint64_t)] *)
Definition to_hex_string (value : Z) : string :=
  String.string_of_list_ascii
    (map (λ i, hex_digit (Z.land (Z.shiftr value ((15 - i) * 4)) 0xF)) (seqZ 0 16)).

(** [hex_string(ByteView)] *)
Fixpoint hex_string (bytes : list byte) : string :=
  match bytes with
  | [] => ""
  | b :: bytes' =>
      let v := byte_val b in
      String (hex_digit (Z.shiftr v 4)) (String (hex_digit (Z.land v 0x0F)) (hex_string bytes'))
  end.

(** The [nibble] lambda of [parse_hex]. *)
Definition char_code (c : Ascii.ascii) : Z := Z.of_nat (Ascii.nat_of_ascii c).
Definition nibble (c : Ascii.ascii) : Z :=
  let v := char_code c in
  if (char_code "0" <=? v) && (v <=? char_code "9") then v - char_code "0"
  else if (char_code "a" <=? v) && (v <=? char_code "f") then v - char_code "a" + 10
  else if (char_code "A" <=? v) && (v <=? char_code "F") then v - char_code "A" + 10
  else -1.

(** The loop of [parse_hex]: the flag returned and the bytes left in [out]. *)
Fixpoint parse_hex_loop (text : string) (out : list byte) : bool * list byte :=
  match text with
  | String c1 (String c2 text') =>
      let hi := nibble c1 in
      let lo := nibble c2 in
      if (hi <? 0) || (lo <? 0) then (false, out)
      else parse_hex_loop text' (out ++ [byte_of (Z.lor (Z.shiftl hi 4) lo)])
  | _ => (true, out)
  end.

Definition parse_hex (text : string) (out : list byte) : bool * list byte :=
  if negb (Nat.eqb (Nat.modulo (String.length text) 2) 0) then (false, out)
  else parse_hex_loop text [].

Definition bytes_equal (a b : list byte) : bool :=
  if negb (Nat.eqb (length a) (length b)) then false else bool_decide (a = b).

(** [make_bytes(std::string_view)] and the reverse reading of characters. *)
Definition make_bytes (text : string) : list byte := String.list_byte_of_string text.
Definition bytes_to_string (bytes : list byte) : string := String.string_of_list_byte bytes.

(** ** Properties *)

Lemma next_value {Tag} (g : BasicGeneration Tag) :
  is_u64 (gen_value g) → gen_value g ≠ 2 ^ 64 - 1 → gen_value (next g) = gen_value g + 1.
Proof. unfold is_u64. intros ??. simpl. unfold incr64. apply u64_id. unfold is_u64. lia. Qed.

Lemma precedes_next {Tag} (g : BasicGeneration Tag) :
  is_u64 (gen_value g) → precedes g (next g) = bool_decide (gen_value g ≠ 2 ^ 64 - 1).
Proof.
  intros Hg. unfold precedes. case_bool_decide as Hmax.
  - rewrite next_value by done. lia.
  - simpl. unfold incr64. replace (gen_value g) with (2 ^ 64 - 1) by lia. reflexivity.
Qed.

Lemma nibble_hex_digit n : 0 ≤ n < 16 → nibble (hex_digit n) = n.
Proof.
  apply (Z_forall_below (λ n, nibble (hex_digit n) = n)). vm_compute. reflexivity.
Qed.

Lemma byte_nibbles b :
  byte_of (Z.lor (Z.shiftl (Z.shiftr (byte_val b) 4) 4) (Z.land (byte_val b) 0x0F)) = b.
Proof.
  transitivity (byte_of (byte_val b)); [|apply byte_of_val]. f_equal.
  generalize (byte_val_range b). generalize (byte_val b).
  apply (Z_forall_below (λ v, Z.lor (Z.shiftl (Z.shiftr v 4) 4) (Z.land v 0x0F) = v)).
  vm_compute. reflexivity.
Qed.

Lemma byte_high_range b : 0 ≤ Z.shiftr (byte_val b) 4 < 16.
Proof.
  generalize (byte_val_range b). generalize (byte_val b).
  apply (Z_forall_below (λ v, 0 ≤ Z.shiftr v 4 < 16)). vm_compute. reflexivity.
Qed.
Lemma byte_low_range b : 0 ≤ Z.land (byte_val b) 0x0F < 16.
Proof.
  generalize (byte_val_range b). generalize (byte_val b).
  apply (Z_forall_below (λ v, 0 ≤ Z.land v 0x0F < 16)). vm_compute. reflexivity.
Qed.

Lemma length_hex_string bytes : String.length (hex_string bytes) = (2 * length bytes)%nat.
Proof. induction bytes as [|b bytes IH]; simpl; [done|]. rewrite IH. lia. Qed.

Lemma parse_hex_loop_hex_string bytes out :
  parse_hex_loop (hex_string bytes) out = (true, out ++ bytes).
Proof.
  revert out. induction bytes as [|b bytes IH]; intros out; cbn [hex_string parse_hex_loop].
  - by rewrite app_nil_r.
  - rewrite !nibble_hex_digit by (apply byte_high_range || apply byte_low_range).
    destruct (byte_high_range b), (byte_low_range b).
    rewrite (proj2 (Z.ltb_ge _ 0)), (proj2 (Z.ltb_ge _ 0)) by lia. simpl orb. cbv iota.
    by rewrite byte_nibbles, IH, <- app_assoc.
Qed.

(** Claim candidate: hexadecimal text round trip. *)
Lemma parse_hex_of_hex_string bytes out : parse_hex (hex_string bytes) out = (true, bytes).
Proof.
  unfold parse_hex. rewrite length_hex_string, Nat.mul_comm, Nat.Div0.mod_mul.
  apply parse_hex_loop_hex_string.
Qed.

Lemma hex_string_inj b1 b2 : hex_string b1 = hex_string b2 → b1 = b2.
Proof.
  intros H. pose proof (parse_hex_of_hex_string b1 []) as H1.
  rewrite H, parse_hex_of_hex_string in H1. by simplify_eq.
Qed.

(** Reading the digits of [to_hex_string] back. *)
Definition hex_value (s : string) : Z :=
  fold_left (λ acc c, acc * 16 + nibble c) (String.list_ascii_of_string s) 0.

Lemma to_hex_digit value k : 0 ≤ k →
  Z.land (Z.shiftr value (k * 4)) 0xF = (value / 16 ^ k) mod 16.
Proof.
  intros Hk. change 0xF with (Z.ones 4). rewrite Z.land_ones, Z.shiftr_div_pow2 by lia.
  rewrite Z.mul_comm, Z.pow_mul_r by lia. done.
Qed.

Lemma hex_digits_fold value (n : nat) acc : (n ≤ 16)%nat →
  fold_left (λ acc c, acc * 16 + nibble c)
    (map (λ i, hex_digit (Z.land (Z.shiftr value ((15 - i) * 4)) 0xF)) (seqZ (16 - Z.of_nat n) (Z.of_nat n)))
    acc = acc * 16 ^ Z.of_nat n + value mod 16 ^ Z.of_nat n.
Proof.
  revert acc. induction n as [|n IH]; intros acc Hn.
  - simpl. rewrite Z.mod_1_r. lia.
  - rewrite seqZ_cons by lia. cbn [map fold_left].
    replace (Z.succ (16 - Z.of_nat (S n))) with (16 - Z.of_nat n) by lia.
    replace (Z.pred (Z.of_nat (S n))) with (Z.of_nat n) by lia.
    rewrite IH by lia. replace (15 - (16 - Z.of_nat (S n))) with (Z.of_nat n) by lia.
    rewrite to_hex_digit, nibble_hex_digit by (try apply Z.mod_pos_bound; lia).
    replace (Z.of_nat (S n)) with (Z.of_nat n + 1) by lia.
    rewrite (mod_pow_succ 16) by lia. rewrite Z.pow_add_r by lia. lia.
Qed.

Lemma hex_value_to_hex_string value : hex_value (to_hex_string value) = value mod 2 ^ 64.
Proof.
  unfold hex_value, to_hex_string. rewrite String.list_ascii_of_string_of_list_ascii.
  apply (hex_digits_fold value 16 0). lia.
Qed.

(** ** Claims *)

(** Authority is scoped to an incarnation: two authority tags agree exactly
    when both the boot identity and the generation agree, so a tag from another
    boot is never the current one, whatever generation it carries. *)
Theorem authority_incarnation_scoped {G B} (a b : AuthorityTag G B) :
  bool_decide (a = b) =
    bool_decide (auth_boot a = auth_boot b) && equal_to (auth_generation a) (auth_generation b).
Proof.
  destruct a as [b1 [g1]], b as [b2 [g2]]. unfold equal_to. simpl.
  destruct (decide (b1 = b2)) as [->|Hb]; cycle 1.
  { rewrite (bool_decide_eq_false_2 (b1 = b2)) by done. apply bool_decide_eq_false_2. congruence. }
  rewrite (bool_decide_eq_true_2 (b2 = b2)) by done. simpl.
  destruct (Z.eqb_spec g1 g2) as [->|]; [by apply bool_decide_eq_true_2|].
  apply bool_decide_eq_false_2. congruence.
Qed.

(** Hexadecimal text is lossless: [parse_hex] accepts what [hex_string]
    prints and returns the same bytes, and the sixteen digits of
    [to_hex_string] determine the 64-bit value. *)
Theorem hex_text_round_trip bytes out v :
  parse_hex (hex_string bytes) out = (true, bytes) ∧
  hex_value (to_hex_string v) = v mod 2 ^ 64.
Proof. split; [apply parse_hex_of_hex_string|apply hex_value_to_hex_string]. Qed.
