(* ===== verification/Hash.v ===== *)
(** * Hash: SHA-256, CRC-32 and digest text

    [include/checkpointstore/crypto/hash.hpp] and the [crypto] namespace of
    [src/hash.cpp].  The streaming hasher is translated with its buffer; the
    theorems relate it to the block-by-block definition of the hash of a whole
    message.  32-bit words are integers reduced modulo 2^32. *)
From S2P Require Import Prelude Base.

(** ** 32-bit operations *)
Definition add32 (x y : Z) : Z := u32 (x + y).
Definition not32 (x : Z) : Z := Z.lxor x 0xFFFFFFFF.
Definition rotr (x n : Z) : Z := Z.lor (Z.shiftr x n) (u32 (Z.shiftl x (32 - n))).

(** The four 32-bit words of a row of the constant table, most significant
    first. *)
Definition quad_words (row : Z) : list Z :=
  (λ k, u32 (Z.shiftr row k)) <$> [96; 64; 32; 0].

Definition kRoundConstants : list Z :=
  Eval vm_compute in flat_map quad_words
  [0x428a2f98_71374491_b5c0fbcf_e9b5dba5; 0x3956c25b_59f111f1_923f82a4_ab1c5ed5;
   0xd807aa98_12835b01_243185be_550c7dc3; 0x72be5d74_80deb1fe_9bdc06a7_c19bf174;
   0xe49b69c1_efbe4786_0fc19dc6_240ca1cc; 0x2de92c6f_4a7484aa_5cb0a9dc_76f988da;
   0x983e5152_a831c66d_b00327c8_bf597fc7; 0xc6e00bf3_d5a79147_06ca6351_14292967;
   0x27b70a85_2e1b2138_4d2c6dfc_53380d13; 0x650a7354_766a0abb_81c2c92e_92722c85;
   0xa2bfe8a1_a81a664b_c24b8b70_c76c51a3; 0xd192e819_d6990624_f40e3585_106aa070;
   0x19a4c116_1e376c08_2748774c_34b0bcb5; 0x391c0cb3_4ed8aa4a_5b9cca4f_682e6ff3;
   0x748f82ee_78a5636f_84c87814_8cc70208; 0x90befffa_a4506ceb_bef9a3f7_c67178f2].

(** The eight-word chaining state. *)
Definition initial_state : list Z :=
  [0x6a09e667; 0xbb67ae85; 0x3c6ef372; 0xa54ff53a; 0x510e527f; 0x9b05688c; 0x1f83d9ab; 0x5be0cd19].

Definition word_at (m : list Z) (i : nat) : Z := nth i m 0.
Definition byte_at (block : list byte) (i : nat) : Z := byte_val (nth i block x00).

(** [m[i]] for [i < 16]: big-endian words of the block. *)
Definition load_word (block : list byte) (i : nat) : Z :=
  let j := (i * 4)%nat in
  Z.lor (Z.lor (Z.lor (Z.shiftl (byte_at block j) 24) (Z.shiftl (byte_at block (j + 1)) 16))
               (Z.shiftl (byte_at block (j + 2)) 8)) (byte_at block (j + 3)).

(** [m[i]] for [16 <= i]: [m] holds the words before it. *)
Definition schedule_word (m : list Z) (i : nat) : Z :=
  let w15 := word_at m (i - 15) in
  let w2 := word_at m (i - 2) in
  let s0 := Z.lxor (Z.lxor (rotr w15 7) (rotr w15 18)) (Z.shiftr w15 3) in
  let s1 := Z.lxor (Z.lxor (rotr w2 17) (rotr w2 19)) (Z.shiftr w2 10) in
  add32 (add32 (add32 (word_at m (i - 16)) s0) (word_at m (i - 7))) s1.

Definition schedule (block : list byte) : list Z :=
  fold_left (λ m i, m ++ [schedule_word m i]) (seq 16 48) (map (load_word block) (seq 0 16)).

(** One iteration of the compression loop on [(a, b, c, d, e, f, g, h)]. *)
Definition compress_round (m : list Z) (s : Z * Z * Z * Z * Z * Z * Z * Z) (i : nat) :
    Z * Z * Z * Z * Z * Z * Z * Z :=
  let '(a, b, c, d, e, f, g, h) := s in
  let s1 := Z.lxor (Z.lxor (rotr e 6) (rotr e 11)) (rotr e 25) in
  let ch := Z.lxor (Z.land e f) (Z.land (not32 e) g) in
  let temp1 := add32 (add32 (add32 (add32 h s1) ch) (nth i kRoundConstants 0)) (word_at m i) in
  let s0 := Z.lxor (Z.lxor (rotr a 2) (rotr a 13)) (rotr a 22) in
  let maj := Z.lxor (Z.lxor (Z.land a b) (Z.land a c)) (Z.land b c) in
  let temp2 := add32 s0 maj in
  (add32 temp1 temp2, a, b, c, add32 d temp1, e, f, g).

(** [Sha256Hasher::transform], on the state alone. *)
Definition transform (state : list Z) (block : list byte) : list Z :=
  let m := schedule block in
  let st i := word_at state i in
  let '(a, b, c, d, e, f, g, h) :=
    fold_left (compress_round m) (seq 0 64)
      (st 0%nat, st 1%nat, st 2%nat, st 3%nat, st 4%nat, st 5%nat, st 6%nat, st 7%nat) in
  zip_with add32 state [a; b; c; d; e; f; g; h].

#[global] Arguments transform : simpl never.

(** ** The streaming hasher *)
Record Sha256Hasher := mkHasher {
  state_ : list Z;
  buffer_ : list byte;
  total_len_ : Z;
  buffered_ : nat
}.
#[export] Instance eta_Sha256Hasher : Eta Sha256Hasher :=
  λ h, mkHasher (state_ h) (buffer_ h) (total_len_ h) (buffered_ h).

Definition new_hasher : Sha256Hasher := mkHasher initial_state (replicate 64 x00) 0 0.

(** [std::memcpy(buf + off, p, len)] with [bytes] the [len] bytes at [p]. *)
Definition memcpy (buf : list byte) (off : nat) (bytes : list byte) : list byte :=
  take off buf ++ bytes ++ drop (off + length bytes) buf.

#[global] Arguments memcpy : simpl never.

(** [while (len >= 64) { transform(p); p += 64; len -= 64; }]: the state and
    what is left of the input.  [fuel] bounds the number of iterations. *)
Fixpoint consume_blocks (fuel : nat) (state : list Z) (p : list byte) : list Z * list byte :=
  match fuel with
  | O => (state, p)
  | S fuel =>
      if (64 <=? length p)%nat then consume_blocks fuel (transform state (take 64 p)) (drop 64 p)
      else (state, p)
  end.

(** The first [if] of [update]: top up a partial block. *)
Definition top_up (h : Sha256Hasher) (p : list byte) : Sha256Hasher * list byte :=
  if (0 <? buffered_ h)%nat then
    let n := Nat.min (64 - buffered_ h) (length p) in
    let h := h <| buffer_ := memcpy (buffer_ h) (buffered_ h) (take n p) |>
               <| buffered_ := (buffered_ h + n)%nat |> in
    let p := drop n p in
    if (buffered_ h =? 64)%nat
    then (h <| state_ := transform (state_ h) (buffer_ h) |> <| buffered_ := 0%nat |>, p)
    else (h, p)
  else (h, p).

Definition update_hasher (h : Sha256Hasher) (data : list byte) : Sha256Hasher :=
  let h := h <| total_len_ ::= λ n, u64 (n + zlen data) |> in
  let '(h, p) := top_up h data in
  let '(st, p) := consume_blocks (length p) (state_ h) p in
  let h := h <| state_ := st |> in
  if (0 <? length p)%nat
  then h <| buffer_ := memcpy (buffer_ h) 0 p |> <| buffered_ := length p |>
  else h.

(** [while (buffered_ != 56) update(zero)] *)
Fixpoint pad_zeros (fuel : nat) (h : Sha256Hasher) : Sha256Hasher :=
  match fuel with
  | O => h
  | S fuel => if (buffered_ h =? 56)%nat then h else pad_zeros fuel (update_hasher h [x00])
  end.

(** Big-endian bytes of a [std::uint64_t] and of the digest words. *)
Definition be_bytes (width : nat) (v : Z) : list byte :=
  map (λ i, byte_of (Z.shiftr v (8 * Z.of_nat (width - 1 - i)))) (seq 0 width).

Definition Sha256Digest := list byte.

(** [Sha256Hasher::final] *)
Definition final_hasher (h : Sha256Hasher) : Sha256Digest :=
  let bit_len := u64 (total_len_ h * 8) in
  let h := update_hasher h [x80] in
  let h := pad_zeros 64 h in
  let h := update_hasher h (be_bytes 8 bit_len) in
  state_ h ≫= be_bytes 4.

(** [Sha256Hasher::compute], the one-shot [sha256]. *)
Definition sha256 (data : list byte) : Sha256Digest := final_hasher (update_hasher new_hasher data).

Definition digest_equal (a b : Sha256Digest) : bool := bool_decide (a = b).

#[global] Arguments update_hasher : simpl never.
#[global] Arguments final_hasher : simpl never.
#[global] Arguments sha256 : simpl never.

(** ** CRC-32 *)
Definition crc_shift (crc : Z) : Z :=
  Z.lxor (Z.shiftr crc 1) (Z.land 0xEDB88320 (u32 (0 - Z.land crc 1))).
Definition crc_byte (crc : Z) (b : byte) : Z := Nat.iter 8 crc_shift (Z.lxor crc (byte_val b)).
Definition crc32 (data : list byte) (seed : Z) : Z :=
  Z.lxor (fold_left crc_byte data (Z.lxor seed 0xFFFFFFFF)) 0xFFFFFFFF.

(** [crypto::hex]: 64 characters, two per byte. *)
Definition hex (digest : Sha256Digest) : string := hex_string digest.

(** ** The reference definition of SHA-256

    The message is padded with one bit, zeros and its length in bits, and the
    64-byte blocks of the result are compressed in order. *)
Fixpoint hash_blocks (n : nat) (state : list Z) (p : list byte) : list Z :=
  match n with
  | O => state
  | S n => hash_blocks n (transform state (take 64 p)) (drop 64 p)
  end.

Definition zero_count (len : nat) : nat := Z.to_nat ((55 - Z.of_nat len) mod 64).
Definition sha_pad (msg : list byte) : list byte :=
  msg ++ [x80] ++ replicate (zero_count (length msg)) x00 ++ be_bytes 8 (u64 (8 * zlen msg)).
Definition sha256_spec (msg : list byte) : Sha256Digest :=
  hash_blocks (length (sha_pad msg) / 64) initial_state (sha_pad msg) ≫= be_bytes 4.

Lemma length_be_bytes w v : length (be_bytes w v) = w.
Proof. unfold be_bytes. by rewrite length_map, length_seq. Qed.

Lemma length_transform state block : length state = 8%nat → length (transform state block) = 8%nat.
Proof.
  intros H. unfold transform. case_match. repeat case_match. rewrite length_zip_with, H. done.
Qed.
Lemma length_hash_blocks n state p : length state = 8%nat → length (hash_blocks n state p) = 8%nat.
Proof. revert state p. induction n; simpl; auto using length_transform. Qed.

Lemma hash_blocks_app k j state a b : length a = (64 * k)%nat →
  hash_blocks (k + j) state (a ++ b) = hash_blocks j (hash_blocks k state a) b.
Proof.
  revert state a. induction k as [|k IH]; intros state a Ha; cbn [hash_blocks Nat.add].
  - destruct a; simpl in *; [done|lia].
  - rewrite take_app_le, drop_app_le by lia. apply IH. rewrite length_drop. lia.
Qed.

Lemma consume_blocks_spec fuel state p : (length p ≤ fuel)%nat → ∃ j d r,
  p = d ++ r ∧ length d = (64 * j)%nat ∧ (length r < 64)%nat ∧
  consume_blocks fuel state p = (hash_blocks j state d, r).
Proof.
  revert state p. induction fuel as [|fuel IH]; intros state p Hp; cbn [consume_blocks].
  - destruct p; simpl in Hp; [|lia]. exists 0%nat, [], []. simpl. repeat split; lia.
  - destruct (64 <=? length p)%nat eqn:E.
    + apply Nat.leb_le in E.
      destruct (IH (transform state (take 64 p)) (drop 64 p)) as (j & d & r & Hd & Hl & Hr & ->).
      { rewrite length_drop. lia. }
      exists (S j), (take 64 p ++ d), r. repeat split; [| |done|].
      * by rewrite <- app_assoc, <- Hd, take_drop.
      * rewrite length_app, length_take. lia.
      * cbn [hash_blocks]. by rewrite take_app_length', drop_app_length' by (rewrite length_take; lia).
    + apply Nat.leb_gt in E. exists 0%nat, [], p. simpl. repeat split; lia.
Qed.

(** ** What a hasher has absorbed

    [buffering h msg]: the whole blocks of [msg] are in the chaining state and
    the remaining bytes at the front of the buffer.  [absorbed] adds the length
    counter. *)
Definition buffering (h : Sha256Hasher) (msg : list byte) : Prop :=
  length (buffer_ h) = 64%nat ∧
  ∃ k d r, msg = d ++ r ∧ length d = (64 * k)%nat ∧ (length r < 64)%nat ∧
    state_ h = hash_blocks k initial_state d ∧
    buffered_ h = length r ∧ take (length r) (buffer_ h) = r.
Definition absorbed (h : Sha256Hasher) (msg : list byte) : Prop :=
  buffering h msg ∧ total_len_ h = u64 (zlen msg).

Lemma buffering_intro k d r h : length (buffer_ h) = 64%nat →
  length d = (64 * k)%nat → (length r < 64)%nat → state_ h = hash_blocks k initial_state d →
  buffered_ h = length r → take (length r) (buffer_ h) = r → buffering h (d ++ r).
Proof. intros. split; [done|]. by exists k, d, r. Qed.

Lemma absorbed_new : absorbed new_hasher [].
Proof.
  split; [|reflexivity]. apply (buffering_intro 0 [] []); try reflexivity. simpl. lia.
Qed.

Lemma absorbed_buffered h msg : absorbed h msg → buffered_ h = (length msg mod 64)%nat.
Proof.
  intros ((_ & k & d & r & -> & Hd & Hr & _ & -> & _) & _). rewrite length_app, Hd.
  rewrite Nat.mul_comm, Nat.add_comm, Nat.Div0.mod_add, Nat.mod_small; lia.
Qed.

Lemma length_memcpy buf off bytes : (off + length bytes ≤ length buf)%nat →
  length (memcpy buf off bytes) = length buf.
Proof. intros H. unfold memcpy. rewrite !length_app, length_take, length_drop. lia. Qed.
Lemma take_memcpy buf off bytes : (off ≤ length buf)%nat →
  take (off + length bytes) (memcpy buf off bytes) = take off buf ++ bytes.
Proof.
  intros H. unfold memcpy. rewrite app_assoc. apply take_app_length'.
  rewrite length_app, length_take. lia.
Qed.

(** The tail of [update], once the partial block is full or the input spent. *)
Definition absorb_blocks (h : Sha256Hasher) (p : list byte) : Sha256Hasher :=
  let '(st, p) := consume_blocks (length p) (state_ h) p in
  let h := h <| state_ := st |> in
  if (0 <? length p)%nat
  then h <| buffer_ := memcpy (buffer_ h) 0 p |> <| buffered_ := length p |>
  else h.

Lemma update_hasher_eq h data :
  update_hasher h data =
    let '(h', p) := top_up (h <| total_len_ ::= λ n, u64 (n + zlen data) |>) data in
    absorb_blocks h' p.
Proof. reflexivity. Qed.

Lemma absorb_blocks_buffering h msg p :
  buffering h msg → p = [] ∨ buffered_ h = 0%nat → buffering (absorb_blocks h p) (msg ++ p).
Proof.
  intros (Hb & k & d & r & -> & Hd & Hr & Hs & Hn & Htk) Hp.
  destruct Hp as [-> | H0].
  { rewrite app_nil_r. by apply (buffering_intro k). }
  assert (r = []) as -> by (destruct r; simpl in Hn; [done|lia]). rewrite app_nil_r.
  unfold absorb_blocks.
  destruct (consume_blocks_spec (length p) (state_ h) p) as (j & d' & r & -> & Hd' & Hr' & ->); [done|].
  rewrite app_assoc.
  assert (length (d ++ d') = (64 * (k + j))%nat) by (rewrite length_app; lia).
  assert (hash_blocks j (state_ h) d' = hash_blocks (k + j) initial_state (d ++ d')) as Hst.
  { by rewrite hash_blocks_app, Hs by done. }
  destruct (0 <? length r)%nat eqn:E.
  - apply (buffering_intro (k + j)); cbn [update state_ buffer_ buffered_]; try done.
    + rewrite length_memcpy; simpl; lia.
    + apply (take_memcpy (buffer_ h) 0 r). lia.
  - apply Nat.ltb_ge in E. assert (r = []) as -> by (destruct r; simpl in E; [done|lia]).
    by apply (buffering_intro (k + j)).
Qed.

Lemma absorb_blocks_total h p : total_len_ (absorb_blocks h p) = total_len_ h.
Proof. unfold absorb_blocks. case_match. by destruct (0 <? _)%nat. Qed.

Lemma top_up_buffering h msg p : buffering h msg →
  ∃ q, p = q ++ (top_up h p).2 ∧ buffering (top_up h p).1 (msg ++ q) ∧
    ((top_up h p).2 = [] ∨ buffered_ (top_up h p).1 = 0%nat) ∧
    total_len_ (top_up h p).1 = total_len_ h.
Proof.
  intros (Hb & k & d & r & -> & Hd & Hr & Hs & Hn & Htk). unfold top_up.
  destruct (0 <? buffered_ h)%nat eqn:E0; cycle 1.
  { apply Nat.ltb_ge in E0. exists []. cbn [fst snd]. rewrite app_nil_r.
    split; [done|]. split; [split; [done|by exists k, d, r]|]. split; [right; lia|done]. }
  apply Nat.ltb_lt in E0. cbn [update state_ buffer_ total_len_ buffered_].
  set (n := Nat.min (64 - buffered_ h) (length p)).
  assert (length (take n p) = n) as Hln by (rewrite length_take; lia).
  exists (take n p).
  destruct (buffered_ h + n =? 64)%nat eqn:E64; cbn [fst snd total_len_ buffered_].
  - apply Nat.eqb_eq in E64. rewrite take_drop. split; [done|]. split; [|auto].
    assert (memcpy (buffer_ h) (buffered_ h) (take n p) = r ++ take n p) as ->.
    { rewrite <- (take_ge (memcpy _ _ _) (buffered_ h + length (take n p)))
        by (rewrite length_memcpy; lia).
      rewrite take_memcpy by lia. by rewrite Hn, Htk. }
    rewrite <- app_assoc, <- (app_nil_r (d ++ _)).
    apply (buffering_intro (k + 1)); cbn [state_ buffer_ buffered_]; try done;
      [rewrite length_app; lia | rewrite !length_app; lia | simpl; lia | ].
    rewrite hash_blocks_app by done. cbn [hash_blocks].
    rewrite (take_ge (r ++ _)) by (rewrite length_app; lia). by rewrite Hs.
  - apply Nat.eqb_neq in E64. assert (n = length p) as Hnp by lia.
    rewrite Hnp, firstn_all, drop_all, app_nil_r. split; [done|]. split; [|auto].
    rewrite <- app_assoc.
    apply (buffering_intro k); cbn [state_ buffer_ buffered_]; try done; rewrite ?length_app.
    + rewrite length_memcpy by lia. done.
    + lia.
    + lia.
    + rewrite <- Hn, take_memcpy by lia. by rewrite Hn, Htk.
Qed.

Lemma update_absorbed h msg data : absorbed h msg → absorbed (update_hasher h data) (msg ++ data).
Proof.
  intros [Hb Ht]. rewrite update_hasher_eq.
  destruct (top_up_buffering (h <| total_len_ ::= λ n, u64 (n + zlen data) |>) msg data)
    as (q & Hq & Hh & Hor & Htot); [exact Hb|].
  destruct (top_up _ data) as [h' p]. cbn [fst snd] in *. subst data.
  split.
  - rewrite app_assoc. by apply absorb_blocks_buffering.
  - rewrite absorb_blocks_total, Htot. cbn [update total_len_]. rewrite Ht.
    unfold u64. by rewrite Zplus_mod_idemp_l, <- zlen_app.
Qed.

(** ** The padding loop terminates and [final] computes the hash *)
Lemma pad_zeros_absorbed fuel h msg : absorbed h msg →
  ∃ k, absorbed (pad_zeros fuel h) (msg ++ replicate k x00) ∧
    (k = Z.to_nat ((56 - Z.of_nat (length msg)) mod 64) ∨ k = fuel) ∧
    (k ≤ Z.to_nat ((56 - Z.of_nat (length msg)) mod 64))%nat.
Proof.
  revert h msg. induction fuel as [|fuel IH]; intros h msg Hh; cbn [pad_zeros].
  { exists 0%nat. rewrite app_nil_r. split; [done|lia]. }
  rewrite (absorbed_buffered h msg Hh).
  destruct (length msg mod 64 =? 56)%nat eqn:E.
  - apply Nat.eqb_eq in E. exists 0%nat. rewrite app_nil_r.
    assert ((56 - Z.of_nat (length msg)) mod 64 = 0) as -> by lia. split; [done|lia].
  - apply Nat.eqb_neq in E.
    destruct (IH _ _ (update_absorbed h msg [x00] Hh)) as (k & Hk & Hor & Hle).
    exists (S k). rewrite <- app_assoc in Hk. split; [exact Hk|].
    rewrite length_app in Hor, Hle. cbn [length] in Hor, Hle. lia.
Qed.

Lemma pad_zeros_64 h msg : absorbed h msg →
  absorbed (pad_zeros 64 h)
    (msg ++ replicate (Z.to_nat ((56 - Z.of_nat (length msg)) mod 64)) x00).
Proof.
  intros Hh. destruct (pad_zeros_absorbed 64 h msg Hh) as (k & Hk & Hor & Hle).
  assert (k = Z.to_nat ((56 - Z.of_nat (length msg)) mod 64)) as -> by lia. done.
Qed.

Lemma sha_pad_blocks msg : (length (sha_pad msg) mod 64 = 0)%nat.
Proof.
  unfold sha_pad, zero_count. rewrite !length_app, length_replicate, length_be_bytes.
  cbn [length]. lia.
Qed.

Lemma absorbed_whole h msg : absorbed h msg → (length msg mod 64 = 0)%nat →
  state_ h = hash_blocks (length msg / 64) initial_state msg.
Proof.
  intros ((_ & k & d & r & -> & Hd & Hr & -> & _ & _) & _) Hm.
  rewrite length_app, Hd in *. assert (length r = 0)%nat as Hr0 by lia.
  destruct r; [|done]. rewrite app_nil_r. do 2 f_equal. cbn [length]. lia.
Qed.

Lemma final_spec h msg : absorbed h msg → final_hasher h = sha256_spec msg.
Proof.
  intros Hh. unfold final_hasher, sha256_spec.
  assert (u64 (total_len_ h * 8) = u64 (8 * zlen msg)) as ->.
  { destruct Hh as [_ ->]. unfold u64. rewrite Zmult_mod_idemp_l. f_equal. lia. }
  pose proof (update_absorbed _ _ [x80] Hh) as H1. apply pad_zeros_64 in H1.
  apply (update_absorbed _ _ (be_bytes 8 (u64 (8 * zlen msg)))) in H1.
  assert (Z.to_nat ((56 - Z.of_nat (length (msg ++ [x80]))) mod 64) = zero_count (length msg)) as Hz.
  { unfold zero_count. rewrite length_app. cbn [length]. f_equal. f_equal. lia. }
  rewrite Hz, <- !app_assoc in H1. f_equal. apply absorbed_whole; [exact H1|apply sha_pad_blocks].
Qed.

Lemma updates_absorbed chunks h msg : absorbed h msg →
  absorbed (fold_left update_hasher chunks h) (msg ++ concat chunks).
Proof.
  revert h msg. induction chunks as [|c chunks IH]; intros h msg Hh; simpl.
  - by rewrite app_nil_r.
  - rewrite app_assoc. by apply IH, update_absorbed.
Qed.

Lemma sha256_is_spec data : sha256 data = sha256_spec data.
Proof. apply final_spec, (update_absorbed _ [] data), absorbed_new. Qed.

(** Feeding a message in pieces gives the hash of the whole message. *)
Lemma streaming_sha256 chunks :
  final_hasher (fold_left update_hasher chunks new_hasher) = sha256 (concat chunks).
Proof.
  rewrite sha256_is_spec. apply final_spec, (updates_absorbed _ _ []), absorbed_new.
Qed.

Lemma length_sha256 data : length (sha256 data) = 32%nat.
Proof.
  rewrite sha256_is_spec. unfold sha256_spec.
  assert (∀ l : list Z, length (l ≫= be_bytes 4) = (4 * length l)%nat) as ->.
  { induction l as [|x l IH]; [done|].
    rewrite bind_cons, length_app, length_be_bytes, IH. cbn [length]. lia. }
  by rewrite length_hash_blocks.
Qed.

Lemma hex_inj d1 d2 : hex d1 = hex d2 → d1 = d2.
Proof. apply hex_string_inj. Qed.

Lemma length_hex d : length d = 32%nat → String.length (hex d) = 64%nat.
Proof. intros H. unfold hex. by rewrite length_hex_string, H. Qed.

(** ** CRC-32: chaining and detection of a corrupted byte *)

Lemma u32_land z : u32 z = Z.land z 0xFFFFFFFF.
Proof. change 0xFFFFFFFF with (Z.ones 32). rewrite Z.land_ones by lia. done. Qed.

Lemma u32_lxor x y : is_u32 x → is_u32 y → is_u32 (Z.lxor x y).
Proof.
  intros Hx Hy. rewrite <- (u32_id x), <- (u32_id y) by done. rewrite !u32_land.
  assert (Z.lxor (Z.land x 0xFFFFFFFF) (Z.land y 0xFFFFFFFF) = u32 (Z.lxor x y)) as ->.
  { rewrite u32_land. apply Z.bits_inj'. intros n Hn.
    rewrite !Z.lxor_spec, !Z.land_spec, Z.lxor_spec.
    by destruct (Z.testbit x n), (Z.testbit y n), (Z.testbit 0xFFFFFFFF n). }
  apply u32_range.
Qed.

Lemma lxor_cancel_l x y z : Z.lxor x y = Z.lxor x z → y = z.
Proof.
  intros H. rewrite <- (Z.lxor_0_l y), <- (Z.lxor_0_l z), <- (Z.lxor_nilpotent x).
  by rewrite !Z.lxor_assoc, H.
Qed.

Lemma crc_shift_eq x : crc_shift x = Z.lxor (x / 2) (if Z.odd x then 0xEDB88320 else 0).
Proof.
  unfold crc_shift. rewrite Z.shiftr_div_pow2, Z.pow_1_r by lia.
  change (Z.land x 1) with (Z.land x (Z.ones 1)). rewrite Z.land_ones, Z.pow_1_r by lia.
  rewrite Zmod_odd. by destruct (Z.odd x).
Qed.

Lemma crc_shift_range x : is_u32 x → is_u32 (crc_shift x).
Proof.
  intros Hx. rewrite crc_shift_eq. apply u32_lxor.
  - unfold is_u32 in *. lia.
  - unfold is_u32. destruct (Z.odd x); lia.
Qed.

(** The top bit of the shifted state tells whether the polynomial was added. *)
Lemma crc_shift_top x : is_u32 x → Z.testbit (crc_shift x) 31 = Z.odd x.
Proof.
  intros Hx. rewrite crc_shift_eq, Z.lxor_spec.
  assert (Z.testbit (x / 2) 31 = false) as ->.
  { apply Z.bits_above_log2; [unfold is_u32 in *; lia|].
    destruct (decide (x / 2 = 0)) as [->|]; [done|].
    apply Z.log2_lt_pow2; unfold is_u32 in *; lia. }
  by destruct (Z.odd x).
Qed.

Lemma crc_shift_inj x y : is_u32 x → is_u32 y → crc_shift x = crc_shift y → x = y.
Proof.
  intros Hx Hy H. assert (Z.odd x = Z.odd y) as Ho.
  { by rewrite <- !crc_shift_top, H. }
  rewrite !crc_shift_eq, Ho, !(Z.lxor_comm (_ / 2)) in H. apply lxor_cancel_l in H.
  rewrite (Z.div_mod x 2), (Z.div_mod y 2), !Zmod_odd, H, Ho by lia. done.
Qed.

Lemma crc_iter_range n x : is_u32 x → is_u32 (Nat.iter n crc_shift x).
Proof. induction n; simpl; auto using crc_shift_range. Qed.
Lemma crc_iter_inj n x y : is_u32 x → is_u32 y →
  Nat.iter n crc_shift x = Nat.iter n crc_shift y → x = y.
Proof.
  intros Hx Hy. induction n as [|n IH]; simpl; [done|]. intros H.
  apply IH. apply crc_shift_inj in H; auto using crc_iter_range.
Qed.

Lemma is_u32_byte b : is_u32 (byte_val b).
Proof. pose proof (byte_val_range b). unfold is_u32. lia. Qed.

Lemma crc_byte_eq c b : crc_byte c b = Nat.iter 8 crc_shift (Z.lxor c (byte_val b)).
Proof. reflexivity. Qed.

#[global] Opaque crc_byte crc_shift.

Lemma crc_byte_range c b : is_u32 c → is_u32 (crc_byte c b).
Proof. intros. rewrite crc_byte_eq. apply crc_iter_range, u32_lxor; auto using is_u32_byte. Qed.
Lemma crc_byte_inj_state c c' b : is_u32 c → is_u32 c' → crc_byte c b = crc_byte c' b → c = c'.
Proof.
  intros Hc Hc' H. rewrite !crc_byte_eq in H. apply crc_iter_inj in H; [|by apply u32_lxor; auto using is_u32_byte..].
  rewrite !(Z.lxor_comm _ (byte_val b)) in H. by apply lxor_cancel_l in H.
Qed.
Lemma crc_byte_inj_byte c b b' : is_u32 c → crc_byte c b = crc_byte c b' → b = b'.
Proof.
  intros Hc H. rewrite !crc_byte_eq in H. apply crc_iter_inj in H; [|by apply u32_lxor; auto using is_u32_byte..].
  apply lxor_cancel_l in H. by apply byte_val_inj.
Qed.

Lemma fold_left_cons {A B} (f : A → B → A) x l a : fold_left f (x :: l) a = fold_left f l (f a x).
Proof. reflexivity. Qed.

Lemma crc_fold_range data c : is_u32 c → is_u32 (fold_left crc_byte data c).
Proof.
  revert c. induction data as [|b data IH]; intros c Hc; [done|].
  rewrite fold_left_cons. by apply IH, crc_byte_range.
Qed.
Lemma crc_fold_inj data c c' : is_u32 c → is_u32 c' →
  fold_left crc_byte data c = fold_left crc_byte data c' → c = c'.
Proof.
  revert c c'. induction data as [|b data IH]; [done|]. intros c c' Hc Hc' H.
  rewrite !fold_left_cons in H.
  apply IH in H; [|by apply crc_byte_range..]. by apply crc_byte_inj_state in H.
Qed.

Lemma crc32_range data seed : is_u32 seed → is_u32 (crc32 data seed).
Proof.
  intros. apply u32_lxor; [apply crc_fold_range, u32_lxor|]; auto; unfold is_u32; lia.
Qed.

Lemma lxor_ones_twice x : Z.lxor (Z.lxor x 0xFFFFFFFF) 0xFFFFFFFF = x.
Proof. by rewrite Z.lxor_assoc, Z.lxor_nilpotent, Z.lxor_0_r. Qed.

(** The [seed] parameter chains computations. *)
Lemma crc32_chain a b seed : crc32 (a ++ b) seed = crc32 b (crc32 a seed).
Proof. unfold crc32. by rewrite lxor_ones_twice, fold_left_app. Qed.

Lemma crc_fold_byte_change b b' post c : is_u32 c → b ≠ b' →
  fold_left crc_byte (b :: post) c ≠ fold_left crc_byte (b' :: post) c.
Proof.
  intros Hc Hne H. rewrite !fold_left_cons in H.
  apply crc_fold_inj in H; [|by apply crc_byte_range..].
  by apply crc_byte_inj_byte in H.
Qed.

Lemma crc32_unseed data seed :
  Z.lxor (crc32 data seed) 0xFFFFFFFF = fold_left crc_byte data (Z.lxor seed 0xFFFFFFFF).
Proof. apply lxor_ones_twice. Qed.

Lemma crc32_byte_change pre b b' post seed : is_u32 seed → b ≠ b' →
  crc32 (pre ++ b :: post) seed ≠ crc32 (pre ++ b' :: post) seed.
Proof.
  intros Hs Hne H. rewrite (crc32_chain pre (b :: post)), (crc32_chain pre (b' :: post)) in H.
  pose proof (crc32_range pre seed Hs) as Hr. revert H Hr. generalize (crc32 pre seed).
  intros c H Hc. apply (crc_fold_byte_change b b' post (Z.lxor c 0xFFFFFFFF)).
  - apply u32_lxor; [done|unfold is_u32; lia].
  - done.
  - by rewrite <- !crc32_unseed, H.
Qed.

Lemma is_u32_crc p : is_u32 (crc32 p 0).
Proof. apply crc32_range. unfold is_u32. lia. Qed.
Lemma digest_equal_true a b : digest_equal a b = true ↔ a = b.
Proof. apply bool_decide_eq_true. Qed.

(** ** Claims *)

(** C25: The streaming hasher refines SHA-256: however a message is cut into
    pieces for [update], [final] returns the digest of the padded message
    compressed block by block, and it has 32 bytes. *)
Theorem sha256_streaming_correct chunks :
  final_hasher (fold_left update_hasher chunks new_hasher) = sha256_spec (concat chunks) ∧
  length (sha256_spec (concat chunks)) = 32%nat.
Proof. rewrite <- sha256_is_spec, length_sha256. split; [apply streaming_sha256|done]. Qed.

(** The published test vectors, evaluated. *)
Example sha256_abc :
  hex (sha256 (make_bytes "abc")) = "ba7816bf8f01cfea414140de5dae2223b00361a396177a9cb410ff61f20015ad".
Proof. vm_compute. reflexivity. Qed.
Example crc32_check : crc32 (make_bytes "123456789") 0 = 0xcbf43926.
Proof. vm_compute. reflexivity. Qed.

(** The seed of [crc32] chains: the checksum of a concatenation is the
    checksum of the second part seeded with that of the first; and messages
    that differ in exactly one byte never share a checksum. *)
Theorem crc32_chains_and_detects a b x x' seed :
  crc32 (a ++ b) seed = crc32 b (crc32 a seed) ∧
  (is_u32 seed → x ≠ x' → crc32 (a ++ x :: b) seed ≠ crc32 (a ++ x' :: b) seed).
Proof. split; [apply crc32_chain|]. intros. by apply crc32_byte_change. Qed.

#[global] Opaque sha256 crc32 final_hasher update_hasher.
