(* ===== verification/Model.v ===== *)
(** * Model: the enumerations and records of the store

    [include/checkpointstore/model.hpp] and [src/model.cpp].  Each [enum class]
    is a module (see [Base]), each [struct] a record whose projections carry a
    short prefix, with the value its default constructor gives it.  Identities
    and generations are those of [Base]; other integers are [Z]; a time point
    is a number of clock ticks since the epoch. *)
From S2P Require Import Prelude Base Hash.

(** ** Enumerations *)

Module CheckpointKind.
Inductive t := kFull | kIncremental | kDifferential | kSharded | kSynthetic | other (v : Z).
#[global] Instance t_eq_dec : EqDecision t.
Proof. solve_decision. Defined.

Definition to_u8 (e : t) : Z :=
  match e with | kFull => 0 | kIncremental => 1 | kDifferential => 2 | kSharded => 3
    | kSynthetic => 4 | other v => v end.
Definition of_u8 (v : Z) : t :=
  match v with | 0 => kFull | 1 => kIncremental | 2 => kDifferential | 3 => kSharded
    | 4 => kSynthetic | _ => other v end.
Definition to_string (e : t) : string :=
  match e with
  | kFull => "FULL"
  | kIncremental => "INCREMENTAL"
  | kDifferential => "DIFFERENTIAL"
  | kSharded => "SHARDED"
  | kSynthetic => "SYNTHETIC"
  | other _ => "UNKNOWN"
  end.

Definition wf (e : t) : Prop :=
  match e with other v => 5 ≤ v < 2 ^ 8 | _ => True end.
Lemma CheckpointKind_of_to e : wf e → of_u8 (to_u8 e) = e.
Proof. enum_of_to wf of_u8 to_u8. Qed.
Lemma CheckpointKind_to_of v : to_u8 (of_u8 v) = v.
Proof. unfold of_u8. repeat case_match; reflexivity. Qed.
Lemma CheckpointKind_range e : wf e → is_u8 (to_u8 e).
Proof. enum_range wf to_u8. Qed.
Lemma CheckpointKind_of_wf v : is_u8 v → wf (of_u8 v).
Proof. enum_of_wf wf of_u8. Qed.
End CheckpointKind.


Module CheckpointLifecycle.
Inductive t := kCreating | kWriting | kVerifying | kCommitted | kDegraded | kStale
  | kInvalidated | kRestoring | kRetired | kGcEligible | kDeleted | kFailed | other (v : Z).
#[global] Instance t_eq_dec : EqDecision t.
Proof. solve_decision. Defined.

Definition to_u8 (e : t) : Z :=
  match e with | kCreating => 0 | kWriting => 1 | kVerifying => 2 | kCommitted => 3
    | kDegraded => 4 | kStale => 5 | kInvalidated => 6 | kRestoring => 7 | kRetired => 8
    | kGcEligible => 9 | kDeleted => 10 | kFailed => 11 | other v => v end.
Definition of_u8 (v : Z) : t :=
  match v with | 0 => kCreating | 1 => kWriting | 2 => kVerifying | 3 => kCommitted
    | 4 => kDegraded | 5 => kStale | 6 => kInvalidated | 7 => kRestoring | 8 => kRetired
    | 9 => kGcEligible | 10 => kDeleted | 11 => kFailed | _ => other v end.
Definition to_string (e : t) : string :=
  match e with
  | kCreating => "CREATING"
  | kWriting => "WRITING"
  | kVerifying => "VERIFYING"
  | kCommitted => "COMMITTED"
  | kDegraded => "DEGRADED"
  | kStale => "STALE"
  | kInvalidated => "INVALIDATED"
  | kRestoring => "RESTORING"
  | kRetired => "RETIRED"
  | kGcEligible => "GC_ELIGIBLE"
  | kDeleted => "DELETED"
  | kFailed => "FAILED"
  | other _ => "UNKNOWN"
  end.

Definition wf (e : t) : Prop :=
  match e with other v => 12 ≤ v < 2 ^ 8 | _ => True end.
Lemma CheckpointLifecycle_of_to e : wf e → of_u8 (to_u8 e) = e.
Proof. enum_of_to wf of_u8 to_u8. Qed.
Lemma CheckpointLifecycle_to_of v : to_u8 (of_u8 v) = v.
Proof. unfold of_u8. repeat case_match; reflexivity. Qed.
Lemma CheckpointLifecycle_range e : wf e → is_u8 (to_u8 e).
Proof. enum_range wf to_u8. Qed.
Lemma CheckpointLifecycle_of_wf v : is_u8 v → wf (of_u8 v).
Proof. enum_of_wf wf of_u8. Qed.
End CheckpointLifecycle.


Module IntegrityState.
Inductive t := kUnknown | kUnverified | kVerified | kCorrupt | kMissing | other (v : Z).
#[global] Instance t_eq_dec : EqDecision t.
Proof. solve_decision. Defined.

Definition to_u8 (e : t) : Z :=
  match e with | kUnknown => 0 | kUnverified => 1 | kVerified => 2 | kCorrupt => 3
    | kMissing => 4 | other v => v end.
Definition of_u8 (v : Z) : t :=
  match v with | 0 => kUnknown | 1 => kUnverified | 2 => kVerified | 3 => kCorrupt
    | 4 => kMissing | _ => other v end.
Definition to_string (e : t) : string :=
  match e with
  | kUnknown => "UNKNOWN"
  | kUnverified => "UNVERIFIED"
  | kVerified => "VERIFIED"
  | kCorrupt => "CORRUPT"
  | kMissing => "MISSING"
  | other _ => "UNKNOWN"
  end.

Definition wf (e : t) : Prop :=
  match e with other v => 5 ≤ v < 2 ^ 8 | _ => True end.
Lemma IntegrityState_of_to e : wf e → of_u8 (to_u8 e) = e.
Proof. enum_of_to wf of_u8 to_u8. Qed.
Lemma IntegrityState_to_of v : to_u8 (of_u8 v) = v.
Proof. unfold of_u8. repeat case_match; reflexivity. Qed.
Lemma IntegrityState_range e : wf e → is_u8 (to_u8 e).
Proof. enum_range wf to_u8. Qed.
Lemma IntegrityState_of_wf v : is_u8 v → wf (of_u8 v).
Proof. enum_of_wf wf of_u8. Qed.
End IntegrityState.


Module Provenance.
Inductive t := kMeasured | kReported | kDerived | kSynthetic | kUnknown | other (v : Z).
#[global] Instance t_eq_dec : EqDecision t.
Proof. solve_decision. Defined.

Definition to_u8 (e : t) : Z :=
  match e with | kMeasured => 0 | kReported => 1 | kDerived => 2 | kSynthetic => 3
    | kUnknown => 4 | other v => v end.
Definition of_u8 (v : Z) : t :=
  match v with | 0 => kMeasured | 1 => kReported | 2 => kDerived | 3 => kSynthetic
    | 4 => kUnknown | _ => other v end.
Definition to_string (e : t) : string :=
  match e with
  | kMeasured => "MEASURED"
  | kReported => "REPORTED"
  | kDerived => "DERIVED"
  | kSynthetic => "SYNTHETIC"
  | kUnknown => "UNKNOWN"
  | other _ => "UNKNOWN"
  end.

Definition wf (e : t) : Prop :=
  match e with other v => 5 ≤ v < 2 ^ 8 | _ => True end.
Lemma Provenance_of_to e : wf e → of_u8 (to_u8 e) = e.
Proof. enum_of_to wf of_u8 to_u8. Qed.
Lemma Provenance_to_of v : to_u8 (of_u8 v) = v.
Proof. unfold of_u8. repeat case_match; reflexivity. Qed.
Lemma Provenance_range e : wf e → is_u8 (to_u8 e).
Proof. enum_range wf to_u8. Qed.
Lemma Provenance_of_wf v : is_u8 v → wf (of_u8 v).
Proof. enum_of_wf wf of_u8. Qed.
End Provenance.


Module StorageTierClass.
Inductive t := kLocalFilesystem | kLocalNvmeClass | kSharedFilesystemClass
  | kObjectStorageClass | kRemoteBlockClass | kArchivalClass | kSyntheticRemote | kUnknown
  | other (v : Z).
#[global] Instance t_eq_dec : EqDecision t.
Proof. solve_decision. Defined.

Definition to_u8 (e : t) : Z :=
  match e with | kLocalFilesystem => 0 | kLocalNvmeClass => 1 | kSharedFilesystemClass => 2
    | kObjectStorageClass => 3 | kRemoteBlockClass => 4 | kArchivalClass => 5
    | kSyntheticRemote => 6 | kUnknown => 7 | other v => v end.
Definition of_u8 (v : Z) : t :=
  match v with | 0 => kLocalFilesystem | 1 => kLocalNvmeClass | 2 => kSharedFilesystemClass
    | 3 => kObjectStorageClass | 4 => kRemoteBlockClass | 5 => kArchivalClass
    | 6 => kSyntheticRemote | 7 => kUnknown | _ => other v end.
Definition to_string (e : t) : string :=
  match e with
  | kLocalFilesystem => "LOCAL_FILESYSTEM"
  | kLocalNvmeClass => "LOCAL_NVME_CLASS"
  | kSharedFilesystemClass => "SHARED_FILESYSTEM_CLASS"
  | kObjectStorageClass => "OBJECT_STORAGE_CLASS"
  | kRemoteBlockClass => "REMOTE_BLOCK_CLASS"
  | kArchivalClass => "ARCHIVAL_CLASS"
  | kSyntheticRemote => "SYNTHETIC_REMOTE"
  | kUnknown => "UNKNOWN"
  | other _ => "UNKNOWN"
  end.

Definition wf (e : t) : Prop :=
  match e with other v => 8 ≤ v < 2 ^ 8 | _ => True end.
Lemma StorageTierClass_of_to e : wf e → of_u8 (to_u8 e) = e.
Proof. enum_of_to wf of_u8 to_u8. Qed.
Lemma StorageTierClass_to_of v : to_u8 (of_u8 v) = v.
Proof. unfold of_u8. repeat case_match; reflexivity. Qed.
Lemma StorageTierClass_range e : wf e → is_u8 (to_u8 e).
Proof. enum_range wf to_u8. Qed.
Lemma StorageTierClass_of_wf v : is_u8 v → wf (of_u8 v).
Proof. enum_of_wf wf of_u8. Qed.
End StorageTierClass.


Module ReplicaDurabilityState.
Inductive t := kUnderReplicated | kHealthy | kDegraded | kRebuilding | kFailed | other (v : Z).
#[global] Instance t_eq_dec : EqDecision t.
Proof. solve_decision. Defined.

Definition to_u8 (e : t) : Z :=
  match e with | kUnderReplicated => 0 | kHealthy => 1 | kDegraded => 2 | kRebuilding => 3
    | kFailed => 4 | other v => v end.
Definition of_u8 (v : Z) : t :=
  match v with | 0 => kUnderReplicated | 1 => kHealthy | 2 => kDegraded | 3 => kRebuilding
    | 4 => kFailed | _ => other v end.
Definition to_string (e : t) : string :=
  match e with
  | kUnderReplicated => "UNDER_REPLICATED"
  | kHealthy => "HEALTHY"
  | kDegraded => "DEGRADED"
  | kRebuilding => "REBUILDING"
  | kFailed => "FAILED"
  | other _ => "UNKNOWN"
  end.

Definition wf (e : t) : Prop :=
  match e with other v => 5 ≤ v < 2 ^ 8 | _ => True end.
Lemma ReplicaDurabilityState_of_to e : wf e → of_u8 (to_u8 e) = e.
Proof. enum_of_to wf of_u8 to_u8. Qed.
Lemma ReplicaDurabilityState_to_of v : to_u8 (of_u8 v) = v.
Proof. unfold of_u8. repeat case_match; reflexivity. Qed.
Lemma ReplicaDurabilityState_range e : wf e → is_u8 (to_u8 e).
Proof. enum_range wf to_u8. Qed.
Lemma ReplicaDurabilityState_of_wf v : is_u8 v → wf (of_u8 v).
Proof. enum_of_wf wf of_u8. Qed.
End ReplicaDurabilityState.


Module RestorePriority.
Inductive t := kCritical | kHigh | kNormal | kLow | kBackground | other (v : Z).
#[global] Instance t_eq_dec : EqDecision t.
Proof. solve_decision. Defined.

Definition to_u8 (e : t) : Z :=
  match e with | kCritical => 0 | kHigh => 1 | kNormal => 2 | kLow => 3 | kBackground => 4
    | other v => v end.
Definition of_u8 (v : Z) : t :=
  match v with | 0 => kCritical | 1 => kHigh | 2 => kNormal | 3 => kLow | 4 => kBackground
    | _ => other v end.
Definition to_string (e : t) : string :=
  match e with
  | kCritical => "CRITICAL"
  | kHigh => "HIGH"
  | kNormal => "NORMAL"
  | kLow => "LOW"
  | kBackground => "BACKGROUND"
  | other _ => "UNKNOWN"
  end.

Definition wf (e : t) : Prop :=
  match e with other v => 5 ≤ v < 2 ^ 8 | _ => True end.
Lemma RestorePriority_of_to e : wf e → of_u8 (to_u8 e) = e.
Proof. enum_of_to wf of_u8 to_u8. Qed.
Lemma RestorePriority_to_of v : to_u8 (of_u8 v) = v.
Proof. unfold of_u8. repeat case_match; reflexivity. Qed.
Lemma RestorePriority_range e : wf e → is_u8 (to_u8 e).
Proof. enum_range wf to_u8. Qed.
Lemma RestorePriority_of_wf v : is_u8 v → wf (of_u8 v).
Proof. enum_of_wf wf of_u8. Qed.
End RestorePriority.


Module RetentionClass.
Inductive t := kPinned | kKeepLatestN | kTtl | kAncestryRequired | kRestorePoint
  | kRecomputable | kGcEligible | other (v : Z).
#[global] Instance t_eq_dec : EqDecision t.
Proof. solve_decision. Defined.

Definition to_u8 (e : t) : Z :=
  match e with | kPinned => 0 | kKeepLatestN => 1 | kTtl => 2 | kAncestryRequired => 3
    | kRestorePoint => 4 | kRecomputable => 5 | kGcEligible => 6 | other v => v end.
Definition of_u8 (v : Z) : t :=
  match v with | 0 => kPinned | 1 => kKeepLatestN | 2 => kTtl | 3 => kAncestryRequired
    | 4 => kRestorePoint | 5 => kRecomputable | 6 => kGcEligible | _ => other v end.
Definition to_string (e : t) : string :=
  match e with
  | kPinned => "PINNED"
  | kKeepLatestN => "KEEP_LATEST_N"
  | kTtl => "TTL"
  | kAncestryRequired => "ANCESTRY_REQUIRED"
  | kRestorePoint => "RESTORE_POINT"
  | kRecomputable => "RECOMPUTABLE"
  | kGcEligible => "GC_ELIGIBLE"
  | other _ => "UNKNOWN"
  end.

Definition wf (e : t) : Prop :=
  match e with other v => 7 ≤ v < 2 ^ 8 | _ => True end.
Lemma RetentionClass_of_to e : wf e → of_u8 (to_u8 e) = e.
Proof. enum_of_to wf of_u8 to_u8. Qed.
Lemma RetentionClass_to_of v : to_u8 (of_u8 v) = v.
Proof. unfold of_u8. repeat case_match; reflexivity. Qed.
Lemma RetentionClass_range e : wf e → is_u8 (to_u8 e).
Proof. enum_range wf to_u8. Qed.
Lemma RetentionClass_of_wf v : is_u8 v → wf (of_u8 v).
Proof. enum_of_wf wf of_u8. Qed.
End RetentionClass.


Module Freshness.
Inductive t := kCurrent | kStale | kRevalidationRequired | kUnknown | other (v : Z).
#[global] Instance t_eq_dec : EqDecision t.
Proof. solve_decision. Defined.

Definition to_u8 (e : t) : Z :=
  match e with | kCurrent => 0 | kStale => 1 | kRevalidationRequired => 2 | kUnknown => 3
    | other v => v end.
Definition of_u8 (v : Z) : t :=
  match v with | 0 => kCurrent | 1 => kStale | 2 => kRevalidationRequired | 3 => kUnknown
    | _ => other v end.
Definition to_string (e : t) : string :=
  match e with
  | kCurrent => "CURRENT"
  | kStale => "STALE"
  | kRevalidationRequired => "REVALIDATION_REQUIRED"
  | kUnknown => "UNKNOWN"
  | other _ => "UNKNOWN"
  end.

Definition wf (e : t) : Prop :=
  match e with other v => 4 ≤ v < 2 ^ 8 | _ => True end.
Lemma Freshness_of_to e : wf e → of_u8 (to_u8 e) = e.
Proof. enum_of_to wf of_u8 to_u8. Qed.
Lemma Freshness_to_of v : to_u8 (of_u8 v) = v.
Proof. unfold of_u8. repeat case_match; reflexivity. Qed.
Lemma Freshness_range e : wf e → is_u8 (to_u8 e).
Proof. enum_range wf to_u8. Qed.
Lemma Freshness_of_wf v : is_u8 v → wf (of_u8 v).
Proof. enum_of_wf wf of_u8. Qed.
End Freshness.


Module DurabilityClass.
Inductive t := kUnknown | kEphemeral | kLocal | kReplicated | kArchival | other (v : Z).
#[global] Instance t_eq_dec : EqDecision t.
Proof. solve_decision. Defined.

Definition to_u8 (e : t) : Z :=
  match e with | kUnknown => 0 | kEphemeral => 1 | kLocal => 2 | kReplicated => 3
    | kArchival => 4 | other v => v end.
Definition of_u8 (v : Z) : t :=
  match v with | 0 => kUnknown | 1 => kEphemeral | 2 => kLocal | 3 => kReplicated
    | 4 => kArchival | _ => other v end.
Definition to_string (e : t) : string :=
  match e with
  | kUnknown => "UNKNOWN"
  | kEphemeral => "EPHEMERAL"
  | kLocal => "LOCAL"
  | kReplicated => "REPLICATED"
  | kArchival => "ARCHIVAL"
  | other _ => "UNKNOWN"
  end.

Definition wf (e : t) : Prop :=
  match e with other v => 5 ≤ v < 2 ^ 8 | _ => True end.
Lemma DurabilityClass_of_to e : wf e → of_u8 (to_u8 e) = e.
Proof. enum_of_to wf of_u8 to_u8. Qed.
Lemma DurabilityClass_to_of v : to_u8 (of_u8 v) = v.
Proof. unfold of_u8. repeat case_match; reflexivity. Qed.
Lemma DurabilityClass_range e : wf e → is_u8 (to_u8 e).
Proof. enum_range wf to_u8. Qed.
Lemma DurabilityClass_of_wf v : is_u8 v → wf (of_u8 v).
Proof. enum_of_wf wf of_u8. Qed.
End DurabilityClass.


Module ReplicaSourceKind.
Inductive t := kLocal | kSyntheticRemote | kSyntheticObject | kSyntheticArchive | other (v : Z).
#[global] Instance t_eq_dec : EqDecision t.
Proof. solve_decision. Defined.

Definition to_u8 (e : t) : Z :=
  match e with | kLocal => 0 | kSyntheticRemote => 1 | kSyntheticObject => 2
    | kSyntheticArchive => 3 | other v => v end.
Definition of_u8 (v : Z) : t :=
  match v with | 0 => kLocal | 1 => kSyntheticRemote | 2 => kSyntheticObject
    | 3 => kSyntheticArchive | _ => other v end.
Definition to_string (e : t) : string :=
  match e with
  | kLocal => "LOCAL"
  | kSyntheticRemote => "SYNTHETIC_REMOTE"
  | kSyntheticObject => "SYNTHETIC_OBJECT"
  | kSyntheticArchive => "SYNTHETIC_ARCHIVE"
  | other _ => "UNKNOWN"
  end.

Definition wf (e : t) : Prop :=
  match e with other v => 4 ≤ v < 2 ^ 8 | _ => True end.
Lemma ReplicaSourceKind_of_to e : wf e → of_u8 (to_u8 e) = e.
Proof. enum_of_to wf of_u8 to_u8. Qed.
Lemma ReplicaSourceKind_to_of v : to_u8 (of_u8 v) = v.
Proof. unfold of_u8. repeat case_match; reflexivity. Qed.
Lemma ReplicaSourceKind_range e : wf e → is_u8 (to_u8 e).
Proof. enum_range wf to_u8. Qed.
Lemma ReplicaSourceKind_of_wf v : is_u8 v → wf (of_u8 v).
Proof. enum_of_wf wf of_u8. Qed.
End ReplicaSourceKind.


Module ReplicaRole.
Inductive t := kAuthoritative | kSecondary | kCandidate | kQuarantined | other (v : Z).
#[global] Instance t_eq_dec : EqDecision t.
Proof. solve_decision. Defined.

Definition to_u8 (e : t) : Z :=
  match e with | kAuthoritative => 0 | kSecondary => 1 | kCandidate => 2 | kQuarantined => 3
    | other v => v end.
Definition of_u8 (v : Z) : t :=
  match v with | 0 => kAuthoritative | 1 => kSecondary | 2 => kCandidate | 3 => kQuarantined
    | _ => other v end.
Definition to_string (e : t) : string :=
  match e with
  | kAuthoritative => "AUTHORITATIVE"
  | kSecondary => "SECONDARY"
  | kCandidate => "CANDIDATE"
  | kQuarantined => "QUARANTINED"
  | other _ => "UNKNOWN"
  end.

Definition wf (e : t) : Prop :=
  match e with other v => 4 ≤ v < 2 ^ 8 | _ => True end.
Lemma ReplicaRole_of_to e : wf e → of_u8 (to_u8 e) = e.
Proof. enum_of_to wf of_u8 to_u8. Qed.
Lemma ReplicaRole_to_of v : to_u8 (of_u8 v) = v.
Proof. unfold of_u8. repeat case_match; reflexivity. Qed.
Lemma ReplicaRole_range e : wf e → is_u8 (to_u8 e).
Proof. enum_range wf to_u8. Qed.
Lemma ReplicaRole_of_wf v : is_u8 v → wf (of_u8 v).
Proof. enum_of_wf wf of_u8. Qed.
End ReplicaRole.


Module RestoreSourceResult.
Inductive t := kSuccess | kCorrupt | kMissing | kUnavailable | kFallback | other (v : Z).
#[global] Instance t_eq_dec : EqDecision t.
Proof. solve_decision. Defined.

Definition to_u8 (e : t) : Z :=
  match e with | kSuccess => 0 | kCorrupt => 1 | kMissing => 2 | kUnavailable => 3
    | kFallback => 4 | other v => v end.
Definition of_u8 (v : Z) : t :=
  match v with | 0 => kSuccess | 1 => kCorrupt | 2 => kMissing | 3 => kUnavailable
    | 4 => kFallback | _ => other v end.
Definition to_string (e : t) : string :=
  match e with
  | kSuccess => "SUCCESS"
  | kCorrupt => "CORRUPT"
  | kMissing => "MISSING"
  | kUnavailable => "UNAVAILABLE"
  | kFallback => "FALLBACK"
  | other _ => "UNKNOWN"
  end.

Definition wf (e : t) : Prop :=
  match e with other v => 5 ≤ v < 2 ^ 8 | _ => True end.
Lemma RestoreSourceResult_of_to e : wf e → of_u8 (to_u8 e) = e.
Proof. enum_of_to wf of_u8 to_u8. Qed.
Lemma RestoreSourceResult_to_of v : to_u8 (of_u8 v) = v.
Proof. unfold of_u8. repeat case_match; reflexivity. Qed.
Lemma RestoreSourceResult_range e : wf e → is_u8 (to_u8 e).
Proof. enum_range wf to_u8. Qed.
Lemma RestoreSourceResult_of_wf v : is_u8 v → wf (of_u8 v).
Proof. enum_of_wf wf of_u8. Qed.
End RestoreSourceResult.


Module GcPhase.
Inductive t := kIdle | kSnapshotting | kMarking | kSweeping | kComplete | kFailed
  | other (v : Z).
#[global] Instance t_eq_dec : EqDecision t.
Proof. solve_decision. Defined.

Definition to_u8 (e : t) : Z :=
  match e with | kIdle => 0 | kSnapshotting => 1 | kMarking => 2 | kSweeping => 3
    | kComplete => 4 | kFailed => 5 | other v => v end.
Definition of_u8 (v : Z) : t :=
  match v with | 0 => kIdle | 1 => kSnapshotting | 2 => kMarking | 3 => kSweeping
    | 4 => kComplete | 5 => kFailed | _ => other v end.
Definition to_string (e : t) : string :=
  match e with
  | kIdle => "IDLE"
  | kSnapshotting => "SNAPSHOTTING"
  | kMarking => "MARKING"
  | kSweeping => "SWEEPING"
  | kComplete => "COMPLETE"
  | kFailed => "FAILED"
  | other _ => "UNKNOWN"
  end.

Definition wf (e : t) : Prop :=
  match e with other v => 6 ≤ v < 2 ^ 8 | _ => True end.
Lemma GcPhase_of_to e : wf e → of_u8 (to_u8 e) = e.
Proof. enum_of_to wf of_u8 to_u8. Qed.
Lemma GcPhase_to_of v : to_u8 (of_u8 v) = v.
Proof. unfold of_u8. repeat case_match; reflexivity. Qed.
Lemma GcPhase_range e : wf e → is_u8 (to_u8 e).
Proof. enum_range wf to_u8. Qed.
Lemma GcPhase_of_wf v : is_u8 v → wf (of_u8 v).
Proof. enum_of_wf wf of_u8. Qed.
End GcPhase.


(** ** Records *)
Definition zero_digest : Sha256Digest := replicate 32 x00.

Record CheckpointDescriptor := mkCheckpointDescriptor {
  d_id : CheckpointId;
  d_family_id : CheckpointFamilyId;
  d_generation : CheckpointGeneration;
  d_kind : CheckpointKind.t;
  d_logical_size : Z;
  d_created_at : Z;
  d_owner_id : OwnerId;
  d_producer_boot : WorkerBootId;
  d_producer_generation : CheckpointGeneration;
  d_parent_checkpoint : option CheckpointId;
  d_base_checkpoint : option CheckpointId;
  d_lineage : list CheckpointId;
  d_references : list CheckpointId;
  d_compatibility : string;
  d_retention : RetentionClass.t;
  d_durability : DurabilityClass.t;
  d_restore_priority : RestorePriority.t;
  d_provenance : Provenance.t;
  d_policy_generation : PolicyGeneration;
  d_required_replica_count : Z
}.
#[export] Instance eta_CheckpointDescriptor : Eta CheckpointDescriptor :=
  λ r, mkCheckpointDescriptor
    (d_id r) (d_family_id r) (d_generation r) (d_kind r) (d_logical_size r) (d_created_at r)
    (d_owner_id r) (d_producer_boot r) (d_producer_generation r) (d_parent_checkpoint r)
    (d_base_checkpoint r) (d_lineage r) (d_references r) (d_compatibility r) (d_retention r)
    (d_durability r) (d_restore_priority r) (d_provenance r) (d_policy_generation r)
    (d_required_replica_count r).
#[export] Instance CheckpointDescriptor_eq_dec : EqDecision CheckpointDescriptor.
Proof. solve_decision. Defined.
Definition default_CheckpointDescriptor : CheckpointDescriptor :=
  mkCheckpointDescriptor
    null_id null_id first_gen CheckpointKind.kFull 0 0 null_id null_id first_gen None None [] []
    "" RetentionClass.kKeepLatestN DurabilityClass.kLocal RestorePriority.kNormal
    Provenance.kUnknown first_gen 1.

Record ChunkDescriptor := mkChunkDescriptor {
  cd_id : ChunkId;
  cd_generation : ChunkGeneration;
  cd_logical_offset : Z;
  cd_logical_size : Z;
  cd_physical_size : Z;
  cd_digest : Sha256Digest;
  cd_blob_id : BlobId;
  cd_placements : list PlacementId;
  cd_refcount : Z;
  cd_provenance : Provenance.t;
  cd_integrity : IntegrityState.t;
  cd_compressed : bool;
  cd_payload_encoding : string
}.
#[export] Instance eta_ChunkDescriptor : Eta ChunkDescriptor :=
  λ r, mkChunkDescriptor
    (cd_id r) (cd_generation r) (cd_logical_offset r) (cd_logical_size r) (cd_physical_size r)
    (cd_digest r) (cd_blob_id r) (cd_placements r) (cd_refcount r) (cd_provenance r)
    (cd_integrity r) (cd_compressed r) (cd_payload_encoding r).
#[export] Instance ChunkDescriptor_eq_dec : EqDecision ChunkDescriptor.
Proof. solve_decision. Defined.
Definition default_ChunkDescriptor : ChunkDescriptor :=
  mkChunkDescriptor null_id first_gen 0
    0 0 zero_digest null_id [] 0 Provenance.kUnknown IntegrityState.kUnknown false "".

Record BlobDescriptor := mkBlobDescriptor {
  b_id : BlobId;
  b_generation : BlobGeneration;
  b_physical_size : Z;
  b_digest : Sha256Digest;
  b_refcount : Z;
  b_byte_references : Z;
  b_tier : StorageTierClass.t;
  b_provenance : Provenance.t;
  b_integrity : IntegrityState.t;
  b_freshness : Freshness.t;
  b_replicas : list ReplicaId
}.
#[export] Instance eta_BlobDescriptor : Eta BlobDescriptor :=
  λ r, mkBlobDescriptor (b_id r)
    (b_generation r) (b_physical_size r) (b_digest r) (b_refcount r) (b_byte_references r)
    (b_tier r) (b_provenance r) (b_integrity r) (b_freshness r) (b_replicas r).
#[export] Instance BlobDescriptor_eq_dec : EqDecision BlobDescriptor.
Proof. solve_decision. Defined.
Definition default_BlobDescriptor : BlobDescriptor :=
  mkBlobDescriptor null_id first_gen 0
    zero_digest 0 0 StorageTierClass.kLocalFilesystem Provenance.kUnknown
    IntegrityState.kUnknown Freshness.kUnknown [].

Record ManifestEntry := mkManifestEntry {
  e_chunk_id : ChunkId;
  e_logical_offset : Z
}.
#[export] Instance eta_ManifestEntry : Eta ManifestEntry :=
  λ r, mkManifestEntry
    (e_chunk_id r) (e_logical_offset r).
#[export] Instance ManifestEntry_eq_dec : EqDecision ManifestEntry.
Proof. solve_decision. Defined.

Record CheckpointManifest := mkCheckpointManifest {
  m_id : ManifestId;
  m_generation : ManifestGeneration;
  m_checkpoint_id : CheckpointId;
  m_checkpoint_generation : CheckpointGeneration;
  m_chunks : list ManifestEntry;
  m_logical_size : Z;
  m_checkpoint_digest : Sha256Digest;
  m_lineage : list CheckpointId;
  m_parent : option CheckpointId;
  m_base : option CheckpointId;
  m_provenance : Provenance.t;
  m_durability : DurabilityClass.t;
  m_required_replica_count : Z;
  m_semantic_digest : Sha256Digest
}.
#[export] Instance eta_CheckpointManifest : Eta CheckpointManifest :=
  λ r, mkCheckpointManifest
    (m_id r) (m_generation r) (m_checkpoint_id r) (m_checkpoint_generation r) (m_chunks r)
    (m_logical_size r) (m_checkpoint_digest r) (m_lineage r) (m_parent r) (m_base r)
    (m_provenance r) (m_durability r) (m_required_replica_count r) (m_semantic_digest r).
#[export] Instance CheckpointManifest_eq_dec : EqDecision CheckpointManifest.
Proof. solve_decision. Defined.
Definition default_CheckpointManifest : CheckpointManifest :=
  mkCheckpointManifest null_id
    first_gen null_id first_gen [] 0 zero_digest [] None None Provenance.kUnknown
    DurabilityClass.kLocal 1 zero_digest.

Record PlacementDescriptor := mkPlacementDescriptor {
  pl_id : PlacementId;
  pl_generation : PlacementGeneration;
  pl_replica_id : ReplicaId;
  pl_tier_id : StorageTierId;
  pl_backend_id : StorageBackendId;
  pl_node_id : StorageNodeId;
  pl_volume_id : VolumeId;
  pl_bytes : Z;
  pl_provenance : Provenance.t;
  pl_freshness : Freshness.t
}.
#[export] Instance eta_PlacementDescriptor : Eta PlacementDescriptor :=
  λ r, mkPlacementDescriptor
    (pl_id r) (pl_generation r) (pl_replica_id r) (pl_tier_id r) (pl_backend_id r)
    (pl_node_id r) (pl_volume_id r) (pl_bytes r) (pl_provenance r) (pl_freshness r).
#[export] Instance PlacementDescriptor_eq_dec : EqDecision PlacementDescriptor.
Proof. solve_decision. Defined.
Definition default_PlacementDescriptor : PlacementDescriptor :=
  mkPlacementDescriptor null_id
    first_gen null_id null_id null_id null_id null_id 0 Provenance.kUnknown Freshness.kUnknown.

Record ReplicaDescriptor := mkReplicaDescriptor {
  rp_id : ReplicaId;
  rp_generation : ReplicaGeneration;
  rp_backend_id : StorageBackendId;
  rp_source_kind : ReplicaSourceKind.t;
  rp_tier : StorageTierClass.t;
  rp_integrity : IntegrityState.t;
  rp_role : ReplicaRole.t;
  rp_physical_size : Z;
  rp_provenance : Provenance.t
}.
#[export] Instance eta_ReplicaDescriptor : Eta ReplicaDescriptor :=
  λ r, mkReplicaDescriptor
    (rp_id r) (rp_generation r) (rp_backend_id r) (rp_source_kind r) (rp_tier r)
    (rp_integrity r) (rp_role r) (rp_physical_size r) (rp_provenance r).
#[export] Instance ReplicaDescriptor_eq_dec : EqDecision ReplicaDescriptor.
Proof. solve_decision. Defined.
Definition default_ReplicaDescriptor : ReplicaDescriptor :=
  mkReplicaDescriptor null_id
    first_gen null_id ReplicaSourceKind.kLocal StorageTierClass.kLocalFilesystem
    IntegrityState.kUnknown ReplicaRole.kAuthoritative 0 Provenance.kUnknown.

Record ReplicaSet := mkReplicaSet {
  rs_checkpoint_id : CheckpointId;
  rs_generation : CheckpointGeneration;
  rs_required_replica_count : Z;
  rs_replicas : list ReplicaId;
  rs_durability_state : ReplicaDurabilityState.t;
  rs_placement_generation : PlacementGeneration;
  rs_provenance : Provenance.t
}.
#[export] Instance eta_ReplicaSet : Eta ReplicaSet :=
  λ r, mkReplicaSet (rs_checkpoint_id r)
    (rs_generation r) (rs_required_replica_count r) (rs_replicas r) (rs_durability_state r)
    (rs_placement_generation r) (rs_provenance r).
#[export] Instance ReplicaSet_eq_dec : EqDecision ReplicaSet.
Proof. solve_decision. Defined.
Definition default_ReplicaSet : ReplicaSet :=
  mkReplicaSet null_id first_gen 1 []
    ReplicaDurabilityState.kUnderReplicated first_gen Provenance.kUnknown.

Record TierMetadata := mkTierMetadata {
  tm_id : StorageTierId;
  tm_tier_class : StorageTierClass.t;
  tm_total_bytes : Z;
  tm_free_bytes : Z;
  tm_latency_us : Z;
  tm_throughput_bytes_per_s : Z;
  tm_durability : DurabilityClass.t;
  tm_provenance : Provenance.t;
  tm_freshness : Freshness.t;
  tm_locality : string;
  tm_failure_domain : string;
  tm_cost_class : string;
  tm_health : bool
}.
#[export] Instance eta_TierMetadata : Eta TierMetadata :=
  λ r, mkTierMetadata (tm_id r)
    (tm_tier_class r) (tm_total_bytes r) (tm_free_bytes r) (tm_latency_us r)
    (tm_throughput_bytes_per_s r) (tm_durability r) (tm_provenance r) (tm_freshness r)
    (tm_locality r) (tm_failure_domain r) (tm_cost_class r) (tm_health r).
#[export] Instance TierMetadata_eq_dec : EqDecision TierMetadata.
Proof. solve_decision. Defined.
Definition default_TierMetadata : TierMetadata :=
  mkTierMetadata null_id
    StorageTierClass.kUnknown 0 0 0 0 DurabilityClass.kUnknown Provenance.kUnknown
    Freshness.kUnknown "" "" "" false.

Record RetentionPolicy := mkRetentionPolicy {
  pol_id : RetentionPolicyId;
  pol_family_id : CheckpointFamilyId;
  pol_retention_class : RetentionClass.t;
  pol_latest_n : Z;
  pol_ttl : Z;
  pol_protect_ancestry : bool;
  pol_recomputable : bool;
  pol_policy_protected : bool;
  pol_generation : PolicyGeneration;
  pol_provenance : Provenance.t
}.
#[export] Instance eta_RetentionPolicy : Eta RetentionPolicy :=
  λ r, mkRetentionPolicy
    (pol_id r) (pol_family_id r) (pol_retention_class r) (pol_latest_n r) (pol_ttl r)
    (pol_protect_ancestry r) (pol_recomputable r) (pol_policy_protected r) (pol_generation r)
    (pol_provenance r).
#[export] Instance RetentionPolicy_eq_dec : EqDecision RetentionPolicy.
Proof. solve_decision. Defined.
Definition default_RetentionPolicy : RetentionPolicy :=
  mkRetentionPolicy null_id null_id
    RetentionClass.kKeepLatestN 0 0 true false false first_gen Provenance.kUnknown.

Record RestoreStep := mkRestoreStep {
  st_checkpoint_id : CheckpointId;
  st_chunk_id : ChunkId;
  st_source_replica : ReplicaId;
  st_result : RestoreSourceResult.t;
  st_integrity : IntegrityState.t
}.
#[export] Instance eta_RestoreStep : Eta RestoreStep :=
  λ r, mkRestoreStep
    (st_checkpoint_id r) (st_chunk_id r) (st_source_replica r) (st_result r) (st_integrity r).
#[export] Instance RestoreStep_eq_dec : EqDecision RestoreStep.
Proof. solve_decision. Defined.
Definition default_RestoreStep : RestoreStep :=
  mkRestoreStep null_id null_id null_id
    RestoreSourceResult.kSuccess IntegrityState.kUnknown.

Record RestorePlan := mkRestorePlan {
  plan_id : RestorePlanId;
  plan_restore_id : RestoreId;
  plan_target : CheckpointId;
  plan_priority : RestorePriority.t;
  plan_ordered_ancestry : list CheckpointId;
  plan_steps : list RestoreStep;
  plan_expected_bytes : Z;
  plan_parallelism : Z;
  plan_generation : RestoreGeneration;
  plan_provenance : Provenance.t
}.
#[export] Instance eta_RestorePlan : Eta RestorePlan :=
  λ r, mkRestorePlan (plan_id r)
    (plan_restore_id r) (plan_target r) (plan_priority r) (plan_ordered_ancestry r)
    (plan_steps r) (plan_expected_bytes r) (plan_parallelism r) (plan_generation r)
    (plan_provenance r).
#[export] Instance RestorePlan_eq_dec : EqDecision RestorePlan.
Proof. solve_decision. Defined.
Definition default_RestorePlan : RestorePlan :=
  mkRestorePlan null_id null_id null_id
    RestorePriority.kNormal [] [] 0 1 first_gen Provenance.kUnknown.

Record RestoreEvidence := mkRestoreEvidence {
  ev_restore_id : RestoreId;
  ev_source_checkpoint : CheckpointId;
  ev_source_manifest : ManifestId;
  ev_source_replica : ReplicaId;
  ev_bytes_restored : Z;
  ev_chunks_restored : Z;
  ev_dedup_hits : Z;
  ev_failed_sources : list ReplicaId;
  ev_fallback_source : option ReplicaId;
  ev_integrity : IntegrityState.t;
  ev_duration : Z;
  ev_provenance : Provenance.t;
  ev_attempt_generation : AttemptGeneration
}.
#[export] Instance eta_RestoreEvidence : Eta RestoreEvidence :=
  λ r, mkRestoreEvidence
    (ev_restore_id r) (ev_source_checkpoint r) (ev_source_manifest r) (ev_source_replica r)
    (ev_bytes_restored r) (ev_chunks_restored r) (ev_dedup_hits r) (ev_failed_sources r)
    (ev_fallback_source r) (ev_integrity r) (ev_duration r) (ev_provenance r)
    (ev_attempt_generation r).
#[export] Instance RestoreEvidence_eq_dec : EqDecision RestoreEvidence.
Proof. solve_decision. Defined.
Definition default_RestoreEvidence : RestoreEvidence :=
  mkRestoreEvidence null_id null_id
    null_id null_id 0 0 0 [] None IntegrityState.kUnknown 0 Provenance.kUnknown first_gen.

Record GcState := mkGcState {
  gc_epoch : GcEpochId;
  gc_generation : GcGeneration;
  gc_phase : GcPhase.t;
  gc_reachable_blobs : list BlobId;
  gc_reclaimable_blobs : list BlobId;
  gc_marked_bytes : Z;
  gc_reclaimed_bytes : Z;
  gc_freshness : Freshness.t
}.
#[export] Instance eta_GcState : Eta GcState :=
  λ r, mkGcState (gc_epoch r) (gc_generation r)
    (gc_phase r) (gc_reachable_blobs r) (gc_reclaimable_blobs r) (gc_marked_bytes r)
    (gc_reclaimed_bytes r) (gc_freshness r).
#[export] Instance GcState_eq_dec : EqDecision GcState.
Proof. solve_decision. Defined.
Definition default_GcState : GcState :=
  mkGcState null_id first_gen GcPhase.kIdle [] [] 0 0
    Freshness.kUnknown.

Record CapacityReport := mkCapacityReport {
  cap_total_bytes : Z;
  cap_free_bytes : Z;
  cap_reserved_bytes : Z;
  cap_committed_bytes : Z;
  cap_reclaimable_bytes : Z;
  cap_logical_bytes : Z;
  cap_deduplicated_bytes : Z;
  cap_freshness : Freshness.t;
  cap_provenance : Provenance.t
}.
#[export] Instance eta_CapacityReport : Eta CapacityReport :=
  λ r, mkCapacityReport
    (cap_total_bytes r) (cap_free_bytes r) (cap_reserved_bytes r) (cap_committed_bytes r)
    (cap_reclaimable_bytes r) (cap_logical_bytes r) (cap_deduplicated_bytes r) (cap_freshness r)
    (cap_provenance r).
#[export] Instance CapacityReport_eq_dec : EqDecision CapacityReport.
Proof. solve_decision. Defined.
Definition default_CapacityReport : CapacityReport :=
  mkCapacityReport 0 0 0 0 0 0 0
    Freshness.kUnknown Provenance.kUnknown.

Record AccountingSnapshot := mkAccountingSnapshot {
  acct_family_count : Z;
  acct_checkpoint_count : Z;
  acct_committed_checkpoint_count : Z;
  acct_logical_bytes : Z;
  acct_unique_physical_bytes : Z;
  acct_deduplicated_bytes : Z;
  acct_manifest_count : Z;
  acct_chunk_count : Z;
  acct_blob_count : Z;
  acct_blob_references : Z;
  acct_replica_count : Z;
  acct_placement_count : Z;
  acct_active_writes : Z;
  acct_active_restores : Z;
  acct_restored_bytes : Z;
  acct_gc_eligible_checkpoints : Z;
  acct_reclaimed_blobs : Z;
  acct_reclaimed_bytes : Z;
  acct_integrity_failures : Z;
  acct_stale_rejections : Z;
  acct_duplicate_rejections : Z;
  acct_worker_restarts : Z
}.
#[export] Instance eta_AccountingSnapshot : Eta AccountingSnapshot :=
  λ r, mkAccountingSnapshot
    (acct_family_count r) (acct_checkpoint_count r) (acct_committed_checkpoint_count r)
    (acct_logical_bytes r) (acct_unique_physical_bytes r) (acct_deduplicated_bytes r)
    (acct_manifest_count r) (acct_chunk_count r) (acct_blob_count r) (acct_blob_references r)
    (acct_replica_count r) (acct_placement_count r) (acct_active_writes r)
    (acct_active_restores r) (acct_restored_bytes r) (acct_gc_eligible_checkpoints r)
    (acct_reclaimed_blobs r) (acct_reclaimed_bytes r) (acct_integrity_failures r)
    (acct_stale_rejections r) (acct_duplicate_rejections r) (acct_worker_restarts r).
#[export] Instance AccountingSnapshot_eq_dec : EqDecision AccountingSnapshot.
Proof. solve_decision. Defined.
Definition default_AccountingSnapshot : AccountingSnapshot :=
  mkAccountingSnapshot 0 0 0 0 0 0
    0 0 0 0 0 0 0 0 0 0 0 0 0 0 0 0.

(** ** Identity-derived addresses *)

(** [content_address] *)
Definition content_address (data : list byte) : Sha256Digest := sha256 data.

(** The first eight bytes of a digest as a big-endian integer. *)
Definition digest_prefix (digest : Sha256Digest) : Z :=
  fold_left (λ value i, Z.lor (u64 (Z.shiftl value 8)) (byte_val (nth i digest x00))) (seq 0 8) 0.

Definition blob_id_from_digest (digest : Sha256Digest) : BlobId :=
  let value := digest_prefix digest in
  mkId (if value =? 0 then 1 else value).

Definition chunk_id_from_digest (digest : Sha256Digest) : ChunkId :=
  let value := digest_prefix digest in
  mkId (if value =? 0 then 1 else value).


(** ** Properties of the addresses *)
Lemma digest_prefix_range digest : is_u64 (digest_prefix digest).
Proof.
  unfold digest_prefix. generalize (seq 0 8). intros l.
  assert (is_u64 0) as H by (unfold is_u64; lia). revert H. generalize 0.
  induction l as [|i l IH]; intros v Hv; simpl; [done|].
  apply IH, u64_lor; [apply u64_range|].
  pose proof (byte_val_range (nth i digest x00)). unfold is_u64. lia.
Qed.

#[global] Opaque digest_prefix.

Lemma blob_id_valid digest : is_valid (blob_id_from_digest digest) = true.
Proof.
  unfold blob_id_from_digest, is_valid, id_value. cbv zeta. generalize (digest_prefix digest). intros z.
  destruct (z =? 0) eqn:E; [done|]. by rewrite E.
Qed.

Lemma nonzero_prefix_range digest :
  is_u64 (if digest_prefix digest =? 0 then 1 else digest_prefix digest).
Proof.
  pose proof (digest_prefix_range digest). revert H. generalize (digest_prefix digest). intros z Hz.
  destruct (z =? 0); [unfold is_u64; lia|done].
Qed.
Lemma blob_id_range digest : wf_id (blob_id_from_digest digest).
Proof. apply (nonzero_prefix_range digest). Qed.
Lemma chunk_id_range digest : wf_id (chunk_id_from_digest digest).
Proof. apply (nonzero_prefix_range digest). Qed.

(** The chunk and the blob of a digest carry the same number. *)
Lemma chunk_id_blob_id d1 d2 :
  chunk_id_from_digest d1 = chunk_id_from_digest d2 ↔ blob_id_from_digest d1 = blob_id_from_digest d2.
Proof.
  unfold chunk_id_from_digest, blob_id_from_digest.
  generalize (digest_prefix d1) (digest_prefix d2). intros z1 z2. split; intros [= H]; f_equal; done.
 Qed.
