(* ===== verification/Chunking.v ===== *)
(** * Chunking: deterministic fixed-size chunks

    [include/checkpointstore/storage/chunking.hpp] and [src/chunking.cpp]. *)
From S2P Require Import Prelude Base Hash Model.

(** ** Operations *)

(** [FixedChunker::valid_chunk_size]: between 1 byte and 64 MiB. *)
Definition kMinChunkSize : Z := 1.
Definition kMaxChunkSize : Z := 64 * 1024 * 1024.
Definition valid_chunk_size (chunk_size : Z) : bool :=
  if chunk_size <? kMinChunkSize then false
  else if chunk_size >? kMaxChunkSize then false
  else true.

Record ChunkedRange := mkChunkedRange {
  cr_logical_offset : Z;
  cr_logical_size : Z
}.
#[export] Instance ChunkedRange_eq_dec : EqDecision ChunkedRange.
Proof. solve_decision. Defined.

(** [(remaining < chunk_size) ? remaining : chunk_size] *)
Definition take_size (remaining chunk_size : Z) : Z :=
  if remaining <? chunk_size then remaining else chunk_size.

(** The loop of [fixed_chunk_ranges].  Every iteration advances by at least one
    byte, so [logical_size] iterations are enough. *)
Fixpoint range_loop (fuel : nat) (offset logical_size chunk_size : Z) : list ChunkedRange :=
  match fuel with
  | O => []
  | S fuel =>
      if offset <? logical_size then
        let take := take_size (logical_size - offset) chunk_size in
        mkChunkedRange offset take :: range_loop fuel (u64 (offset + take)) logical_size chunk_size
      else []
  end.

Definition fixed_chunk_ranges (logical_size chunk_size : Z) : outcome (list ChunkedRange) :=
  if negb (valid_chunk_size chunk_size)
  then throw_error ErrorCode.kInvalidArgument "invalid chunk size"
  else if logical_size =? 0 then Ok []
  else Ok (range_loop (Z.to_nat logical_size) 0 logical_size chunk_size).

Record ChunkSlice := mkChunkSlice {
  sl_range : ChunkedRange;
  sl_bytes : list byte;
  sl_digest : Sha256Digest
}.

(** The loop of [chunk_stream]: the piece at [offset] and its content address. *)
Fixpoint slice_loop (fuel : nat) (data : list byte) (offset chunk_size : Z) : list ChunkSlice :=
  match fuel with
  | O => []
  | S fuel =>
      if offset <? zlen data then
        let n := take_size (zlen data - offset) chunk_size in
        let piece := take (Z.to_nat n) (drop (Z.to_nat offset) data) in
        mkChunkSlice (mkChunkedRange offset n) piece (sha256 piece)
          :: slice_loop fuel data (u64 (offset + n)) chunk_size
      else []
  end.

Definition chunk_stream (data : list byte) (chunk_size : Z) : outcome (list ChunkSlice) :=
  if negb (valid_chunk_size chunk_size)
  then throw_error ErrorCode.kInvalidArgument "invalid chunk size"
  else Ok (slice_loop (length data) data 0 chunk_size).

(** ** Properties *)

Lemma valid_chunk_size_spec c : valid_chunk_size c = true ↔ 1 ≤ c ≤ 67108864.
Proof.
  unfold valid_chunk_size, kMinChunkSize, kMaxChunkSize.
  destruct (Z.ltb_spec c 1), (Z.gtb_spec c (64 * 1024 * 1024)); split; intros; try done; lia.
Qed.

Lemma take_size_spec r c : take_size r c = Z.min r c.
Proof. unfold take_size. destruct (Z.ltb_spec r c); lia. Qed.

(** [tiles off size c rs]: the ranges start at [off], follow each other without
    gap or overlap, all have [c] bytes but a shorter non-empty last one, and
    end at [size]. *)
Fixpoint tiles (off size c : Z) (rs : list ChunkedRange) : Prop :=
  match rs with
  | [] => off = size
  | r :: rs' =>
      cr_logical_offset r = off ∧ 0 < cr_logical_size r ∧
      cr_logical_size r = Z.min c (size - off) ∧ tiles (off + cr_logical_size r) size c rs'
  end.

Lemma range_loop_tiles fuel off size c : 1 ≤ c → 0 ≤ off ≤ size → is_u64 size →
  size - off ≤ Z.of_nat fuel → tiles off size c (range_loop fuel off size c).
Proof.
  intros Hc. revert off. induction fuel as [|fuel IH]; intros off Hoff Hs Hf; simpl; [lia|].
  destruct (Z.ltb_spec off size); simpl; [|lia].
  rewrite take_size_spec, u64_id by (unfold is_u64 in *; lia).
  repeat split; try lia. apply IH; lia || done.
Qed.

Lemma slice_loop_ranges fuel data off c :
  sl_range <$> slice_loop fuel data off c = range_loop fuel off (zlen data) c.
Proof.
  revert off. induction fuel as [|fuel IH]; intros off; simpl; [done|].
  destruct (off <? zlen data); simpl; [|done]. by rewrite IH.
Qed.

Lemma slice_loop_content fuel data off c :
  Forall (λ s, sl_digest s = sha256 (sl_bytes s) ∧
    sl_bytes s = take (Z.to_nat (cr_logical_size (sl_range s)))
                   (drop (Z.to_nat (cr_logical_offset (sl_range s))) data))
    (slice_loop fuel data off c).
Proof.
  revert off. induction fuel as [|fuel IH]; intros off; simpl; [constructor|].
  destruct (off <? zlen data); constructor; auto.
Qed.

(** Pieces cut at tiling ranges concatenate to the input from the offset on. *)
Lemma tiles_concat (data : list byte) off c ss : 0 ≤ off → 1 ≤ c →
  tiles off (zlen data) c (sl_range <$> ss) →
  Forall (λ s, sl_bytes s = take (Z.to_nat (cr_logical_size (sl_range s)))
                   (drop (Z.to_nat (cr_logical_offset (sl_range s))) data)) ss →
  concat (sl_bytes <$> ss) = drop (Z.to_nat off) data.
Proof.
  intros Ho Hc. revert off Ho. induction ss as [|s ss IH]; intros off Ho Ht Hf; csimpl in *.
  - subst. symmetry. apply drop_ge. unfold zlen. lia.
  - destruct Ht as (Hso & Hp & Hsz & Ht). inversion Hf as [|?? Hs Hf']; subst.
    rewrite (IH (cr_logical_offset (sl_range s) + cr_logical_size (sl_range s))), Hs by (done || lia).
    rewrite Z2Nat.inj_add, <- drop_drop by lia. by rewrite take_drop.
Qed.

Lemma tiles_lengths (data : list byte) off c ss : 0 ≤ off →
  tiles off (zlen data) c (sl_range <$> ss) →
  Forall (λ s, sl_bytes s = take (Z.to_nat (cr_logical_size (sl_range s)))
                   (drop (Z.to_nat (cr_logical_offset (sl_range s))) data)) ss →
  Forall (λ s, zlen (sl_bytes s) = cr_logical_size (sl_range s)) ss.
Proof.
  revert off. induction ss as [|s ss IH]; intros off Ho Ht Hf; csimpl in *; [constructor|].
  destruct Ht as (Hso & Hp & Hsz & Ht). inversion Hf as [|?? Hs Hf']; subst.
  constructor; [|eapply IH; [|exact Ht|exact Hf']; lia].
  rewrite Hs. unfold zlen in *. rewrite length_take, length_drop. lia.
Qed.

Lemma chunk_stream_ok data c : valid_chunk_size c = true →
  chunk_stream data c = Ok (slice_loop (length data) data 0 c).
Proof. intros H. unfold chunk_stream. by rewrite H. Qed.

Lemma slice_loop_tiles data c : valid_chunk_size c = true → is_u64 (zlen data) →
  tiles 0 (zlen data) c (sl_range <$> slice_loop (length data) data 0 c).
Proof.
  intros Hc%valid_chunk_size_spec Hd. rewrite slice_loop_ranges.
  pose proof (zlen_nonneg data). apply range_loop_tiles; unfold zlen in *; lia || done.
Qed.

Lemma slice_loop_spec data c : valid_chunk_size c = true → is_u64 (zlen data) →
  let ss := slice_loop (length data) data 0 c in
  concat (sl_bytes <$> ss) = data ∧
  Forall (λ s, sl_digest s = sha256 (sl_bytes s)) ss ∧
  Forall (λ s, zlen (sl_bytes s) = cr_logical_size (sl_range s)) ss.
Proof.
  intros Hc Hd. simpl. pose proof (slice_loop_tiles data c Hc Hd) as Ht.
  pose proof (slice_loop_content (length data) data 0 c) as Hf.
  apply valid_chunk_size_spec in Hc.
  pose proof (Forall_and_l _ _ Hf) as Hdig; pose proof (Forall_and_r _ _ Hf) as Hbytes. split; [|split; [done|]].
  - by rewrite (tiles_concat data 0 c) by (done || lia).
  - by apply (tiles_lengths data 0 c).
Qed.

(** There are at most as many chunks as bytes. *)
Lemma tiles_count off size c rs : off ≤ size → tiles off size c rs → zlen rs ≤ size - off.
Proof.
  revert off. induction rs as [|r rs IH]; intros off Ho Ht; unfold zlen in *; simpl in *; [lia|].
  destruct Ht as (_ & Hp & Hs & Ht). apply IH in Ht; lia.
Qed.
Lemma slice_loop_count data c : valid_chunk_size c = true → is_u64 (zlen data) →
  zlen (slice_loop (length data) data 0 c) ≤ zlen data.
Proof.
  intros Hc Hd. pose proof (slice_loop_tiles data c Hc Hd) as Ht%tiles_count; [|apply zlen_nonneg].
  unfold zlen in *. rewrite length_fmap in Ht. lia.
Qed.

(** ** Claims *)

(** C29: Chunking partitions the input: for an accepted chunk size the ranges
    start at zero, are contiguous, have the chunk size except for a shorter
    non-empty tail and end at the input's size; the pieces are the bytes of
    their ranges and concatenate to the input, each with its own SHA-256
    address. *)
Theorem chunk_stream_partition data c ss :
  is_u64 (zlen data) → chunk_stream data c = Ok ss →
  tiles 0 (zlen data) c (sl_range <$> ss) ∧
  concat (sl_bytes <$> ss) = data ∧
  Forall (λ s, sl_digest s = sha256 (sl_bytes s)) ss ∧
  Forall (λ s, zlen (sl_bytes s) = cr_logical_size (sl_range s)) ss.
Proof.
  intros Hd. unfold chunk_stream. destruct (valid_chunk_size c) eqn:Hc; [|done]. intros [= <-].
  split; [by apply slice_loop_tiles|by apply slice_loop_spec].
Qed.
Lemma chunk_stream_partition_witness :
  concat (sl_bytes <$> slice_loop 3 [x01; x02; x03] 0 2) = [x01; x02; x03].
Proof.
  apply (chunk_stream_partition [x01; x02; x03] 2 (slice_loop 3 [x01; x02; x03] 0 2));
    [split; [discriminate|reflexivity]|reflexivity].
Defined.

(** C30: [fixed_chunk_ranges] computes the same ranges as [chunk_stream] cuts,
    without the data, and both refuse exactly the chunk sizes outside 1 byte to
    64 MiB. *)
Theorem fixed_chunk_ranges_agree data c : is_u64 (zlen data) →
  fixed_chunk_ranges (zlen data) c =
    match chunk_stream data c with Ok ss => Ok (sl_range <$> ss) | Throw e => Throw e end ∧
  (is_ok (chunk_stream data c) = true ↔ 1 ≤ c ≤ 67108864).
Proof.
  intros Hd. unfold fixed_chunk_ranges, chunk_stream. rewrite <- valid_chunk_size_spec.
  destruct (valid_chunk_size c); simpl; [|split; [done|split; done]]. split; [|split; done].
  rewrite slice_loop_ranges. unfold zlen at 2. rewrite Nat2Z.id.
  destruct (Z.eqb_spec (zlen data) 0) as [E|]; [|done]. unfold zlen in E.
  by destruct data.
Qed.
Lemma fixed_chunk_ranges_agree_witness :
  is_ok (chunk_stream [x01; x02; x03] 2) = true.
Proof.
  apply (fixed_chunk_ranges_agree [x01; x02; x03] 2); [split; [discriminate|reflexivity]|].
  split; discriminate.
Defined.

Example fixed_chunk_ranges_tail :
  fixed_chunk_ranges 5 2 = Ok [mkChunkedRange 0 2; mkChunkedRange 2 2; mkChunkedRange 4 1].
Proof. reflexivity. Qed.
