(* ===== verification/Dedup.v ===== *)
(** * Dedup: the table of content-addressed blobs

    [include/checkpointstore/storage/dedup.hpp] and [src/dedup.cpp].  The table
    maps the SHA-256 digest of a blob to its entry; [std::unordered_map] is a
    finite map, traversed in an unspecified order. *)
From S2P Require Import Prelude Base Hash Model.

(** ** Data *)
Record DedupEntry := mkDedupEntry {
  de_blob_id : BlobId;
  de_digest : Sha256Digest;
  de_physical_size : Z;
  de_refcount : Z;
  de_integrity : IntegrityState.t;
  de_generation : BlobGeneration
}.
#[export] Instance eta_DedupEntry : Eta DedupEntry := λ e,
  mkDedupEntry (de_blob_id e) (de_digest e) (de_physical_size e) (de_refcount e)
    (de_integrity e) (de_generation e).
#[export] Instance DedupEntry_eq_dec : EqDecision DedupEntry.
Proof. solve_decision. Defined.

Module DedupResult.
Inductive t := kMiss | kHit | kReject.
#[global] Instance t_eq_dec : EqDecision t.
Proof. solve_decision. Defined.
End DedupResult.

Record DedupLookup := mkDedupLookup {
  dl_result : DedupResult.t;
  dl_blob_id : BlobId;
  dl_physical_bytes_written : Z;
  dl_dedup_hits : Z;
  dl_dedup_misses : Z
}.
#[export] Instance eta_DedupLookup : Eta DedupLookup := λ l,
  mkDedupLookup (dl_result l) (dl_blob_id l) (dl_physical_bytes_written l) (dl_dedup_hits l)
    (dl_dedup_misses l).
Definition default_DedupLookup : DedupLookup := mkDedupLookup DedupResult.kMiss null_id 0 0 0.

(** The [entries_] member. *)
Abbreviation DedupTable := (gmap Sha256Digest DedupEntry).

(** ** Operations *)

(** [lookup]: it does not modify the table. *)
Definition dedup_lookup (t : DedupTable) (digest : Sha256Digest) (physical_size : Z) :
    outcome DedupLookup :=
  if physical_size =? 0 then Ok default_DedupLookup
  else
    match t !! digest with
    | None => Ok default_DedupLookup
    | Some e =>
        if negb (de_physical_size e =? physical_size) then
          throw_error ErrorCode.kConflict "dedup digest matched but physical size disagrees"
        else if bool_decide (de_integrity e = IntegrityState.kCorrupt) then
          throw_error ErrorCode.kCorrupt "dedup candidate is corrupt and will not be shared"
        else Ok (default_DedupLookup <| dl_result := DedupResult.kHit |>
                                     <| dl_blob_id := de_blob_id e |>)
    end.

Definition dedup_insert (id : BlobId) (digest : Sha256Digest) (physical_size : Z)
    (integrity : IntegrityState.t) (generation : BlobGeneration) :
    ST DedupTable CheckpointStoreError bool :=
  t ← get;
  match t !! digest with
  | Some e =>
      if de_physical_size e =? physical_size then mret false
      else raise ErrorCode.kConflict "dedup insert collision: identical digest, different size"
  | None =>
      _ ← modify (<[digest := mkDedupEntry id digest physical_size 1 integrity generation]>);
      mret true
  end.

Definition dedup_add_reference (digest : Sha256Digest) : ST DedupTable CheckpointStoreError bool :=
  t ← get;
  match t !! digest with
  | None => mret false
  | Some e =>
      _ ← raise_if (bool_decide (de_integrity e = IntegrityState.kCorrupt))
            ErrorCode.kCorrupt "cannot reference a corrupt blob";
      _ ← raise_if (de_refcount e =? 2 ^ 64 - 1) ErrorCode.kOverflow "refcount overflow";
      _ ← modify (<[digest := e <| de_refcount ::= incr64 |>]>);
      mret true
  end.

Definition dedup_release_reference (digest : Sha256Digest) :
    ST DedupTable CheckpointStoreError bool :=
  t ← get;
  match t !! digest with
  | None => mret false
  | Some e =>
      if de_refcount e =? 0 then mret false
      else
        _ ← modify (<[digest := e <| de_refcount ::= λ n, u64 (n - 1) |>]>);
        mret true
  end.

Definition dedup_refcount (t : DedupTable) (digest : Sha256Digest) : Z :=
  match t !! digest with Some e => de_refcount e | None => 0 end.

Definition dedup_contains (t : DedupTable) (digest : Sha256Digest) : bool :=
  match t !! digest with Some _ => true | None => false end.

Definition dedup_find (t : DedupTable) (digest : Sha256Digest) : option DedupEntry := t !! digest.

Definition dedup_size (t : DedupTable) : Z := Z.of_nat (size t).

Definition unique_physical_bytes `{IterOrder} (t : DedupTable) : Z :=
  fold_left (λ total kv, u64 (total + de_physical_size kv.2)) (iter_order t) 0.

Definition dedup_snapshot `{IterOrder} (t : DedupTable) : list (Sha256Digest * DedupEntry) :=
  iter_order t.

Definition insert_blob_entry_direct (e : DedupEntry) : ST DedupTable CheckpointStoreError unit :=
  modify (<[de_digest e := e]>).

Definition dedup_release_until_orphan (digest : Sha256Digest) :
    ST DedupTable CheckpointStoreError bool :=
  t ← get;
  match t !! digest with
  | None => mret false
  | Some e =>
      if de_refcount e >? 0 then mret false
      else
        _ ← modify (delete digest);
        mret true
  end.

(** ** Table invariant: an entry is stored under its own digest and its counter
    is a 64-bit number. *)
Definition entry_ok (digest : Sha256Digest) (e : DedupEntry) : Prop :=
  de_digest e = digest ∧ is_u64 (de_refcount e).
Definition table_ok (t : DedupTable) : Prop := map_Forall entry_ok t.

Lemma table_ok_empty : table_ok ∅.
Proof. apply map_Forall_empty. Qed.

(** Where a table operation leaves off, entry by entry: at most the entry of
    its own digest changes. *)
Ltac dedup_cases :=
  repeat match goal with
  | |- context [match ?t !! ?d with _ => _ end] => let E := fresh "E" in destruct (t !! d) eqn:E
  | |- context [if ?b then _ else _] => let E := fresh "E" in destruct b eqn:E
  end.
Ltac dedup_unfold :=
  unfold dedup_insert, dedup_add_reference, dedup_release_reference, dedup_release_until_orphan,
    raise_if, throw_if, raise, throw, modify, get, mbind, ST_bind, mret, ST_ret; simpl.

Lemma table_ok_insert t d e : table_ok t → entry_ok d e → table_ok (<[d := e]> t).
Proof. intros Ht He. by apply map_Forall_insert_2. Qed.

Lemma release_ok t d : table_ok t → table_ok (dedup_release_reference d t).2.
Proof.
  intros Ht. dedup_unfold. dedup_cases; simpl; try done. apply table_ok_insert; [done|].
  destruct (Ht _ _ E) as [Hd Hr]. split; [done|]. apply u64_range.
Qed.
Lemma add_ok t d : table_ok t → table_ok (dedup_add_reference d t).2.
Proof.
  intros Ht. dedup_unfold. dedup_cases; simpl; try done. apply table_ok_insert; [done|].
  destruct (Ht _ _ E) as [Hd Hr]. split; [done|]. apply u64_range.
Qed.
Lemma insert_ok t b d n i g : table_ok t → table_ok (dedup_insert b d n i g t).2.
Proof.
  intros Ht. dedup_unfold. dedup_cases; simpl; try done. apply table_ok_insert; [done|].
  split; [done|]. unfold is_u64. simpl. lia.
Qed.
Lemma orphan_ok t d : table_ok t → table_ok (dedup_release_until_orphan d t).2.
Proof.
  intros Ht. dedup_unfold. dedup_cases; simpl; try done. by apply map_Forall_delete.
Qed.

(** ** Histories of reference operations *)
Inductive dedup_op :=
  | OpInsert (id : BlobId) (digest : Sha256Digest) (size : Z) (i : IntegrityState.t)
      (g : BlobGeneration)
  | OpAdd (digest : Sha256Digest)
  | OpRelease (digest : Sha256Digest)
  | OpOrphan (digest : Sha256Digest).

Definition op_digest (op : dedup_op) : Sha256Digest :=
  match op with OpInsert _ d _ _ _ | OpAdd d | OpRelease d | OpOrphan d => d end.

Definition run_op (op : dedup_op) : ST DedupTable CheckpointStoreError bool :=
  match op with
  | OpInsert id d n i g => dedup_insert id d n i g
  | OpAdd d => dedup_add_reference d
  | OpRelease d => dedup_release_reference d
  | OpOrphan d => dedup_release_until_orphan d
  end.

(** The table after a history and the operations of it that took effect, the
    latest first. *)
Fixpoint run_ops (ops : list dedup_op) (t : DedupTable) (log : list dedup_op) :
    DedupTable * list dedup_op :=
  match ops with
  | [] => (t, log)
  | op :: ops' =>
      let '(r, t') := run_op op t in
      run_ops ops' t' (match r with Ok true => op :: log | _ => log end)
  end.

(** References taken less references released since [digest] entered the
    table, and whether it is in the table. *)
Fixpoint net_references (digest : Sha256Digest) (log : list dedup_op) : option Z :=
  match log with
  | [] => None
  | op :: log' =>
      if bool_decide (op_digest op = digest) then
        match op with
        | OpInsert _ _ _ _ _ => Some 1
        | OpAdd _ => (λ n, n + 1) <$> net_references digest log'
        | OpRelease _ => (λ n, n - 1) <$> net_references digest log'
        | OpOrphan _ => None
        end
      else net_references digest log'
  end.

Lemma run_op_ok op t : table_ok t → table_ok (run_op op t).2.
Proof. destruct op; simpl; auto using insert_ok, add_ok, release_ok, orphan_ok. Qed.

Lemma run_op_refcounts op t d : table_ok t →
  de_refcount <$> (run_op op t).2 !! d =
    match (run_op op t).1 with
    | Ok true =>
        if bool_decide (op_digest op = d) then
          match op with
          | OpInsert _ _ _ _ _ => Some 1
          | OpAdd _ => (λ e, de_refcount e + 1) <$> t !! d
          | OpRelease _ => (λ e, de_refcount e - 1) <$> t !! d
          | OpOrphan _ => None
          end
        else de_refcount <$> t !! d
    | _ => de_refcount <$> t !! d
    end.
Proof.
  intros Ht. destruct op; simpl; dedup_unfold; dedup_cases; simpl in *; try done;
    case_bool_decide; subst; simplify_map_eq; try done.
  all: match goal with E : ?m !! _ = Some _ |- _ => destruct (Ht _ _ E) as [_ Hr] end; f_equal.
  - unfold incr64. apply u64_id. unfold is_u64 in *. lia.
  - apply u64_id. unfold is_u64 in *. lia.
Qed.

Lemma run_ops_refcounts ops t log d : table_ok t →
  de_refcount <$> t !! d = net_references d log →
  de_refcount <$> (run_ops ops t log).1 !! d = net_references d (run_ops ops t log).2.
Proof.
  revert t log. induction ops as [|op ops IH]; intros t log Ht Hlog; simpl; [done|].
  pose proof (run_op_refcounts op t d Ht) as Hrc. pose proof (run_op_ok op t Ht) as Hok.
  destruct (run_op op t) as [r t']; simpl in *. apply IH; [done|]. rewrite Hrc.
  destruct r as [[]|]; simpl; [|done..]. rewrite <- Hlog.
  case_bool_decide; [|done]. destruct op; simpl; try done; by destruct (t !! d).
Qed.

Lemma run_ops_ok ops t log : table_ok t → table_ok (run_ops ops t log).1.
Proof.
  revert t log. induction ops as [|op ops IH]; intros t log Ht; simpl; [done|].
  pose proof (run_op_ok op t Ht) as Ht'. destruct (run_op op t) as [r t']. exact (IH _ _ Ht').
Qed.

(** ** The total of physical sizes does not depend on the traversal order *)
Lemma fold_sum_mod (l : list (Sha256Digest * DedupEntry)) acc :
  fold_left (λ total kv, u64 (total + de_physical_size kv.2)) l (u64 acc)
    = u64 (acc + foldr Z.add 0 (de_physical_size <$> l.*2)).
Proof.
  revert acc. induction l as [|[k e] l IH]; intros acc; simpl; [by rewrite Z.add_0_r|].
  replace (u64 (u64 acc + de_physical_size e)) with (u64 (acc + de_physical_size e)).
  - by rewrite IH, Z.add_assoc.
  - unfold u64. by rewrite Zplus_mod_idemp_l.
Qed.

Lemma sum_perm (l k : list Z) : l ≡ₚ k → foldr Z.add 0 l = foldr Z.add 0 k.
Proof. induction 1; simpl; lia. Qed.

Lemma unique_physical_bytes_sum `{IterOrder} t :
  unique_physical_bytes t = u64 (foldr Z.add 0 (de_physical_size <$> (map_to_list t).*2)).
Proof.
  unfold unique_physical_bytes. rewrite (fold_sum_mod _ 0). f_equal.
  apply sum_perm. by rewrite iter_order_perm.
Qed.

Lemma dedup_release_no_throw d t : is_ok (dedup_release_reference d t).1 = true.
Proof. dedup_unfold. dedup_cases; done. Qed.
Lemma dedup_orphan_no_throw d t : is_ok (dedup_release_until_orphan d t).1 = true.
Proof. dedup_unfold. dedup_cases; done. Qed.

(** ** Claims *)

(** C24: Reference counts are exact: after any history of operations from an
    empty table, a digest's counter is the number of references taken less
    those released since the digest entered the table, by operations that
    reported success; it is a 64-bit number, so it has neither wrapped nor
    gone below zero, and a digest is present exactly when the history says so. *)
Theorem dedup_refcounts_exact ops digest :
  let '(t, log) := run_ops ops ∅ [] in
  dedup_refcount t digest = default 0 (net_references digest log) ∧
  is_u64 (dedup_refcount t digest) ∧
  (dedup_contains t digest = true ↔ is_Some (net_references digest log)).
Proof.
  pose proof (run_ops_refcounts ops ∅ [] digest table_ok_empty eq_refl) as H.
  pose proof (run_ops_ok ops ∅ [] table_ok_empty) as Hok.
  destruct (run_ops ops ∅ []) as [t log]. simpl in *. rewrite <- H.
  unfold dedup_refcount, dedup_contains. destruct (t !! digest) as [e|] eqn:E; simpl.
  - destruct (Hok _ _ E) as [_ Hr]. split; [done|]. split; [done|]. by split; [eexists|].
  - split; [done|]. split; [by split|]. split; [done|]. intros [? [=]].
Qed.

(** A lookup reports a hit exactly for a non-empty blob whose digest is in
    the table with the same size and not marked corrupt, and then returns its
    blob; a size disagreement or a corrupt candidate is an error, never a hit,
    and anything else is a miss. *)
Theorem dedup_lookup_spec t digest n :
  match dedup_lookup t digest n with
  | Ok l =>
      match dl_result l with
      | DedupResult.kHit => n ≠ 0 ∧ ∃ e, t !! digest = Some e ∧ de_physical_size e = n ∧
          de_integrity e ≠ IntegrityState.kCorrupt ∧ dl_blob_id l = de_blob_id e
      | DedupResult.kMiss => n = 0 ∨ t !! digest = None
      | DedupResult.kReject => False
      end
  | Throw err => n ≠ 0 ∧ ∃ e, t !! digest = Some e ∧
      (error_code err = ErrorCode.kConflict ∧ de_physical_size e ≠ n ∨
       error_code err = ErrorCode.kCorrupt ∧ de_integrity e = IntegrityState.kCorrupt)
  end.
Proof.
  unfold dedup_lookup. destruct (Z.eqb_spec n 0); [by left|].
  destruct (t !! digest) as [e|] eqn:E; [|by right].
  destruct (Z.eqb_spec (de_physical_size e) n); simpl; [|naive_solver].
  case_bool_decide; simpl; [naive_solver|]. split; [done|]. eauto.
Qed.
