(* ===== verification/BinFormat.v ===== *)
(** * BinFormat: the bounded binary writer and reader

    [src/binformat.hpp] and [src/binformat.cpp].  A [BinWriter] only ever
    appends, so each of its members is the list of bytes it appends and a
    sequence of calls is their concatenation.  A [BinReader] is a view with a
    position; its members are stateful and throw [kTruncated] instead of
    reading past the end. *)
From S2P Require Import Prelude Base Hash.

(** ** Little-endian integers *)
Definition put_le (v : Z) (width : nat) : list byte :=
  map (λ i, byte_of (Z.land (Z.shiftr v (Z.of_nat i * 8)) 0xFF)) (seq 0 width).

(** The loop of [get_le], after its bounds check. *)
Definition le_value (view : list byte) (pos width : nat) : Z :=
  fold_left (λ v i, Z.lor v (Z.shiftl (byte_val (nth (pos + i) view x00)) (Z.of_nat i * 8)))
    (seq 0 width) 0.
Definition get_le (view : list byte) (pos width : nat) : outcome Z :=
  if (length view <? pos + width)%nat
  then throw_error ErrorCode.kTruncated "binary reader underflow"
  else Ok (le_value view pos width).

(** [static_cast<std::int64_t>] of an unsigned 64-bit value. *)
Definition s64 (v : Z) : Z := if v <? 2 ^ 63 then v else v - 2 ^ 64.

(** Ticks of [std::chrono::system_clock] in a millisecond (nanosecond clock). *)
Definition ticks_per_ms : Z := 1000000.

(** ** BinWriter *)
Definition w_u8 (v : Z) : list byte := [byte_of v].
Definition w_u16 (v : Z) : list byte := put_le v 2.
Definition w_u32 (v : Z) : list byte := put_le v 4.
Definition w_u64 (v : Z) : list byte := put_le v 8.
Definition w_i64 (v : Z) : list byte := put_le (u64 v) 8.
Definition w_boolean (v : bool) : list byte := w_u8 (if v then 1 else 0).
Definition w_bytes (v : list byte) : list byte := w_u64 (zlen v) ++ v.
Definition w_string (v : string) : list byte := w_bytes (make_bytes v).
Definition w_bytes_fixed (v : list byte) : list byte := v.
Definition w_id {Tag} (v : BasicId Tag) : list byte := w_u64 (id_value v).
Definition w_generation {Tag} (v : BasicGeneration Tag) : list byte := w_u64 (gen_value v).
Definition w_sha256 (v : Sha256Digest) : list byte := v.
Definition w_time_point (tp : Z) : list byte := w_i64 (Z.quot tp ticks_per_ms).

(** ** BinReader *)
Record BinReader := mkReader { view_ : list byte; pos_ : nat }.
#[export] Instance eta_BinReader : Eta BinReader := λ r, mkReader (view_ r) (pos_ r).
Abbreviation Reader := (ST BinReader CheckpointStoreError).

Definition new_reader (view : list byte) : BinReader := mkReader view 0.

Definition r_require (n : Z) : Reader unit :=
  r ← get;
  raise_if (n >? zlen (view_ r) - Z.of_nat (pos_ r)) ErrorCode.kTruncated "binary reader underflow".

Definition r_advance (n : nat) : Reader unit := modify (λ r, r <| pos_ ::= λ p, (p + n)%nat |>).

Definition r_u8 : Reader Z :=
  _ ← r_require 1;
  r ← get;
  _ ← r_advance 1;
  mret (byte_val (nth (pos_ r) (view_ r) x00)).

Definition r_le (width : nat) : Reader Z :=
  r ← get;
  v ← lift_result (get_le (view_ r) (pos_ r) width);
  _ ← r_advance width;
  mret v.
Definition r_u16 : Reader Z := r_le 2.
Definition r_u32 : Reader Z := r_le 4.
Definition r_u64 : Reader Z := r_le 8.
Definition r_i64 : Reader Z := v ← r_u64; mret (s64 v).
Definition r_boolean : Reader bool := v ← r_u8; mret (negb (v =? 0)).

(** [bytes_fixed]: [subspan] after the check. *)
Definition r_bytes_fixed (n : Z) : Reader (list byte) :=
  _ ← r_require n;
  r ← get;
  _ ← r_advance (Z.to_nat n);
  mret (take (Z.to_nat n) (drop (pos_ r) (view_ r))).
Definition r_bytes : Reader (list byte) := n ← r_u64; r_bytes_fixed n.
Definition r_string : Reader string := b ← r_bytes; mret (bytes_to_string b).
Definition r_id {Tag} : Reader (BasicId Tag) := v ← r_u64; mret (mkId v).
Definition r_generation {Tag} : Reader (BasicGeneration Tag) := v ← r_u64; mret (mkGen v).
Definition r_sha256 : Reader Sha256Digest := r_bytes_fixed 32.
Definition r_time_point : Reader Z := ms ← r_i64; mret (s64 (u64 (ms * ticks_per_ms))).
Definition r_remaining (r : BinReader) : Z := zlen (view_ r) - Z.of_nat (pos_ r).
Definition r_skip (n : Z) : Reader unit := _ ← r_require n; r_advance (Z.to_nat n).

(** ** Counts *)
Definition encode_count (n : Z) : outcome Z :=
  if n >? 0xFFFFFFFF then throw_error ErrorCode.kOverflow "vector size exceeds count field"
  else Ok (u32 n).
Definition decode_count (n max : Z) : outcome Z :=
  if n >? max then throw_error ErrorCode.kMalformed "count exceeds bound" else Ok n.

(** [for (i < n) v.push_back(p())] *)
Fixpoint r_repeat {A} (n : nat) (p : Reader A) : Reader (list A) :=
  match n with
  | O => mret []
  | S n => x ← p; xs ← r_repeat n p; mret (x :: xs)
  end.
(** A counted vector: [decode_count(r.u32(), max)] followed by the elements. *)
Definition r_vector {A} (max : Z) (p : Reader A) : Reader (list A) :=
  c ← r_u32;
  n ← lift_result (decode_count c max);
  r_repeat (Z.to_nat n) p.
(** [w.u32(static_cast<std::uint32_t>(v.size()))] followed by the elements. *)
Definition w_vector {A} (w : A → list byte) (l : list A) : list byte :=
  w_u32 (u32 (zlen l)) ++ (l ≫= w).

(** An [std::optional]: a presence flag, then the value if there is one. *)
Definition w_optional {A} (w : A → list byte) (o : option A) : list byte :=
  match o with
  | Some a => w_boolean true ++ w a
  | None => w_boolean false
  end.
Definition r_optional {A} (p : Reader A) : Reader (option A) :=
  b ← r_boolean;
  if b : bool then a ← p; mret (Some a) else mret None.

(** ** Little-endian round trip *)
Lemma length_put_le v w : length (put_le v w) = w.
Proof. unfold put_le. by rewrite length_map, length_seq. Qed.

Lemma byte_val_byte_of_land z : byte_val (byte_of (Z.land z 0xFF)) = z mod 256.
Proof.
  rewrite byte_val_of. change 0xFF with (Z.ones 8). rewrite Z.land_ones by lia.
  by rewrite Z.mod_mod by lia.
Qed.

(** A value that fits in [k] bits, with another placed above it. *)
Lemma lor_shift_add v b k : 0 ≤ k → 0 ≤ v < 2 ^ k → Z.lor v (Z.shiftl b k) = v + b * 2 ^ k.
Proof.
  intros Hk Hv. rewrite <- Z.shiftl_mul_pow2 by done.
  assert (Z.land v (Z.shiftl b k) = 0) as H0.
  { destruct (decide (v = 0)) as [->|]; [apply Z.land_0_l|].
    apply Z.bits_inj'. intros i Hi. rewrite Z.land_spec, Z.bits_0.
    destruct (decide (i < k)); [by rewrite Z.shiftl_spec_low, andb_false_r|].
    rewrite (Z.bits_above_log2 v); [done|lia|].
    apply Z.log2_lt_pow2; [lia|]. eapply Z.lt_le_trans; [apply Hv|]. apply Z.pow_le_mono_r; lia. }
  pose proof (Z.add_lor_land v (Z.shiftl b k)). lia.
Qed.

Lemma le_value_fold (f : nat → Z) (v : Z) (w : nat) :
  (∀ i, (i < w)%nat → f i = (v / 2 ^ (Z.of_nat i * 8)) mod 256) →
  fold_left (λ acc i, Z.lor acc (Z.shiftl (f i) (Z.of_nat i * 8))) (seq 0 w) 0 =
    v mod 2 ^ (Z.of_nat w * 8).
Proof.
  induction w as [|w IH]; intros Hf; [by rewrite Z.mod_1_r|].
  rewrite seq_S, fold_left_app. cbn [fold_left]. rewrite IH by (intros; apply Hf; lia).
  rewrite Nat.add_0_l, lor_shift_add, Hf by (try apply Z.mod_pos_bound; lia).
  replace (Z.of_nat (S w) * 8) with ((Z.of_nat w + 1) * 8) by lia.
  rewrite !(Z.mul_comm _ 8), !(Z.pow_mul_r 2 8) by lia. change (2 ^ 8) with 256.
  rewrite (mod_pow_succ 256) by lia. lia.
Qed.

Lemma nth_put_le v w i : (i < w)%nat →
  byte_val (nth i (put_le v w) x00) = (v / 2 ^ (Z.of_nat i * 8)) mod 256.
Proof.
  intros Hi. unfold put_le. erewrite nth_indep by (rewrite length_map, length_seq; done).
  rewrite (map_nth (λ i, byte_of (Z.land (Z.shiftr v (Z.of_nat i * 8)) 0xFF)) _ 0%nat).
  rewrite seq_nth by done. rewrite byte_val_byte_of_land, Z.shiftr_div_pow2 by lia. done.
Qed.

Lemma le_value_put_le pre post v w :
  le_value (pre ++ put_le v w ++ post) (length pre) w = v mod 2 ^ (Z.of_nat w * 8).
Proof.
  unfold le_value. apply le_value_fold. intros i Hi.
  rewrite app_nth2_plus, app_nth1 by (rewrite length_put_le; lia). by apply nth_put_le.
Qed.

(** ** Readers and the encodings they consume

    [reads p enc v]: wherever the bytes [enc] occur in a view, [p] started at
    them returns [v] and stops right after them.  The property composes along
    [bind], so the round trip of a record follows from those of its fields. *)
Definition reads {A} (p : Reader A) (enc : list byte) (v : A) : Prop :=
  ∀ pre post, p (mkReader (pre ++ enc ++ post) (length pre))
    = (Ok v, mkReader (pre ++ enc ++ post) (length (pre ++ enc))).

Lemma reads_ret {A} (v : A) : reads (mret v) [] v.
Proof. intros pre post. by rewrite app_nil_r. Qed.

Lemma reads_bind {A B} (p : Reader A) (k : A → Reader B) e1 e2 v1 v2 :
  reads p e1 v1 → reads (k v1) e2 v2 → reads (p ≫= k) (e1 ++ e2) v2.
Proof.
  intros H1 H2 pre post. specialize (H1 pre (e2 ++ post)). specialize (H2 (pre ++ e1) post).
  rewrite <- !app_assoc in *. by rewrite (st_bind_run _ _ _ _ _ H1), H2.
Qed.

(** The last step of a chain: nothing is left to consume. *)
Lemma reads_bind_last {A B} (p : Reader A) (k : A → Reader B) e v1 v2 :
  reads p e v1 → reads (k v1) [] v2 → reads (p ≫= k) e v2.
Proof. intros H1 H2. rewrite <- (app_nil_r e). by eapply reads_bind. Qed.

Lemma reads_lift {A B} (r : outcome A) (k : A → Reader B) a e v :
  r = Ok a → reads (k a) e v → reads (lift_result r ≫= k) e v.
Proof. intros -> H pre post. apply H. Qed.

Lemma reads_le w v : reads (r_le w) (put_le v w) (v mod 2 ^ (Z.of_nat w * 8)).
Proof.
  intros pre post. unfold r_le, get_le, mbind, ST_bind, get, lift_result, r_advance, modify.
  cbn [view_ pos_].
  assert ((length (pre ++ put_le v w ++ post) <? length pre + w)%nat = false) as ->.
  { apply Nat.ltb_ge. rewrite !length_app, length_put_le. lia. }
  rewrite le_value_put_le. unfold mret, ST_ret. cbn [update view_ pos_].
  by rewrite length_app, length_put_le.
Qed.

Lemma reads_u64 v : is_u64 v → reads r_u64 (w_u64 v) v.
Proof. intros Hv. pose proof (reads_le 8 v) as H. by rewrite Z.mod_small in H. Qed.
Lemma reads_u32 v : is_u32 v → reads r_u32 (w_u32 v) v.
Proof. intros Hv. pose proof (reads_le 4 v) as H. by rewrite Z.mod_small in H. Qed.
Lemma reads_u16 v : is_u16 v → reads r_u16 (w_u16 v) v.
Proof. intros Hv. pose proof (reads_le 2 v) as H. by rewrite Z.mod_small in H. Qed.

Lemma require_ok n r : n ≤ zlen (view_ r) - Z.of_nat (pos_ r) → r_require n r = (Ok tt, r).
Proof.
  intros Hn. unfold r_require, raise_if, throw_if, mbind, ST_bind, get.
  by destruct (Z.gtb_spec n (zlen (view_ r) - Z.of_nat (pos_ r))); [lia|].
Qed.

Lemma reads_bytes_fixed n b : zlen b = n → reads (r_bytes_fixed n) b b.
Proof.
  intros <- pre post. unfold r_bytes_fixed.
  rewrite (st_bind_run _ _ _ tt (mkReader (pre ++ b ++ post) (length pre))).
  - unfold get, r_advance, modify, mret, ST_ret, mbind, ST_bind. cbn [update view_ pos_].
    unfold zlen. rewrite Nat2Z.id, drop_app_length, take_app_length, length_app. done.
  - apply require_ok. cbn [view_ pos_]. rewrite !zlen_app. unfold zlen. lia.
Qed.

Lemma reads_u8 v : is_u8 v → reads r_u8 (w_u8 v) v.
Proof.
  intros Hv pre post. unfold r_u8.
  rewrite (st_bind_run _ _ _ tt (mkReader (pre ++ w_u8 v ++ post) (length pre))).
  - unfold get, r_advance, modify, mret, ST_ret, mbind, ST_bind. cbn [update view_ pos_].
    rewrite app_nth2, Nat.sub_diag by lia. cbn [w_u8 app nth].
    rewrite byte_val_of, Z.mod_small by done. by rewrite length_app.
  - apply require_ok. cbn [view_ pos_]. rewrite !zlen_app. unfold zlen, w_u8. simpl. lia.
Qed.

Lemma s64_u64 v : - 2 ^ 63 ≤ v < 2 ^ 63 → s64 (u64 v) = v.
Proof. intros Hv. unfold s64, u64. destruct (Z.ltb_spec (v mod 2 ^ 64) (2 ^ 63)); lia. Qed.

Lemma reads_i64 v : - 2 ^ 63 ≤ v < 2 ^ 63 → reads r_i64 (w_i64 v) v.
Proof.
  intros Hv. unfold r_i64, w_i64. eapply reads_bind_last.
  - apply reads_u64, u64_range.
  - rewrite s64_u64 by done. apply reads_ret.
Qed.
Lemma reads_id {Tag} (v : BasicId Tag) : wf_id v → reads r_id (w_id v) v.
Proof.
  intros Hv. eapply reads_bind_last; [by apply reads_u64|]. destruct v. apply reads_ret.
Qed.
Lemma reads_generation {Tag} (v : BasicGeneration Tag) :
  wf_gen v → reads r_generation (w_generation v) v.
Proof.
  intros Hv. eapply reads_bind_last; [by apply reads_u64|]. destruct v. apply reads_ret.
Qed.
Lemma reads_boolean b : reads r_boolean (w_boolean b) b.
Proof.
  eapply reads_bind_last; [apply reads_u8; by destruct b|]. destruct b; apply reads_ret.
Qed.
Lemma reads_sha256 d : length d = 32%nat → reads r_sha256 (w_sha256 d) d.
Proof. intros Hd. apply reads_bytes_fixed. unfold zlen. by rewrite Hd. Qed.
Lemma reads_bytes b : is_u64 (zlen b) → reads r_bytes (w_bytes b) b.
Proof. intros Hb. eapply reads_bind; [by apply reads_u64|]. by apply reads_bytes_fixed. Qed.
Lemma reads_string s : is_u64 (zlen (make_bytes s)) → reads r_string (w_string s) s.
Proof.
  intros Hs. eapply reads_bind_last; [by apply reads_bytes|].
  unfold bytes_to_string, make_bytes. rewrite String.string_of_list_byte_of_string. apply reads_ret.
Qed.

(** A time point comes back truncated to the millisecond. *)
Definition trunc_ms (tp : Z) : Z := Z.quot tp ticks_per_ms * ticks_per_ms.
Definition wf_time (tp : Z) : Prop := - 2 ^ 63 ≤ tp < 2 ^ 63.

Lemma trunc_ms_range tp : wf_time tp → wf_time (trunc_ms tp).
Proof. unfold wf_time, trunc_ms, ticks_per_ms. intros H. Z.to_euclidean_division_equations; lia. Qed.

Lemma reads_time_point tp : wf_time tp → reads r_time_point (w_time_point tp) (trunc_ms tp).
Proof.
  intros Ht. eapply reads_bind_last; [apply reads_i64|].
  - unfold wf_time, ticks_per_ms in *. Z.to_euclidean_division_equations; lia.
  - fold (trunc_ms tp). rewrite s64_u64 by (by apply trunc_ms_range). apply reads_ret.
Qed.

Lemma reads_optional {A} (p : Reader A) (w : A → list byte) o :
  (∀ a, o = Some a → reads p (w a) a) → reads (r_optional p) (w_optional w o) o.
Proof.
  intros H. unfold r_optional. destruct o as [a|]; cbn [w_optional].
  - eapply reads_bind; [apply reads_boolean|]. cbv iota beta.
    eapply reads_bind_last; [by apply H|]. apply reads_ret.
  - eapply reads_bind_last; [apply reads_boolean|]. apply reads_ret.
Qed.

(** [same] relates what is written to what is read back: equality for most
    elements, truncation of times for the records that hold one. *)
Lemma reads_repeat {A} (p : Reader A) (w : A → list byte) (f : A → A) l :
  (∀ a, a ∈ l → reads p (w a) (f a)) → reads (r_repeat (length l) p) (l ≫= w) (f <$> l).
Proof.
  induction l as [|a l IH]; intros H; simpl; [apply reads_ret|].
  eapply reads_bind; [apply H; left|].
  eapply reads_bind_last; [apply IH; intros; apply H; by right|]. apply reads_ret.
Qed.

Lemma reads_vector_map {A} max (p : Reader A) (w : A → list byte) (f : A → A) l :
  max < 2 ^ 32 → zlen l ≤ max → (∀ a, a ∈ l → reads p (w a) (f a)) →
  reads (r_vector max p) (w_vector w l) (f <$> l).
Proof.
  intros Hm Hl H. pose proof (zlen_nonneg l). unfold w_vector, r_vector.
  rewrite u32_id by (unfold is_u32; lia).
  eapply reads_bind; [apply reads_u32; unfold is_u32; lia|].
  eapply reads_lift.
  - unfold decode_count. by destruct (Z.gtb_spec (zlen l) max); [lia|].
  - unfold zlen. rewrite Nat2Z.id. by apply reads_repeat.
Qed.

Lemma reads_vector {A} max (p : Reader A) (w : A → list byte) l :
  max < 2 ^ 32 → zlen l ≤ max → (∀ a, a ∈ l → reads p (w a) a) →
  reads (r_vector max p) (w_vector w l) l.
Proof.
  intros. rewrite <- (list_fmap_id l) at 2. by apply reads_vector_map.
Qed.

Lemma reads_enum {E} (of_int : Z → E) (to_int : E → Z) e :
  is_u8 (to_int e) → of_int (to_int e) = e →
  reads (v ← r_u8; mret (of_int v)) (w_u8 (to_int e)) e.
Proof.
  intros Hr He. eapply reads_bind_last; [by apply reads_u8|]. rewrite He. apply reads_ret.
Qed.

(** Reading a whole buffer. *)
Lemma reads_run {A} (p : Reader A) enc v : reads p enc v →
  p (new_reader enc) = (Ok v, mkReader enc (length enc)).
Proof. intros H. specialize (H [] []). by rewrite app_nil_r in H. Qed.

Create HintDb codec.
#[export] Hint Resolve reads_ret reads_u8 reads_u16 reads_u32 reads_u64 reads_i64 reads_id
  reads_generation reads_boolean reads_sha256 reads_bytes reads_string reads_time_point
  reads_optional reads_vector reads_enum : codec.

(** ** Bounds: a reader never runs past its view

    [in_bounds]: the view does not change, the position never moves back, and
    a position inside the view stays inside it. *)
Definition in_bounds (r r' : BinReader) : Prop :=
  view_ r' = view_ r ∧ (pos_ r ≤ pos_ r')%nat ∧
  ((pos_ r ≤ length (view_ r))%nat → (pos_ r' ≤ length (view_ r))%nat).

#[export] Instance in_bounds_preorder : PreOrder in_bounds.
Proof.
  split.
  - intros r. by repeat split.
  - intros r1 r2 r3 (Hv1 & Hp1 & Hb1) (Hv2 & Hp2 & Hb2). rewrite Hv1 in *.
    split; [done|]. split; [lia|]. auto.
Qed.

Lemma bounds_le w : frames in_bounds (r_le w).
Proof.
  intros r. unfold r_le, get_le, r_advance, mbind, ST_bind, get, lift_result, modify, mret, ST_ret.
  destruct (Nat.ltb_spec (length (view_ r)) (pos_ r + w)); [simpl; reflexivity|].
  unfold in_bounds. cbn [update view_ pos_ snd]. repeat split; lia.
Qed.

Lemma bounds_advance n {A} (k : BinReader → Reader A) (r : BinReader) :
  0 ≤ n → (∀ r0, frames in_bounds (k r0)) →
  in_bounds r ((_ ← r_require n; r0 ← get; _ ← r_advance (Z.to_nat n); k r0) r).2.
Proof.
  intros Hn Hk. unfold r_require, raise_if, throw_if, raise, throw, mbind at 1, ST_bind at 1.
  unfold mbind at 1, ST_bind at 1, get at 1.
  destruct (Z.gtb_spec n (zlen (view_ r) - Z.of_nat (pos_ r))); [simpl; reflexivity|].
  unfold mret, ST_ret, mbind, ST_bind, get, r_advance, modify.
  etrans; [|apply Hk]. unfold in_bounds, zlen in *. cbn [update view_ pos_]. repeat split; lia.
Qed.

Lemma bounds_u8 : frames in_bounds r_u8.
Proof. intros r. apply (bounds_advance 1 (λ r0, mret _)); [done|]. intros. apply frames_ret, _. Qed.

Lemma bounds_bytes_fixed n : 0 ≤ n → frames in_bounds (r_bytes_fixed n).
Proof. intros Hn r. apply bounds_advance; [done|]. intros. apply frames_ret, _. Qed.

Lemma bounds_repeat {A} n (p : Reader A) : frames in_bounds p → frames in_bounds (r_repeat n p).
Proof. intros Hp. induction n; simpl; solve_frames; auto. Qed.

(** ** The bytes of a little-endian field are determined by its value *)
Section le_digits.
Variable f : nat → Z.
Hypothesis f_byte : ∀ i, 0 ≤ f i < 256.

Let le_fold (w : nat) : Z :=
  fold_left (λ acc i, Z.lor acc (Z.shiftl (f i) (Z.of_nat i * 8))) (seq 0 w) 0.

Lemma le_fold_range w : 0 ≤ le_fold w < 2 ^ (Z.of_nat w * 8).
Proof.
  induction w as [|w IH]; [done|]. unfold le_fold in *. rewrite seq_S, fold_left_app.
  cbn [fold_left]. rewrite lor_shift_add by (lia || done). rewrite Nat.add_0_l.
  replace (Z.of_nat (S w) * 8) with (Z.of_nat w * 8 + 8) by lia.
  rewrite Z.pow_add_r by lia. change (2 ^ 8) with 256. pose proof (f_byte w). nia.
Qed.

Lemma le_fold_S w : le_fold (S w) = le_fold w + f w * 2 ^ (Z.of_nat w * 8).
Proof.
  pose proof (le_fold_range w). unfold le_fold in *. rewrite seq_S, fold_left_app.
  cbn [fold_left]. rewrite lor_shift_add by (lia || done). by rewrite Nat.add_0_l.
Qed.

Lemma le_fold_digit w i : (i < w)%nat → (le_fold w / 2 ^ (Z.of_nat i * 8)) mod 256 = f i.
Proof.
  induction w as [|w IH]; [lia|]. intros Hi. rewrite le_fold_S.
  destruct (decide (i = w)) as [->|].
  - rewrite Z.div_add by (apply Z.pow_nonzero; lia).
    rewrite (Z.div_small (le_fold w)) by apply le_fold_range. apply Z.mod_small, f_byte.
  - rewrite <- IH by lia.
    replace (Z.of_nat w * 8) with ((Z.of_nat w * 8 - Z.of_nat i * 8 - 8) + 8 + Z.of_nat i * 8) by lia.
    rewrite !Z.pow_add_r, !Z.mul_assoc, Z.div_add by (try apply Z.pow_nonzero; lia).
    change (2 ^ 8) with 256. by rewrite Z.mod_add by lia.
Qed.
End le_digits.

Lemma nth_take_drop {A} (v : list A) pos w i (d : A) :
  (i < w)%nat → nth i (take w (drop pos v)) d = nth (pos + i) v d.
Proof.
  intros Hi. rewrite !nth_lookup, lookup_take_lt, lookup_drop by done. done.
Qed.

Lemma put_le_le_value v pos w : (pos + w ≤ length v)%nat →
  put_le (le_value v pos w) w = take w (drop pos v).
Proof.
  intros Hl. apply nth_ext with x00 x00; rewrite length_put_le.
  { rewrite length_take, length_drop. lia. }
  intros i Hi. apply byte_val_inj. rewrite nth_put_le, nth_take_drop by done. unfold le_value.
  apply (le_fold_digit (λ i, byte_val (nth (pos + i) v x00))); [|done].
  intros j. apply byte_val_range.
Qed.

Lemma le_value_range v pos w : 0 ≤ le_value v pos w < 2 ^ (Z.of_nat w * 8).
Proof.
  apply (le_fold_range (λ i, byte_val (nth (pos + i) v x00))). intros j. apply byte_val_range.
Qed.
