(* ===== verification/Protocol.v ===== *)
(** * Protocol: framed messages

    [include/checkpointstore/protocol/protocol.hpp] and [src/protocol.cpp]. *)
From S2P Require Import Prelude Base Hash BinFormat.

(** ** Data *)
Module MessageKind.
Inductive t := kHeartbeat | kRegisterBackend | kCreateFamily | kPublish | kVerify | kRestore
  | kRetire | kGcRun | kSave | kStatus | kRetain | kAdvanceEpoch | kAck | kNack | kBye
  | other (v : Z).
#[global] Instance t_eq_dec : EqDecision t.
Proof. solve_decision. Defined.

Definition to_u8 (e : t) : Z :=
  match e with | kHeartbeat => 0 | kRegisterBackend => 1 | kCreateFamily => 2 | kPublish => 3
    | kVerify => 4 | kRestore => 5 | kRetire => 6 | kGcRun => 7 | kSave => 8 | kStatus => 9
    | kRetain => 10 | kAdvanceEpoch => 11 | kAck => 12 | kNack => 13 | kBye => 14 | other v =>
    v end.
Definition of_u8 (v : Z) : t :=
  match v with | 0 => kHeartbeat | 1 => kRegisterBackend | 2 => kCreateFamily | 3 => kPublish
    | 4 => kVerify | 5 => kRestore | 6 => kRetire | 7 => kGcRun | 8 => kSave | 9 => kStatus
    | 10 => kRetain | 11 => kAdvanceEpoch | 12 => kAck | 13 => kNack | 14 => kBye
    | _ => other v end.
Definition to_string (e : t) : string :=
  match e with
  | kHeartbeat => "HEARTBEAT"
  | kRegisterBackend => "REGISTER_BACKEND"
  | kCreateFamily => "CREATE_FAMILY"
  | kPublish => "PUBLISH"
  | kVerify => "VERIFY"
  | kRestore => "RESTORE"
  | kRetire => "RETIRE"
  | kGcRun => "GC_RUN"
  | kSave => "SAVE"
  | kStatus => "STATUS"
  | kRetain => "RETAIN"
  | kAdvanceEpoch => "ADVANCE_EPOCH"
  | kAck => "ACK"
  | kNack => "NACK"
  | kBye => "BYE"
  | other _ => "UNKNOWN"
  end.

Definition wf (e : t) : Prop :=
  match e with other v => 15 ≤ v < 2 ^ 8 | _ => True end.
Lemma MessageKind_of_to e : wf e → of_u8 (to_u8 e) = e.
Proof. enum_of_to wf of_u8 to_u8. Qed.
Lemma MessageKind_to_of v : to_u8 (of_u8 v) = v.
Proof. unfold of_u8. repeat case_match; reflexivity. Qed.
Lemma MessageKind_range e : wf e → is_u8 (to_u8 e).
Proof. enum_range wf to_u8. Qed.
End MessageKind.

Definition kMagic : Z := 0x52465343.
Definition kVersion : Z := 1.
Definition kMaxPayloadBytes : Z := 16 * 1024 * 1024.

Record DecodedFrame := mkFrame {
  df_kind : MessageKind.t;
  df_payload : list byte
}.
#[export] Instance DecodedFrame_eq_dec : EqDecision DecodedFrame.
Proof. solve_decision. Defined.

Module FrameRead.
Inductive t := kOk | kNeedMore | kError.
End FrameRead.

(** [frame] is [None] where the code leaves it default-initialised. *)
Record FrameReadResult := mkFrameReadResult {
  fr_result : FrameRead.t;
  fr_frame : option DecodedFrame;
  fr_consumed : Z
}.

(** ** Encoding *)

(** The [put_le32] lambda of [encode_frame]. *)
Definition put_le32 (v : Z) : list byte :=
  [byte_of (Z.land (Z.shiftr v 0) 0xFF); byte_of (Z.land (Z.shiftr v 8) 0xFF);
   byte_of (Z.land (Z.shiftr v 16) 0xFF); byte_of (Z.land (Z.shiftr v 24) 0xFF)].

Definition encode_frame (kind : MessageKind.t) (payload : list byte) : list byte :=
  put_le32 kMagic
  ++ [byte_of (Z.land kVersion 0xFF); byte_of (Z.land (Z.shiftr kVersion 8) 0xFF)]
  ++ [byte_of (MessageKind.to_u8 kind)]
  ++ put_le32 (u32 (zlen payload))
  ++ payload
  ++ put_le32 (crc32 payload 0).

(** ** Decoding *)
Definition at_pos (v : list byte) (pos : nat) : Z := byte_val (nth pos v x00).

Definition read_le32 (v : list byte) (pos : nat) : outcome Z :=
  if (length v <? pos + 4)%nat
  then throw_error ErrorCode.kTruncated "protocol frame header truncated"
  else Ok (Z.lor (Z.lor (Z.lor (Z.shiftl (at_pos v pos) 0) (Z.shiftl (at_pos v (pos + 1)) 8))
                        (Z.shiftl (at_pos v (pos + 2)) 16)) (Z.shiftl (at_pos v (pos + 3)) 24)).

Definition read_le16 (v : list byte) (pos : nat) : outcome Z :=
  if (length v <? pos + 2)%nat
  then throw_error ErrorCode.kTruncated "protocol frame header truncated"
  else Ok (Z.lor (at_pos v pos) (Z.shiftl (at_pos v (pos + 1)) 8)).

(** [4 + 2 + 1 + 4] *)
Definition header_size : nat := 11.

Definition decode_frame (view : list byte) : outcome DecodedFrame :=
  if (length view <? 4 + 2 + 1 + 4 + 4)%nat
  then throw_error ErrorCode.kTruncated "protocol frame too small"
  else
    magic ← read_le32 view 0;
    if negb (magic =? kMagic)
    then throw_error ErrorCode.kBadMagic "protocol magic mismatch"
    else
      version ← read_le16 view 4;
      if negb (version =? kVersion)
      then throw_error ErrorCode.kUnsupportedVersion "protocol version unsupported"
      else
        let raw_kind := at_pos view 6 in
        if raw_kind >? MessageKind.to_u8 MessageKind.kBye
        then throw_error ErrorCode.kMalformed "protocol invalid message kind"
        else
          len ← read_le32 view 7;
          if len >? kMaxPayloadBytes
          then throw_error ErrorCode.kMalformed "protocol payload too large"
          else
            if zlen view <? Z.of_nat header_size + len + 4
            then throw_error ErrorCode.kTruncated "protocol payload truncated"
            else
              let payload := take (Z.to_nat len) (drop header_size view) in
              crc ← read_le32 view (header_size + Z.to_nat len);
              if negb (crc32 payload 0 =? crc)
              then throw_error ErrorCode.kChecksumMismatch "protocol payload checksum mismatch"
              else if negb (zlen view =? Z.of_nat header_size + len + 4)
              then throw_error ErrorCode.kMalformed "protocol frame trailing garbage"
              else Ok (mkFrame (MessageKind.of_u8 raw_kind) payload).

(** [try_read_frame]: exceptions of [decode_frame] pass through it. *)
Definition try_read_frame (buffer : list byte) : outcome FrameReadResult :=
  if (length buffer <? 4 + 2 + 1 + 4 + 4)%nat
  then Ok (mkFrameReadResult FrameRead.kNeedMore None 0)
  else
    magic ← read_le32 buffer 0;
    if negb (magic =? kMagic) then Ok (mkFrameReadResult FrameRead.kError None 0)
    else
      len ← read_le32 buffer 7;
      if len >? kMaxPayloadBytes then Ok (mkFrameReadResult FrameRead.kError None 0)
      else
        let total := 4 + 2 + 1 + 4 + len + 4 in
        if zlen buffer <? total then Ok (mkFrameReadResult FrameRead.kNeedMore None 0)
        else
          frame ← decode_frame (take (Z.to_nat total) buffer);
          Ok (mkFrameReadResult FrameRead.kOk (Some frame) total).

(** ** Little-endian fields *)
Lemma put_le32_eq v : put_le32 v = put_le v 4.
Proof. reflexivity. Qed.

Lemma read_le32_eq v pos : (pos + 4 ≤ length v)%nat → read_le32 v pos = Ok (le_value v pos 4).
Proof.
  intros H. unfold read_le32. rewrite (proj2 (Nat.ltb_ge _ _)) by done.
  unfold le_value, at_pos. cbn [seq fold_left]. rewrite Nat.add_0_r. done.
Qed.
Lemma read_le16_eq v pos : (pos + 2 ≤ length v)%nat → read_le16 v pos = Ok (le_value v pos 2).
Proof.
  intros H. unfold read_le16. rewrite (proj2 (Nat.ltb_ge _ _)) by done.
  unfold le_value, at_pos. cbn [seq fold_left]. rewrite Nat.add_0_r, Z.lor_0_l, Z.shiftl_0_r. done.
Qed.

Lemma read_le32_put pre v post : is_u32 v →
  read_le32 (pre ++ put_le32 v ++ post) (length pre) = Ok v.
Proof.
  intros Hv. rewrite put_le32_eq, read_le32_eq by (rewrite !length_app, length_put_le; lia).
  rewrite le_value_put_le. f_equal. by apply Z.mod_small.
Qed.

Lemma read_le16_put pre v post : is_u16 v →
  read_le16 (pre ++ put_le v 2 ++ post) (length pre) = Ok v.
Proof.
  intros Hv. rewrite read_le16_eq by (rewrite !length_app, length_put_le; lia).
  rewrite le_value_put_le. f_equal. by apply Z.mod_small.
Qed.

(** ** The layout of a frame *)
Definition frame_header (k : MessageKind.t) (n : Z) : list byte :=
  put_le32 kMagic
  ++ [byte_of (Z.land kVersion 0xFF); byte_of (Z.land (Z.shiftr kVersion 8) 0xFF)]
  ++ [byte_of (MessageKind.to_u8 k)] ++ put_le32 (u32 n).

Lemma encode_frame_split k p :
  encode_frame k p = frame_header k (zlen p) ++ p ++ put_le32 (crc32 p 0).
Proof. unfold encode_frame, frame_header. by rewrite <- !app_assoc. Qed.

Lemma length_frame_header k n : length (frame_header k n) = header_size.
Proof. reflexivity. Qed.
Lemma length_encode_frame k p : length (encode_frame k p) = (15 + length p)%nat.
Proof.
  rewrite encode_frame_split, !length_app, length_frame_header, put_le32_eq, length_put_le.
  unfold header_size. lia.
Qed.

Lemma header_magic k n post : read_le32 (frame_header k n ++ post) 0 = Ok kMagic.
Proof. unfold frame_header. rewrite <- app_assoc. by apply (read_le32_put []). Qed.
Lemma header_version k n post : read_le16 (frame_header k n ++ post) 4 = Ok kVersion.
Proof.
  unfold frame_header. rewrite <- !app_assoc. by apply (read_le16_put (put_le32 kMagic)).
Qed.
Lemma header_kind k n post : MessageKind.wf k →
  at_pos (frame_header k n ++ post) 6 = MessageKind.to_u8 k.
Proof.
  intros Hk. unfold at_pos, frame_header. cbn [app put_le32 nth].
  rewrite byte_val_of. apply Z.mod_small. by apply MessageKind.MessageKind_range.
Qed.
Lemma header_len k n post : is_u32 n → read_le32 (frame_header k n ++ post) 7 = Ok n.
Proof.
  intros Hn. unfold frame_header. rewrite u32_id by done. rewrite !app_assoc.
  rewrite <- (app_assoc _ _ post).
  by apply (read_le32_put ((put_le32 kMagic ++ [byte_of (Z.land kVersion 0xFF);
    byte_of (Z.land (Z.shiftr kVersion 8) 0xFF)]) ++ [byte_of (MessageKind.to_u8 k)])).
Qed.

(** The kinds that may travel: the enumerators up to [kBye]. *)
Definition kind_ok (k : MessageKind.t) : Prop :=
  match k with MessageKind.other _ => False | _ => True end.
Lemma kind_ok_wf k : kind_ok k → MessageKind.wf k ∧ MessageKind.to_u8 k ≤ 14.
Proof. by destruct k. Qed.
Lemma kind_ok_of v : 0 ≤ v ≤ 14 → kind_ok (MessageKind.of_u8 v).
Proof. intros Hv. unfold MessageKind.of_u8. repeat case_match; simpl; lia || done. Qed.

(** Decoding a well-formed header, any payload of the announced length and any
    checksum comes down to the checksum test and the trailing bytes. *)
Lemma decode_after_header k p c post : kind_ok k → zlen p ≤ kMaxPayloadBytes → is_u32 c →
  decode_frame (frame_header k (zlen p) ++ p ++ put_le32 c ++ post) =
    if negb (crc32 p 0 =? c)
    then throw_error ErrorCode.kChecksumMismatch "protocol payload checksum mismatch"
    else if negb (zlen post =? 0)
    then throw_error ErrorCode.kMalformed "protocol frame trailing garbage"
    else Ok (mkFrame k p).
Proof.
  intros [Hwf Hk]%kind_ok_wf Hp Hc. pose proof (zlen_nonneg p). pose proof (zlen_nonneg post).
  assert (is_u32 (zlen p)) as Hu by (unfold is_u32, kMaxPayloadBytes in *; lia).
  assert (zlen (frame_header k (zlen p) ++ p ++ put_le32 c ++ post) = 15 + zlen p + zlen post) as Hv.
  { rewrite !zlen_app. change (zlen (frame_header _ _)) with 11. change (zlen (put_le32 c)) with 4. lia. }
  unfold decode_frame. rewrite (proj2 (Nat.ltb_ge _ _)) by (unfold zlen in *; lia).
  rewrite header_magic. cbn [mbind result_bind]. rewrite Z.eqb_refl. cbn [negb].
  rewrite header_version. cbn [mbind result_bind]. rewrite Z.eqb_refl. cbn [negb].
  rewrite header_kind by done. rewrite MessageKind.MessageKind_of_to by done.
  destruct (Z.gtb_spec (MessageKind.to_u8 k) (MessageKind.to_u8 MessageKind.kBye)); [simpl in *; lia|].
  rewrite header_len by done. cbn [mbind result_bind].
  destruct (Z.gtb_spec (zlen p) kMaxPayloadBytes); [lia|].
  rewrite Hv. destruct (Z.ltb_spec (15 + zlen p + zlen post) (Z.of_nat header_size + zlen p + 4));
    [unfold header_size in *; lia|].
  replace (take (Z.to_nat (zlen p)) (drop header_size (frame_header k (zlen p) ++ p ++ put_le32 c ++ post)))
    with p.
  - rewrite app_assoc. replace (header_size + Z.to_nat (zlen p))%nat
      with (length (frame_header k (zlen p) ++ p)).
    + rewrite read_le32_put by done. cbn [mbind result_bind].
      destruct (crc32 p 0 =? c); cbn [negb]; [|done].
      destruct (Z.eqb_spec (zlen post) 0), (Z.eqb_spec (15 + zlen p + zlen post)
        (Z.of_nat header_size + zlen p + 4)); unfold header_size in *; lia || done.
    + rewrite length_app, length_frame_header. unfold zlen. lia.
  - unfold zlen at 1. rewrite Nat2Z.id.
    change header_size with (length (frame_header k (zlen p))) at 1.
    by rewrite drop_app_length, take_app_length.
Qed.

Lemma decode_encode k p : kind_ok k → zlen p ≤ kMaxPayloadBytes →
  decode_frame (encode_frame k p) = Ok (mkFrame k p).
Proof.
  intros Hk Hp. rewrite encode_frame_split, <- (app_nil_r (put_le32 _)).
  rewrite decode_after_header by (auto using is_u32_crc). by rewrite Z.eqb_refl.
Qed.

(** Splitting a view along the frame layout. *)
Lemma view_split (v : list byte) n : (15 + n = length v)%nat →
  v = take 4 (drop 0 v) ++ take 2 (drop 4 v) ++ [nth 6 v x00] ++ take 4 (drop 7 v)
      ++ take n (drop 11 v) ++ take 4 (drop (11 + n) v).
Proof.
  intros Hn. do 11 (destruct v as [|? v]; [simpl in Hn; lia|]). simpl. do 11 f_equal.
  simpl in Hn. rewrite (take_ge (drop n v)) by (rewrite length_drop; lia). by rewrite take_drop.
Qed.

Lemma le_bytes_eq v pos w x : (pos + w ≤ length v)%nat → le_value v pos w = x →
  take w (drop pos v) = put_le x w.
Proof. intros Hl <-. symmetry. by apply put_le_le_value. Qed.

(** Whatever decodes is exactly the encoding of what it decodes to. *)
Lemma decode_canonical v f : decode_frame v = Ok f →
  kind_ok (df_kind f) ∧ zlen (df_payload f) ≤ kMaxPayloadBytes ∧
  v = encode_frame (df_kind f) (df_payload f).
Proof.
  unfold decode_frame. destruct (Nat.ltb_spec (length v) (4 + 2 + 1 + 4 + 4)) as [|Hlen]; [done|].
  rewrite !read_le32_eq, read_le16_eq by lia. cbn [mbind result_bind].
  destruct (Z.eqb_spec (le_value v 0 4) kMagic) as [Hm|]; [cbn [negb]|done].
  destruct (Z.eqb_spec (le_value v 4 2) kVersion) as [Hver|]; [cbn [negb]|done].
  destruct (Z.gtb_spec (at_pos v 6) (MessageKind.to_u8 MessageKind.kBye)) as [|Hkind]; [done|].
  pose proof (le_value_range v 7 4) as Hrange. set (n := le_value v 7 4) in *.
  destruct (Z.gtb_spec n kMaxPayloadBytes) as [|Hmax]; [done|].
  destruct (Z.ltb_spec (zlen v) (Z.of_nat header_size + n + 4)) as [|Htot]; [done|].
  unfold header_size in *. rewrite read_le32_eq by (unfold zlen in Htot; lia). cbn [mbind result_bind].
  set (p := take (Z.to_nat n) (drop 11 v)).
  destruct (Z.eqb_spec (crc32 p 0) (le_value v (11 + Z.to_nat n) 4)) as [Hcrc|]; [cbn [negb]|done].
  destruct (Z.eqb_spec (zlen v) (Z.of_nat 11 + n + 4)) as [Heq|]; [cbn [negb]|done].
  intros [= <-]. cbn [df_kind df_payload]. unfold zlen in Heq.
  assert (zlen p = n) as Hzp. { unfold p, zlen. rewrite length_take, length_drop. lia. }
  pose proof (byte_val_range (nth 6 v x00)) as Hk6. unfold at_pos in *. simpl in Hkind.
  split; [apply kind_ok_of; lia|]. split; [lia|].
  rewrite (view_split v (Z.to_nat n)) at 1 by lia. unfold encode_frame.
  rewrite (le_bytes_eq v 0 4 kMagic), (le_bytes_eq v 4 2 kVersion), (le_bytes_eq v 7 4 n),
    (le_bytes_eq v (11 + Z.to_nat n) 4 (crc32 p 0)) by (done || lia).
  rewrite !put_le32_eq, Hzp, (u32_id n), MessageKind.MessageKind_to_of, byte_of_val by (unfold is_u32; lia).
  reflexivity.
Qed.

(** ** Reading frames off a byte stream *)
Lemma try_read_after_header k n rest : kind_ok k → 0 ≤ n ≤ kMaxPayloadBytes → 4 ≤ zlen rest →
  try_read_frame (frame_header k n ++ rest) =
    if zlen rest <? n + 4 then Ok (mkFrameReadResult FrameRead.kNeedMore None 0)
    else
      frame ← decode_frame (frame_header k n ++ take (Z.to_nat (n + 4)) rest);
      Ok (mkFrameReadResult FrameRead.kOk (Some frame) (15 + n)).
Proof.
  intros Hk Hn Hr. unfold try_read_frame.
  assert (zlen (frame_header k n ++ rest) = 11 + zlen rest) as Hz by (rewrite zlen_app; done).
  rewrite (proj2 (Nat.ltb_ge _ _)) by (unfold zlen in *; lia).
  rewrite header_magic. cbn [mbind result_bind]. rewrite Z.eqb_refl. cbn [negb].
  rewrite header_len by (unfold is_u32, kMaxPayloadBytes in *; lia). cbn [mbind result_bind].
  destruct (Z.gtb_spec n kMaxPayloadBytes); [lia|]. rewrite Hz.
  replace (4 + 2 + 1 + 4 + n + 4) with (15 + n) by lia.
  destruct (Z.ltb_spec (11 + zlen rest) (15 + n)), (Z.ltb_spec (zlen rest) (n + 4)); try lia; [done|].
  replace (Z.to_nat (15 + n)) with (length (frame_header k n) + Z.to_nat (n + 4))%nat
    by (rewrite length_frame_header; unfold header_size; lia).
  by rewrite take_app_add.
Qed.

Lemma try_read_frame_stream k p rest : kind_ok k → zlen p ≤ kMaxPayloadBytes →
  try_read_frame (encode_frame k p ++ rest) =
    Ok (mkFrameReadResult FrameRead.kOk (Some (mkFrame k p)) (zlen (encode_frame k p))).
Proof.
  intros Hk Hp. pose proof (zlen_nonneg p). pose proof (zlen_nonneg rest).
  rewrite encode_frame_split, <- !app_assoc, try_read_after_header by
    (done || lia || (rewrite !zlen_app; change (zlen (put_le32 _)) with 4; lia)).
  rewrite !zlen_app. change (zlen (put_le32 _)) with 4. change (zlen (frame_header _ _)) with 11.
  destruct (Z.ltb_spec (zlen p + (4 + zlen rest)) (zlen p + 4)); [lia|].
  assert (take (Z.to_nat (zlen p + 4)) (p ++ put_le32 (crc32 p 0) ++ rest)
    = p ++ put_le32 (crc32 p 0)) as ->.
  { rewrite app_assoc. apply take_app_length'. rewrite length_app, put_le32_eq, length_put_le.
    unfold zlen. lia. }
  rewrite <- encode_frame_split, decode_encode by done. cbn [mbind result_bind].
  do 2 f_equal. lia.
Qed.

Lemma try_read_frame_prefix k p n : kind_ok k → zlen p ≤ kMaxPayloadBytes →
  (n < length (encode_frame k p))%nat →
  try_read_frame (take n (encode_frame k p)) = Ok (mkFrameReadResult FrameRead.kNeedMore None 0).
Proof.
  intros Hk Hp Hn. rewrite length_encode_frame in Hn. pose proof (zlen_nonneg p).
  destruct (decide (n < 15)%nat).
  { unfold try_read_frame. rewrite (proj2 (Nat.ltb_lt _ _)); [done|].
    rewrite length_take, length_encode_frame. lia. }
  rewrite encode_frame_split, take_app_ge by (rewrite length_frame_header; unfold header_size; lia).
  rewrite length_frame_header. unfold header_size.
  set (rest := take (n - 11) _).
  assert (zlen rest = Z.of_nat (n - 11)) as Hz.
  { unfold rest, zlen. rewrite length_take, length_app, put_le32_eq, length_put_le. lia. }
  rewrite try_read_after_header by (done || lia). rewrite Hz.
  destruct (Z.ltb_spec (Z.of_nat (n - 11)) (zlen p + 4)); [done|]. unfold zlen in *. lia.
Qed.

(** ** Claims *)

(** C26: A byte string decodes to a frame exactly when the kind is one of the
    protocol's, the payload is within the 16 MiB bound and the string is the
    encoding of that kind and payload: encoding and decoding are inverse, and
    truncated, oversized, corrupted or over-long input is never accepted. *)
Theorem frame_decode_iff v k p :
  decode_frame v = Ok (mkFrame k p) ↔
    kind_ok k ∧ zlen p ≤ kMaxPayloadBytes ∧ v = encode_frame k p.
Proof.
  split; [apply (decode_canonical v (mkFrame k p))|]. intros (Hk & Hp & ->). by apply decode_encode.
Qed.

(** C27: Changing any one byte of the payload of an encoded frame makes decoding
    fail with the checksum error. *)
Theorem frame_payload_corruption_detected k p i b b' :
  kind_ok k → zlen p ≤ kMaxPayloadBytes → p !! i = Some b → b' ≠ b →
  decode_frame (<[(header_size + i)%nat := b']> (encode_frame k p)) =
    throw_error ErrorCode.kChecksumMismatch "protocol payload checksum mismatch".
Proof.
  intros Hk Hp Hi Hne. rewrite encode_frame_split.
  change header_size with (length (frame_header k (zlen p))).
  rewrite insert_app_r, insert_app_l by (by eapply lookup_lt_Some).
  rewrite <- (app_nil_r (put_le32 _)).
  assert (zlen p = zlen (<[i:=b']> p)) as Hz by (unfold zlen; by rewrite length_insert).
  rewrite Hz at 1. rewrite decode_after_header by (rewrite <- ?Hz; auto using is_u32_crc).
  assert (crc32 (<[i:=b']> p) 0 ≠ crc32 p 0) as Hcrc.
  { rewrite <- (take_drop_middle p i b Hi). rewrite insert_app_r_alt; rewrite length_take;
      pose proof (lookup_lt_Some _ _ _ Hi); [|lia].
    replace (i - _)%nat with 0%nat by lia. cbn [insert list_insert].
    apply crc32_byte_change; [unfold is_u32; lia|done]. }
  by rewrite (proj2 (Z.eqb_neq _ _) Hcrc).
Qed.
Lemma frame_payload_corruption_detected_witness :
  decode_frame (<[(header_size + 1)%nat := x01]> (encode_frame MessageKind.kPublish [x10; x20])) =
    throw_error ErrorCode.kChecksumMismatch "protocol payload checksum mismatch".
Proof.
  apply (frame_payload_corruption_detected MessageKind.kPublish [x10; x20] 1 x20 x01);
    [exact I|vm_compute; discriminate|reflexivity|discriminate].
Defined.

(** C28: Reading frames off a stream: a buffer that starts with an encoded frame
    yields that frame and its exact length, whatever follows; a buffer that ends
    after the header of a frame, and before the frame does, asks for more bytes.
    (A header cut short is the subject of [try_read_frame_short_header].) *)
Theorem try_read_frame_correct k p rest n :
  kind_ok k → zlen p ≤ kMaxPayloadBytes →
  try_read_frame (encode_frame k p ++ rest) =
    Ok (mkFrameReadResult FrameRead.kOk (Some (mkFrame k p)) (zlen (encode_frame k p))) ∧
  ((header_size ≤ n < length (encode_frame k p))%nat →
   try_read_frame (take n (encode_frame k p)) = Ok (mkFrameReadResult FrameRead.kNeedMore None 0)).
Proof. intros. split; [by apply try_read_frame_stream|]. intros [_ ?]. by apply try_read_frame_prefix. Qed.
Lemma try_read_frame_correct_witness :
  try_read_frame (encode_frame MessageKind.kSave [x07] ++ [x00]) =
    Ok (mkFrameReadResult FrameRead.kOk (Some (mkFrame MessageKind.kSave [x07])) 16) ∧
  try_read_frame (take 15 (encode_frame MessageKind.kSave [x07])) = Ok (mkFrameReadResult FrameRead.kNeedMore None 0).
Proof.
  split.
  - apply (try_read_frame_correct MessageKind.kSave [x07] [x00] 0); [exact I|vm_compute; discriminate].
  - apply (try_read_frame_correct MessageKind.kSave [x07] [] 15); [exact I|vm_compute; discriminate|].
    split; apply Nat.leb_le; vm_compute; reflexivity.
Defined.

(** The declaration says a truncated header is thrown; it asks for more bytes, as
    the test of it expects. *)
Example try_read_frame_short_header :
  try_read_frame (take 5 (encode_frame MessageKind.kSave [x07])) = Ok (mkFrameReadResult FrameRead.kNeedMore None 0).
Proof. reflexivity. Qed.

(** [try_read_frame] passes on the exceptions of [decode_frame]: a corrupted
    frame is not reported as [kError] but thrown. *)
Example try_read_frame_throws :
  try_read_frame (<[11%nat := x01]> (encode_frame MessageKind.kSave [x07])) =
    throw_error ErrorCode.kChecksumMismatch "protocol payload checksum mismatch".
Proof. reflexivity. Qed.
