(* ===== verification/Backend.v ===== *)
(** * Backend: governed keys and the backend contract

    [include/checkpointstore/storage/backend.hpp] and [src/backend.cpp]: the
    validation of backend-relative keys, the capability flags, the descriptor
    and the interface [IBackend] with the laws its clients rely on. *)
From S2P Require Import Prelude Base Hash Model.

(** ** Data *)
Record BackendKey := mkKey { key_value : string }.
#[export] Instance BackendKey_eq_dec : EqDecision BackendKey.
Proof. solve_decision. Defined.

Module BackendCapability.
Inductive t := kPersistent | kAtomicRename | kFsync | kRandomRead | kRandomWrite | kRangeRead
  | kMultipart | kServerSideCopy | kObjectVersioning | kDeletion | kDurabilityClass
  | kLocalStaging.
Definition to_u32 (c : t) : Z :=
  Z.shiftl 1 (match c with
    | kPersistent => 0 | kAtomicRename => 1 | kFsync => 2 | kRandomRead => 3
    | kRandomWrite => 4 | kRangeRead => 5 | kMultipart => 6 | kServerSideCopy => 7
    | kObjectVersioning => 8 | kDeletion => 9 | kDurabilityClass => 10 | kLocalStaging => 11
    end).
#[global] Instance t_eq_dec : EqDecision t.
Proof. solve_decision. Defined.
End BackendCapability.

Record BackendCapabilities := mkCapabilities { flags : Z }.
#[export] Instance BackendCapabilities_eq_dec : EqDecision BackendCapabilities.
Proof. solve_decision. Defined.
Definition set_capability (c : BackendCapability.t) (cs : BackendCapabilities) : BackendCapabilities :=
  mkCapabilities (Z.lor (flags cs) (BackendCapability.to_u32 c)).
Definition has_capability (cs : BackendCapabilities) (c : BackendCapability.t) : bool :=
  negb (Z.land (flags cs) (BackendCapability.to_u32 c) =? 0).

Record BackendDescriptor := mkBackendDescriptor {
  bk_id : StorageBackendId;
  bk_generation : BackendGeneration;
  bk_name : string;
  bk_tier_class : StorageTierClass.t;
  bk_tier_id : StorageTierId;
  bk_node_id : StorageNodeId;
  bk_volume_id : VolumeId;
  bk_capabilities : BackendCapabilities;
  bk_provenance : Provenance.t;
  bk_freshness : Freshness.t;
  bk_root_description : string
}.

(** ** Characters and substrings *)
Definition code_in (lo hi : Z) (c : ascii) : bool := (lo <=? char_code c) && (char_code c <=? hi).

(** [std::tolower] and [std::isalpha] in the C locale. *)
Definition tolower (c : ascii) : ascii :=
  if code_in 65 90 c then ascii_of_nat (Ascii.nat_of_ascii c + 32) else c.
Definition isalpha (c : ascii) : bool := code_in 65 90 c || code_in 97 122 c.

Fixpoint string_map (f : ascii → ascii) (s : string) : string :=
  match s with
  | EmptyString => EmptyString
  | String c s' => String (f c) (string_map f s')
  end.

(** [s.find(c) != npos] *)
Fixpoint has_char (c : ascii) (s : string) : bool :=
  match s with
  | EmptyString => false
  | String c' s' => bool_decide (c' = c) || has_char c s'
  end.

(** [s.find(sub) != npos] *)
Definition has_substring (sub s : string) : bool :=
  match String.index 0 sub s with Some _ => true | None => false end.

Definition front (s : string) : option ascii := String.get 0 s.
Definition back (s : string) : option ascii := String.get (String.length s - 1) s.

(** ** Key validation *)
Definition kReserved : list string := ["con"; "prn"; "aux"; "nul"; "clock$"; "conin$"; "conout$"].

Definition digits_ok (s prefix : string) : bool :=
  match s with
  | String a (String b (String c (String d EmptyString))) =>
      String.eqb (String a (String b (String c EmptyString))) prefix && code_in 49 57 d
  | _ => false
  end.

Definition is_reserved_windows_name (comp : string) : bool :=
  let c := string_map tolower comp in
  existsb (String.eqb c) kReserved || digits_ok c "com" || digits_ok c "lpt".

(** The components between the '/' separators, in order. *)
Fixpoint split_on (sep : ascii → bool) (s : string) : list string :=
  match s with
  | EmptyString => [EmptyString]
  | String c s' =>
      if sep c then EmptyString :: split_on sep s'
      else match split_on sep s' with
           | [] => [String c EmptyString]
           | w :: ws => String c w :: ws
           end
  end.
Definition is_slash (c : ascii) : bool := bool_decide (c = "/"%char).

(** The body of the loop over the components. *)
Definition component_ok (comp : string) : bool :=
  negb (String.eqb comp "")
  && negb (String.eqb comp "." || String.eqb comp "..")
  && negb (has_substring "://" comp)
  && negb (has_char ":" comp)
  && negb (255 <? String.length comp)%nat
  && negb (bool_decide (front comp = Some "."%char) || bool_decide (back comp = Some "."%char))
  && negb (bool_decide (back comp = Some " "%char))
  && negb (is_reserved_windows_name comp).

Definition starts_with_drive (key : string) : bool :=
  match key with
  | String a (String b _) => isalpha a && bool_decide (b = ":"%char)
  | _ => false
  end.

Definition validate_backend_key (key : string) : bool :=
  if String.eqb key "" then false
  else if has_char "000" key then false
  else if (1024 <? String.length key)%nat then false
  else if bool_decide (front key = Some "/"%char) || bool_decide (front key = Some "\"%char) then false
  else if starts_with_drive key then false
  else forallb component_ok (split_on is_slash key).

(** ** The interface

    An object of a class that implements [IBackend] has a state of type [B];
    its virtual member functions act on it.  A [BackendPtr] is modelled where
    objects are shared, in Store.v. *)
Class IBackend (B : Type) := {
  descriptor : B → BackendDescriptor;
  capabilities : B → BackendCapabilities;
  query_capacity : ST B CheckpointStoreError TierMetadata;
  put_temp : BackendKey → list byte → ST B CheckpointStoreError unit;
  commit : BackendKey → ST B CheckpointStoreError unit;
  commit_to : BackendKey → BackendKey → ST B CheckpointStoreError unit;
  read : BackendKey → ST B CheckpointStoreError (list byte);
  object_exists : BackendKey → ST B CheckpointStoreError bool;
  remove : BackendKey → ST B CheckpointStoreError bool;
  stat : BackendKey → ST B CheckpointStoreError Z;
  flush : ST B CheckpointStoreError unit;
  list_controlled : ST B CheckpointStoreError (list BackendKey);
  verify : BackendKey → Sha256Digest → ST B CheckpointStoreError IntegrityState.t;
  health : ST B CheckpointStoreError bool;
  close : ST B CheckpointStoreError unit
}.

(** What the comments of the interface promise and the store relies on:
    - reading and verifying leave the object as it is;
    - [verify] answers [kVerified] only for an object whose bytes have the
      expected digest, and then [read] returns them;
    - removing a key leaves the other keys alone. *)
Class BackendLaws (B : Type) `{IBackend B} : Prop := {
  read_pure key (b : B) : (read key b).2 = b;
  verify_pure key digest (b : B) : (verify key digest b).2 = b;
  exists_pure key (b : B) : (object_exists key b).2 = b;
  health_pure (b : B) : (health b).2 = b;
  verify_read key digest (b : B) :
    validate_backend_key (key_value key) = true →
    (verify key digest b).1 = Ok IntegrityState.kVerified →
    ∃ data, (read key b).1 = Ok data ∧ sha256 data = digest;
  remove_other key key' (b : B) :
    key' ≠ key → (read key' (remove key b).2).1 = (read key' b).1
}.

(** What they promise about writing: staging is invisible, and a commit
    publishes exactly the staged bytes under their key or fails without
    effect, and leaves the other keys alone. *)
Class TransactionalLaws (B : Type) `{IBackend B} : Prop := {
  put_temp_invisible key data key' (b : B) :
    (read key' (put_temp key data b).2).1 = (read key' b).1;
  commit_publishes key data (b b1 b2 : B) :
    put_temp key data b = (Ok tt, b1) → commit key b1 = (Ok tt, b2) →
    (read key b2).1 = Ok data;
  commit_other key key' (b : B) :
    key' ≠ key → (read key' (commit key b).2).1 = (read key' b).1;
  commit_failed key e key' (b b' : B) :
    commit key b = (Throw e, b') → (read key' b').1 = (read key' b).1
}.

(** ** Properties of keys *)
Lemma key_value_inj k k' : key_value k = key_value k' → k = k'.
Proof. destruct k, k'; simpl. by intros ->. Qed.
Lemma string_length_app s1 s2 : String.length (s1 +:+ s2) = (String.length s1 + String.length s2)%nat.
Proof.
  induction s1 as [|c s1 IH]; [done|]. change (String c s1 +:+ s2) with (String c (s1 +:+ s2)).
  cbn [String.length]. by rewrite IH.
Qed.
Lemma has_char_app c s1 s2 : has_char c (s1 +:+ s2) = has_char c s1 || has_char c s2.
Proof. induction s1 as [|c' s1 IH]; simpl; [done|]. by rewrite IH, orb_assoc. Qed.

Lemma split_on_app w s : has_char "/" w = false →
  split_on is_slash (w +:+ String "/" s) = w :: split_on is_slash s.
Proof.
  induction w as [|c w IH]; simpl; [done|]. intros [Hc Hw]%orb_false_elim.
  unfold is_slash at 1. rewrite Hc. by rewrite IH.
Qed.
Lemma split_on_single w : has_char "/" w = false → split_on is_slash w = [w].
Proof.
  induction w as [|c w IH]; simpl; [done|]. intros [Hc Hw]%orb_false_elim.
  unfold is_slash at 1. rewrite Hc. by rewrite IH.
Qed.

(** How the components of a path move through a directory tree: the stack of
    directories entered, [None] once the path has left the root. *)
Fixpoint resolve (stack comps : list string) : option (list string) :=
  match comps with
  | [] => Some stack
  | comp :: comps' =>
      if String.eqb comp ".." then
        match stack with [] => None | _ :: stack' => resolve stack' comps' end
      else if String.eqb comp "." || String.eqb comp "" then resolve stack comps'
      else resolve (comp :: stack) comps'
  end.

Lemma component_ok_plain comp : component_ok comp = true →
  comp ≠ "" ∧ comp ≠ "." ∧ comp ≠ ".." ∧ has_char ":" comp = false.
Proof.
  unfold component_ok. rewrite !andb_true_iff, !negb_true_iff, !orb_false_iff, !String.eqb_neq.
  naive_solver.
Qed.

Lemma resolve_plain stack comps : forallb component_ok comps = true →
  resolve stack comps = Some (reverse comps ++ stack).
Proof.
  revert stack. induction comps as [|comp comps IH]; intros stack; simpl; [done|].
  intros [(H1 & H2 & H3 & _)%component_ok_plain Hc]%andb_true_iff.
  apply String.eqb_neq in H1, H2, H3. rewrite H3, H2, H1. simpl.
  rewrite IH by done. by rewrite reverse_cons, <- app_assoc.
Qed.

Lemma validate_backend_key_spec key : validate_backend_key key = true ↔
  key ≠ "" ∧ has_char "000" key = false ∧ (String.length key ≤ 1024)%nat ∧
  front key ≠ Some "/"%char ∧ front key ≠ Some "\"%char ∧ starts_with_drive key = false ∧
  forallb component_ok (split_on is_slash key) = true.
Proof.
  unfold validate_backend_key. repeat case_match; rewrite ?orb_true_iff, ?orb_false_iff,
    ?bool_decide_eq_true, ?bool_decide_eq_false, ?String.eqb_eq, ?String.eqb_neq,
    ?Nat.ltb_lt, ?Nat.ltb_ge in *; try (split; [done|]); naive_solver lia.
Qed.

(** ** Hexadecimal components *)
Definition hex_char (c : ascii) : bool := code_in 48 57 c || code_in 97 102 c.
Fixpoint all_chars (P : ascii → bool) (s : string) : bool :=
  match s with
  | EmptyString => true
  | String c s' => P c && all_chars P s'
  end.

Lemma all_chars_app P s1 s2 : all_chars P (s1 +:+ s2) = all_chars P s1 && all_chars P s2.
Proof. induction s1 as [|c s1 IH]; simpl; [done|]. by rewrite IH, andb_assoc. Qed.

Lemma all_chars_get P s n c : all_chars P s = true → String.get n s = Some c → P c = true.
Proof.
  revert n. induction s as [|c' s IH]; intros [|n]; simpl; try done.
  - by intros [Hc _]%andb_true_iff [= ->].
  - intros [_ Hs]%andb_true_iff. by apply IH.
Qed.

Lemma all_chars_not P s c : all_chars P s = true → P c = false → has_char c s = false.
Proof.
  intros Hs Hc. induction s as [|c' s IH]; simpl in *; [done|].
  apply andb_true_iff in Hs as [Hc' Hs]. rewrite (IH Hs), orb_false_r.
  apply bool_decide_eq_false. intros ->. congruence.
Qed.

Lemma no_char_no_substring c sub s : has_char c s = false →
  has_substring (String c sub) s = false.
Proof.
  unfold has_substring. intros Hs.
  assert (String.index 0 (String c sub) s = None) as ->; [|done].
  induction s as [|c' s IH]; [done|]. cbn -[String.index] in Hs |- *.
  apply orb_false_elim in Hs as [Hc Hs]. apply bool_decide_eq_false in Hc.
  specialize (IH Hs). simpl. destruct (ascii_dec c c') as [->|]; [done|].
  simpl in IH. by rewrite IH.
Qed.

Lemma tolower_hex c : hex_char c = true → tolower c = c.
Proof.
  unfold hex_char, tolower, code_in. destruct (65 <=? char_code c) eqn:E1; [|done].
  destruct (char_code c <=? 90) eqn:E2; [|done]. simpl.
  rewrite orb_true_iff, !andb_true_iff, !Z.leb_le in *. lia.
Qed.
Lemma string_map_hex s : all_chars hex_char s = true → string_map tolower s = s.
Proof.
  induction s as [|c s IH]; simpl; [done|]. intros [Hc Hs]%andb_true_iff.
  by rewrite IH, tolower_hex.
Qed.

Lemma hex_neq s r : all_chars hex_char s = true → all_chars hex_char r = false →
  String.eqb s r = false.
Proof. intros Hs Hr. apply String.eqb_neq. intros ->. congruence. Qed.

Lemma hex_digits_not_ok s p : all_chars hex_char s = true → all_chars hex_char p = false →
  digits_ok s p = false.
Proof.
  intros Hs Hp. unfold digits_ok.
  destruct s as [|a [|b [|c [|d [|]]]]]; try done. rewrite (hex_neq _ p); [done| |done].
  simpl in *. rewrite !andb_true_iff in *. naive_solver.
Qed.

Lemma hex_not_reserved s : all_chars hex_char s = true → is_reserved_windows_name s = false.
Proof.
  intros Hs. unfold is_reserved_windows_name. rewrite string_map_hex by done.
  rewrite !hex_digits_not_ok, !orb_false_r by done. simpl. by rewrite !hex_neq.
Qed.

Lemma component_ok_hex s : all_chars hex_char s = true → s ≠ "" →
  (String.length s ≤ 255)%nat → component_ok s = true.
Proof.
  intros Hs Hne Hlen. unfold component_ok.
  rewrite (proj2 (String.eqb_neq s "")), !hex_neq by done.
  rewrite no_char_no_substring, (all_chars_not hex_char s ":"), hex_not_reserved
    by eauto using all_chars_not.
  rewrite (proj2 (Nat.ltb_ge 255 (String.length s))) by done.
  rewrite !bool_decide_eq_false_2; [done|..]; intros Hg; by apply (all_chars_get _ _ _ _ Hs) in Hg.
Qed.

(** ** Claims *)

(** An accepted key cannot leave the backend's root: it is short, has no
    NUL byte, no leading separator and no drive letter, and resolving its
    '/'-separated components enters one directory per component, never
    climbing. *)
Theorem accepted_key_stays_below_root key : validate_backend_key key = true →
  resolve [] (split_on is_slash key) = Some (reverse (split_on is_slash key)) ∧
  has_char "000" key = false ∧ (String.length key ≤ 1024)%nat ∧
  front key ≠ Some "/"%char ∧ front key ≠ Some "\"%char ∧ starts_with_drive key = false.
Proof.
  rewrite validate_backend_key_spec. intros (_ & H0 & Hl & Hf & Hb & Hd & Hc).
  split; [|done]. rewrite resolve_plain, app_nil_r; done.
Qed.
Lemma accepted_key_stays_below_root_witness :
  resolve [] (split_on is_slash "blobs/ab/abcd") = Some ["abcd"; "ab"; "blobs"].
Proof. apply (accepted_key_stays_below_root "blobs/ab/abcd"). reflexivity. Defined.

(** The comment in the loop says that '\' separates components too; the code
    splits on '/' only, so a key that climbs out of the root on a system where
    '\' is a separator is accepted. *)
Example backslash_traversal_accepted :
  validate_backend_key "a\..\..\x" = true ∧
  resolve [] (split_on (λ c, is_slash c || bool_decide (c = "\"%char)) "a\..\..\x") = None.
Proof. split; reflexivity. Qed.
