(* ===== verification/SyntheticBackend.v ===== *)
(** * SyntheticBackend: the in-memory backend

    [include/checkpointstore/storage/synthetic_backend.hpp] and
    [src/synthetic_backend.cpp].  [std::map] is a finite map, traversed in key
    order; the mutex is taken in every member function and is not modelled. *)
From stdpp Require Import pretty.
From S2P Require Import Prelude Base Hash Model Backend.

Record SyntheticBackend := mkSynthetic {
  sy_descriptor : BackendDescriptor;
  sy_capabilities : BackendCapabilities;
  sy_tier_class : StorageTierClass.t;
  sy_capacity_bytes : Z;
  sy_latency_us : Z;
  sy_serial : Z;
  sy_available : bool;
  sy_objects : gmap string (list byte);
  sy_staged : gmap string string;
  sy_temp_objects : gmap string (list byte);
  sy_corrupt : gmap string bool;
  sy_missing : gmap string bool
}.
#[export] Instance eta_SyntheticBackend : Eta SyntheticBackend := λ r,
  mkSynthetic (sy_descriptor r) (sy_capabilities r) (sy_tier_class r) (sy_capacity_bytes r)
    (sy_latency_us r) (sy_serial r) (sy_available r) (sy_objects r) (sy_staged r)
    (sy_temp_objects r) (sy_corrupt r) (sy_missing r).

Abbreviation SyST := (ST SyntheticBackend CheckpointStoreError).

(** ** Operations *)
Definition size_max : Z := 2 ^ 64 - 1.

Definition synthetic_capabilities : BackendCapabilities :=
  fold_left (λ cs c, set_capability c cs)
    [BackendCapability.kPersistent; BackendCapability.kRandomRead;
     BackendCapability.kRandomWrite; BackendCapability.kRangeRead;
     BackendCapability.kMultipart; BackendCapability.kServerSideCopy;
     BackendCapability.kObjectVersioning; BackendCapability.kDeletion;
     BackendCapability.kLocalStaging] (mkCapabilities 0).

(** The constructors. *)
Definition new_synthetic_sized (tier_class : StorageTierClass.t) (tier_id : StorageTierId)
    (id : StorageBackendId) (name : string) (node_id : StorageNodeId) (volume_id : VolumeId)
    (capacity_bytes : Z) : SyntheticBackend :=
  let d := mkBackendDescriptor id (mkGen 1) name tier_class tier_id node_id volume_id
    synthetic_capabilities Provenance.kSynthetic Freshness.kCurrent
    ("synthetic (in-memory): " +:+ name) in
  mkSynthetic d synthetic_capabilities tier_class capacity_bytes 0 0 true ∅ ∅ ∅ ∅ ∅.

Definition new_synthetic (tier_class : StorageTierClass.t) (tier_id : StorageTierId)
    (id : StorageBackendId) (name : string) : SyntheticBackend :=
  new_synthetic_sized tier_class tier_id id name (mkId 1) (mkId 1) size_max.

(** The keys of a [std::map] in iteration order. *)
Definition string_leb_rel (a b : string) : Prop := String.leb a b = true.
#[export] Instance string_leb_rel_dec : RelDecision string_leb_rel.
Proof. intros a b. unfold string_leb_rel. apply _. Defined.
Definition ordered_keys {A} (m : gmap string A) : list string :=
  merge_sort string_leb_rel (map_to_list m).*1.

Definition used_bytes (s : SyntheticBackend) : Z :=
  fold_left (λ used key, u64 (used + zlen (default [] (sy_objects s !! key))))
    (ordered_keys (sy_objects s)) 0.

Definition sy_query_capacity : SyST TierMetadata :=
  s ← get;
  let unbounded := sy_capacity_bytes s =? size_max in
  mret (default_TierMetadata
    <| tm_id := bk_tier_id (sy_descriptor s) |>
    <| tm_tier_class := sy_tier_class s |>
    <| tm_total_bytes := if unbounded then 0 else sy_capacity_bytes s |>
    <| tm_free_bytes := if unbounded then 0 else u64 (sy_capacity_bytes s - used_bytes s) |>
    <| tm_latency_us := sy_latency_us s |>
    <| tm_durability := DurabilityClass.kUnknown |>
    <| tm_provenance := Provenance.kSynthetic |>
    <| tm_freshness := Freshness.kCurrent |>
    <| tm_health := sy_available s |>
    <| tm_locality := "synthetic-remote" |>
    <| tm_failure_domain := "fd-" +:+ pretty (id_value (bk_node_id (sy_descriptor s))) |>
    <| tm_cost_class := "synthetic" |>).

Definition sy_put_temp (key : BackendKey) (data : list byte) : SyST unit :=
  _ ← raise_if (negb (validate_backend_key (key_value key)))
        ErrorCode.kInvalidArgument "invalid backend key";
  s ← get;
  _ ← raise_if (negb (sy_available s))
        ErrorCode.kBackendUnavailable "synthetic backend unavailable";
  let serial := incr64 (sy_serial s) in
  let temp := "temp/" +:+ key_value key +:+ "." +:+ pretty serial in
  modify (λ s, s <| sy_serial := serial |>
                 <| sy_temp_objects ::= <[temp := data]> |>
                 <| sy_staged ::= <[key_value key := temp]> |>).

(** [commit(key)] *)
Definition sy_commit (key : BackendKey) : SyST unit :=
  s ← get;
  match sy_staged s !! key_value key with
  | None => raise ErrorCode.kTransaction "commit called for unstaged key"
  | Some temp =>
      _ ← raise_if (negb (sy_available s))
            ErrorCode.kBackendUnavailable "synthetic backend unavailable";
      match sy_temp_objects s !! temp with
      | None => raise ErrorCode.kTransaction "staged temp missing"
      | Some data =>
          modify (λ s, s <| sy_objects ::= <[key_value key := data]> |>
                         <| sy_temp_objects ::= delete temp |>
                         <| sy_staged ::= delete (key_value key) |>
                         <| sy_corrupt ::= delete (key_value key) |>
                         <| sy_missing ::= delete (key_value key) |>)
      end
  end.

(** [commit(temp_key, final_key)] *)
Definition sy_commit_to (temp_key final_key : BackendKey) : SyST unit :=
  s ← get;
  _ ← raise_if (negb (sy_available s))
        ErrorCode.kBackendUnavailable "synthetic backend unavailable";
  match sy_temp_objects s !! key_value temp_key with
  | None => raise ErrorCode.kTransaction "staged temp missing"
  | Some data =>
      modify (λ s, s <| sy_objects ::= <[key_value final_key := data]> |>
                     <| sy_temp_objects ::= delete (key_value temp_key) |>
                     <| sy_corrupt ::= delete (key_value final_key) |>
                     <| sy_missing ::= delete (key_value final_key) |>)
  end.

Definition count_key {A} (m : gmap string A) (k : string) : bool :=
  match m !! k with Some _ => true | None => false end.

Definition sy_read (key : BackendKey) : SyST (list byte) :=
  _ ← raise_if (negb (validate_backend_key (key_value key)))
        ErrorCode.kInvalidArgument "invalid backend key";
  s ← get;
  _ ← raise_if (negb (sy_available s))
        ErrorCode.kBackendUnavailable "synthetic backend unavailable";
  _ ← raise_if (count_key (sy_missing s) (key_value key))
        ErrorCode.kMissing "synthetic object missing";
  match sy_objects s !! key_value key with
  | None => raise ErrorCode.kNotFound "synthetic object not found"
  | Some data => mret data
  end.

Definition sy_exists (key : BackendKey) : SyST bool :=
  gets (λ s, if count_key (sy_missing s) (key_value key) then false
             else count_key (sy_objects s) (key_value key)).

Definition sy_remove (key : BackendKey) : SyST bool :=
  s ← get;
  _ ← modify (λ s, s <| sy_objects ::= delete (key_value key) |>);
  mret (count_key (sy_objects s) (key_value key)).

Definition sy_stat (key : BackendKey) : SyST Z :=
  gets (λ s, match sy_objects s !! key_value key with None => 0 | Some data => zlen data end).

Definition sy_flush : SyST unit := mret tt.

Definition sy_list_controlled : SyST (list BackendKey) :=
  gets (λ s, mkKey <$> ordered_keys (sy_objects s)).

Definition sy_verify (key : BackendKey) (expected : Sha256Digest) : SyST IntegrityState.t :=
  gets (λ s,
    if negb (sy_available s) then IntegrityState.kUnknown
    else if count_key (sy_missing s) (key_value key) then IntegrityState.kMissing
    else match sy_objects s !! key_value key with
         | None => IntegrityState.kMissing
         | Some data =>
             if count_key (sy_corrupt s) (key_value key) then IntegrityState.kCorrupt
             else if digest_equal (sha256 data) expected then IntegrityState.kVerified
             else IntegrityState.kCorrupt
         end).

Definition sy_health : SyST bool := gets sy_available.

Definition sy_close : SyST unit :=
  modify (λ s, s <| sy_objects := ∅ |> <| sy_temp_objects := ∅ |> <| sy_staged := ∅ |>
                 <| sy_corrupt := ∅ |> <| sy_missing := ∅ |>).

Definition set_capacity (capacity_bytes : Z) : SyST unit :=
  modify (λ s, s <| sy_capacity_bytes := capacity_bytes |>).
Definition set_available (available : bool) : SyST unit :=
  modify (λ s, s <| sy_available := available |>).
Definition set_corrupt (key : BackendKey) : SyST unit :=
  modify (λ s, s <| sy_corrupt ::= <[key_value key := true]> |>).
Definition set_missing (key : BackendKey) : SyST unit :=
  modify (λ s, s <| sy_missing ::= <[key_value key := true]> |>).
Definition set_latency_us (latency_us : Z) : SyST unit :=
  modify (λ s, s <| sy_latency_us := latency_us |>).

#[export] Instance synthetic_IBackend : IBackend SyntheticBackend := {|
  descriptor := sy_descriptor;
  capabilities := sy_capabilities;
  query_capacity := sy_query_capacity;
  put_temp := sy_put_temp;
  commit := sy_commit;
  commit_to := sy_commit_to;
  read := sy_read;
  object_exists := sy_exists;
  remove := sy_remove;
  stat := sy_stat;
  flush := sy_flush;
  list_controlled := sy_list_controlled;
  verify := sy_verify;
  health := sy_health;
  close := sy_close
|}.

(** ** The contract *)
Ltac sy_unfold :=
  unfold sy_put_temp, sy_commit, sy_read, sy_remove, sy_verify, raise_if, raise, throw_if, throw,
    modify, get, gets, mbind, ST_bind, mret, ST_ret.
Ltac sy_cases :=
  repeat (simpl; match goal with
  | |- context [match ?m !! ?k with _ => _ end] => let E := fresh "E" in destruct (m !! k) eqn:E
  | |- context [if ?b then _ else _] => let E := fresh "E" in destruct b eqn:E
  end); simpl.

(** What [read] answers depends on the object's own entries only. *)
Lemma sy_read_same key (s s' : SyntheticBackend) :
  sy_available s' = sy_available s →
  sy_missing s' !! key_value key = sy_missing s !! key_value key →
  sy_objects s' !! key_value key = sy_objects s !! key_value key →
  (sy_read key s').1 = (sy_read key s).1.
Proof.
  intros Ha Hm Ho. sy_unfold. destruct (validate_backend_key (key_value key)); simpl; [|done].
  rewrite Ha. destruct (sy_available s); simpl; [|done].
  unfold count_key. rewrite Hm. destruct (sy_missing s !! key_value key); simpl; [done|].
  rewrite Ho. by destruct (sy_objects s !! key_value key).
Qed.

Lemma sy_read_pure key s : (sy_read key s).2 = s.
Proof. sy_unfold. by sy_cases. Qed.

Lemma sy_verify_read key digest s :
  validate_backend_key (key_value key) = true →
  (sy_verify key digest s).1 = Ok IntegrityState.kVerified →
  ∃ data, (sy_read key s).1 = Ok data ∧ sha256 data = digest.
Proof.
  intros Hk. sy_unfold. rewrite Hk. unfold count_key. sy_cases; try done. intros _.
  eexists. split; [done|]. by apply bool_decide_eq_true in E3.
Qed.

Lemma sy_commit_publishes key data s s1 s2 :
  sy_put_temp key data s = (Ok tt, s1) → sy_commit key s1 = (Ok tt, s2) →
  (sy_read key s2).1 = Ok data.
Proof.
  sy_unfold. destruct (validate_backend_key (key_value key)) eqn:Hk; simpl; [|done].
  destruct (sy_available s) eqn:Ha; simpl; [|done]. intros [= <-]. simpl.
  rewrite lookup_insert_eq. simpl. rewrite ?Ha. simpl. rewrite lookup_insert_eq. simpl.
  intros [= <-]. simpl. rewrite ?Ha. simpl. unfold count_key.
  by rewrite lookup_delete_eq, lookup_insert_eq.
Qed.

Lemma sy_commit_other key key' s : key' ≠ key →
  (sy_read key' (sy_commit key s).2).1 = (sy_read key' s).1.
Proof.
  intros Hne. assert (key_value key ≠ key_value key') by (by intros ?%key_value_inj).
  apply sy_read_same; unfold sy_commit; sy_unfold; sy_cases; try done.
  - by rewrite lookup_delete_ne.
  - by rewrite lookup_insert_ne.
Qed.

Lemma sy_commit_failed key e key' s s' : sy_commit key s = (Throw e, s') →
  (sy_read key' s').1 = (sy_read key' s).1.
Proof.
  intros H. assert (s' = s) as ->; [|done]. revert H. unfold sy_commit.
  sy_unfold. sy_cases; naive_solver.
Qed.

Lemma sy_remove_other key key' s : key' ≠ key →
  (sy_read key' (sy_remove key s).2).1 = (sy_read key' s).1.
Proof.
  intros Hne. assert (key_value key ≠ key_value key') by (by intros ?%key_value_inj).
  apply sy_read_same; try done. simpl. by rewrite lookup_delete_ne.
Qed.

#[export] Instance synthetic_laws : BackendLaws SyntheticBackend.
Proof.
  split; simpl; intros.
  - apply sy_read_pure.
  - done.
  - done.
  - done.
  - by apply sy_verify_read.
  - by apply sy_remove_other.
Qed.
#[export] Instance synthetic_transactional : TransactionalLaws SyntheticBackend.
Proof.
  split; simpl; intros.
  - apply sy_read_same; unfold sy_put_temp; sy_unfold; by sy_cases.
  - by eapply sy_commit_publishes.
  - by apply sy_commit_other.
  - by eapply sy_commit_failed.
Qed.

(** The state after staging and committing one object. *)
Lemma sy_put_commit key data s :
  validate_backend_key (key_value key) = true → sy_available s = true →
  ∃ s1 s2, sy_put_temp key data s = (Ok tt, s1) ∧ sy_commit key s1 = (Ok tt, s2) ∧
    sy_available s2 = true ∧ sy_objects s2 = <[key_value key := data]> (sy_objects s) ∧
    sy_missing s2 = delete (key_value key) (sy_missing s) ∧
    sy_corrupt s2 = delete (key_value key) (sy_corrupt s).
Proof.
  intros Hk Ha. eexists _, _. split.
  { unfold sy_put_temp. sy_unfold. rewrite Hk; simpl; rewrite Ha. simpl. reflexivity. }
  split.
  { unfold sy_commit. sy_unfold. simpl. rewrite lookup_insert_eq. simpl. rewrite Ha. simpl.
    rewrite lookup_insert_eq. reflexivity. }
  by simpl.
Qed.

Lemma elem_of_ordered_keys {A} (m : gmap string A) k : k ∈ ordered_keys m ↔ is_Some (m !! k).
Proof.
  unfold ordered_keys. rewrite merge_sort_Permutation, list_elem_of_fmap. split.
  - intros ([k' a] & -> & H). apply elem_of_map_to_list in H. by eexists.
  - intros [a H]. exists (k, a). split; [done|]. by apply elem_of_map_to_list.
Qed.

(** ** Claims *)

(** C35: Writing an object is transactional and total: for a valid key and an
    available backend, staging followed by [commit] succeeds; afterwards the
    object exists, [read] returns the bytes, [stat] their number, [verify]
    accepts exactly their digest (a quarantine or loss mark is cleared), the
    key is listed, and every other key reads as before. *)
Theorem synthetic_write_transactional key data s :
  validate_backend_key (key_value key) = true → sy_available s = true →
  ∃ s1 s2, sy_put_temp key data s = (Ok tt, s1) ∧ sy_commit key s1 = (Ok tt, s2) ∧
    (sy_read key s2).1 = Ok data ∧ (sy_exists key s2).1 = Ok true ∧
    (sy_stat key s2).1 = Ok (zlen data) ∧
    (∀ d, (sy_verify key d s2).1 =
       Ok (if digest_equal (sha256 data) d then IntegrityState.kVerified
           else IntegrityState.kCorrupt)) ∧
    (∃ keys, (sy_list_controlled s2).1 = Ok keys ∧ key ∈ keys) ∧
    (∀ key', key' ≠ key → (sy_read key' s2).1 = (sy_read key' s).1).
Proof.
  intros Hk Ha. destruct (sy_put_commit key data s Hk Ha) as (s1 & s2 & H1 & H2 & Ha2 & Ho & Hm & Hc).
  exists s1, s2. do 2 (split; [done|]). split; [by eapply sy_commit_publishes|].
  unfold sy_exists, sy_stat, sy_verify, sy_list_controlled, gets, count_key. simpl.
  rewrite Ho, Hm, Hc, Ha2, lookup_insert_eq, !lookup_delete_eq. do 2 (split; [done|]).
  split; [done|]. split.
  - eexists. split; [done|]. apply list_elem_of_fmap. exists (key_value key).
    split; [by destruct key|]. apply elem_of_ordered_keys. rewrite lookup_insert_eq. by eexists.
  - intros key' Hne. assert (key_value key ≠ key_value key') by (by intros ?%key_value_inj).
    apply sy_read_same; [by rewrite Ha2|rewrite Hm; by rewrite lookup_delete_ne|].
    rewrite Ho. by rewrite lookup_insert_ne.
Qed.
Lemma synthetic_write_transactional_witness :
  let s := new_synthetic StorageTierClass.kSyntheticRemote (mkId 1) (mkId 1) "remote" in
  ∃ s1 s2, sy_put_temp (mkKey "blobs/a") [x01; x02] s = (Ok tt, s1) ∧
    sy_commit (mkKey "blobs/a") s1 = (Ok tt, s2) ∧
    (sy_read (mkKey "blobs/a") s2).1 = Ok [x01; x02] ∧ (sy_stat (mkKey "blobs/a") s2).1 = Ok 2.
Proof.
  destruct (synthetic_write_transactional (mkKey "blobs/a") [x01; x02]
    (new_synthetic StorageTierClass.kSyntheticRemote (mkId 1) (mkId 1) "remote") eq_refl eq_refl)
    as (s1 & s2 & H1 & H2 & H3 & _ & H5 & _).
  exists s1, s2. exact (conj H1 (conj H2 (conj H3 H5))).
Defined.

(** The configured capacity bounds nothing: a write beyond it succeeds and the
    free space reported afterwards has wrapped around. *)
Example synthetic_capacity_not_enforced :
  let s := new_synthetic_sized StorageTierClass.kSyntheticRemote (mkId 1) (mkId 1) "remote"
             (mkId 1) (mkId 1) 1 in
  let '(r1, s1) := sy_put_temp (mkKey "a") [x01; x02] s in
  let '(r2, s2) := sy_commit (mkKey "a") s1 in
  r1 = Ok tt ∧ r2 = Ok tt ∧
  (λ m, tm_free_bytes m) <$> (match (sy_query_capacity s2).1 with Ok m => Some m | _ => None end)
    = Some (2 ^ 64 - 1).
Proof. vm_compute. done. Qed.

(** [set_corrupt] is seen by [verify] but not by [read], which still returns
    the bytes. *)
Example synthetic_corrupt_reads :
  let s := new_synthetic StorageTierClass.kSyntheticRemote (mkId 1) (mkId 1) "remote" in
  let s1 := (sy_commit (mkKey "a") (sy_put_temp (mkKey "a") [x01] s).2).2 in
  let s2 := (set_corrupt (mkKey "a") s1).2 in
  (sy_verify (mkKey "a") (sha256 [x01]) s2).1 = Ok IntegrityState.kCorrupt ∧
  (sy_read (mkKey "a") s2).1 = Ok [x01].
Proof. vm_compute. done. Qed.
