(* ===== verification/Store.v ===== *)
(** * Store: the runtime state and its publication transaction

    [include/checkpointstore/store.hpp], [src/impl.hpp] and [src/store.cpp].
    The state of a [CheckpointStore] is a record; member functions are state
    transformers that keep their assignments when they throw.  Backend objects
    live in a heap of their own and are shared through [BackendPtr]. *)
From stdpp Require Import functions.
From S2P Require Import Prelude Base Hash Model Chunking Dedup BinFormat Backend.

(** ** Data *)
Record StoreOptions := mkStoreOptions {
  opt_state_path : string;
  opt_boot_id : WorkerBootId;
  opt_primary_backend_id : StorageBackendId;
  opt_chunk_size : Z;
  opt_required_replica_count : Z;
  opt_default_retention_latest_n : Z
}.
#[export] Instance eta_StoreOptions : Eta StoreOptions := λ r,
  mkStoreOptions (opt_state_path r) (opt_boot_id r) (opt_primary_backend_id r) (opt_chunk_size r)
    (opt_required_replica_count r) (opt_default_retention_latest_n r).
Definition default_StoreOptions : StoreOptions :=
  mkStoreOptions "" null_id (mkId 1) (64 * 1024) 1 5.

Record PublishedCheckpoint := mkPublished {
  pub_descriptor : CheckpointDescriptor;
  pub_manifest : CheckpointManifest;
  pub_chunks : list ChunkDescriptor;
  pub_unique_physical_bytes : Z;
  pub_deduplicated_bytes : Z;
  pub_dedup_hits : Z;
  pub_dedup_misses : Z
}.

Record FamilyRecord := mkFamily {
  fam_id : CheckpointFamilyId;
  fam_family_generation : CheckpointFamilyGeneration;
  fam_checkpoint_ids : list CheckpointId
}.
#[export] Instance eta_FamilyRecord : Eta FamilyRecord := λ r,
  mkFamily (fam_id r) (fam_family_generation r) (fam_checkpoint_ids r).

Record CheckpointRecord := mkRecord {
  rec_descriptor : CheckpointDescriptor;
  rec_manifest : CheckpointManifest;
  rec_chunks : list ChunkDescriptor;
  rec_replica_set : ReplicaSet;
  rec_lifecycle : CheckpointLifecycle.t;
  rec_integrity : IntegrityState.t;
  rec_freshness : Freshness.t
}.
#[export] Instance eta_CheckpointRecord : Eta CheckpointRecord := λ r,
  mkRecord (rec_descriptor r) (rec_manifest r) (rec_chunks r) (rec_replica_set r)
    (rec_lifecycle r) (rec_integrity r) (rec_freshness r).

(** A [std::shared_ptr<IBackend>] that is not null. *)
Definition BackendPtr := nat.

Record Impl := mkImpl {
  im_backends : gmap StorageBackendId BackendPtr;
  im_primary_backend_id : StorageBackendId;
  im_families : gmap CheckpointFamilyId FamilyRecord;
  im_checkpoints : gmap CheckpointId CheckpointRecord;
  im_blobs : gmap BlobId BlobDescriptor;
  im_replicas : gmap ReplicaId ReplicaDescriptor;
  im_placements : gmap PlacementId PlacementDescriptor;
  im_retention : gmap RetentionPolicyId RetentionPolicy;
  im_workers : gmap WorkerBootId Z;
  im_next_checkpoint_generation : gmap CheckpointFamilyId CheckpointGeneration;
  im_next_family_id : CheckpointFamilyId;
  im_next_id_counter : Z;
  im_gc : GcState;
  im_restore_plans : gmap RestorePlanId RestorePlan;
  im_restore_evidence : gmap CheckpointId RestoreEvidence;
  im_active_restores : list RestoreId;
  im_reservations : gmap ReservationId Z;
  im_counters : AccountingSnapshot
}.
#[export] Instance eta_Impl : Eta Impl := λ r,
  mkImpl (im_backends r) (im_primary_backend_id r) (im_families r) (im_checkpoints r)
    (im_blobs r) (im_replicas r) (im_placements r) (im_retention r) (im_workers r)
    (im_next_checkpoint_generation r) (im_next_family_id r) (im_next_id_counter r) (im_gc r)
    (im_restore_plans r) (im_restore_evidence r) (im_active_restores r) (im_reservations r)
    (im_counters r).
Definition default_Impl : Impl :=
  mkImpl ∅ null_id ∅ ∅ ∅ ∅ ∅ ∅ ∅ ∅ (mkId 1) 1000 default_GcState ∅ ∅ [] ∅ default_AccountingSnapshot.

(** A [CheckpointStore] together with the backend objects its pointers denote.
    A [shared_ptr] keeps its object alive, so every pointer denotes one. *)
Record CheckpointStore (B : Type) := mkStore {
  s_options : StoreOptions;
  s_coordinator_epoch : CoordinatorEpoch;
  s_dedup : DedupTable;
  s_impl : Impl;
  s_heap : BackendPtr → B
}.
Arguments mkStore {B}.
Arguments s_options {B}.
Arguments s_coordinator_epoch {B}.
Arguments s_dedup {B}.
Arguments s_impl {B}.
Arguments s_heap {B}.
#[export] Instance eta_CheckpointStore {B} : Eta (CheckpointStore B) := λ r,
  mkStore (s_options r) (s_coordinator_epoch r) (s_dedup r) (s_impl r) (s_heap r).

(** ** Keys and digests of store.cpp *)
Definition blob_prefix (d : Sha256Digest) : string := String.substring 0 2 (hex d).
Definition blob_key (d : Sha256Digest) : BackendKey :=
  mkKey ("blobs/" +:+ blob_prefix d +:+ "/" +:+ hex d).

Definition manifest_semantic_digest (m : CheckpointManifest) : Sha256Digest :=
  sha256 (w_id (m_id m) ++ w_generation (m_generation m) ++ w_id (m_checkpoint_id m)
    ++ w_generation (m_checkpoint_generation m)
    ++ w_u32 (u32 (zlen (m_chunks m)))
    ++ (m_chunks m ≫= λ c, w_id (e_chunk_id c) ++ w_u64 (e_logical_offset c))
    ++ w_u64 (m_logical_size m) ++ w_sha256 (m_checkpoint_digest m)
    ++ w_u8 (Provenance.to_u8 (m_provenance m)) ++ w_u8 (DurabilityClass.to_u8 (m_durability m))
    ++ w_u64 (m_required_replica_count m)).

(** The iteration order of hash maps is a parameter from here on. *)
Section store.
Context `{IterOrder} {B : Type} `{IBackend B}.

Abbreviation Store := (ST (CheckpointStore B) CheckpointStoreError).

(** ** Access to the parts of the state *)
Definition get_impl {A} (f : Impl → A) : Store A := gets (λ s, f (s_impl s)).
Definition modify_impl (f : Impl → Impl) : Store unit := modify (λ s, s <| s_impl ::= f |>).
Definition bump_counter (f : AccountingSnapshot → AccountingSnapshot) : Store unit :=
  modify_impl (λ i, i <| im_counters ::= f |>).
Definition on_dedup {A} (m : ST DedupTable CheckpointStoreError A) : Store A :=
  zoom s_dedup (λ t s, s <| s_dedup := t |>) m.

(** A call through a [BackendPtr] or a reference to its object. *)
Definition on_backend {A} (p : BackendPtr) (m : ST B CheckpointStoreError A) : Store A :=
  zoom (λ s, s_heap s p) (λ b s, s <| s_heap ::= <[p := b]> |>) m.

(** [impl_->next_id_counter++] *)
Definition fresh_id : Store Z :=
  n ← get_impl im_next_id_counter;
  _ ← modify_impl (λ i, i <| im_next_id_counter ::= incr64 |>);
  mret n.

(** ** Construction, backends, families *)
Definition new_store (options : StoreOptions) (heap : BackendPtr → B) : CheckpointStore B :=
  mkStore options (mkGen 1) ∅
    (default_Impl <| im_primary_backend_id := opt_primary_backend_id options |>) heap.

Definition register_backend (id : StorageBackendId) (backend : option BackendPtr) : Store unit :=
  match backend with
  | None => raise ErrorCode.kInvalidArgument "null backend"
  | Some p => modify_impl (λ i, i <| im_backends ::= <[id := p]> |>)
  end.

Definition backend (id : StorageBackendId) : Store BackendPtr :=
  bs ← get_impl im_backends;
  match bs !! id with
  | None => raise ErrorCode.kNotFound "backend not registered"
  | Some p => mret p
  end.

Definition backend_descriptors : Store (list BackendDescriptor) :=
  s ← get;
  mret ((λ kv, descriptor (s_heap s kv.2)) <$> iter_order (im_backends (s_impl s))).

Definition create_family (owner : OwnerId) (provenance : Provenance.t) : Store CheckpointFamilyId :=
  id ← get_impl im_next_family_id;
  _ ← modify_impl (λ i, i <| im_next_family_id := mkId (incr64 (id_value id)) |>);
  families ← get_impl im_families;
  _ ← (match families !! id with
       | Some _ => mret tt
       | None => modify_impl (λ i, i <| im_families ::= <[id := mkFamily id (mkGen 1) []]> |>)
       end);
  _ ← modify_impl (λ i, i <| im_next_checkpoint_generation ::= <[id := mkGen 1]> |>);
  families ← get_impl im_families;
  _ ← bump_counter (λ c, c <| acct_family_count := Z.of_nat (size families) |>);
  mret id.

Definition family_exists (id : CheckpointFamilyId) : Store bool :=
  get_impl (λ i, bool_decide (is_Some (im_families i !! id))).

(** [now] is the reading of the system clock. *)
Definition make_full_descriptor (now : Z) (family : CheckpointFamilyId) (owner : OwnerId)
    (logical_size : Z) (durability : DurabilityClass.t) : Store CheckpointDescriptor :=
  gens ← get_impl im_next_checkpoint_generation;
  match gens !! family with
  | None => raise ErrorCode.kNotFound "family not found"
  | Some generation =>
      n ← fresh_id;
      options ← gets s_options;
      mret (default_CheckpointDescriptor
        <| d_id := mkId n |> <| d_family_id := family |> <| d_generation := generation |>
        <| d_kind := CheckpointKind.kFull |> <| d_logical_size := logical_size |>
        <| d_created_at := now |> <| d_owner_id := owner |>
        <| d_producer_boot := opt_boot_id options |> <| d_producer_generation := generation |>
        <| d_retention := RetentionClass.kKeepLatestN |> <| d_durability := durability |>
        <| d_restore_priority := RestorePriority.kNormal |>
        <| d_provenance := Provenance.kMeasured |> <| d_policy_generation := mkGen 1 |>
        <| d_required_replica_count := opt_required_replica_count options |>)
  end.

(** ** Queries *)
Definition find_checkpoint (id : CheckpointId) : Store CheckpointRecord :=
  cs ← get_impl im_checkpoints;
  match cs !! id with
  | None => raise ErrorCode.kNotFound "checkpoint not found"
  | Some rec => mret rec
  end.
Definition get_checkpoint (id : CheckpointId) : Store CheckpointDescriptor :=
  rec ← find_checkpoint id; mret (rec_descriptor rec).
Definition get_manifest (id : CheckpointId) : Store CheckpointManifest :=
  rec ← find_checkpoint id; mret (rec_manifest rec).
Definition get_chunks (id : CheckpointId) : Store (list ChunkDescriptor) :=
  rec ← find_checkpoint id; mret (rec_chunks rec).
Definition get_replicas (id : CheckpointId) : Store (list ReplicaDescriptor) :=
  rec ← find_checkpoint id;
  replicas ← get_impl im_replicas;
  mret (omap (λ rid, replicas !! rid) (rs_replicas (rec_replica_set rec))).
Definition lifecycle (id : CheckpointId) : Store CheckpointLifecycle.t :=
  rec ← find_checkpoint id; mret (rec_lifecycle rec).
Definition checkpoint_exists (id : CheckpointId) : Store bool :=
  get_impl (λ i, bool_decide (is_Some (im_checkpoints i !! id))).
Definition list_checkpoints : Store (list CheckpointId) :=
  get_impl (λ i, (iter_order (im_checkpoints i)).*1).
Definition set_coordinator_epoch (epoch : CoordinatorEpoch) : Store unit :=
  modify (λ s, s <| s_coordinator_epoch := epoch |>).
Definition set_authority_boot (boot : WorkerBootId) : Store unit :=
  modify (λ s, s <| s_options ::= λ o, o <| opt_boot_id := boot |> |>).
End store.

(** ** Keys of blobs *)
Lemma hex_digit_hex n : 0 ≤ n < 16 → hex_char (hex_digit n) = true.
Proof. revert n. apply (Z_forall_below (λ n, hex_char (hex_digit n) = true) 16). by vm_compute. Qed.
Lemma hex_string_chars bytes : all_chars hex_char (hex_string bytes) = true.
Proof.
  induction bytes as [|b bytes IH]; [done|]. cbn [hex_string all_chars].
  pose proof (byte_val_range b). rewrite IH, !hex_digit_hex; [done|..].
  - change 15 with (Z.ones 4). rewrite Z.land_ones by lia. apply Z.mod_pos_bound. lia.
  - rewrite Z.shiftr_div_pow2 by lia. split; [apply Z.div_pos; lia|]. apply Z.div_lt_upper_bound; lia.
Qed.
Lemma all_chars_substring P n m s : all_chars P s = true → all_chars P (String.substring n m s) = true.
Proof.
  revert n m. induction s as [|c s IH]; intros n m Hs; [by destruct n, m|].
  cbn [all_chars] in Hs. apply andb_true_iff in Hs as [Hc Hs].
  destruct n as [|n]; [destruct m as [|m]; [done|]|]; cbn [String.substring all_chars]; [|by apply IH].
  rewrite Hc. by apply IH.
Qed.
Lemma hex_chars d : all_chars hex_char (hex d) = true.
Proof. apply hex_string_chars. Qed.
Lemma blob_prefix_chars d : all_chars hex_char (blob_prefix d) = true.
Proof. apply all_chars_substring, hex_chars. Qed.

Lemma blob_key_components d :
  split_on is_slash (key_value (blob_key d)) = ["blobs"; blob_prefix d; hex d].
Proof.
  unfold blob_key. cbn [key_value].
  change ("blobs/" +:+ blob_prefix d +:+ "/" +:+ hex d)
    with ("blobs" +:+ String "/" (blob_prefix d +:+ String "/" (hex d))).
  rewrite split_on_app by done. rewrite split_on_app by (apply (all_chars_not hex_char); [apply blob_prefix_chars|done]).
  by rewrite split_on_single by (apply (all_chars_not hex_char); [apply hex_chars|done]).
Qed.

Lemma blob_key_inj d1 d2 : blob_key d1 = blob_key d2 → d1 = d2.
Proof.
  intros E. apply (f_equal (λ k, split_on is_slash (key_value k))) in E.
  rewrite !blob_key_components in E. injection E as _ E. by apply hex_inj.
Qed.

Lemma length_substring_prefix n s : (n ≤ String.length s)%nat → String.length (String.substring 0 n s) = n.
Proof.
  revert n. induction s as [|c s IH]; intros [|n]; simpl; try lia. intros. rewrite IH; lia.
Qed.

Lemma blob_key_length d : length d = 32%nat → String.length (key_value (blob_key d)) = 73%nat.
Proof.
  intros Hd. unfold blob_key, blob_prefix. cbn [key_value].
  rewrite !string_length_app, length_substring_prefix, length_hex by (rewrite ?length_hex; lia || done).
  done.
Qed.

Lemma blob_key_valid d : length d = 32%nat → validate_backend_key (key_value (blob_key d)) = true.
Proof.
  intros Hd. apply validate_backend_key_spec. pose proof (blob_key_length d Hd) as Hl.
  assert (has_char "000" (key_value (blob_key d)) = false) as H0.
  { unfold blob_key. cbn [key_value]. rewrite !has_char_app.
    rewrite (all_chars_not hex_char (blob_prefix d)), (all_chars_not hex_char (hex d));
      auto using blob_prefix_chars, hex_chars. }
  split; [intros E; by rewrite E in Hl|]. split; [done|]. split; [lia|].
  do 3 (split; [done|]). rewrite blob_key_components. cbn [forallb].
  rewrite (component_ok_hex (hex d)), (component_ok_hex (blob_prefix d)); [done| | | | | |].
  - apply blob_prefix_chars.
  - intros E. apply (f_equal String.length) in E. unfold blob_prefix in E.
    rewrite length_substring_prefix in E; [done|]. rewrite length_hex by done. lia.
  - unfold blob_prefix. rewrite length_substring_prefix; [lia|]. rewrite length_hex by done. lia.
  - apply hex_chars.
  - intros E. apply (f_equal String.length) in E. by rewrite length_hex in E.
  - rewrite length_hex by done. lia.
Qed.

(** ** Claims *)

(** Blobs are addressed by content: the key of a digest is always accepted
    by the key validation, and different digests have different keys. *)
Theorem blob_keys_governed d1 d2 :
  (length d1 = 32%nat → validate_backend_key (key_value (blob_key d1)) = true) ∧
  (blob_key d1 = blob_key d2 ↔ d1 = d2).
Proof. split; [apply blob_key_valid|]. split; [apply blob_key_inj|by intros ->]. Qed.
