(* ===== verification/Publish.v ===== *)
(** * Publish: transactional publication

    [CheckpointStore::publish] of [src/store.cpp]: the guards, the loop over
    the chunks, the read-back verification, the manifest check, the commit of
    the metadata and the rollback of the [catch (...)] block. *)
From stdpp Require Import functions.
From S2P Require Import Prelude Base Hash Model Chunking Dedup BinFormat Backend SyntheticBackend Store.

(** The local variables of the [try] block that its [catch] handler and its
    later statements use. *)
Record PublishLocals := mkLocals {
  l_chunk_descriptors : list ChunkDescriptor;
  l_manifest_entries : list ManifestEntry;
  l_chunk_sizes : gmap ChunkId Z;
  l_new_blob_keys : list BackendKey;
  l_new_digests : list Sha256Digest;
  l_write_size : Z;
  l_dedup_hits : Z;
  l_dedup_misses : Z
}.
#[export] Instance eta_PublishLocals : Eta PublishLocals := λ r,
  mkLocals (l_chunk_descriptors r) (l_manifest_entries r) (l_chunk_sizes r) (l_new_blob_keys r)
    (l_new_digests r) (l_write_size r) (l_dedup_hits r) (l_dedup_misses r).
Definition default_PublishLocals : PublishLocals := mkLocals [] [] ∅ [] [] 0 0 0.

(** [std::map::emplace] and [std::unordered_map::emplace]: an existing binding
    stays. *)
Definition emplace `{Countable K} {A} (k : K) (a : A) (m : gmap K A) : gmap K A :=
  match m !! k with Some _ => m | None => <[k := a]> m end.

(** [std::sort] by [logical_offset].  The offsets of a stream's chunks differ,
    so the order is determined. *)
Definition offset_le (a b : ManifestEntry) : Prop := e_logical_offset a ≤ e_logical_offset b.
#[export] Instance offset_le_dec : RelDecision offset_le.
Proof. intros a b. unfold offset_le. apply _. Defined.
Definition sort_entries (entries : list ManifestEntry) : list ManifestEntry :=
  merge_sort offset_le entries.

(** The gap and overlap check; [chunk_sizes.at] throws for an unknown chunk. *)
Fixpoint walk_entries (sizes : gmap ChunkId Z) (entries : list ManifestEntry) (expected : Z) :
    outcome Z :=
  match entries with
  | [] => Ok expected
  | e :: entries' =>
      if negb (e_logical_offset e =? expected) then
        throw_error ErrorCode.kMalformed "manifest has a gap or overlap"
      else
        match sizes !! e_chunk_id e with
        | None => throw_error ErrorCode.kInternal "std::out_of_range"
        | Some n => walk_entries sizes entries' (u64 (expected + n))
        end
  end.

Definition check_manifest (sizes : gmap ChunkId Z) (entries : list ManifestEntry) (total : Z) :
    outcome unit :=
  expected ← walk_entries sizes entries 0;
  if negb (expected =? total) then
    throw_error ErrorCode.kMalformed "manifest total size mismatch"
  else Ok tt.

Section publish.
Context `{IterOrder} {B : Type} `{IBackend B}.
Abbreviation Store := (ST (CheckpointStore B) CheckpointStoreError).
Abbreviation Try := (ST (CheckpointStore B * PublishLocals) CheckpointStoreError).

Definition in_store {A} (m : Store A) : Try A := zoom fst (λ w p, (w, p.2)) m.
Definition modify_locals (f : PublishLocals → PublishLocals) : Try unit :=
  modify (λ p, (p.1, f p.2)).

(** ** The guards, up to the choice of the backend *)
Definition publish_guards (descriptor : CheckpointDescriptor) : Store BackendPtr :=
  s ← get;
  _ ← (if bool_decide (d_producer_boot descriptor ≠ opt_boot_id (s_options s)) then
         _ ← bump_counter (λ c, c <| acct_stale_rejections ::= incr64 |>);
         raise ErrorCode.kStaleAuthority "publish authority is stale"
       else mret tt);
  _ ← (if bool_decide (is_Some (im_checkpoints (s_impl s) !! d_id descriptor)) then
         _ ← bump_counter (λ c, c <| acct_duplicate_rejections ::= incr64 |>);
         raise ErrorCode.kAlreadyExists "checkpoint already committed"
       else mret tt);
  match im_next_checkpoint_generation (s_impl s) !! d_family_id descriptor with
  | None => raise ErrorCode.kNotFound "family not found"
  | Some generation =>
      _ ← (if negb (equal_to (d_generation descriptor) generation) then
             _ ← bump_counter (λ c, c <| acct_stale_rejections ::= incr64 |>);
             raise ErrorCode.kStaleGeneration "publish generation is stale"
           else mret tt);
      _ ← raise_if (negb (valid_chunk_size (opt_chunk_size (s_options s))))
            ErrorCode.kInvalidArgument "invalid configured chunk size";
      _ ← raise_if (bool_decide (d_kind descriptor ≠ CheckpointKind.kFull) &&
                    bool_decide (d_kind descriptor ≠ CheckpointKind.kSynthetic))
            ErrorCode.kNotSupported
            "only full/synthetic checkpoint publication is supported in 1.0.0";
      match im_backends (s_impl s) !! im_primary_backend_id (s_impl s) with
      | None => raise ErrorCode.kNotFound "primary backend not registered"
      | Some underlay => mret underlay
      end
  end.

(** ** The loop over the chunks *)

(** The chunk descriptor before the blob is found or written. *)
Definition slice_descriptor (slice : ChunkSlice) : ChunkDescriptor :=
  default_ChunkDescriptor
    <| cd_id := chunk_id_from_digest (sl_digest slice) |>
    <| cd_generation := mkGen 1 |>
    <| cd_logical_offset := cr_logical_offset (sl_range slice) |>
    <| cd_logical_size := cr_logical_size (sl_range slice) |>
    <| cd_physical_size := zlen (sl_bytes slice) |>
    <| cd_digest := sl_digest slice |>
    <| cd_blob_id := blob_id_from_digest (sl_digest slice) |>
    <| cd_provenance := Provenance.kMeasured |>
    <| cd_integrity := IntegrityState.kUnverified |>
    <| cd_payload_encoding := "identity" |>.

(** Share an existing blob: [Some] of the blob to use when it is reused. *)
Definition reuse_blob (underlay : BackendPtr) (slice : ChunkSlice) : Try (option BlobId) :=
  table ← gets (λ p, s_dedup p.1);
  lookup ← lift_result (dedup_lookup table (sl_digest slice) (zlen (sl_bytes slice)));
  match dl_result lookup with
  | DedupResult.kHit =>
      exist ← in_store (on_backend underlay (verify (blob_key (sl_digest slice)) (sl_digest slice)));
      match dedup_find table (sl_digest slice) with
      | Some e =>
          if bool_decide (exist = IntegrityState.kVerified) then
            _ ← in_store (on_dedup (dedup_add_reference (sl_digest slice)));
            _ ← modify_locals (λ l, l <| l_dedup_hits ::= incr64 |>);
            mret (Some (de_blob_id e))
          else if bool_decide (exist = IntegrityState.kCorrupt) then
            _ ← in_store (bump_counter (λ c, c <| acct_integrity_failures ::= incr64 |>));
            mret None
          else mret None
      | None =>
          if bool_decide (exist = IntegrityState.kCorrupt) then
            _ ← in_store (bump_counter (λ c, c <| acct_integrity_failures ::= incr64 |>));
            mret None
          else mret None
      end
  | _ => mret None
  end.

(** Write a new blob. *)
Definition write_blob (underlay : BackendPtr) (slice : ChunkSlice) : Try unit :=
  let bkey := blob_key (sl_digest slice) in
  _ ← in_store (on_backend underlay (put_temp bkey (sl_bytes slice)));
  _ ← in_store (on_backend underlay (commit bkey));
  _ ← in_store (on_dedup (dedup_insert (blob_id_from_digest (sl_digest slice)) (sl_digest slice)
        (zlen (sl_bytes slice)) IntegrityState.kVerified (mkGen 1)));
  modify_locals (λ l, l <| l_dedup_misses ::= incr64 |>
                        <| l_write_size ::= λ n, u64 (n + zlen (sl_bytes slice)) |>
                        <| l_new_blob_keys ::= λ ks, ks ++ [bkey] |>
                        <| l_new_digests ::= λ ds, ds ++ [sl_digest slice] |>).

(** The blob table entry of a chunk: created, or extended by the replica. *)
Definition record_blob (cd : ChunkDescriptor) (replica_id : ReplicaId) : Store unit :=
  s ← get;
  match im_blobs (s_impl s) !! cd_blob_id cd with
  | None =>
      let bd := default_BlobDescriptor
        <| b_id := cd_blob_id cd |> <| b_generation := mkGen 1 |>
        <| b_physical_size := cd_physical_size cd |> <| b_digest := cd_digest cd |>
        <| b_refcount := dedup_refcount (s_dedup s) (cd_digest cd) |>
        <| b_tier := StorageTierClass.kLocalFilesystem |>
        <| b_provenance := Provenance.kMeasured |> <| b_integrity := cd_integrity cd |>
        <| b_replicas := [replica_id] |> in
      modify_impl (λ i, i <| im_blobs ::= <[b_id bd := bd]> |>)
  | Some bd =>
      if bool_decide (replica_id ∈ b_replicas bd) then mret tt
      else modify_impl (λ i, i <| im_blobs ::=
             <[cd_blob_id cd := bd <| b_replicas ::= λ rs, rs ++ [replica_id] |>]> |>)
  end.

Definition record_placement (cd : ChunkDescriptor) (replica_id : ReplicaId) : Store PlacementId :=
  n ← fresh_id;
  primary ← get_impl im_primary_backend_id;
  let pd := mkPlacementDescriptor (mkId n) (mkGen 1) replica_id (mkId 1) primary (mkId 1) (mkId 1)
              (cd_physical_size cd) Provenance.kMeasured Freshness.kCurrent in
  _ ← modify_impl (λ i, i <| im_placements ::= emplace (pl_id pd) pd |>);
  mret (pl_id pd).

Definition publish_slice (underlay : BackendPtr) (replica_id : ReplicaId) (slice : ChunkSlice) :
    Try unit :=
  reused ← reuse_blob underlay slice;
  blob ← (match reused with
          | Some blob_id => mret blob_id
          | None => _ ← write_blob underlay slice; mret (blob_id_from_digest (sl_digest slice))
          end);
  let cd := slice_descriptor slice <| cd_integrity := IntegrityState.kVerified |>
                                   <| cd_blob_id := blob |> in
  _ ← in_store (record_blob cd replica_id);
  placement ← in_store (record_placement cd replica_id);
  modify_locals (λ l, l
    <| l_chunk_descriptors ::= λ cds, cds ++ [cd <| cd_placements := [placement] |>] |>
    <| l_chunk_sizes ::= emplace (cd_id cd) (zlen (sl_bytes slice)) |>
    <| l_manifest_entries ::= λ es,
         es ++ [mkManifestEntry (cd_id cd) (cr_logical_offset (sl_range slice))] |>).

(** ** Read-back verification *)
Fixpoint read_back (underlay : BackendPtr) (cds : list ChunkDescriptor) (combined : Sha256Hasher) :
    Store Sha256Hasher :=
  match cds with
  | [] => mret combined
  | cd :: cds' =>
      rb ← on_backend underlay (read (blob_key (cd_digest cd)));
      _ ← (if negb (zlen rb =? cd_physical_size cd) then
             _ ← bump_counter (λ c, c <| acct_integrity_failures ::= incr64 |>);
             raise ErrorCode.kIntegrity "chunk size mismatch during verify"
           else mret tt);
      _ ← (if negb (digest_equal (sha256 rb) (cd_digest cd)) then
             _ ← bump_counter (λ c, c <| acct_integrity_failures ::= incr64 |>);
             raise ErrorCode.kDigestMismatch "chunk verification failed"
           else mret tt);
      read_back underlay cds' (update_hasher combined rb)
  end.

Definition verify_content (underlay : BackendPtr) (cds : list ChunkDescriptor) (data : list byte) :
    Store Sha256Digest :=
  combined ← read_back underlay cds new_hasher;
  let final_digest := final_hasher combined in
  _ ← raise_if (negb (digest_equal final_digest (sha256 data)))
        ErrorCode.kDigestMismatch "checkpoint content digest mismatch";
  mret final_digest.

(** ** Commit of the metadata: nothing in it throws *)
Definition make_manifest (descriptor : CheckpointDescriptor) (data : list byte) (id : ManifestId)
    (entries : list ManifestEntry) (final_digest : Sha256Digest) : CheckpointManifest :=
  let manifest := default_CheckpointManifest
    <| m_id := id |> <| m_generation := mkGen 1 |>
    <| m_checkpoint_id := d_id descriptor |>
    <| m_checkpoint_generation := d_generation descriptor |>
    <| m_chunks := entries |> <| m_logical_size := zlen data |>
    <| m_checkpoint_digest := final_digest |> <| m_lineage := d_lineage descriptor |>
    <| m_parent := d_parent_checkpoint descriptor |> <| m_base := d_base_checkpoint descriptor |>
    <| m_provenance := d_provenance descriptor |> <| m_durability := d_durability descriptor |>
    <| m_required_replica_count := d_required_replica_count descriptor |> in
  manifest <| m_semantic_digest := manifest_semantic_digest manifest |>.

Definition make_replica (replica_id : ReplicaId) (primary : StorageBackendId) (write_size : Z) :
    ReplicaDescriptor :=
  mkReplicaDescriptor replica_id (mkGen 1) primary ReplicaSourceKind.kLocal
    StorageTierClass.kLocalFilesystem IntegrityState.kVerified ReplicaRole.kAuthoritative
    write_size Provenance.kMeasured.

Definition make_replica_set (descriptor : CheckpointDescriptor) (replica_id : ReplicaId) :
    ReplicaSet :=
  mkReplicaSet (d_id descriptor) (d_generation descriptor) (d_required_replica_count descriptor)
    [replica_id]
    (if d_required_replica_count descriptor <=? 1 then ReplicaDurabilityState.kHealthy
     else ReplicaDurabilityState.kUnderReplicated)
    (mkGen 1) Provenance.kMeasured.

Definition make_record (descriptor : CheckpointDescriptor) (manifest : CheckpointManifest)
    (chunks : list ChunkDescriptor) (rs : ReplicaSet) : CheckpointRecord :=
  mkRecord descriptor manifest chunks rs CheckpointLifecycle.kCommitted IntegrityState.kVerified
    Freshness.kCurrent.

Definition publish_counters (data : list byte) (chunks : list ChunkDescriptor) (table : DedupTable)
    (i : Impl) (c : AccountingSnapshot) : AccountingSnapshot :=
  let logical := u64 (acct_logical_bytes c + zlen data) in
  let unique := unique_physical_bytes table in
  c <| acct_checkpoint_count := Z.of_nat (size (im_checkpoints i)) |>
    <| acct_committed_checkpoint_count := Z.of_nat (size (im_checkpoints i)) |>
    <| acct_manifest_count := Z.of_nat (size (im_checkpoints i)) |>
    <| acct_logical_bytes := logical |>
    <| acct_chunk_count ::= λ n, u64 (n + zlen chunks) |>
    <| acct_blob_count := Z.of_nat (size (im_blobs i)) |>
    <| acct_unique_physical_bytes := unique |>
    <| acct_deduplicated_bytes := if logical >? unique then logical - unique else 0 |>
    <| acct_replica_count := Z.of_nat (size (im_replicas i)) |>
    <| acct_placement_count := Z.of_nat (size (im_placements i)) |>
    <| acct_blob_references := dedup_size table |>.

Definition commit_metadata (descriptor : CheckpointDescriptor) (data : list byte)
    (replica_id : ReplicaId) (entries : list ManifestEntry) (final_digest : Sha256Digest) :
    Try PublishedCheckpoint :=
  l ← gets snd;
  manifest_id ← in_store fresh_id;
  primary ← in_store (get_impl im_primary_backend_id);
  let chunks := l_chunk_descriptors l in
  let manifest := make_manifest descriptor data (mkId manifest_id) entries final_digest in
  let rec := make_record descriptor manifest chunks (make_replica_set descriptor replica_id) in
  let rd := make_replica replica_id primary (l_write_size l) in
  _ ← in_store (modify_impl (λ i, i
        <| im_replicas ::= emplace (rp_id rd) rd |>
        <| im_checkpoints ::= emplace (d_id descriptor) rec |>
        <| im_families ::= alter (λ f, f <| fam_checkpoint_ids ::= λ ids, ids ++ [d_id descriptor] |>)
             (d_family_id descriptor) |>
        <| im_next_checkpoint_generation ::=
             <[d_family_id descriptor := next (d_generation descriptor)]> |>));
  _ ← in_store (λ s, modify_impl (λ i, i <| im_counters ::=
        publish_counters data chunks (s_dedup s) i |>) s);
  mret (mkPublished descriptor manifest chunks (l_write_size l)
    (if zlen data >=? l_write_size l then zlen data - l_write_size l else 0)
    (l_dedup_hits l) (l_dedup_misses l)).

(** The [try] block. *)
Definition publish_body (descriptor : CheckpointDescriptor) (data : list byte)
    (underlay : BackendPtr) (replica_id : ReplicaId) (slices : list ChunkSlice) :
    Try PublishedCheckpoint :=
  _ ← for_each slices (publish_slice underlay replica_id);
  cds ← gets (λ p, l_chunk_descriptors p.2);
  final_digest ← in_store (verify_content underlay cds data);
  l ← gets snd;
  let entries := sort_entries (l_manifest_entries l) in
  _ ← lift_result (check_manifest (l_chunk_sizes l) entries (zlen data));
  commit_metadata descriptor data replica_id entries final_digest.

(** The [catch (...)] block, before it rethrows. *)
Definition rollback (underlay : BackendPtr) (l : PublishLocals) : Store unit :=
  _ ← for_each (l_new_blob_keys l) (λ key,
        _ ← attempt (on_backend underlay (remove key)); mret tt);
  for_each (l_new_digests l) (λ d,
    _ ← attempt (_ ← on_dedup (dedup_release_reference d);
                 on_dedup (dedup_release_until_orphan d));
    mret tt).

(** [try { body } catch (...) { rollback; throw; }] *)
Definition try_publish (descriptor : CheckpointDescriptor) (data : list byte)
    (underlay : BackendPtr) (replica_id : ReplicaId) (slices : list ChunkSlice) :
    Store PublishedCheckpoint := λ s,
  match publish_body descriptor data underlay replica_id slices (s, default_PublishLocals) with
  | (Ok result, (s', _)) => (Ok result, s')
  | (Throw e, (s', l)) => let '(_, s'') := rollback underlay l s' in (Throw e, s'')
  end.

Definition publish (descriptor : CheckpointDescriptor) (data : list byte) :
    Store PublishedCheckpoint :=
  underlay ← publish_guards descriptor;
  chunk_size ← gets (λ s, opt_chunk_size (s_options s));
  slices ← lift_result (chunk_stream data chunk_size);
  replica ← fresh_id;
  try_publish descriptor data underlay (mkId replica) slices.
End publish.

(** ** Framing: what publication never touches before it commits *)
Section publish_facts.
Context `{IterOrder} {B : Type} `{IBackend B}.
Abbreviation Store := (ST (CheckpointStore B) CheckpointStoreError).
Abbreviation Try := (ST (CheckpointStore B * PublishLocals) CheckpointStoreError).
Implicit Types s : CheckpointStore B.

(** The authoritative catalogue: everything but the physical side of the store
    (blob table, placements, dedup table, id counter, statistics, backends). *)
Definition catalogue s :=
  let i := s_impl s in
  (s_options s, s_coordinator_epoch s, im_backends i, im_primary_backend_id i, im_families i,
   im_checkpoints i, im_replicas i, im_retention i, im_workers i,
   im_next_checkpoint_generation i, im_next_family_id i, im_gc i, im_restore_plans i,
   im_restore_evidence i, im_active_restores i, im_reservations i).
Definition same_catalogue s s' : Prop := catalogue s' = catalogue s.
#[global] Instance same_catalogue_preorder : PreOrder same_catalogue.
Proof. split; [done|]. intros s1 s2 s3 H12 H23. unfold same_catalogue in *. congruence. Qed.

(** A relation between states of the [try] block that looks at the store, and
    one that looks at the locals. *)
Definition on_store (R : CheckpointStore B → CheckpointStore B → Prop)
    (p p' : CheckpointStore B * PublishLocals) : Prop := R p.1 p'.1.
Definition chunk_locals (l : PublishLocals) := (l_chunk_descriptors l, l_manifest_entries l, l_chunk_sizes l).
Definition same_chunks (p p' : CheckpointStore B * PublishLocals) : Prop :=
  chunk_locals p'.2 = chunk_locals p.2.
#[global] Instance on_store_preorder R : PreOrder R → PreOrder (on_store R).
Proof. intros HR. split; [intros p; by unfold on_store|]. intros p1 p2 p3. unfold on_store. apply HR. Qed.
#[global] Instance same_chunks_preorder : PreOrder same_chunks.
Proof. split; [done|]. unfold same_chunks. intros ???; congruence. Qed.

Lemma frames_in_store R {A} (m : Store A) : frames R m → frames (on_store R) (in_store m).
Proof.
  intros Hm p. unfold in_store, zoom, on_store. specialize (Hm p.1). by destruct (m p.1).
Qed.
Lemma frames_in_store_chunks {A} (m : Store A) : frames same_chunks (in_store m).
Proof. intros p. unfold in_store, zoom, same_chunks. by destruct (m p.1). Qed.
Lemma frames_on_backend {A} p (m : ST B CheckpointStoreError A) :
  frames same_catalogue (on_backend p m).
Proof. intros s. unfold on_backend, zoom. by destruct (m (s_heap s p)). Qed.
Lemma frames_on_dedup {A} (m : ST DedupTable CheckpointStoreError A) :
  frames same_catalogue (on_dedup m).
Proof. intros s. unfold on_dedup, zoom. by destruct (m (s_dedup s)). Qed.
Lemma frames_bump f : frames same_catalogue (bump_counter (B:=B) f).
Proof. by intros s. Qed.
Lemma frames_fresh_id : frames same_catalogue (fresh_id (B:=B)).
Proof. by intros s. Qed.
Lemma frames_modify_locals R f : PreOrder R → frames (on_store R) (modify_locals (B:=B) f).
Proof. intros HR p. unfold on_store. simpl. reflexivity. Qed.
Lemma frames_get_impl R {A} (f : Impl → A) : PreOrder R → frames R (get_impl (B:=B) f).
Proof. intros HR. apply frames_gets; done. Qed.

Ltac publish_frames :=
  repeat first
    [ apply frames_on_backend | apply frames_on_dedup | apply frames_bump | apply frames_fresh_id
    | apply frames_get_impl; apply _ | apply frames_modify_locals; apply _
    | apply frames_in_store_chunks | apply frames_in_store
    | unfold raise_if, raise; frame_step | progress cbn beta iota zeta
    | by intros ? | apply _ ].

Lemma frames_reuse R p slice : PreOrder R →
  (∀ A (m : ST B CheckpointStoreError A), frames R (on_backend p m)) →
  (∀ A (m : ST DedupTable CheckpointStoreError A), frames R (on_dedup m)) →
  (∀ f, frames R (bump_counter f)) → frames (on_store R) (reuse_blob p slice).
Proof.
  intros. unfold reuse_blob.
  repeat first [apply frames_in_store; by auto | apply frames_modify_locals; apply _
               | frame_step | progress cbn beta iota zeta].
Qed.
Lemma reuse_keeps_chunks p slice : frames same_chunks (reuse_blob p slice).
Proof. unfold reuse_blob. publish_frames. Qed.
Lemma write_keeps_chunks p slice : frames same_chunks (write_blob p slice).
Proof. unfold write_blob. publish_frames. Qed.

Lemma record_blob_frames cd r : frames same_catalogue (record_blob (B:=B) cd r).
Proof. unfold record_blob, modify_impl. publish_frames. Qed.
Lemma record_placement_frames cd r : frames same_catalogue (record_placement (B:=B) cd r).
Proof. unfold record_placement, modify_impl. publish_frames. Qed.

Lemma publish_slice_frames p r slice : frames (on_store same_catalogue) (publish_slice p r slice).
Proof.
  unfold publish_slice, write_blob.
  publish_frames; first [apply record_blob_frames | apply record_placement_frames | idtac].
  apply frames_reuse; auto using frames_on_backend, frames_on_dedup, frames_bump; apply _.
Qed.

Lemma read_back_frames p cds h : frames same_catalogue (read_back p cds h).
Proof. revert h. induction cds as [|cd cds IH]; intros h; simpl; publish_frames; apply IH. Qed.
Lemma verify_content_frames p cds data : frames same_catalogue (verify_content p cds data).
Proof. unfold verify_content. publish_frames; apply read_back_frames. Qed.
Lemma rollback_frames p l : frames same_catalogue (rollback p l).
Proof. unfold rollback. publish_frames. Qed.

(** ** The loop: the locals describe the slices done so far *)
Definition chunk_of (slice : ChunkSlice) (cd : ChunkDescriptor) : Prop :=
  cd_id cd = chunk_id_from_digest (sl_digest slice) ∧
  cd_logical_offset cd = cr_logical_offset (sl_range slice) ∧
  cd_logical_size cd = cr_logical_size (sl_range slice) ∧
  cd_physical_size cd = zlen (sl_bytes slice) ∧
  cd_digest cd = sl_digest slice ∧ cd_integrity cd = IntegrityState.kVerified.
Definition entry_of (slice : ChunkSlice) : ManifestEntry :=
  mkManifestEntry (chunk_id_from_digest (sl_digest slice)) (cr_logical_offset (sl_range slice)).
Definition locals_for (done : list ChunkSlice) (l : PublishLocals) : Prop :=
  Forall2 chunk_of done (l_chunk_descriptors l) ∧ l_manifest_entries l = entry_of <$> done.

Lemma publish_slice_locals p r slice done (q q' : CheckpointStore B * PublishLocals) :
  publish_slice p r slice q = (Ok tt, q') → locals_for done q.2 →
  locals_for (done ++ [slice]) q'.2.
Proof.
  unfold publish_slice. intros (reused & q1 & H1 & Hrest)%st_bind_ok [Hcd Hme].
  pose proof (reuse_keeps_chunks p slice q) as K1. rewrite H1 in K1. simpl in K1.
  apply st_bind_ok in Hrest as (blob & q2 & H2 & Hrest).
  assert (same_chunks q1 q2) as K2.
  { destruct reused as [b|]; [by injection H2 as <- <-|].
    apply st_bind_ok in H2 as ([] & q2' & H2 & H2'). injection H2' as <- <-.
    pose proof (write_keeps_chunks p slice q1) as K. by rewrite H2 in K. }
  apply st_bind_ok in Hrest as ([] & q3 & H3 & Hrest).
  apply st_bind_ok in Hrest as (pl & q4 & H4 & Hrest).
  match type of H3 with in_store ?m _ = _ => pose proof (frames_in_store_chunks m q2) as K3 end.
  match type of H4 with in_store ?m _ = _ => pose proof (frames_in_store_chunks m q3) as K4 end.
  rewrite H3 in K3. rewrite H4 in K4. simpl in K3, K4. injection Hrest as <-.
  unfold same_chunks, chunk_locals in *. rewrite K3, K2, K1 in K4. injection K4 as Ec Em Es.
  split; simpl.
  - rewrite Ec. apply Forall2_app; [done|]. by repeat constructor.
  - rewrite Em, Hme, fmap_app. done.
Qed.

Lemma publish_loop_locals p r slices done (q q' : CheckpointStore B * PublishLocals) :
  for_each slices (publish_slice p r) q = (Ok tt, q') → locals_for done q.2 →
  locals_for (done ++ slices) q'.2.
Proof.
  revert done q. induction slices as [|slice slices IH]; intros done q.
  - intros [= <-] Hl. by rewrite app_nil_r.
  - simpl. intros ([] & q1 & H1 & H2)%st_bind_ok Hl.
    rewrite cons_middle, app_assoc. eapply IH; [done|]. by eapply publish_slice_locals.
Qed.
Lemma publish_loop_frames p r slices :
  frames (on_store same_catalogue) (for_each slices (publish_slice p r)).
Proof. apply frames_for_each; [apply _|]. intros slice _. apply publish_slice_frames. Qed.

(** ** Sorting: the entries of a stream are in order already *)
Lemma tiles_offsets_above off size c rs r : 0 ≤ off →
  tiles off size c rs → r ∈ rs → off ≤ cr_logical_offset r.
Proof.
  revert off. induction rs as [|r' rs IH]; intros off Ho Ht Hr; [by apply not_elem_of_nil in Hr|].
  destruct Ht as (<- & Hp & _ & Ht). apply elem_of_cons in Hr as [->|Hr]; [lia|].
  apply IH in Ht; [lia|lia|done].
Qed.

Lemma tiles_entries_sorted off size c slices : 0 ≤ off →
  tiles off size c (sl_range <$> slices) →
  StronglySorted (λ a b, e_logical_offset a < e_logical_offset b) (entry_of <$> slices).
Proof.
  revert off. induction slices as [|sl slices IH]; intros off Ho Ht; csimpl; constructor.
  - destruct Ht as (E & Hp & _ & Ht). eapply IH; [|exact Ht]. lia.
  - apply Forall_fmap, Forall_forall. intros sl' Hsl'. simpl.
    destruct Ht as (E & Hp & _ & Ht).
    assert (sl_range sl' ∈ sl_range <$> slices) as Hin by (by apply list_elem_of_fmap_2).
    enough (off + cr_logical_size (sl_range sl) ≤ cr_logical_offset (sl_range sl')) by lia.
    eapply tiles_offsets_above; [|exact Ht|exact Hin]. lia.
Qed.

Lemma strictly_sorted_le es :
  StronglySorted (λ a b, e_logical_offset a < e_logical_offset b) es →
  Sorted offset_le es.
Proof.
  intros Hs. apply StronglySorted_Sorted. induction Hs as [|e es Hs IH Hf]; constructor; [done|].
  eapply Forall_impl; [exact Hf|]. unfold offset_le. simpl. lia.
Qed.

Lemma strictly_sorted_offset_inj es e1 e2 :
  StronglySorted (λ a b, e_logical_offset a < e_logical_offset b) es →
  e1 ∈ es → e2 ∈ es → e_logical_offset e1 = e_logical_offset e2 → e1 = e2.
Proof.
  induction 1 as [|e es Hs IH Hf]; intros H1 H2 Heq; [by apply not_elem_of_nil in H1|].
  rewrite Forall_forall in Hf. apply elem_of_cons in H1 as [->|H1], H2 as [->|H2]; auto.
  - apply Hf in H2. lia.
  - apply Hf in H1. lia.
Qed.

Lemma sort_entries_sorted es :
  StronglySorted (λ a b, e_logical_offset a < e_logical_offset b) es → sort_entries es = es.
Proof.
  intros Hs. assert (Transitive offset_le) as HT by (intros a b c; unfold offset_le; lia).
  assert (Total offset_le) as HTo by (intros a b; unfold offset_le; lia).
  apply (Sorted_unique_strong offset_le); [| by apply (Sorted_merge_sort offset_le)
    | by apply strictly_sorted_le | apply (merge_sort_Permutation offset_le)].
  intros e1 e2 H1 H2 H12 H21. unfold sort_entries in H1. rewrite merge_sort_Permutation in H1.
  eapply strictly_sorted_offset_inj; [done..|]. unfold offset_le in *. lia.
Qed.

End publish_facts.

(** ** What a successful publication establishes *)
Section publish_success.
Context `{IterOrder} {B : Type} `{HB : IBackend B} {HL : BackendLaws B}.
Implicit Types s : CheckpointStore B.

(** The backend object [b] holds the bytes [rb] of a chunk. *)
Definition stored_as (b : B) (cd : ChunkDescriptor) (rb : list byte) : Prop :=
  (read (blob_key (cd_digest cd)) b).1 = Ok rb ∧ zlen rb = cd_physical_size cd ∧
  sha256 rb = cd_digest cd.

Lemma on_backend_read p key s :
  on_backend p (read key) s =
    ((read key (s_heap s p)).1, s <| s_heap ::= <[p := s_heap s p]> |>).
Proof.
  unfold on_backend, zoom. pose proof (read_pure key (s_heap s p)) as Hp.
  destruct (read key (s_heap s p)) as [r b]. simpl in *. by subst.
Qed.

Lemma fn_insert_id (f : BackendPtr → B) p q : <[p := f p]> f q = f q.
Proof. destruct (decide (q = p)) as [->|]; [by rewrite fn_lookup_insert|by rewrite fn_lookup_insert_ne]. Qed.

Lemma read_back_ok p cds h s h' s' :
  read_back p cds h s = (Ok h', s') →
  (∀ q, s_heap s' q = s_heap s q) ∧
  ∃ rbs, Forall2 (stored_as (s_heap s p)) cds rbs ∧ h' = fold_left update_hasher rbs h.
Proof.
  revert h s. induction cds as [|cd cds IH]; intros h s; cbn [read_back].
  { intros [= <- <-]. split; [done|]. exists []. by split; [constructor|]. }
  intros (rb & s1 & H1 & Hrest)%st_bind_ok. rewrite on_backend_read in H1. injection H1 as Hr <-.
  apply st_bind_ok in Hrest as ([] & s2 & H2 & Hrest).
  destruct (zlen rb =? cd_physical_size cd) eqn:Esz; [|done]. injection H2 as <-.
  apply st_bind_ok in Hrest as ([] & s3 & H3 & Hrest).
  destruct (digest_equal (sha256 rb) (cd_digest cd)) eqn:Ed; [|done]. injection H3 as <-.
  apply IH in Hrest as [Hheap (rbs & Hf & ->)]. cbn [update s_heap] in Hheap, Hf.
  split; [intros q; rewrite Hheap; apply fn_insert_id|].
  exists (rb :: rbs). split; [|done]. constructor.
  - split; [done|]. split; [by apply Z.eqb_eq|]. by apply digest_equal_true.
  - eapply Forall2_impl; [exact Hf|]. intros cd' rb'. by rewrite fn_insert_id.
Qed.

Lemma verify_content_ok p cds data s digest s' :
  verify_content p cds data s = (Ok digest, s') →
  (∀ q, s_heap s' q = s_heap s q) ∧ digest = sha256 data ∧
  ∃ rbs, Forall2 (stored_as (s_heap s p)) cds rbs ∧ sha256 (concat rbs) = sha256 data.
Proof.
  unfold verify_content. intros (h & s1 & H1 & Hrest)%st_bind_ok.
  apply read_back_ok in H1 as [Hheap (rbs & Hf & ->)].
  apply st_bind_ok in Hrest as ([] & s2 & [Hd ->]%throw_if_ok & Hrest). injection Hrest as <- <-.
  apply negb_false_iff, digest_equal_true in Hd. rewrite streaming_sha256 in Hd.
  split; [done|]. split; [by rewrite streaming_sha256|]. by exists rbs.
Qed.
(** The store after the commit of the metadata. *)
Definition committed (descriptor : CheckpointDescriptor) (rec : CheckpointRecord)
    (rd : ReplicaDescriptor) s s' : Prop :=
  let i := s_impl s in let i' := s_impl s' in
  im_checkpoints i' = <[d_id descriptor := rec]> (im_checkpoints i) ∧
  im_replicas i' = emplace (rp_id rd) rd (im_replicas i) ∧
  im_families i' = alter (λ f, f <| fam_checkpoint_ids ::= λ ids, ids ++ [d_id descriptor] |>)
    (d_family_id descriptor) (im_families i) ∧
  im_next_checkpoint_generation i' =
    <[d_family_id descriptor := next (d_generation descriptor)]> (im_next_checkpoint_generation i) ∧
  s_options s' = s_options s ∧ s_coordinator_epoch s' = s_coordinator_epoch s ∧
  im_backends i' = im_backends i ∧ im_primary_backend_id i' = im_primary_backend_id i ∧
  im_retention i' = im_retention i ∧ im_next_family_id i' = im_next_family_id i ∧
  im_gc i' = im_gc i ∧ im_restore_plans i' = im_restore_plans i ∧
  im_restore_evidence i' = im_restore_evidence i ∧ im_workers i' = im_workers i ∧
  im_active_restores i' = im_active_restores i ∧ im_reservations i' = im_reservations i.

(** The record of a publication: [cds] are the chunks stored, [mid] and [rid]
    the ids drawn for the manifest and the replica. *)
Definition record_for (descriptor : CheckpointDescriptor) (data : list byte)
    (slices : list ChunkSlice) (cds : list ChunkDescriptor) (mid : Z) (rid : ReplicaId) :
    CheckpointRecord :=
  make_record descriptor
    (make_manifest descriptor data (mkId mid) (entry_of <$> slices) (sha256 data)) cds
    (make_replica_set descriptor rid).

Definition published_ok (descriptor : CheckpointDescriptor) (data : list byte)
    (slices : list ChunkSlice) s (res : PublishedCheckpoint) s' : Prop :=
  ∃ p cds rbs mid rid write_size,
    im_backends (s_impl s) !! im_primary_backend_id (s_impl s) = Some p ∧
    Forall2 chunk_of slices cds ∧ Forall2 (stored_as (s_heap s' p)) cds rbs ∧
    sha256 (concat rbs) = sha256 data ∧
    pub_descriptor res = descriptor ∧ pub_chunks res = cds ∧
    pub_manifest res = rec_manifest (record_for descriptor data slices cds mid rid) ∧
    committed descriptor (record_for descriptor data slices cds mid rid)
      (make_replica rid (im_primary_backend_id (s_impl s)) write_size) s s'.

Lemma in_store_ok {A} (m : ST (CheckpointStore B) CheckpointStoreError A) q a q' :
  in_store m q = (Ok a, q') ↔ ∃ s', m q.1 = (Ok a, s') ∧ q' = (s', q.2).
Proof. unfold in_store, zoom. destruct (m q.1) as [[] ?]; naive_solver. Qed.

Lemma commit_metadata_ok descriptor data rid entries digest s l :
  im_checkpoints (s_impl s) !! d_id descriptor = None →
  ∃ mid res s',
    commit_metadata descriptor data rid entries digest (s, l) = (Ok res, (s', l)) ∧
    s_heap s' = s_heap s ∧ pub_descriptor res = descriptor ∧
    pub_chunks res = l_chunk_descriptors l ∧
    pub_manifest res = make_manifest descriptor data (mkId mid) entries digest ∧
    committed descriptor
      (make_record descriptor (make_manifest descriptor data (mkId mid) entries digest)
         (l_chunk_descriptors l) (make_replica_set descriptor rid))
      (make_replica rid (im_primary_backend_id (s_impl s)) (l_write_size l)) s s'.
Proof.
  intros Hn. exists (im_next_id_counter (s_impl s)). eexists _, _. split.
  { unfold commit_metadata, in_store, fresh_id, get_impl, modify_impl, zoom, gets, modify, mbind,
      ST_bind, mret, ST_ret. cbn [fst snd]. reflexivity. }
  split; [reflexivity|]. do 3 (split; [reflexivity|]).
  unfold committed. cbn. unfold emplace at 1. rewrite Hn. by repeat split.
Qed.

Lemma publish_body_ok descriptor data p rid slices s res q' c :
  im_backends (s_impl s) !! im_primary_backend_id (s_impl s) = Some p →
  im_checkpoints (s_impl s) !! d_id descriptor = None →
  tiles 0 (zlen data) c (sl_range <$> slices) →
  publish_body descriptor data p rid slices (s, default_PublishLocals) = (Ok res, q') →
  published_ok descriptor data slices s res q'.1.
Proof.
  intros Hp Hn Ht. unfold publish_body. intros ([] & q1 & H1 & Hrest)%st_bind_ok.
  pose proof (publish_loop_frames p rid slices (s, default_PublishLocals)) as F1.
  rewrite H1 in F1. unfold on_store in F1. cbn [fst snd] in F1.
  assert (locals_for slices q1.2) as [Hcds Hes].
  { by apply (publish_loop_locals _ _ _ [] _ _ H1); split; [constructor|]. }
  apply st_bind_ok in Hrest as (cds & q2 & [= <- <-] & Hrest).
  apply st_bind_ok in Hrest as (digest & q3 & (s3 & H3 & ->)%in_store_ok & Hrest).
  pose proof (verify_content_frames p (l_chunk_descriptors q1.2) data q1.1) as F2.
  rewrite H3 in F2. cbn [snd] in F2.
  apply verify_content_ok in H3 as (Hheap & -> & rbs & Hst & Hsha).
  apply st_bind_ok in Hrest as (l & q4 & [= <- <-] & Hrest).
  apply st_bind_ok in Hrest as ([] & q5 & [= Hchk <-] & Hrest).
  rewrite Hes, sort_entries_sorted in Hrest by (by eapply tiles_entries_sorted; [|exact Ht]).
  assert (same_catalogue s s3) as F by (by etrans).
  unfold same_catalogue, catalogue in F. injection F as ????????????????.
  destruct (commit_metadata_ok descriptor data rid (entry_of <$> slices) (sha256 data) s3 q1.2)
    as (mid & res' & s' & Hc & Hh & Hd & Hch & Hm & Hcom); [congruence|].
  rewrite Hc in Hrest. injection Hrest as <- <-. cbn [fst].
  exists p, (l_chunk_descriptors q1.2), rbs, mid, rid, (l_write_size q1.2).
  do 2 (split; [done|]). split.
  { eapply Forall2_impl; [exact Hst|]. intros cd rb. by rewrite Hh, Hheap. }
  do 4 (split; [done|]). unfold committed, record_for in *. cbv zeta in *.
  destruct Hcom as (?&?&?&?&?&?&?&?&?&?&?&?&?&?&?&?). split_and!; congruence.
Qed.

Lemma commit_metadata_no_throw descriptor data rid entries digest
    (q : CheckpointStore B * PublishLocals) :
  is_ok (commit_metadata descriptor data rid entries digest q).1 = true.
Proof. by destruct q. Qed.

Lemma publish_body_failed descriptor data p rid slices q e q' :
  publish_body descriptor data p rid slices q = (Throw e, q') → on_store same_catalogue q q'.
Proof.
  unfold publish_body. intros [H1|([] & q1 & H1 & Hrest)]%st_bind_throw.
  { pose proof (publish_loop_frames p rid slices q) as F. by rewrite H1 in F. }
  pose proof (publish_loop_frames p rid slices q) as F1. rewrite H1 in F1. cbn [snd] in F1.
  apply st_bind_throw in Hrest as [?|(cds & q2 & [= <- <-] & Hrest)]; [done|].
  pose proof (frames_in_store _ _ (verify_content_frames p (l_chunk_descriptors q1.2) data) q1) as F2.
  apply st_bind_throw in Hrest as [H2|(digest & q3 & H2 & Hrest)]; rewrite H2 in F2; cbn [snd] in F2.
  { unfold on_store in *. by etrans. }
  apply st_bind_throw in Hrest as [?|(l2 & q4 & [= <- <-] & Hrest)]; [done|].
  apply st_bind_throw in Hrest as [[= _ <-]|([] & q5 & [= _ <-] & Hrest)].
  { unfold on_store in *. by etrans. }
  pose proof (commit_metadata_no_throw descriptor data rid
    (sort_entries (l_manifest_entries q3.2)) digest q3) as Hc. by rewrite Hrest in Hc.
Qed.

(** The guards that let a publication through. *)
Definition authorized (descriptor : CheckpointDescriptor) s (p : BackendPtr) : Prop :=
  d_producer_boot descriptor = opt_boot_id (s_options s) ∧
  im_checkpoints (s_impl s) !! d_id descriptor = None ∧
  im_next_checkpoint_generation (s_impl s) !! d_family_id descriptor = Some (d_generation descriptor) ∧
  valid_chunk_size (opt_chunk_size (s_options s)) = true ∧
  (d_kind descriptor = CheckpointKind.kFull ∨ d_kind descriptor = CheckpointKind.kSynthetic) ∧
  im_backends (s_impl s) !! im_primary_backend_id (s_impl s) = Some p.

Lemma equal_to_eq {Tag} (g g' : BasicGeneration Tag) : equal_to g g' = true ↔ g = g'.
Proof.
  unfold equal_to. rewrite Z.eqb_eq. destruct g, g'; simpl. split; [by intros ->|by intros [= ->]].
Qed.
Lemma equal_to_refl {Tag} (g : BasicGeneration Tag) : equal_to g g = true.
Proof. by apply equal_to_eq. Qed.

Lemma publish_guards_ok descriptor s p s' :
  publish_guards descriptor s = (Ok p, s') ↔ s' = s ∧ authorized descriptor s p.
Proof.
  unfold publish_guards, authorized, raise_if, raise, throw_if, throw, bump_counter, modify_impl,
    modify, get, mbind, ST_bind, mret, ST_ret.
  case_bool_decide as E1; [naive_solver|].
  case_bool_decide as E2; [rewrite <- not_eq_None_Some in E2; naive_solver|].
  rewrite eq_None_not_Some.
  destruct (im_next_checkpoint_generation (s_impl s) !! d_family_id descriptor) as [g|];
    [|naive_solver]. destruct (equal_to (d_generation descriptor) g) eqn:E3; cbn [negb].
  2: { split; [done|]. intros (_ & _ & _ & [= ->] & _). by rewrite equal_to_refl in E3. }
  apply equal_to_eq in E3 as <-. destruct (valid_chunk_size _); cbn [negb]; [|naive_solver].
  do 2 case_bool_decide; cbn [andb]; try naive_solver;
    (destruct (im_backends (s_impl s) !! im_primary_backend_id (s_impl s)); naive_solver).
Qed.

Lemma publish_guards_frames descriptor : frames same_catalogue (publish_guards (B:=B) descriptor).
Proof.
  intros s. unfold publish_guards, raise_if, raise, throw_if, throw, get, mbind, ST_bind, mret,
    ST_ret, bump_counter, modify_impl, modify. repeat (case_match; simplify_eq/=; try done).
Qed.

(** The state in which the [try] block starts. *)
Definition after_fresh s : CheckpointStore B :=
  s <| s_impl ::= λ i, i <| im_next_id_counter ::= incr64 |> |>.

Lemma publish_cases descriptor data s r s' :
  publish descriptor data s = (r, s') →
  (∃ e, r = Throw e ∧ catalogue s' = catalogue s) ∨
  ∃ p slices, authorized descriptor s p ∧
    chunk_stream data (opt_chunk_size (s_options s)) = Ok slices ∧
    try_publish descriptor data p (mkId (im_next_id_counter (s_impl s))) slices (after_fresh s) = (r, s').
Proof.
  unfold publish. pose proof (publish_guards_frames descriptor s) as Fg.
  unfold mbind at 1, ST_bind at 1.
  destruct (publish_guards descriptor s) as [[p|e] s1] eqn:Eg; cbn [snd] in Fg.
  2: { intros [= <- <-]. left. by eexists. }
  apply publish_guards_ok in Eg as [-> Hauth]. intros Hrest. right. exists p.
  assert (valid_chunk_size (opt_chunk_size (s_options s)) = true) as Hv by apply Hauth.
  pose proof (chunk_stream_ok data _ Hv) as Hcs.
  exists (slice_loop (length data) data 0 (opt_chunk_size (s_options s))). split; [done|].
  split; [done|]. revert Hrest. unfold gets, lift_result, mbind, ST_bind. by rewrite Hcs.
Qed.

Lemma publish_failed descriptor data s e s' :
  publish descriptor data s = (Throw e, s') → catalogue s' = catalogue s.
Proof.
  intros [(e' & _ & ?)|(p & slices & _ & _ & Hrest)]%publish_cases; [done|].
  assert (same_catalogue s (after_fresh s)) as F0 by done. revert Hrest F0.
  generalize (after_fresh s). intros s4 Hrest F0. unfold try_publish in Hrest.
  destruct (publish_body _ _ _ _ _ _) as [[res|e'] [s5 l]] eqn:E5; [done|].
  destruct (rollback p l s5) as [r s6] eqn:E6. injection Hrest as <- <-.
  pose proof (rollback_frames p l s5) as F2. rewrite E6 in F2. cbn [snd] in F2.
  apply publish_body_failed in E5. unfold on_store, same_catalogue in *. cbn [fst] in E5. congruence.
Qed.

Lemma publish_ok descriptor data s res s' : is_u64 (zlen data) →
  publish descriptor data s = (Ok res, s') →
  ∃ p slices, authorized descriptor s p ∧
    chunk_stream data (opt_chunk_size (s_options s)) = Ok slices ∧
    tiles 0 (zlen data) (opt_chunk_size (s_options s)) (sl_range <$> slices) ∧
    published_ok descriptor data slices s res s'.
Proof.
  intros Hd [(e' & ? & ?)|(p & slices & Hauth & Hcs & Hrest)]%publish_cases; [done|].
  assert (valid_chunk_size (opt_chunk_size (s_options s)) = true) as Hv by apply Hauth.
  exists p, slices. split; [done|]. split; [done|].
  rewrite (chunk_stream_ok data _ Hv) in Hcs. injection Hcs as <-.
  pose proof (slice_loop_tiles data _ Hv Hd) as Ht. split; [done|].
  unfold try_publish in Hrest.
  destruct (publish_body _ _ _ _ _ _) as [[res'|e'] [s5 l]] eqn:E5;
    [|by destruct (rollback p l s5)]. injection Hrest as <- <-.
  destruct Hauth as (_ & Hn & _ & _ & _ & Hp).
  apply (publish_body_ok _ _ _ _ _ (after_fresh s) _ _ (opt_chunk_size (s_options s)) Hp Hn Ht) in E5.
  exact E5.
Qed.

(** ** Where the chunks of a publication come from: placements and replica *)

(** The ids in use are below the counter they are drawn from. *)
Definition ids_below s : Prop :=
  (∀ pid, is_Some (im_placements (s_impl s) !! pid) → id_value pid < im_next_id_counter (s_impl s)) ∧
  (∀ rid, is_Some (im_replicas (s_impl s) !! rid) → id_value rid < im_next_id_counter (s_impl s)).

Definition id_state s := (im_next_id_counter (s_impl s), im_placements (s_impl s), im_replicas (s_impl s)).
Definition same_ids s s' : Prop := id_state s' = id_state s.
#[local] Instance same_ids_preorder : PreOrder same_ids.
Proof. split; [done|]. unfold same_ids. intros ???; congruence. Qed.

Lemma same_ids_on_backend {A} p (m : ST B CheckpointStoreError A) : frames same_ids (on_backend p m).
Proof. intros s. unfold on_backend, zoom. by destruct (m (s_heap s p)). Qed.
Lemma same_ids_on_dedup {A} (m : ST DedupTable CheckpointStoreError A) : frames same_ids (on_dedup m).
Proof. intros s. unfold on_dedup, zoom. by destruct (m (s_dedup s)). Qed.
Lemma same_ids_bump f : frames same_ids (bump_counter (B:=B) f).
Proof. by intros s. Qed.
Lemma same_ids_write p slice : frames (on_store same_ids) (write_blob p slice).
Proof.
  unfold write_blob.
  repeat first [ apply frames_in_store; first [apply same_ids_on_backend | apply same_ids_on_dedup]
               | apply frames_modify_locals; apply _ | frame_step | apply _ ].
Qed.
Lemma same_ids_record_blob cd r : frames same_ids (record_blob (B:=B) cd r).
Proof.
  intros s. unfold record_blob, get, mbind, ST_bind. case_match; [case_bool_decide|]; done.
Qed.
Lemma same_ids_read_back p cds h : frames same_ids (read_back p cds h).
Proof.
  revert h. induction cds as [|cd cds IH]; intros h; cbn [read_back];
    repeat first [ apply IH | apply same_ids_on_backend | apply same_ids_bump
                 | unfold raise; frame_step | apply _ ].
Qed.
Lemma same_ids_verify p cds data : frames same_ids (verify_content p cds data).
Proof.
  unfold verify_content.
  repeat first [ apply same_ids_read_back | unfold raise_if; frame_step | apply _ ].
Qed.

(** A chunk with one placement, which belongs to the replica [rid]. *)
Definition placed (placements : gmap PlacementId PlacementDescriptor) (rid : ReplicaId)
    (cd : ChunkDescriptor) : Prop :=
  ∃ pid pd, cd_placements cd = [pid] ∧ placements !! pid = Some pd ∧ pl_replica_id pd = rid.

Lemma placed_mono pls pid pd rid cd : pls !! pid = None →
  placed pls rid cd → placed (<[pid := pd]> pls) rid cd.
Proof.
  intros Hn (pid' & pd' & H1 & H2 & H3). exists pid', pd'. split; [done|]. split; [|done].
  rewrite lookup_insert_ne; [done|]. congruence.
Qed.

(** The state of the loop after [k] chunks. *)
Definition sources_inv (rid : ReplicaId) (c0 : Z) (reps : gmap ReplicaId ReplicaDescriptor)
    (q : CheckpointStore B * PublishLocals) : Prop :=
  let k := zlen (l_chunk_descriptors q.2) in
  im_next_id_counter (s_impl q.1) = c0 + k ∧ im_replicas (s_impl q.1) = reps ∧
  (∀ pid, is_Some (im_placements (s_impl q.1) !! pid) → id_value pid < c0 + k) ∧
  Forall (placed (im_placements (s_impl q.1)) rid) (l_chunk_descriptors q.2).

Lemma sources_step p rid slice c0 reps (q q' : CheckpointStore B * PublishLocals) :
  0 ≤ c0 → c0 + zlen (l_chunk_descriptors q.2) + 1 < 2 ^ 64 →
  publish_slice p rid slice q = (Ok tt, q') → sources_inv rid c0 reps q →
  sources_inv rid c0 reps q' ∧
  zlen (l_chunk_descriptors q'.2) = zlen (l_chunk_descriptors q.2) + 1.
Proof.
  intros Hc0 Hb. unfold publish_slice. intros (reused & q1 & H1 & Hrest)%st_bind_ok Hinv.
  pose proof (reuse_keeps_chunks p slice q) as K1.
  pose proof (frames_reuse same_ids p slice _ (λ A, same_ids_on_backend p)
    (λ A, same_ids_on_dedup) same_ids_bump q) as I1.
  rewrite H1 in K1, I1. cbn [snd] in K1, I1.
  apply st_bind_ok in Hrest as (blob & q2 & H2 & Hrest).
  assert (same_chunks q1 q2 ∧ on_store same_ids q1 q2) as [K2 I2].
  { destruct reused as [b|]; [by injection H2 as <- <-|].
    apply st_bind_ok in H2 as ([] & q2' & H2 & [= <- <-]).
    pose proof (write_keeps_chunks p slice q1) as K. pose proof (same_ids_write p slice q1) as I.
    by rewrite H2 in K, I. }
  apply st_bind_ok in Hrest as ([] & q3 & (s3 & H3 & ->)%in_store_ok & Hrest).
  apply st_bind_ok in Hrest as (pl & q4 & (s4 & H4 & ->)%in_store_ok & [= <-]).
  match type of H3 with record_blob ?cd _ _ = _ => pose proof (same_ids_record_blob cd rid q2.1) as I3 end.
  rewrite H3 in I3. cbn [fst snd] in *. unfold same_chunks, chunk_locals, on_store, same_ids, id_state in *.
  rewrite I2, I1 in I3. rewrite K1 in K2. injection I3 as J1 J2 J3. injection K2 as L1 L2 L3.
  destruct Hinv as (V1 & V2 & V3 & V4). injection H4 as <- <-.
  unfold sources_inv. cbn. rewrite J1, J2, J3, L1, zlen_app, V1. unfold incr64.
  pose proof (zlen_nonneg (l_chunk_descriptors q.2)) as Hk.
  set (k := zlen (l_chunk_descriptors q.2)) in *.
  assert (im_placements (s_impl q.1) !! (mkId (c0 + k) : PlacementId) = None) as Hfresh.
  { apply eq_None_not_Some. intros Hs. apply V3 in Hs. simpl in Hs. lia. }
  unfold emplace. rewrite Hfresh. change (zlen [_]) with 1.
  rewrite u64_id by (unfold is_u64; lia). split; [|done]. split; [lia|]. split; [done|]. split.
  - intros pid. rewrite lookup_insert_is_Some. intros [<-|[_ Hs]]; [simpl; lia|].
    apply V3 in Hs. lia.
  - apply Forall_app. split.
    + eapply Forall_impl; [exact V4|]. intros cd. by apply placed_mono.
    + apply Forall_singleton. eexists _, _. split; [done|]. by rewrite lookup_insert_eq.
Qed.

Lemma sources_loop p rid slices c0 reps (q q' : CheckpointStore B * PublishLocals) :
  0 ≤ c0 → c0 + zlen (l_chunk_descriptors q.2) + zlen slices < 2 ^ 64 →
  for_each slices (publish_slice p rid) q = (Ok tt, q') → sources_inv rid c0 reps q →
  sources_inv rid c0 reps q'.
Proof.
  intros Hc0. revert q. induction slices as [|slice slices IH]; intros q Hb.
  - by intros [= <-].
  - cbn [for_each]. intros ([] & q1 & H1 & H2)%st_bind_ok Hinv.
    change (slice :: slices) with ([slice] ++ slices) in Hb. rewrite zlen_app in Hb.
    change (zlen [slice]) with 1 in Hb. pose proof (zlen_nonneg slices).
    destruct (sources_step p rid slice c0 reps q q1) as [Hinv1 Hlen]; [done|lia|done|done|].
    eapply IH; [|done|done]. lia.
Qed.

(** The sources of what was published: every chunk is placed on one replica,
    which is registered for the primary backend; and the ids drawn on the way. *)
Lemma publish_sources descriptor data s res s' :
  is_u64 (zlen data) → ids_below s → 0 ≤ im_next_id_counter (s_impl s) →
  im_next_id_counter (s_impl s) + zlen data + 1 < 2 ^ 64 →
  publish descriptor data s = (Ok res, s') →
  ∃ rid rd k, Forall (placed (im_placements (s_impl s')) rid) (pub_chunks res) ∧
    im_replicas (s_impl s') = <[rid := rd]> (im_replicas (s_impl s)) ∧
    im_replicas (s_impl s) !! rid = None ∧
    rp_backend_id rd = im_primary_backend_id (s_impl s) ∧
    0 ≤ k ≤ zlen data ∧ id_value rid = im_next_id_counter (s_impl s) ∧
    im_next_id_counter (s_impl s') = incr64 (im_next_id_counter (s_impl s) + 1 + k) ∧
    (∀ pid, is_Some (im_placements (s_impl s') !! pid) → id_value pid < im_next_id_counter (s_impl s) + 1 + k).
Proof.
  intros Hd [Hpl Hrp] Hc0 Hbound [(e' & ? & ?)|(p & slices & Hauth & Hcs & Hrest)]%publish_cases; [done|].
  assert (valid_chunk_size (opt_chunk_size (s_options s)) = true) as Hv by apply Hauth.
  rewrite (chunk_stream_ok data _ Hv) in Hcs. injection Hcs as Hcs.
  pose proof (slice_loop_count data _ Hv Hd) as Hcount. rewrite Hcs in Hcount. pose proof (zlen_nonneg data) as Hnn.
  unfold try_publish in Hrest. set (c := im_next_id_counter (s_impl s)) in *.
  destruct (publish_body _ _ _ _ _ _) as [[res'|e'] [s5 l]] eqn:E5;
    [|by destruct (rollback p l s5)]. injection Hrest as <- <-. unfold publish_body in E5.
  apply st_bind_ok in E5 as ([] & q1 & H1 & Hrest).
  pose proof (publish_loop_frames p (mkId c) slices (after_fresh s, default_PublishLocals)) as F1.
  rewrite H1 in F1. unfold on_store, same_catalogue, catalogue in F1. cbn [fst snd] in F1.
  destruct (publish_loop_locals p (mkId c) slices [] _ q1 H1) as [Hcds _]; [by split; [constructor|]|].
  apply Forall2_length in Hcds. cbn [app] in Hcds.
  eapply (sources_loop _ _ _ (c + 1) (im_replicas (s_impl s))) in H1 as (V1 & V2 & V3 & V4);
    [|lia|cbn; unfold zlen at 1; cbn; lia|].
  2: { unfold sources_inv. cbn. unfold zlen, incr64. cbn. rewrite u64_id by (unfold is_u64; fold c; lia).
       fold c. split; [lia|]. split; [done|]. split; [|done]. intros pid Hs%Hpl. lia. }
  apply st_bind_ok in Hrest as (cds & q2 & [= <- <-] & Hrest).
  apply st_bind_ok in Hrest as (digest & q3 & (s3 & H3 & ->)%in_store_ok & Hrest).
  pose proof (same_ids_verify p (l_chunk_descriptors q1.2) data q1.1) as F2.
  pose proof (verify_content_frames p (l_chunk_descriptors q1.2) data q1.1) as F3.
  rewrite H3 in F2, F3. unfold same_catalogue, catalogue in F3. cbn [snd] in F2, F3.
  rewrite F1 in F3. injection F2 as J1 J2 J3. injection F3 as ? ? ? J4 ??????????? ?.
  apply st_bind_ok in Hrest as (l' & q4 & [= <- <-] & Hrest).
  apply st_bind_ok in Hrest as ([] & q5 & [= _ <-] & Hrest). injection Hrest as <- <- _.
  assert (im_replicas (s_impl s) !! (mkId c : ReplicaId) = None) as Hfresh.
  { apply eq_None_not_Some. intros Hs%Hrp. simpl in Hs. lia. }
  exists (mkId c). eexists _, (zlen (l_chunk_descriptors q1.2)). cbn. rewrite J2. split; [done|].
  unfold emplace. rewrite J3, V2, Hfresh, J1, V1. split; [done|]. split; [done|]. split; [exact J4|].
  split; [unfold zlen in *; lia|]. by split_and!.
Qed.

Lemma publish_rejected descriptor data s e s' :
  publish_guards descriptor s = (Throw e, s') → publish descriptor data s = (Throw e, s').
Proof. intros Hg. unfold publish. by apply st_bind_run_throw. Qed.

Lemma guards_stale_boot descriptor s : d_producer_boot descriptor ≠ opt_boot_id (s_options s) →
  publish_guards descriptor s =
    (Throw (store_error ErrorCode.kStaleAuthority "publish authority is stale"),
     s <| s_impl ::= λ i, i <| im_counters ::= λ c, c <| acct_stale_rejections ::= incr64 |> |> |>).
Proof. intros Hne. unfold publish_guards, get, mbind, ST_bind. by rewrite bool_decide_eq_true_2. Qed.

Lemma guards_duplicate descriptor s : d_producer_boot descriptor = opt_boot_id (s_options s) →
  is_Some (im_checkpoints (s_impl s) !! d_id descriptor) →
  (publish_guards descriptor s).1 =
    Throw (store_error ErrorCode.kAlreadyExists "checkpoint already committed").
Proof.
  intros Hb Hs. unfold publish_guards, get, mbind, ST_bind, mret, ST_ret.
  by rewrite (bool_decide_eq_false_2 _ (λ Hf, Hf Hb)), bool_decide_eq_true_2.
Qed.

Lemma guards_stale_generation descriptor s g :
  d_producer_boot descriptor = opt_boot_id (s_options s) →
  im_checkpoints (s_impl s) !! d_id descriptor = None →
  im_next_checkpoint_generation (s_impl s) !! d_family_id descriptor = Some g →
  d_generation descriptor ≠ g →
  (publish_guards descriptor s).1 =
    Throw (store_error ErrorCode.kStaleGeneration "publish generation is stale").
Proof.
  intros Hb Hn Hg Hne. unfold publish_guards, get, mbind, ST_bind, mret, ST_ret.
  rewrite (bool_decide_eq_false_2 _ (λ Hf, Hf Hb)), Hn, bool_decide_eq_false_2 by (by intros []).
  rewrite Hg. destruct (equal_to (d_generation descriptor) g) eqn:E; [|done].
  by apply equal_to_eq in E.
Qed.

(** ** Claims *)

(** C2: Publication is atomic.  If it throws, at whatever point, the
    authoritative catalogue (checkpoints, families, replicas, generations,
    policies, backends, options and the rest) is exactly what it was.  If it
    returns, the descriptor carried the live incarnation's boot identity, a
    fresh id and the family's next generation, and the catalogue differs by
    exactly the new committed record, its replica, its place in the family and
    the advanced generation. *)
Theorem publish_atomic descriptor data s : is_u64 (zlen data) →
  match publish descriptor data s with
  | (Throw _, s') => catalogue s' = catalogue s
  | (Ok res, s') =>
      ∃ p rec rd, authorized descriptor s p ∧ committed descriptor rec rd s s' ∧
        rec_descriptor rec = descriptor ∧ rec_lifecycle rec = CheckpointLifecycle.kCommitted ∧
        rec_integrity rec = IntegrityState.kVerified ∧
        rec_manifest rec = pub_manifest res ∧ rec_chunks rec = pub_chunks res ∧
        rp_role rd = ReplicaRole.kAuthoritative
  end.
Proof.
  intros Hd. destruct (publish descriptor data s) as [[res|e] s'] eqn:E.
  - apply publish_ok in E as (p & slices & Hauth & _ & _ & (_ & cds & _ & mid & rid & n & _ & _ & _ & _ & _ & Hc & Hm & Hcom));
      [|done]. eexists p, _, _. split; [done|]. split; [done|]. by rewrite Hm, Hc.
  - by eapply publish_failed.
Qed.

(** C16: What is published is readable.  After a successful publication the
    manifest lists the chunks of the input in order, without gap or overlap,
    each chunk carries the SHA-256 of its piece, the backend returns for every
    chunk a blob of that size and digest, and the blobs in manifest order hash
    to the digest of the input, which the manifest records. *)
Theorem publish_durable descriptor data s : is_u64 (zlen data) →
  match publish descriptor data s with
  | (Throw _, _) => True
  | (Ok res, s') =>
      ∃ p slices rbs,
        im_backends (s_impl s') !! im_primary_backend_id (s_impl s') = Some p ∧
        chunk_stream data (opt_chunk_size (s_options s)) = Ok slices ∧
        tiles 0 (zlen data) (opt_chunk_size (s_options s)) (sl_range <$> slices) ∧
        m_chunks (pub_manifest res) = entry_of <$> slices ∧
        Forall2 chunk_of slices (pub_chunks res) ∧
        Forall2 (stored_as (s_heap s' p)) (pub_chunks res) rbs ∧
        sha256 (concat rbs) = sha256 data ∧
        m_checkpoint_digest (pub_manifest res) = sha256 data ∧
        m_logical_size (pub_manifest res) = zlen data
  end.
Proof.
  intros Hd. destruct (publish descriptor data s) as [[res|e] s'] eqn:E; [|done].
  apply publish_ok in E as (p0 & slices & Hauth & Hcs & Ht & (p & cds & rbs & mid & rid & n & Hp & Hcd & Hst & Hsha & _ & Hc & Hm & Hcom)); [|done].
  destruct Hcom as (_&_&_&_&_&_&Hb&Hpr&_). exists p, slices, rbs. rewrite Hb, Hpr, Hm, Hc.
  by split_and!.
Qed.

(** C18: No replay and no stale producer.  A descriptor of another incarnation
    is refused whatever its generation, and only a counter changes.  After a
    publication, publishing under the same checkpoint id is refused as a
    duplicate, and publishing any other checkpoint of the family is refused as
    stale unless it carries the successor generation. *)
Theorem publish_fencing descriptor data s : is_u64 (zlen data) →
  (∀ d' data', d_producer_boot d' ≠ opt_boot_id (s_options s) →
     publish d' data' s =
       (Throw (store_error ErrorCode.kStaleAuthority "publish authority is stale"),
        s <| s_impl ::= λ i, i <| im_counters ::= λ c, c <| acct_stale_rejections ::= incr64 |> |> |>)) ∧
  match publish descriptor data s with
  | (Throw _, _) => True
  | (Ok _, s') => ∀ d' data', d_producer_boot d' = opt_boot_id (s_options s) →
      (d_id d' = d_id descriptor →
         outcome_code (publish d' data' s').1 = ErrorCode.kAlreadyExists) ∧
      (im_checkpoints (s_impl s') !! d_id d' = None → d_family_id d' = d_family_id descriptor →
         d_generation d' ≠ next (d_generation descriptor) →
         outcome_code (publish d' data' s').1 = ErrorCode.kStaleGeneration)
  end.
Proof.
  intros Hd. split; [intros d' data' Hne; by apply publish_rejected, guards_stale_boot|].
  destruct (publish descriptor data s) as [[res|e] s'] eqn:E; [|done].
  apply publish_ok in E as (p0 & slices & Hauth & Hcs & Ht & (p & cds & rbs & mid & rid & n & Hp & _ & _ & _ & _ & _ & _ & Hcom)); [|done].
  destruct Hcom as (Hck&_&_&Hgen&Hopt&_). intros d' data' Hb. rewrite <- Hopt in Hb. split.
  - intros Hid. assert (is_Some (im_checkpoints (s_impl s') !! d_id d')) as Hs.
    { rewrite Hck, Hid, lookup_insert_eq. by eexists. }
    pose proof (guards_duplicate d' s' Hb Hs) as Hg.
    destruct (publish_guards d' s') as [r s''] eqn:Eg. cbn in Hg. subst r.
    by rewrite (publish_rejected _ data' _ _ _ Eg).
  - intros Hn Hf Hne. assert (im_next_checkpoint_generation (s_impl s') !! d_family_id d' = Some (next (d_generation descriptor))) as Hs.
    { by rewrite Hgen, Hf, lookup_insert_eq. }
    pose proof (guards_stale_generation d' s' _ Hb Hn Hs Hne) as Hg.
    destruct (publish_guards d' s') as [r s''] eqn:Eg. cbn in Hg. subst r.
    by rewrite (publish_rejected _ data' _ _ _ Eg).
Qed.
End publish_success.

(** ** A concrete store: one synthetic backend, chunks of two bytes, one family *)
Definition demo_backend : SyntheticBackend :=
  new_synthetic StorageTierClass.kSyntheticRemote (mkId 1) (mkId 1) "remote".
Definition demo_store : CheckpointStore SyntheticBackend :=
  let s0 := new_store (default_StoreOptions <| opt_chunk_size := 2 |>) (λ _, demo_backend) in
  (create_family (mkId 1) Provenance.kUnknown (register_backend (mkId 1) (Some 0%nat) s0).2).2.
Definition demo_descriptor : CheckpointDescriptor :=
  match make_full_descriptor 0 (mkId 1) (mkId 1) 5 DurabilityClass.kLocal demo_store with
  | (Ok d, _) => d
  | _ => default_CheckpointDescriptor
  end.
Definition demo_data : list byte := [x61; x62; x61; x62; x63].

Lemma demo_size : is_u64 (zlen demo_data).
Proof. by split. Qed.

Lemma publish_atomic_witness :
  let out := publish (H:=canonical_order) demo_descriptor demo_data demo_store in
  is_ok out.1 = true ∧
  match out with
  | (Throw _, s') => catalogue s' = catalogue demo_store
  | (Ok res, s') => ∃ p rec rd, authorized demo_descriptor demo_store p ∧
        committed demo_descriptor rec rd demo_store s' ∧
        rec_descriptor rec = demo_descriptor ∧ rec_lifecycle rec = CheckpointLifecycle.kCommitted ∧
        rec_integrity rec = IntegrityState.kVerified ∧
        rec_manifest rec = pub_manifest res ∧ rec_chunks rec = pub_chunks res ∧
        rp_role rd = ReplicaRole.kAuthoritative
  end.
Proof.
  split; [vm_compute; reflexivity|].
  apply (publish_atomic (H:=canonical_order) demo_descriptor demo_data demo_store demo_size).
Defined.

Lemma publish_durable_witness :
  match publish (H:=canonical_order) demo_descriptor demo_data demo_store with
  | (Ok res, s') => ∃ rbs, Forall2 (stored_as (s_heap s' 0%nat)) (pub_chunks res) rbs ∧
      sha256 (concat rbs) = sha256 demo_data ∧ length (pub_chunks res) = 3%nat
  | _ => False
  end.
Proof.
  assert (match publish (H:=canonical_order) demo_descriptor demo_data demo_store with
    | (Ok res, s') => length (pub_chunks res) = 3%nat ∧
        im_backends (s_impl s') !! im_primary_backend_id (s_impl s') = Some (0%nat : BackendPtr)
    | _ => False end) as Hrun by (vm_compute; split; reflexivity).
  pose proof (publish_durable (H:=canonical_order) demo_descriptor demo_data demo_store
    demo_size) as Hth.
  destruct (publish demo_descriptor demo_data demo_store) as [[res|e] s']; [|exact Hrun].
  destruct Hrun as [Hlen Hb], Hth as (p & slices & rbs & Hp & _ & _ & _ & _ & Hst & Hsha & _).
  rewrite Hb in Hp. injection Hp as <-. exists rbs. exact (conj Hst (conj Hsha Hlen)).
Defined.

Lemma publish_fencing_witness :
  match publish (H:=canonical_order) demo_descriptor demo_data demo_store with
  | (Ok _, s') =>
      outcome_code (publish (H:=canonical_order) demo_descriptor [x07] s').1 = ErrorCode.kAlreadyExists
  | _ => False
  end.
Proof.
  assert (is_ok (publish (H:=canonical_order) demo_descriptor demo_data demo_store).1 = true) as Hrun
    by (vm_compute; reflexivity).
  pose proof (publish_fencing (H:=canonical_order) demo_descriptor demo_data demo_store
    demo_size) as [_ Hth].
  destruct (publish demo_descriptor demo_data demo_store) as [[res|e] s']; [|discriminate Hrun].
  apply (Hth demo_descriptor [x07]); reflexivity.
Defined.

(** ** A shared blob that fails its check

    When [dedup_.lookup] hits but the backend reports the blob corrupt, the
    loop writes the blob anew and lists it among the new ones.  The insertion
    into the dedup table then finds the entry and adds no reference, and a
    later failure of the same publication takes the rewritten blob for a new
    one: the rollback removes an object an earlier checkpoint refers to,
    although its comment says that existing shared blobs are untouched. *)
Definition shared_bytes : list byte := [x61; x62].
Definition second_descriptor (s : CheckpointStore SyntheticBackend) : CheckpointDescriptor :=
  match make_full_descriptor 0 (mkId 1) (mkId 1) 2 DurabilityClass.kLocal s with
  | (Ok d, _) => d <| d_id := mkId 5000 |>
  | _ => default_CheckpointDescriptor
  end.
Definition after_first : CheckpointStore SyntheticBackend :=
  (publish (H:=canonical_order) demo_descriptor shared_bytes demo_store).2.
Definition quarantined : CheckpointStore SyntheticBackend :=
  (on_backend 0%nat (set_corrupt (blob_key (sha256 shared_bytes))) after_first).2.

Example rewritten_blob_loses_reference :
  let out := publish (H:=canonical_order) (second_descriptor quarantined) shared_bytes quarantined in
  is_ok out.1 = true ∧ size (im_checkpoints (s_impl out.2)) = 2%nat ∧
  dedup_refcount (s_dedup out.2) (sha256 shared_bytes) = 1.
Proof. vm_compute. repeat split. Qed.

(** The second chunk meets an entry recovered as corrupt, so the publication
    fails after the first chunk was rewritten. *)
Definition corrupt_tail : list byte := [x63; x64].
Definition poisoned : CheckpointStore SyntheticBackend :=
  (on_dedup (insert_blob_entry_direct (mkDedupEntry (blob_id_from_digest (sha256 corrupt_tail))
     (sha256 corrupt_tail) 2 1 IntegrityState.kCorrupt (mkGen 1))) quarantined).2.

Example rollback_removes_shared_blob :
  let key := blob_key (sha256 shared_bytes) in
  let out := publish (H:=canonical_order) (second_descriptor poisoned)
               (shared_bytes ++ corrupt_tail) poisoned in
  (read key (s_heap poisoned 0%nat)).1 = Ok shared_bytes ∧
  outcome_code out.1 = ErrorCode.kCorrupt ∧ size (im_checkpoints (s_impl out.2)) = 1%nat ∧
  outcome_code (read key (s_heap out.2 0%nat)).1 = ErrorCode.kNotFound.
Proof. vm_compute. repeat split. Qed.
