(* ===== verification/Restore.v ===== *)
(** * Restore: verification, restore planning and restore

    [src/restore.cpp]: [verify_checkpoint], [verify_chunk], [plan_restore] and
    [restore].  A reference to a checkpoint record is the record's place in the
    table: its fields are assigned there. *)
From stdpp Require Import functions.
From S2P Require Import Prelude Base Hash Model Chunking Dedup BinFormat Backend SyntheticBackend Store Publish.

Record RestoredCheckpoint := mkRestored {
  rc_bytes : list byte;
  rc_steps : list RestoreStep;
  rc_evidence : RestoreEvidence;
  rc_integrity : IntegrityState.t
}.

(** The local variables of the loop over the chunks of [restore]. *)
Record RestoreLocals := mkRestoreLocals {
  rl_out : list byte;
  rl_combined : Sha256Hasher;
  rl_evidence : RestoreEvidence;
  rl_bytes_restored : Z;
  rl_chunks_restored : Z
}.
#[export] Instance eta_RestoreLocals : Eta RestoreLocals := λ r,
  mkRestoreLocals (rl_out r) (rl_combined r) (rl_evidence r) (rl_bytes_restored r)
    (rl_chunks_restored r).

Definition blob_key_for (d : Sha256Digest) : BackendKey :=
  mkKey ("blobs/" +:+ String.substring 0 2 (hex d) +:+ "/" +:+ hex d).

Section restore.
Context {B : Type} `{IBackend B}.
Abbreviation Store := (ST (CheckpointStore B) CheckpointStoreError).

(** An assignment through [auto& rec = it->second]. *)
Definition modify_record (id : CheckpointId) (f : CheckpointRecord → CheckpointRecord) : Store unit :=
  modify_impl (λ i, i <| im_checkpoints ::= alter f id |>).
Definition count_integrity_failure : Store unit :=
  bump_counter (λ c, c <| acct_integrity_failures ::= incr64 |>).

(** ** verify_checkpoint *)

(** The loop that looks for a backend: the last one registered, or the first
    that belongs to a verified replica. *)
Fixpoint choose_underlay (i : Impl) (replicas : list ReplicaId) (underlay : option BackendPtr) :
    option BackendPtr :=
  match replicas with
  | [] => underlay
  | rid :: replicas' =>
      match im_replicas i !! rid with
      | None => choose_underlay i replicas' underlay
      | Some rd =>
          match im_backends i !! rp_backend_id rd with
          | None => choose_underlay i replicas' underlay
          | Some p =>
              if bool_decide (rp_integrity rd = IntegrityState.kVerified) then Some p
              else choose_underlay i replicas' (Some p)
          end
      end
  end.

(** [rec.integrity = v; ++integrity_failures; return rec.integrity;] *)
Definition fail_verification (id : CheckpointId) (v : IntegrityState.t) : Store (option Sha256Hasher) :=
  _ ← modify_record id (λ rec, rec <| rec_integrity := v |>);
  _ ← count_integrity_failure;
  mret None.

(** The loop over the chunks: [None] when the function returns inside it. *)
Fixpoint verify_chunks (id : CheckpointId) (underlay : BackendPtr) (cds : list ChunkDescriptor)
    (combined : Sha256Hasher) : Store (option Sha256Hasher) :=
  match cds with
  | [] => mret (Some combined)
  | cd :: cds' =>
      let key := blob_key_for (cd_digest cd) in
      present ← on_backend underlay (object_exists key);
      if negb present then fail_verification id IntegrityState.kMissing
      else
        v ← on_backend underlay (verify key (cd_digest cd));
        if bool_decide (v = IntegrityState.kCorrupt) || bool_decide (v = IntegrityState.kMissing)
        then fail_verification id IntegrityState.kCorrupt
        else
          rb ← on_backend underlay (read key);
          verify_chunks id underlay cds' (update_hasher combined rb)
  end.

Definition record_integrity (id : CheckpointId) : Store IntegrityState.t :=
  rec ← find_checkpoint id; mret (rec_integrity rec).

Definition verify_checkpoint (id : CheckpointId) : Store IntegrityState.t :=
  rec ← find_checkpoint id;
  i ← gets s_impl;
  match choose_underlay i (rs_replicas (rec_replica_set rec)) None with
  | None => _ ← fail_verification id IntegrityState.kMissing; record_integrity id
  | Some underlay =>
      combined ← verify_chunks id underlay (rec_chunks rec) new_hasher;
      match combined with
      | None => record_integrity id
      | Some h =>
          if negb (digest_equal (final_hasher h) (m_checkpoint_digest (rec_manifest rec))) then
            _ ← fail_verification id IntegrityState.kCorrupt; record_integrity id
          else
            _ ← modify_record id (λ rec, rec <| rec_integrity := IntegrityState.kVerified |>);
            record_integrity id
      end
  end.

(** ** verify_chunk *)
Fixpoint first_backend (i : Impl) (replicas : list ReplicaId) : option BackendPtr :=
  match replicas with
  | [] => None
  | rid :: replicas' =>
      match im_replicas i !! rid with
      | None => first_backend i replicas'
      | Some rd =>
          match im_backends i !! rp_backend_id rd with
          | Some p => Some p
          | None => first_backend i replicas'
          end
      end
  end.

(** The first chunk with the given id. *)
Definition find_chunk (chunk : ChunkId) (cds : list ChunkDescriptor) : option (nat * ChunkDescriptor) :=
  list_find (λ cd, cd_id cd = chunk) cds.

Definition verify_chunk (id : CheckpointId) (chunk : ChunkId) : Store IntegrityState.t :=
  rec ← find_checkpoint id;
  match find_chunk chunk (rec_chunks rec) with
  | None => raise ErrorCode.kNotFound "chunk not found in checkpoint"
  | Some (n, cd) =>
      i ← gets s_impl;
      match im_blobs i !! cd_blob_id cd with
      | None => mret IntegrityState.kMissing
      | Some bd =>
          match first_backend i (b_replicas bd) with
          | None => mret IntegrityState.kMissing
          | Some underlay =>
              v ← on_backend underlay (verify (blob_key_for (cd_digest cd)) (cd_digest cd));
              _ ← modify_record id (λ rec, rec <| rec_chunks ::= alter (λ cd, cd <| cd_integrity := v |>) n |>);
              mret v
          end
      end
  end.

(** ** plan_restore *)
Definition plan_step (id : CheckpointId) (rec : CheckpointRecord)
    (placements : gmap PlacementId PlacementDescriptor) (entry : ManifestEntry) : RestoreStep :=
  let source :=
    match list_find (λ cd, cd_id cd = e_chunk_id entry ∧ cd_placements cd ≠ []) (rec_chunks rec) with
    | Some (_, cd) =>
        match head (cd_placements cd) ≫= λ pid, placements !! pid with
        | Some pd => pl_replica_id pd
        | None => null_id
        end
    | None => null_id
    end in
  default_RestoreStep <| st_checkpoint_id := id |> <| st_chunk_id := e_chunk_id entry |>
    <| st_source_replica := source |> <| st_result := RestoreSourceResult.kSuccess |>.

Definition plan_restore (id : CheckpointId) (priority : RestorePriority.t) : Store RestorePlan :=
  rec ← find_checkpoint id;
  plan_id_ ← fresh_id;
  restore_id ← fresh_id;
  placements ← get_impl im_placements;
  let plan := mkRestorePlan (mkId plan_id_) (mkId restore_id) id priority
    (m_lineage (rec_manifest rec))
    (plan_step id rec placements <$> m_chunks (rec_manifest rec))
    (d_logical_size (rec_descriptor rec)) 1 (mkGen 1) Provenance.kMeasured in
  _ ← modify_impl (λ i, i <| im_restore_plans ::= <[plan_id plan := plan]> |>);
  mret plan.

(** ** restore *)

(** The replicas tried for a chunk. *)
Definition candidates (i : Impl) (rec : CheckpointRecord) (cd : ChunkDescriptor) : list ReplicaId :=
  let cand := omap (λ pid, pl_replica_id <$> im_placements i !! pid) (cd_placements cd) in
  match cand with [] => rs_replicas (rec_replica_set rec) | _ => cand end.

Definition fail_source (rid : ReplicaId) (l : RestoreLocals) : RestoreLocals :=
  l <| rl_evidence ::= λ ev, ev <| ev_failed_sources ::= λ rs, rs ++ [rid] |> |>.

(** Corrupt bytes: the replica leaves its role if it was taken for verified. *)
Definition quarantine_source (id : CheckpointId) (rid : ReplicaId) : Store unit :=
  replicas ← get_impl im_replicas;
  match replicas !! rid with
  | Some rd =>
      if bool_decide (rp_integrity rd = IntegrityState.kVerified) then
        _ ← modify_impl (λ i, i <| im_replicas ::=
              <[rid := rd <| rp_integrity := IntegrityState.kCorrupt |>
                          <| rp_role := ReplicaRole.kQuarantined |>]> |>);
        modify_record id (λ rec, rec <| rec_replica_set ::= λ rs,
          rs <| rs_durability_state := ReplicaDurabilityState.kDegraded |> |>)
      else mret tt
  | None => mret tt
  end.

(** The loop over the candidates: whether the chunk was restored. *)
Fixpoint restore_chunk (id : CheckpointId) (cd : ChunkDescriptor) (cand : list ReplicaId)
    (l : RestoreLocals) : Store (bool * RestoreLocals) :=
  match cand with
  | [] => mret (false, l)
  | rid :: cand' =>
      i ← gets s_impl;
      match im_replicas i !! rid with
      | None => restore_chunk id cd cand' l
      | Some rd =>
          match im_backends i !! rp_backend_id rd with
          | None => restore_chunk id cd cand' (fail_source rid l)
          | Some p =>
              healthy ← on_backend p health;
              if negb healthy then restore_chunk id cd cand' (fail_source rid l)
              else
                got ← attempt (on_backend p (read (blob_key_for (cd_digest cd))));
                match got with
                | Throw _ => restore_chunk id cd cand' (fail_source rid l)
                | Ok rb =>
                    if digest_equal (sha256 rb) (cd_digest cd) then
                      mret (true, l
                        <| rl_out ::= λ out, out ++ rb |>
                        <| rl_combined ::= λ h, update_hasher h rb |>
                        <| rl_evidence ::= λ ev, ev <| ev_source_replica := rid |> |>
                        <| rl_chunks_restored ::= incr64 |>
                        <| rl_bytes_restored ::= λ n, u64 (n + zlen rb) |>)
                    else
                      _ ← count_integrity_failure;
                      _ ← quarantine_source id rid;
                      restore_chunk id cd cand' (fail_source rid l)
                end
          end
      end
  end.

(** The loop over the manifest. *)
Fixpoint restore_entries (id : CheckpointId) (rec : CheckpointRecord) (entries : list ManifestEntry)
    (l : RestoreLocals) : Store RestoreLocals :=
  match entries with
  | [] => mret l
  | entry :: entries' =>
      match find_chunk (e_chunk_id entry) (rec_chunks rec) with
      | None => raise ErrorCode.kMalformed "restore: chunk missing from record"
      | Some (_, cd) =>
          i ← gets s_impl;
          '(restored, l') ← restore_chunk id cd (candidates i rec cd) l;
          if (restored : bool) then restore_entries id rec entries' l'
          else
            _ ← modify_record id (λ rec, rec <| rec_integrity := IntegrityState.kCorrupt |>);
            raise ErrorCode.kCorrupt "restore: no verified replica for a required chunk"
      end
  end.

(** [elapsed] is the difference of the two clock readings in milliseconds. *)
Definition restore (elapsed : Z) (restore_id : RestoreId) (id : CheckpointId)
    (priority : RestorePriority.t) : Store RestoredCheckpoint :=
  rec ← find_checkpoint id;
  _ ← raise_if (bool_decide (rec_lifecycle rec = CheckpointLifecycle.kGcEligible) ||
                bool_decide (rec_lifecycle rec = CheckpointLifecycle.kDeleted))
        ErrorCode.kNotFound "checkpoint no longer restorable";
  let evidence := default_RestoreEvidence <| ev_restore_id := restore_id |>
    <| ev_source_checkpoint := id |> <| ev_source_manifest := m_id (rec_manifest rec) |>
    <| ev_attempt_generation := mkGen 1 |> in
  l ← restore_entries id rec (m_chunks (rec_manifest rec)) (mkRestoreLocals [] new_hasher evidence 0 0);
  _ ← (if negb (digest_equal (final_hasher (rl_combined l)) (m_checkpoint_digest (rec_manifest rec))) then
         _ ← modify_record id (λ rec, rec <| rec_integrity := IntegrityState.kCorrupt |>);
         _ ← count_integrity_failure;
         raise ErrorCode.kDigestMismatch "restored checkpoint digest mismatch"
       else mret tt);
  _ ← modify_record id (λ rec, rec <| rec_integrity := IntegrityState.kVerified |>);
  let evidence := rl_evidence l <| ev_bytes_restored := rl_bytes_restored l |>
    <| ev_chunks_restored := rl_chunks_restored l |>
    <| ev_integrity := IntegrityState.kVerified |> <| ev_duration := elapsed |>
    <| ev_provenance := Provenance.kMeasured |> in
  _ ← modify_impl (λ i, i <| im_restore_evidence ::= <[id := evidence]> |>
        <| im_counters ::= λ c, c <| acct_restored_bytes ::= λ n, u64 (n + rl_bytes_restored l) |> |>);
  mret (mkRestored (rl_out l) [] evidence IntegrityState.kVerified).
End restore.

(** ** What restoring leaves alone *)
Section restore_facts.
Context {B : Type} `{HB : IBackend B} {HL : BackendLaws B}.
Abbreviation Store := (ST (CheckpointStore B) CheckpointStoreError).
Implicit Types s : CheckpointStore B.

(** The part of a record that identifies its content. *)
Definition content_of (rec : CheckpointRecord) :=
  (rec_descriptor rec, rec_manifest rec, rec_chunks rec, rec_lifecycle rec).

(** Everything a restore depends on but must not change: the content of every
    checkpoint, the physical bookkeeping and the backends themselves. *)
Definition content_kept s s' : Prop :=
  let i := s_impl s in let i' := s_impl s' in
  content_of <$> im_checkpoints i' = content_of <$> im_checkpoints i ∧
  (im_blobs i', im_placements i', im_families i', im_backends i', im_retention i',
     im_next_checkpoint_generation i', s_dedup s', s_options s') =
  (im_blobs i, im_placements i, im_families i, im_backends i, im_retention i,
     im_next_checkpoint_generation i, s_dedup s, s_options s) ∧
  dom (im_replicas i') = dom (im_replicas i) ∧
  (∀ p, s_heap s' p = s_heap s p).
#[local] Instance content_kept_preorder : PreOrder content_kept.
Proof.
  split; [done|]. unfold content_kept. intros s1 s2 s3 (H1&H2&H3&H4) (H1'&H2'&H3'&H4').
  split_and!; [congruence..|]. intros p. by rewrite H4', H4.
Qed.

Lemma fmap_alter_id {K A C} `{Countable K} (g : A → C) (f : A → A) k (m : gmap K A) :
  (∀ a, g (f a) = g a) → g <$> alter f k m = g <$> m.
Proof.
  intros Hg. apply map_eq. intros k'. rewrite !lookup_fmap. destruct (decide (k = k')) as [->|].
  - rewrite lookup_alter_eq. destruct (m !! k'); simpl; [by rewrite Hg|done].
  - by rewrite lookup_alter_ne.
Qed.

Lemma frames_modify_record id f : (∀ rec, content_of (f rec) = content_of rec) →
  frames content_kept (modify_record (B:=B) id f).
Proof. intros Hf s. split; [|done]. by apply fmap_alter_id. Qed.
Lemma frames_count : frames content_kept (count_integrity_failure (B:=B)).
Proof. by intros s. Qed.

Lemma frames_on_backend_pure {A} p (m : ST B CheckpointStoreError A) :
  (∀ b, (m b).2 = b) → frames content_kept (on_backend p m).
Proof.
  intros Hm s. unfold on_backend, zoom. specialize (Hm (s_heap s p)).
  destruct (m (s_heap s p)) as [r b]. cbn [snd] in *. subst b.
  do 3 (split; [done|]). intros q. apply fn_insert_id.
Qed.

Lemma frames_quarantine id rid : frames content_kept (quarantine_source (B:=B) id rid).
Proof.
  unfold quarantine_source, get_impl, gets. intros s. unfold mbind at 1, ST_bind at 1. simpl.
  destruct (im_replicas (s_impl s) !! rid) as [rd|] eqn:E; [|done].
  case_bool_decide; [|done]. unfold content_kept. simpl.
  split; [by apply fmap_alter_id|]. split_and!; [done|..|done].
  rewrite dom_insert_L. apply elem_of_dom_2 in E. set_solver.
Qed.

Lemma restore_chunk_frames id cd cand l : frames content_kept (restore_chunk id cd cand l).
Proof.
  revert l. induction cand as [|rid cand IH]; intros l; cbn [restore_chunk]; [by intros s|].
  repeat first [ apply IH | apply frames_on_backend_pure; intros; first [apply read_pure|apply health_pure]
               | apply frames_count | apply frames_quarantine | frame_step ].
Qed.

Lemma restore_entries_frames id rec entries l :
  frames content_kept (restore_entries id rec entries l).
Proof.
  revert l. induction entries as [|e entries IH]; intros l; cbn [restore_entries]; [by intros s|].
  repeat first [ apply IH | apply restore_chunk_frames | apply frames_modify_record; by intros
               | unfold raise; frame_step ].
Qed.

Lemma find_checkpoint_frames (R : CheckpointStore B → CheckpointStore B → Prop) id :
  PreOrder R → frames R (find_checkpoint id).
Proof. intros HR. unfold find_checkpoint, get_impl, raise. repeat frame_step. Qed.

Lemma restore_frames elapsed rid id priority :
  frames content_kept (restore elapsed rid id priority).
Proof.
  unfold restore.
  repeat first [ apply find_checkpoint_frames; apply _ | apply restore_entries_frames
               | apply frames_modify_record; by intros | apply frames_count
               | progress unfold raise_if, raise | frame_step | by intros s ].
Qed.

(** ** What a restore returns *)

(** [l'] extends [l] by the chunks [rbs]. *)
Definition extends (l : RestoreLocals) (rbs : list (list byte)) (l' : RestoreLocals) : Prop :=
  rl_out l' = rl_out l ++ concat rbs ∧
  rl_combined l' = fold_left update_hasher rbs (rl_combined l) ∧
  rl_bytes_restored l' = fold_left (λ n rb, u64 (n + zlen rb)) rbs (rl_bytes_restored l) ∧
  rl_chunks_restored l' = Nat.iter (length rbs) incr64 (rl_chunks_restored l).

Lemma extends_nil l : extends l [] l.
Proof. by repeat split; simpl; rewrite ?app_nil_r. Qed.
Lemma iter_incr64 n z : Nat.iter n incr64 (incr64 z) = incr64 (Nat.iter n incr64 z).
Proof. induction n as [|n IH]; [done|]. simpl. by rewrite IH. Qed.
Lemma extends_cons l rb l1 rbs l2 :
  extends l [rb] l1 → extends l1 rbs l2 → extends l (rb :: rbs) l2.
Proof.
  unfold extends. simpl. rewrite app_nil_r. intros (->&->&->&->) (->&->&->&->).
  by rewrite <- app_assoc, iter_incr64.
Qed.
Lemma extends_fail rid l rb l' : extends (fail_source rid l) rb l' → extends l rb l'.
Proof. done. Qed.

Lemma restore_chunk_sound id cd cand l s l' s' :
  restore_chunk id cd cand l s = (Ok (true, l'), s') →
  ∃ rb, extends l [rb] l' ∧ sha256 rb = cd_digest cd.
Proof.
  revert l s. induction cand as [|rid cand IH]; intros l s; cbn [restore_chunk]; [done|].
  intros (i & s1 & [= <- <-] & Hrest)%st_bind_ok.
  destruct (im_replicas (s_impl s) !! rid) as [rd|]; [|by apply IH in Hrest].
  destruct (im_backends (s_impl s) !! rp_backend_id rd) as [p|]; [|by apply IH in Hrest].
  apply st_bind_ok in Hrest as ([] & s2 & _ & Hrest); cbn [negb] in Hrest; [|by apply IH in Hrest].
  apply st_bind_ok in Hrest as ([rb|e] & s3 & _ & Hrest); [|by apply IH in Hrest].
  destruct (digest_equal (sha256 rb) (cd_digest cd)) eqn:E.
  - injection Hrest as <- <-. exists rb. split; [|by apply digest_equal_true].
    unfold extends. simpl. by rewrite app_nil_r.
  - apply st_bind_ok in Hrest as ([] & s4 & _ & Hrest).
    apply st_bind_ok in Hrest as ([] & s5 & _ & Hrest). by apply IH in Hrest.
Qed.

(** The bytes of a manifest entry: a blob with the digest of its chunk. *)
Definition entry_bytes (rec : CheckpointRecord) (e : ManifestEntry) (rb : list byte) : Prop :=
  ∃ n cd, find_chunk (e_chunk_id e) (rec_chunks rec) = Some (n, cd) ∧ sha256 rb = cd_digest cd.

Lemma restore_entries_sound id rec entries l s l' s' :
  restore_entries id rec entries l s = (Ok l', s') →
  ∃ rbs, extends l rbs l' ∧ Forall2 (entry_bytes rec) entries rbs.
Proof.
  revert l s. induction entries as [|e entries IH]; intros l s; cbn [restore_entries].
  { intros [= <- <-]. exists []. split; [apply extends_nil|constructor]. }
  destruct (find_chunk (e_chunk_id e) (rec_chunks rec)) as [[n cd]|] eqn:Ef; [|done].
  intros (i & s1 & [= <- <-] & Hrest)%st_bind_ok.
  apply st_bind_ok in Hrest as ([[] l1] & s2 & Hc & Hrest).
  - apply restore_chunk_sound in Hc as (rb & Hext & Hsha).
    apply IH in Hrest as (rbs & Hext' & Hf). exists (rb :: rbs).
    split; [by eapply extends_cons|]. constructor; [|done]. by exists n, cd.
  - by apply st_bind_ok in Hrest as ([] & s3 & _ & Hrest).
Qed.

Lemma find_checkpoint_ok id s rec s' :
  find_checkpoint id s = (Ok rec, s') ↔ s' = s ∧ im_checkpoints (s_impl s) !! id = Some rec.
Proof.
  unfold find_checkpoint, get_impl, gets, mbind, ST_bind.
  destruct (im_checkpoints (s_impl s) !! id) as [rec'|]; split.
  - by intros [= -> ->].
  - by intros [-> [= ->]].
  - done.
  - by intros [_ ?].
Qed.

Lemma bytes_restored_sum (rbs : list (list byte)) n :
  fold_left (λ n rb, u64 (n + zlen rb)) rbs (u64 n) = u64 (n + zlen (concat rbs)).
Proof.
  revert n. induction rbs as [|rb rbs IH]; intros n; [simpl; unfold zlen; simpl; by rewrite Z.add_0_r|].
  rewrite fold_left_cons. replace (u64 (u64 n + zlen rb)) with (u64 (n + zlen rb)).
  - simpl. by rewrite IH, zlen_app, Z.add_assoc.
  - unfold u64. by rewrite Zplus_mod_idemp_l.
Qed.

Lemma restore_sound elapsed rid id priority s rc s' :
  restore elapsed rid id priority s = (Ok rc, s') →
  ∃ rec rbs,
    im_checkpoints (s_impl s) !! id = Some rec ∧
    rec_lifecycle rec ≠ CheckpointLifecycle.kGcEligible ∧
    rec_lifecycle rec ≠ CheckpointLifecycle.kDeleted ∧
    Forall2 (entry_bytes rec) (m_chunks (rec_manifest rec)) rbs ∧
    rc_bytes rc = concat rbs ∧
    sha256 (rc_bytes rc) = m_checkpoint_digest (rec_manifest rec) ∧
    rc_integrity rc = IntegrityState.kVerified ∧
    ev_bytes_restored (rc_evidence rc) = u64 (zlen (rc_bytes rc)) ∧
    im_restore_evidence (s_impl s') !! id = Some (rc_evidence rc).
Proof.
  unfold restore. intros (rec & s1 & [-> Hrec]%find_checkpoint_ok & Hrest)%st_bind_ok.
  apply st_bind_ok in Hrest as ([] & s2 & [Hlc ->]%throw_if_ok & Hrest).
  apply orb_false_elim in Hlc as [Hlc1%bool_decide_eq_false Hlc2%bool_decide_eq_false].
  apply st_bind_ok in Hrest as (l & s3 & Hl & Hrest).
  apply restore_entries_sound in Hl as (rbs & (Ho & Hh & Hb & _) & Hf). simpl in Ho, Hh, Hb.
  apply st_bind_ok in Hrest as ([] & s4 & Hd & Hrest).
  destruct (digest_equal (final_hasher (rl_combined l)) (m_checkpoint_digest (rec_manifest rec))) eqn:Ed;
    [|done]. injection Hd as <-. apply digest_equal_true in Ed. rewrite Hh, streaming_sha256 in Ed.
  apply st_bind_ok in Hrest as ([] & s5 & [= <-] & Hrest).
  apply st_bind_ok in Hrest as ([] & s6 & [= <-] & [= <- <-]).
  exists rec, rbs. do 4 (split; [done|]). cbn [rc_bytes rc_integrity rc_evidence].
  rewrite Ho. split; [done|]. split; [done|]. split; [done|]. split.
  - cbn. rewrite Hb. by apply (bytes_restored_sum rbs 0).
  - cbn. by rewrite lookup_insert_eq.
Qed.

(** ** When a restore succeeds *)
Lemma blob_key_for_eq d : blob_key_for d = blob_key d.
Proof. done. Qed.

(** States that differ at most in how the heap function is written. *)
Definition same_store s s' : Prop := s_impl s' = s_impl s ∧ ∀ p, s_heap s' p = s_heap s p.

Lemma on_backend_pure {A} p (m : ST B CheckpointStoreError A) s :
  (m (s_heap s p)).2 = s_heap s p →
  ∃ s', on_backend p m s = ((m (s_heap s p)).1, s') ∧ same_store s s'.
Proof.
  intros Hm. unfold on_backend, zoom. destruct (m (s_heap s p)) as [r b]. cbn [fst snd] in *. subst b.
  eexists. split; [done|]. split; [done|]. intros q. apply fn_insert_id.
Qed.

(** The replica [rid] can serve the bytes [rb] of a chunk. *)
Definition serves s (rid : ReplicaId) (cd : ChunkDescriptor) (rb : list byte) : Prop :=
  ∃ rd p, im_replicas (s_impl s) !! rid = Some rd ∧
    im_backends (s_impl s) !! rp_backend_id rd = Some p ∧
    (health (s_heap s p)).1 = Ok true ∧
    (read (blob_key (cd_digest cd)) (s_heap s p)).1 = Ok rb ∧ sha256 rb = cd_digest cd.

Lemma serves_same s s' rid cd rb : same_store s s' → serves s rid cd rb → serves s' rid cd rb.
Proof.
  intros [Hi Hh] (rd & p & H1 & H2 & H3 & H4 & H5). exists rd, p. by rewrite Hi, Hh.
Qed.

Lemma restore_chunk_complete id cd rid cand l s rb : serves s rid cd rb →
  ∃ l' s', restore_chunk id cd (rid :: cand) l s = (Ok (true, l'), s') ∧
    extends l [rb] l' ∧ same_store s s'.
Proof.
  intros (rd & p & H1 & H2 & H3 & H4 & H5).
  destruct (on_backend_pure p health s (health_pure _)) as (s1 & E1 & [Hi1 Hh1]).
  destruct (on_backend_pure p (read (blob_key_for (cd_digest cd))) s1 (read_pure _ _))
    as (s2 & E2 & [Hi2 Hh2]).
  eexists _, s2. split; [|split].
  - cbn [restore_chunk]. unfold gets, mbind at 1, ST_bind at 1. rewrite H1, H2.
    erewrite st_bind_run by (rewrite E1, H3; reflexivity). cbn [negb].
    unfold attempt, mbind, ST_bind. rewrite E2, Hh1, blob_key_for_eq, H4, H5.
    rewrite (proj2 (digest_equal_true _ _) eq_refl). reflexivity.
  - unfold extends. simpl. by rewrite app_nil_r.
  - split; [congruence|]. intros q. by rewrite Hh2, Hh1.
Qed.

(** A manifest entry whose first chunk of that id is placed on a replica of a
    registered backend [p] that holds the bytes; and one that is also healthy. *)
Definition stored s (p : BackendPtr) (rec : CheckpointRecord) (e : ManifestEntry) (rb : list byte) : Prop :=
  ∃ n cd rid rd, find_chunk (e_chunk_id e) (rec_chunks rec) = Some (n, cd) ∧
    placed (im_placements (s_impl s)) rid cd ∧ im_replicas (s_impl s) !! rid = Some rd ∧
    im_backends (s_impl s) !! rp_backend_id rd = Some p ∧
    (read (blob_key (cd_digest cd)) (s_heap s p)).1 = Ok rb ∧ sha256 rb = cd_digest cd.
Definition servable s (rec : CheckpointRecord) (e : ManifestEntry) (rb : list byte) : Prop :=
  ∃ n cd rid, find_chunk (e_chunk_id e) (rec_chunks rec) = Some (n, cd) ∧
    placed (im_placements (s_impl s)) rid cd ∧ serves s rid cd rb.
Lemma stored_servable s p rec e rb : (health (s_heap s p)).1 = Ok true → stored s p rec e rb → servable s rec e rb.
Proof.
  intros Hh (n & cd & rid & rd & H1 & H2 & H3 & H4 & H5 & H6). exists n, cd, rid.
  split; [done|]. split; [done|]. by exists rd, p.
Qed.

Lemma restore_entries_complete id rec entries l s rbs :
  Forall2 (servable s rec) entries rbs →
  ∃ l' s', restore_entries id rec entries l s = (Ok l', s') ∧ extends l rbs l' ∧ same_store s s'.
Proof.
  intros Hf. revert l s Hf. revert rbs. induction entries as [|e entries IH]; intros rbs l s Hf.
  { inversion Hf; subst. exists l, s. split; [done|]. by split; [apply extends_nil|]. }
  inversion Hf as [|? rb ? rbs' (n & cd & rid & Hfind & (pid & pd & Hpl & Hpd & Hrid) & Hsv) Hf']; subst.
  destruct (restore_chunk_complete id cd (pl_replica_id pd) [] l s rb Hsv) as (l1 & s1 & E1 & X1 & S1).
  destruct (IH rbs' l1 s1) as (l2 & s2 & E2 & X2 & S2).
  { eapply Forall2_impl; [exact Hf'|]. intros e' rb' (n' & cd' & rid' & H1 & H2 & H3).
    exists n', cd', rid'. split; [done|]. split; [by rewrite (proj1 S1)|by eapply serves_same]. }
  exists l2, s2. split; [|split; [by eapply extends_cons|]].
  - cbn [restore_entries]. rewrite Hfind. unfold gets, mbind at 1, ST_bind at 1.
    unfold candidates. rewrite Hpl. cbn [omap list_omap]. rewrite Hpd. cbn [fmap option_fmap option_map].
    by erewrite st_bind_run by exact E1.
  - destruct S1, S2. split; [congruence|]. intros q. congruence.
Qed.

Lemma restore_complete elapsed rid id priority s rec rbs :
  im_checkpoints (s_impl s) !! id = Some rec →
  rec_lifecycle rec ≠ CheckpointLifecycle.kGcEligible →
  rec_lifecycle rec ≠ CheckpointLifecycle.kDeleted →
  Forall2 (servable s rec) (m_chunks (rec_manifest rec)) rbs →
  sha256 (concat rbs) = m_checkpoint_digest (rec_manifest rec) →
  ∃ rc s', restore elapsed rid id priority s = (Ok rc, s') ∧ rc_bytes rc = concat rbs.
Proof.
  intros Hrec Hl1 Hl2 Hf Hd.
  set (l0 := mkRestoreLocals [] new_hasher (default_RestoreEvidence <| ev_restore_id := rid |>
    <| ev_source_checkpoint := id |> <| ev_source_manifest := m_id (rec_manifest rec) |>
    <| ev_attempt_generation := mkGen 1 |>) 0 0).
  destruct (restore_entries_complete id rec _ l0 s rbs Hf) as (l & s1 & E & (Ho & Hh & _ & _) & _).
  eexists _, _. unfold restore. erewrite st_bind_run by (by apply find_checkpoint_ok).
  rewrite !bool_decide_eq_false_2 by done. unfold raise_if, throw_if. cbn [orb].
  erewrite st_bind_run by reflexivity. fold l0. erewrite st_bind_run by exact E.
  rewrite Hh, streaming_sha256, Hd, (proj2 (digest_equal_true _ _) eq_refl). cbn [negb].
  split; [reflexivity|]. by rewrite Ho.
Qed.

(** ** Verification *)
Lemma fail_verification_frames id v : frames content_kept (fail_verification (B:=B) id v).
Proof.
  unfold fail_verification.
  repeat first [ apply frames_modify_record; by intros | apply frames_count | frame_step ].
Qed.
Lemma verify_chunks_frames id p cds h : frames content_kept (verify_chunks id p cds h).
Proof.
  revert h. induction cds as [|cd cds IH]; intros h; cbn [verify_chunks]; [by intros s|].
  repeat first [ apply IH | apply fail_verification_frames
    | apply frames_on_backend_pure; intros; first [apply read_pure|apply verify_pure|apply exists_pure]
    | progress cbn beta iota zeta | frame_step ].
Qed.
Lemma verify_checkpoint_frames id : frames content_kept (verify_checkpoint (B:=B) id).
Proof.
  unfold verify_checkpoint, record_integrity.
  repeat first [ apply find_checkpoint_frames; apply _ | apply fail_verification_frames
    | apply verify_chunks_frames | apply frames_modify_record; by intros
    | progress cbn beta iota zeta | frame_step ].
Qed.

Lemma verify_chunks_ok id p cds h s h' s' :
  verify_chunks id p cds h s = (Ok (Some h'), s') →
  ∃ rbs, Forall2 (λ cd rb, (read (blob_key (cd_digest cd)) (s_heap s p)).1 = Ok rb) cds rbs ∧
    h' = fold_left update_hasher rbs h.
Proof.
  revert h s. induction cds as [|cd cds IH]; intros h s; cbn [verify_chunks].
  { intros [= <- <-]. exists []. by split; [constructor|]. }
  cbv zeta. intros (present & s1 & E1 & Hrest)%st_bind_ok.
  destruct (on_backend_pure p (object_exists (blob_key_for (cd_digest cd))) s (exists_pure _ _))
    as (s1' & E1' & [Hi1 Hh1]). rewrite E1 in E1'. injection E1' as _ <-.
  destruct present; cbn [negb] in Hrest; [|done].
  apply st_bind_ok in Hrest as (v & s2 & E2 & Hrest).
  destruct (on_backend_pure p (verify (blob_key_for (cd_digest cd)) (cd_digest cd)) s1 (verify_pure _ _ _))
    as (s2' & E2' & [Hi2 Hh2]). rewrite E2 in E2'. injection E2' as _ <-.
  destruct (_ || _); [done|]. apply st_bind_ok in Hrest as (rb & s3 & E3 & Hrest).
  destruct (on_backend_pure p (read (blob_key_for (cd_digest cd))) s2 (read_pure _ _))
    as (s3' & E3' & [Hi3 Hh3]). rewrite E3 in E3'. injection E3' as Hr <-.
  apply IH in Hrest as (rbs & Hf & ->). exists (rb :: rbs). split; [|done]. constructor.
  - rewrite Hr, Hh2, Hh1. done.
  - eapply Forall2_impl; [exact Hf|]. intros cd' rb'. by rewrite Hh3, Hh2, Hh1.
Qed.

Lemma record_integrity_ok id s v s' : record_integrity id s = (Ok v, s') →
  s' = s ∧ ∃ rec, im_checkpoints (s_impl s) !! id = Some rec ∧ rec_integrity rec = v.
Proof.
  unfold record_integrity. intros (rec & s1 & [-> Hrec]%find_checkpoint_ok & [= <- <-])%st_bind_ok.
  split; [done|]. by exists rec.
Qed.

Definition flawed (v : IntegrityState.t) : Prop :=
  v = IntegrityState.kMissing ∨ v = IntegrityState.kCorrupt.

Lemma fail_verification_records id v s r s' rec :
  im_checkpoints (s_impl s) !! id = Some rec → fail_verification id v s = (r, s') →
  im_checkpoints (s_impl s') !! id = Some (rec <| rec_integrity := v |>).
Proof. intros Hrec [= _ <-]. cbn. by rewrite lookup_alter_eq, Hrec. Qed.

Lemma on_backend_impl {A} p (m : ST B CheckpointStoreError A) s :
  s_impl (on_backend p m s).2 = s_impl s.
Proof. unfold on_backend, zoom. by destruct (m (s_heap s p)). Qed.

Lemma verify_chunks_none id p cds h s s' rec :
  im_checkpoints (s_impl s) !! id = Some rec → verify_chunks id p cds h s = (Ok None, s') →
  ∃ rec', im_checkpoints (s_impl s') !! id = Some rec' ∧ flawed (rec_integrity rec').
Proof.
  revert h s. induction cds as [|cd cds IH]; intros h s Hrec; cbn [verify_chunks]; [done|].
  cbv zeta. intros (present & s1 & E1 & Hrest)%st_bind_ok.
  pose proof (on_backend_impl p (object_exists (blob_key_for (cd_digest cd))) s) as I1.
  rewrite E1 in I1. cbn [snd] in I1. rewrite <- I1 in Hrec.
  destruct present; cbn [negb] in Hrest.
  2: { eapply fail_verification_records in Hrest; [|done]. eexists. split; [done|]. by left. }
  apply st_bind_ok in Hrest as (v & s2 & E2 & Hrest).
  pose proof (on_backend_impl p (verify (blob_key_for (cd_digest cd)) (cd_digest cd)) s1) as I2.
  rewrite E2 in I2. cbn [snd] in I2. rewrite <- I2 in Hrec. destruct (_ || _).
  { eapply fail_verification_records in Hrest; [|done]. eexists. split; [done|]. by right. }
  apply st_bind_ok in Hrest as (rb & s3 & E3 & Hrest).
  pose proof (on_backend_impl p (read (blob_key_for (cd_digest cd))) s2) as I3.
  rewrite E3 in I3. cbn [snd] in I3. rewrite <- I3 in Hrec. by eapply IH.
Qed.

(** The verdict of [verify_checkpoint] is the one it records; it is [kVerified]
    exactly when every chunk is readable and the chunks hash to the digest. *)
Definition verdict_ok s (id : CheckpointId) (rec : CheckpointRecord) (v : IntegrityState.t) s' : Prop :=
  (∃ rec', im_checkpoints (s_impl s') !! id = Some rec' ∧ rec_integrity rec' = v) ∧
  (flawed v ∨ v = IntegrityState.kVerified ∧
     ∃ p rbs, choose_underlay (s_impl s) (rs_replicas (rec_replica_set rec)) None = Some p ∧
       Forall2 (λ cd rb, (read (blob_key (cd_digest cd)) (s_heap s p)).1 = Ok rb) (rec_chunks rec) rbs ∧
       sha256 (concat rbs) = m_checkpoint_digest (rec_manifest rec)).

Lemma verdict_flawed s id rec v rec' s1 s' :
  im_checkpoints (s_impl s1) !! id = Some rec' → flawed (rec_integrity rec') →
  record_integrity id s1 = (Ok v, s') → verdict_ok s id rec v s'.
Proof.
  intros Hrec' Hfl [-> (rec'' & Hrec'' & <-)]%record_integrity_ok.
  assert (rec'' = rec') as -> by congruence. split; [by exists rec'|by left].
Qed.

Lemma verify_checkpoint_ok id s v s' : verify_checkpoint id s = (Ok v, s') →
  ∃ rec, im_checkpoints (s_impl s) !! id = Some rec ∧ verdict_ok s id rec v s'.
Proof.
  unfold verify_checkpoint. intros (rec & s1 & [-> Hrec]%find_checkpoint_ok & Hrest)%st_bind_ok.
  exists rec. split; [done|]. apply st_bind_ok in Hrest as (i & s2 & [= <- <-] & Hrest).
  destruct (choose_underlay _ _ _) as [p|] eqn:Ep.
  2: { apply st_bind_ok in Hrest as (u & s3 & E3 & Hrest).
       eapply fail_verification_records in E3; [|done]. eapply verdict_flawed; [done| |done]. by left. }
  apply st_bind_ok in Hrest as ([h|] & s3 & E3 & Hrest).
  2: { destruct (verify_chunks_none _ _ _ _ _ _ _ Hrec E3) as (rec' & ? & ?). by eapply verdict_flawed. }
  pose proof (verify_chunks_frames id p (rec_chunks rec) new_hasher s) as (Fc & _).
  rewrite E3 in Fc. cbn [snd] in Fc. apply (f_equal (.!! id)) in Fc. rewrite !lookup_fmap, Hrec in Fc.
  destruct (im_checkpoints (s_impl s3) !! id) as [rec3|] eqn:Hrec3; [|done].
  apply verify_chunks_ok in E3 as (rbs & Hf & ->). rewrite streaming_sha256 in Hrest.
  destruct (digest_equal _ _) eqn:Ed; cbn [negb] in Hrest.
  - apply digest_equal_true in Ed. apply st_bind_ok in Hrest as ([] & s4 & [= <-] & Hrest).
    apply record_integrity_ok in Hrest as [-> (rec4 & Hrec4 & <-)]. cbn in Hrec4.
    rewrite lookup_alter_eq, Hrec3 in Hrec4. injection Hrec4 as <-. split.
    + eexists. split; [cbn; by rewrite lookup_alter_eq, Hrec3|done].
    + right. split; [done|]. by exists p, rbs.
  - apply st_bind_ok in Hrest as (u & s4 & E4 & Hrest).
    eapply fail_verification_records in E4; [|done]. eapply verdict_flawed; [done| |done]. by right.
Qed.
End restore_facts.

(** ** Publishing and restoring *)
Section round_trip.
Context `{IterOrder} {B : Type} `{HB : IBackend B} {HL : BackendLaws B}.
Implicit Types s : CheckpointStore B.

(** The 64-bit chunk ids of the pieces tell their digests apart. *)
Definition ids_distinct (slices : list ChunkSlice) : Prop :=
  ∀ sl1 sl2, sl1 ∈ slices → sl2 ∈ slices →
    chunk_id_from_digest (sl_digest sl1) = chunk_id_from_digest (sl_digest sl2) →
    sl_digest sl1 = sl_digest sl2.

Lemma find_published_chunk slices cds sl cd j : ids_distinct slices →
  Forall2 chunk_of slices cds → slices !! j = Some sl → cds !! j = Some cd →
  ∃ n cd', find_chunk (chunk_id_from_digest (sl_digest sl)) cds = Some (n, cd') ∧ cd' ∈ cds ∧
    cd_digest cd' = sl_digest sl.
Proof.
  intros Hids Hf Hsl Hcd. pose proof (Forall2_lookup_lr _ _ _ _ _ _ Hf Hsl Hcd) as (Hid & _).
  destruct (list_find_elem_of (λ c, cd_id c = chunk_id_from_digest (sl_digest sl)) cds cd)
    as [[n cd'] Hfind]; [by eapply list_elem_of_lookup_2|done|].
  exists n, cd'. split; [done|]. apply list_find_Some in Hfind as (Hn & Hid' & _).
  split; [by eapply list_elem_of_lookup_2|].
  destruct (Forall2_lookup_r _ _ _ _ _ Hf Hn) as (sl' & Hsl' & (Hid2 & _ & _ & _ & Hdg & _)).
  rewrite Hdg. symmetry. apply Hids; [by eapply list_elem_of_lookup_2..|]. congruence.
Qed.

(** What a publication stores for the pieces: the object of each is there, and
    its manifest entry leads to it. *)
Definition holds_piece s (p : BackendPtr) (rec : CheckpointRecord) (sl : ChunkSlice) (rb : list byte) : Prop :=
  stored s p rec (entry_of sl) rb ∧ (read (blob_key (sl_digest sl)) (s_heap s p)).1 = Ok rb ∧
  sha256 rb = sl_digest sl.
Lemma published_stored descriptor data s res s' p slices rec :
  publish descriptor data s = (Ok res, s') → is_u64 (zlen data) → ids_below s →
  0 ≤ im_next_id_counter (s_impl s) → im_next_id_counter (s_impl s) + zlen data + 1 < 2 ^ 64 →
  im_backends (s_impl s) !! im_primary_backend_id (s_impl s) = Some p →
  chunk_stream data (opt_chunk_size (s_options s)) = Ok slices → ids_distinct slices →
  im_checkpoints (s_impl s') !! d_id descriptor = Some rec →
  rec_lifecycle rec = CheckpointLifecycle.kCommitted ∧
  ∃ rbs, Forall2 (holds_piece s' p rec) slices rbs ∧
    m_chunks (rec_manifest rec) = entry_of <$> slices ∧
    sha256 (concat rbs) = m_checkpoint_digest (rec_manifest rec) ∧
    m_checkpoint_digest (rec_manifest rec) = sha256 data.
Proof.
  intros Hpub Hd Hids Hc0 Hb Hp Hcs Hdist Hrec.
  destruct (publish_sources descriptor data s res s') as (rid & rd & k & Hpl & Hrd & _ & Hbk & _); [done..|].
  apply publish_ok in Hpub as (p0 & sl & _ & Hcs' & _ & (p1 & cds & rbs & mid & rid' & n & Hp1 & Hcd & Hst & Hsha & _ & Hc & Hm & Hcom)); [|done].
  assert (sl = slices) as -> by congruence. assert (p1 = p) as -> by congruence.
  destruct Hcom as (Hck&_&_&_&_&_&Hbks&_). rewrite Hck, lookup_insert_eq in Hrec.
  injection Hrec as <-. split; [done|]. exists rbs. cbn. split; [|done].
  apply Forall2_same_length_lookup.
  split; [by rewrite (Forall2_length _ _ _ Hcd), (Forall2_length _ _ _ Hst)|].
  intros j slice rb Hsl Hrb. destruct (Forall2_lookup_r _ _ _ _ _ Hst Hrb) as (cd & Hcdj & (Hread & _ & Hrbsha)).
  destruct (find_published_chunk slices cds slice cd j) as (m & cd' & Hfind & Hin & Hdig); [done..|].
  pose proof (Forall2_lookup_lr _ _ _ _ _ _ Hcd Hsl Hcdj) as (_ & _ & _ & _ & Hdg & _). rewrite Hdg in Hread, Hrbsha.
  split; [|done]. exists m, cd', rid, rd. split; [done|]. rewrite Hc in Hpl. rewrite Forall_forall in Hpl.
  split; [by apply Hpl|]. rewrite Hbks, Hbk, Hrd, lookup_insert_eq, Hdig. done.
Qed.

Lemma published_servable descriptor data s res s' p slices rec :
  publish descriptor data s = (Ok res, s') → is_u64 (zlen data) → ids_below s →
  0 ≤ im_next_id_counter (s_impl s) → im_next_id_counter (s_impl s) + zlen data + 1 < 2 ^ 64 →
  im_backends (s_impl s) !! im_primary_backend_id (s_impl s) = Some p →
  chunk_stream data (opt_chunk_size (s_options s)) = Ok slices → ids_distinct slices →
  (health (s_heap s' p)).1 = Ok true →
  im_checkpoints (s_impl s') !! d_id descriptor = Some rec →
  rec_lifecycle rec = CheckpointLifecycle.kCommitted ∧
  ∃ rbs, Forall2 (servable s' rec) (m_chunks (rec_manifest rec)) rbs ∧
    sha256 (concat rbs) = m_checkpoint_digest (rec_manifest rec) ∧
    m_checkpoint_digest (rec_manifest rec) = sha256 data.
Proof.
  intros Hpub Hd Hids Hc0 Hb Hp Hcs Hdist Hhealth Hrec.
  destruct (published_stored descriptor data s res s' p slices rec) as (Hl & rbs & Hf & -> & Hrest); [done..|].
  split; [done|]. exists rbs. split; [|done]. apply Forall2_fmap_l.
  eapply Forall2_impl; [exact Hf|]. intros sl rb (Hs & _). by eapply stored_servable.
Qed.

(** ** Claims *)

(** C17: A restore never returns wrong bytes.  If it returns, the checkpoint was
    neither collected nor eligible for collection, the bytes are the blobs of
    the manifest's chunks in order, each with its recorded digest, their
    SHA-256 is the checkpoint's digest and the evidence counts them; and
    whatever the outcome, the content of every checkpoint, the physical
    bookkeeping and the backends are as before. *)
Theorem restore_correct elapsed rid id priority s :
  content_kept s (restore elapsed rid id priority s).2 ∧
  match restore elapsed rid id priority s with
  | (Throw _, _) => True
  | (Ok rc, s') => ∃ rec rbs,
      im_checkpoints (s_impl s) !! id = Some rec ∧
      rec_lifecycle rec ≠ CheckpointLifecycle.kGcEligible ∧
      rec_lifecycle rec ≠ CheckpointLifecycle.kDeleted ∧
      Forall2 (entry_bytes rec) (m_chunks (rec_manifest rec)) rbs ∧
      rc_bytes rc = concat rbs ∧
      sha256 (rc_bytes rc) = m_checkpoint_digest (rec_manifest rec) ∧
      ev_bytes_restored (rc_evidence rc) = u64 (zlen (rc_bytes rc)) ∧
      im_restore_evidence (s_impl s') !! id = Some (rc_evidence rc)
  end.
Proof.
  split; [apply restore_frames|].
  destruct (restore elapsed rid id priority s) as [[rc|e] s'] eqn:E; [|done].
  apply restore_sound in E as (rec & rbs & H1 & H2 & H3 & H4 & H5 & H6 & _ & H8 & H9).
  by exists rec, rbs.
Qed.

(** C20: Verification tells the truth and touches nothing else.  The verdict
    returned is the one recorded; "verified" means that every chunk can be read
    from the chosen backend and that the chunks in order have the checkpoint's
    digest; every other verdict is "missing" or "corrupt"; and the content of
    all checkpoints, the bookkeeping and the backends are as before. *)
Theorem verify_checkpoint_correct id s :
  content_kept s (verify_checkpoint id s).2 ∧
  match verify_checkpoint id s with
  | (Throw _, _) => True
  | (Ok v, s') => ∃ rec, im_checkpoints (s_impl s) !! id = Some rec ∧ verdict_ok s id rec v s'
  end.
Proof.
  split; [apply verify_checkpoint_frames|].
  destruct (verify_checkpoint id s) as [[v|e] s'] eqn:E; [|done]. by apply verify_checkpoint_ok.
Qed.

(** C3: What was published can be restored.  After a successful publication on a
    healthy backend, whose pieces' 64-bit chunk ids tell their digests apart,
    restoring the checkpoint succeeds and the bytes it returns have the SHA-256
    digest of the published data. *)
Theorem publish_restore_round_trip descriptor data s res s' p slices elapsed rid priority :
  publish descriptor data s = (Ok res, s') → is_u64 (zlen data) → ids_below s →
  0 ≤ im_next_id_counter (s_impl s) → im_next_id_counter (s_impl s) + zlen data + 1 < 2 ^ 64 →
  im_backends (s_impl s) !! im_primary_backend_id (s_impl s) = Some p →
  chunk_stream data (opt_chunk_size (s_options s)) = Ok slices → ids_distinct slices →
  (health (s_heap s' p)).1 = Ok true →
  ∃ rc s'', restore elapsed rid (d_id descriptor) priority s' = (Ok rc, s'') ∧
    sha256 (rc_bytes rc) = sha256 data.
Proof.
  intros Hpub Hd Hids Hc0 Hb Hp Hcs Hdist Hh.
  assert (is_Some (im_checkpoints (s_impl s') !! d_id descriptor)) as [rec Hrec].
  { destruct (publish_ok _ _ _ _ _ Hd Hpub)
      as (? & ? & _ & _ & _ & (?&?&?&?&?&?&_&_&_&_&_&_&_& (Hck & _))).
    rewrite Hck, lookup_insert_eq. by eexists. }
  destruct (published_servable descriptor data s res s' p slices rec)
    as (Hl & rbs & Hf & Hsha & Hdig); [done..|].
  destruct (restore_complete elapsed rid (d_id descriptor) priority s' rec rbs)
    as (rc & s'' & Hrun & Hbytes); [done|by rewrite Hl..|done|done|].
  exists rc, s''. split; [done|]. by rewrite Hbytes, Hsha.
Qed.
End round_trip.

(** The demonstration store: what was published comes back. *)
Definition demo_published : CheckpointStore SyntheticBackend :=
  (publish (H:=canonical_order) demo_descriptor demo_data demo_store).2.

Example demo_restores :
  match restore 0 (mkId 1) (d_id demo_descriptor) RestorePriority.kNormal demo_published with
  | (Ok rc, _) => rc_bytes rc = demo_data ∧ ev_chunks_restored (rc_evidence rc) = 3
  | _ => False
  end.
Proof. vm_compute. done. Qed.

Lemma publish_restore_round_trip_witness :
  ∃ rc s'', restore 7 (mkId 1) (d_id demo_descriptor) RestorePriority.kNormal demo_published = (Ok rc, s'') ∧
    sha256 (rc_bytes rc) = sha256 demo_data.
Proof.
  assert (match publish (H:=canonical_order) demo_descriptor demo_data demo_store with
          | (Ok _, s') => (health (s_heap s' 0%nat)).1 = Ok true | _ => False end) as Hrun
    by (vm_compute; reflexivity).
  unfold demo_published.
  destruct (publish demo_descriptor demo_data demo_store) as [[res|e] s'] eqn:E; [|destruct Hrun].
  destruct (chunk_stream demo_data 2) as [slices|e] eqn:Ec; [|discriminate Ec].
  apply (publish_restore_round_trip (H:=canonical_order) demo_descriptor demo_data demo_store res s' 0%nat slices
    7 (mkId 1) RestorePriority.kNormal E demo_size).
  - split; intros id [x Hx]; vm_compute in Hx; discriminate Hx.
  - vm_compute. discriminate.
  - vm_compute. reflexivity.
  - reflexivity.
  - exact Ec.
  - intros sl1 sl2. vm_compute in Ec. injection Ec as <-.
    rewrite !elem_of_cons, !elem_of_nil. intros [->|[->|[->|[]]]] [->|[->|[->|[]]]]; try reflexivity; vm_compute; discriminate.
  - exact Hrun.
Defined.

Lemma restore_correct_witness :
  let s := demo_published in
  let out := restore 0 (mkId 1) (d_id demo_descriptor) RestorePriority.kNormal s in
  content_kept s out.2 ∧ is_ok out.1 = true.
Proof.
  cbv zeta.
  pose proof (restore_correct 0 (mkId 1) (d_id demo_descriptor) RestorePriority.kNormal demo_published) as [H _].
  split; [exact H|]. vm_compute. reflexivity.
Defined.

Lemma verify_checkpoint_correct_witness :
  let out := verify_checkpoint (d_id demo_descriptor) demo_published in
  content_kept demo_published out.2 ∧ is_ok out.1 = true.
Proof.
  cbv zeta. pose proof (verify_checkpoint_correct (d_id demo_descriptor) demo_published) as [H _].
  split; [exact H|]. vm_compute. reflexivity.
Defined.
