(* ===== verification/Retention.v ===== *)
(** * Retention: which checkpoints are protected from collection

    [src/retention.cpp]: [is_protected], [build_family_generations],
    [find_policy], the closure loop of [compute_protected], policies,
    eligibility and [retire].  The system clock is read whenever a TTL is
    checked; its readings are a parameter [clock pass id]. *)
From S2P Require Import Prelude Base Hash Model Dedup Backend Store Restore.

Abbreviation FamilyGenerations := (gmap Z (list CheckpointId)).

(** [std::chrono::seconds] in ticks of [system_clock]. *)
Definition ticks_per_s : Z := 1000000000.

(** ** is_protected *)
Definition retired_state (l : CheckpointLifecycle.t) : bool :=
  bool_decide (l = CheckpointLifecycle.kRetired) || bool_decide (l = CheckpointLifecycle.kGcEligible)
  || bool_decide (l = CheckpointLifecycle.kDeleted).

(** [std::find(ids.begin(), ids.end(), id) - ids.begin()] *)
Definition slot_of (id : CheckpointId) (ids : list CheckpointId) : Z :=
  match list_find (id =.) ids with
  | Some (n, _) => Z.of_nat n
  | None => zlen ids
  end.

Definition hard_protected (rec : CheckpointRecord) (policy : option RetentionPolicy)
    (has_active_restore : bool) : bool :=
  bool_decide (rs_durability_state (rec_replica_set rec) = ReplicaDurabilityState.kUnderReplicated)
  || has_active_restore
  || bool_decide (d_retention (rec_descriptor rec) = RetentionClass.kPinned)
  || bool_decide (d_retention (rec_descriptor rec) = RetentionClass.kRestorePoint)
  || match policy with Some p => pol_policy_protected p | None => false end.

Definition keeps_latest (rec : CheckpointRecord) (policy : option RetentionPolicy)
    (family_by_gen : FamilyGenerations) : bool :=
  match family_by_gen !! id_value (d_family_id (rec_descriptor rec)) with
  | None => true
  | Some ids =>
      let latest_n :=
        match policy with Some p => if pol_latest_n p >? 0 then pol_latest_n p else 1 | None => 1 end in
      if zlen ids <=? latest_n then true
      else u64 (slot_of (d_id (rec_descriptor rec)) ids + latest_n) >=? zlen ids
  end.

(** The sum is one of signed 64-bit nanoseconds, which may overflow; here it is
    taken not to. *)
Definition ttl_protects (now : Z) (rec : CheckpointRecord) (policy : option RetentionPolicy) : bool :=
  match policy with
  | Some p =>
      if pol_ttl p >? 0 then
        now <? d_created_at (rec_descriptor rec) + pol_ttl p * ticks_per_s
      else true
  | None => true
  end.

Definition is_protected (now : Z) (rec : CheckpointRecord) (policy : option RetentionPolicy)
    (family_by_gen : FamilyGenerations) (has_active_restore : bool) : bool :=
  if hard_protected rec policy has_active_restore then true
  else if retired_state (rec_lifecycle rec) then false
  else if bool_decide (d_retention (rec_descriptor rec) = RetentionClass.kKeepLatestN)
          && keeps_latest rec policy family_by_gen then true
  else if bool_decide (d_retention (rec_descriptor rec) = RetentionClass.kTtl)
          && ttl_protects now rec policy then true
  else false.

(** ** build_family_generations *)

(** The comparison of the [std::sort]: by generation where both checkpoints are
    known. *)
Definition generation_less (checkpoints : gmap CheckpointId CheckpointRecord) (a b : CheckpointId) : bool :=
  match checkpoints !! a, checkpoints !! b with
  | Some ra, Some rb =>
      gen_value (d_generation (rec_descriptor ra)) <? gen_value (d_generation (rec_descriptor rb))
  | _, _ => id_value a <? id_value b
  end.
Definition generation_le (checkpoints : gmap CheckpointId CheckpointRecord) (a b : CheckpointId) : Prop :=
  generation_less checkpoints b a = false.
#[export] Instance generation_le_dec checkpoints : RelDecision (generation_le checkpoints).
Proof. intros a b. unfold generation_le. apply _. Defined.

Section retention.
Context `{IterOrder}.

Definition build_family_generations (impl : Impl) : FamilyGenerations :=
  fold_left (λ out kv,
      <[id_value (fam_id kv.2) :=
          merge_sort (generation_le (im_checkpoints impl)) (fam_checkpoint_ids kv.2)]> out)
    (iter_order (im_families impl)) ∅.

Definition find_policy (impl : Impl) (family : CheckpointFamilyId) : option RetentionPolicy :=
  snd <$> (snd <$> list_find (λ kv, pol_family_id kv.2 = family) (iter_order (im_retention impl))).

(** ** compute_protected *)
Abbreviation Marking := (gset CheckpointId * bool)%type.

(** [protected_set.insert(id)] with the [changed] flag. *)
Definition mark (id : CheckpointId) (m : Marking) : Marking :=
  if bool_decide (id ∈ m.1) then m else ({[id]} ∪ m.1, true).

Definition mark_direct (now : CheckpointId → Z) (impl : Impl) (fbg : FamilyGenerations) (m : Marking)
    (kv : CheckpointId * CheckpointRecord) : Marking :=
  if bool_decide (kv.1 ∈ m.1) then m
  else if is_protected (now kv.1) kv.2 (find_policy impl (d_family_id (rec_descriptor kv.2))) fbg false
  then mark kv.1 m else m.

Definition mark_ancestors (impl : Impl) (m : Marking) (kv : CheckpointId * CheckpointRecord) : Marking :=
  if bool_decide (kv.1 ∈ m.1) then
    fold_left (λ m anc, if bool_decide (is_Some (im_checkpoints impl !! anc)) then mark anc m else m)
      (m_lineage (rec_manifest kv.2)) m
  else m.

(** One iteration of the [while] loop, from [changed = false]. *)
Definition protect_pass (now : CheckpointId → Z) (impl : Impl) (fbg : FamilyGenerations)
    (prot : gset CheckpointId) : Marking :=
  let cs := iter_order (im_checkpoints impl) in
  fold_left (mark_ancestors impl) cs (fold_left (mark_direct now impl fbg) cs (prot, false)).

(** The loop: the set when an iteration changed nothing, or [None] when the
    iterations allowed did not suffice. *)
Fixpoint protect_loop (fuel : nat) (pass : nat) (clock : nat → CheckpointId → Z) (impl : Impl)
    (fbg : FamilyGenerations) (prot : gset CheckpointId) : option (gset CheckpointId) :=
  match fuel with
  | O => None
  | S fuel =>
      let '(prot', changed) := protect_pass (clock pass) impl fbg prot in
      if (changed : bool) then protect_loop fuel (S pass) clock impl fbg prot' else Some prot'
  end.

(** Every iteration but the last adds a checkpoint. *)
Definition protect_fuel (impl : Impl) : nat := S (size (im_checkpoints impl)).

Definition compute_protected (clock : nat → CheckpointId → Z) (impl : Impl) : gset CheckpointId :=
  default ∅ (protect_loop (protect_fuel impl) 0 clock impl (build_family_generations impl) ∅).

(** ** Policies, eligibility, retirement *)
Definition gc_eligible_unlocked (clock : nat → CheckpointId → Z) (impl : Impl) : list CheckpointId :=
  let prot := compute_protected clock impl in
  omap (λ kv,
    if bool_decide (rec_lifecycle kv.2 ≠ CheckpointLifecycle.kCommitted)
       && bool_decide (rec_lifecycle kv.2 ≠ CheckpointLifecycle.kRetired) then None
    else if bool_decide (kv.1 ∈ prot) then None
    else Some kv.1) (iter_order (im_checkpoints impl)).

Context {B : Type}.
Abbreviation Store := (ST (CheckpointStore B) CheckpointStoreError).

Definition set_retention_policy (policy : RetentionPolicy) : Store RetentionPolicy :=
  let policy := policy <| pol_generation := mkGen 1 |> in
  _ ← modify_impl (λ i, i <| im_retention ::= <[pol_id policy := policy]> |>);
  mret policy.

Definition gc_eligible_checkpoints (clock : nat → CheckpointId → Z) : Store (list CheckpointId) :=
  gets (λ s, gc_eligible_unlocked clock (s_impl s)).

Definition retire (clock : nat → CheckpointId → Z) (id : CheckpointId) : Store unit :=
  rec ← find_checkpoint id;
  _ ← raise_if (bool_decide (rec_lifecycle rec ≠ CheckpointLifecycle.kCommitted))
        ErrorCode.kTransaction "only a committed checkpoint can be retired";
  _ ← modify_record id (λ rec, rec <| rec_lifecycle := CheckpointLifecycle.kRetired |>);
  eligible ← gc_eligible_checkpoints clock;
  bump_counter (λ c, c <| acct_gc_eligible_checkpoints := zlen eligible |>).
End retention.

(** ** The closure loop *)
Section retention_facts.
Context `{IterOrder}.
Implicit Types impl : Impl.

(** How a marking develops: the set grows, and the flag tells whether it did. *)
Definition grows (m m' : gset CheckpointId * bool) : Prop :=
  m.1 ⊆ m'.1 ∧ (m.2 = true → m'.2 = true) ∧ (m'.2 = false → m'.1 = m.1) ∧
  (m'.2 = true → m.2 = true ∨ m.1 ⊂ m'.1).
#[local] Instance grows_preorder : PreOrder grows.
Proof.
  split.
  - intros m. unfold grows. split_and!; [set_solver|done..|by left].
  - intros m1 m2 m3 (A1 & A2 & A3 & A4) (B1 & B2 & B3 & B4). unfold grows. split_and!.
    + by etrans.
    + auto.
    + intros E. destruct m2 as [P2 []]; simpl in *; [by rewrite B2 in E|]. by rewrite B3, A3.
    + intros E. destruct (B4 E) as [E'|Hlt]; [|right; set_solver].
      destruct (A4 E') as [|Hlt]; [by left|right; set_solver].
Qed.

Lemma mark_grows id m : grows m (mark id m).
Proof.
  unfold mark. case_bool_decide; [reflexivity|]. unfold grows. simpl.
  split_and!; [set_solver|done..|]. right. set_solver.
Qed.
Lemma fold_grows {A} (f : gset CheckpointId * bool → A → gset CheckpointId * bool) l m :
  (∀ m a, grows m (f m a)) → grows m (fold_left f l m).
Proof.
  intros Hf. revert m. induction l as [|a l IH]; intros m; simpl; [reflexivity|].
  etrans; [apply Hf|apply IH].
Qed.
Lemma mark_direct_grows now impl fbg m kv : grows m (mark_direct now impl fbg m kv).
Proof. unfold mark_direct. repeat case_match; try reflexivity. apply mark_grows. Qed.
Lemma mark_ancestors_grows impl m kv : grows m (mark_ancestors impl m kv).
Proof.
  unfold mark_ancestors. case_bool_decide; [|reflexivity]. apply fold_grows.
  intros m' anc. case_bool_decide; [apply mark_grows|reflexivity].
Qed.

(** Why a checkpoint is retained: by its own right, or as an ancestor. *)
Inductive retained_by impl (direct : CheckpointId → CheckpointRecord → Prop) : CheckpointId → Prop :=
  | retained_direct id rec :
      im_checkpoints impl !! id = Some rec → direct id rec → retained_by impl direct id
  | retained_ancestor id rec anc :
      retained_by impl direct id → im_checkpoints impl !! id = Some rec →
      anc ∈ m_lineage (rec_manifest rec) → is_Some (im_checkpoints impl !! anc) →
      retained_by impl direct anc.

Definition directly impl (fbg : FamilyGenerations) (now : CheckpointId → Z) (id : CheckpointId)
    (rec : CheckpointRecord) : Prop :=
  is_protected (now id) rec (find_policy impl (d_family_id (rec_descriptor rec))) fbg false = true.

Definition not_deleted (rec : CheckpointRecord) : Prop := rec_lifecycle rec ≠ CheckpointLifecycle.kDeleted.

Lemma fold_keeps {A} (Q : CheckpointId → Prop) (f : gset CheckpointId * bool → A → gset CheckpointId * bool) l m :
  (∀ m a, a ∈ l → (∀ id, id ∈ m.1 → Q id) → ∀ id, id ∈ (f m a).1 → Q id) →
  (∀ id, id ∈ m.1 → Q id) → ∀ id, id ∈ (fold_left f l m).1 → Q id.
Proof.
  revert m. induction l as [|a l IH]; intros m Hf Hm; simpl; [done|].
  apply IH; [intros m' a' Ha'; apply Hf; by right|]. apply Hf; [left|done].
Qed.
Lemma mark_keeps (Q : CheckpointId → Prop) id m :
  Q id → (∀ id, id ∈ m.1 → Q id) → ∀ id', id' ∈ (mark id m).1 → Q id'.
Proof. intros HQ Hm id'. unfold mark. case_bool_decide; [auto|]. simpl. set_solver. Qed.

(** One iteration adds only checkpoints that are retained. *)
Lemma protect_pass_sound now impl fbg prot (direct : CheckpointId → CheckpointRecord → Prop) :
  (∀ id rec, directly impl fbg now id rec → direct id rec) →
  (∀ id, id ∈ prot → retained_by impl direct id) →
  ∀ id, id ∈ (protect_pass now impl fbg prot).1 → retained_by impl direct id.
Proof.
  intros Hd Hp. unfold protect_pass. apply fold_keeps; [|apply fold_keeps; [|done]].
  - intros m [id rec] Hin%elem_of_iter_order Hm. unfold mark_ancestors. simpl.
    case_bool_decide as Hid; [|done]. apply fold_keeps; [|done]. intros m' anc Hanc Hm'.
    case_bool_decide; [|done]. apply mark_keeps; [|done]. eapply retained_ancestor; eauto.
  - intros m [id rec] Hin%elem_of_iter_order Hm. unfold mark_direct. simpl.
    case_bool_decide; [done|]. destruct (is_protected _ _ _ _ _) eqn:E; [|done].
    apply mark_keeps; [|done]. eapply retained_direct; [done|]. by apply Hd.
Qed.

Lemma fold_reaches {A} (f : gset CheckpointId * bool → A → gset CheckpointId * bool) l m a id :
  (∀ m a, grows m (f m a)) → a ∈ l → (∀ m', m.1 ⊆ m'.1 → id ∈ (f m' a).1) →
  id ∈ (fold_left f l m).1.
Proof.
  intros Hg. revert m. induction l as [|b l IH]; intros m Ha Hid; [by apply not_elem_of_nil in Ha|].
  apply elem_of_cons in Ha as [->|Ha]; simpl.
  - destruct (fold_grows f l (f m b) Hg) as [Hsub _]. apply Hsub. by apply Hid.
  - apply IH; [done|]. intros m' Hsub. apply Hid. etrans; [|done]. apply Hg.
Qed.

(** One iteration adds every directly protected checkpoint and every ancestor
    of a checkpoint that was in the set. *)
Lemma protect_pass_direct now impl fbg prot id rec :
  im_checkpoints impl !! id = Some rec → directly impl fbg now id rec →
  id ∈ (protect_pass now impl fbg prot).1.
Proof.
  intros Hrec Hd. unfold protect_pass.
  destruct (fold_grows (mark_ancestors impl) (iter_order (im_checkpoints impl))
    (fold_left (mark_direct now impl fbg) (iter_order (im_checkpoints impl)) (prot, false))
    (mark_ancestors_grows impl)) as [Hsub _]. apply Hsub.
  apply (fold_reaches _ _ _ (id, rec)); [apply mark_direct_grows|by apply elem_of_iter_order|].
  intros m' _. unfold mark_direct. simpl. case_bool_decide; [done|].
  unfold directly in Hd. rewrite Hd. unfold mark. rewrite bool_decide_eq_false_2 by done. simpl. set_solver.
Qed.
Lemma protect_pass_ancestor now impl fbg prot id rec anc :
  im_checkpoints impl !! id = Some rec → id ∈ prot → anc ∈ m_lineage (rec_manifest rec) →
  is_Some (im_checkpoints impl !! anc) → anc ∈ (protect_pass now impl fbg prot).1.
Proof.
  intros Hrec Hid Hanc Hs. unfold protect_pass.
  apply (fold_reaches _ _ _ (id, rec)); [apply mark_ancestors_grows|by apply elem_of_iter_order|].
  intros m' Hsub. unfold mark_ancestors. simpl. rewrite bool_decide_eq_true_2.
  - apply (fold_reaches _ _ _ anc); [|done|].
    + intros m'' anc'. case_bool_decide; [apply mark_grows|reflexivity].
    + intros m'' _. rewrite bool_decide_eq_true_2 by done. unfold mark. case_bool_decide; set_solver.
  - apply Hsub.
    destruct (fold_grows (mark_direct now impl fbg) (iter_order (im_checkpoints impl)) (prot, false)
      (mark_direct_grows now impl fbg)) as [Hsub' _]. by apply Hsub'.
Qed.

Lemma protect_pass_grows now impl fbg prot : grows (prot, false) (protect_pass now impl fbg prot).
Proof.
  unfold protect_pass.
  trans (fold_left (mark_direct now impl fbg) (iter_order (im_checkpoints impl)) (prot, false)).
  - apply fold_grows, mark_direct_grows.
  - apply fold_grows, mark_ancestors_grows.
Qed.

Lemma retained_in_dom impl direct id :
  retained_by impl direct id → id ∈ dom (im_checkpoints impl).
Proof. destruct 1; [by apply elem_of_dom_2 in H0|by apply elem_of_dom]. Qed.
Lemma retained_impl impl (d1 d2 : CheckpointId → CheckpointRecord → Prop) id :
  (∀ id rec, d1 id rec → d2 id rec) → retained_by impl d1 id → retained_by impl d2 id.
Proof. intros Hd. induction 1; [eapply retained_direct|eapply retained_ancestor]; eauto. Qed.

(** The loop terminates within the fuel, whatever the clock, and its result is
    closed, complete and justified. *)
Lemma protect_loop_spec fuel pass clock impl fbg prot :
  let direct id rec := ∃ n, directly impl fbg (clock n) id rec in
  (∀ id, id ∈ prot → retained_by impl direct id) →
  (size (im_checkpoints impl) < fuel + size prot)%nat →
  ∃ P, protect_loop fuel pass clock impl fbg prot = Some P ∧ prot ⊆ P ∧
    (∀ id, id ∈ P → retained_by impl direct id) ∧
    (∀ id rec, im_checkpoints impl !! id = Some rec → directly impl fbg (clock pass) id rec → id ∈ P) ∧
    (∀ id rec anc, id ∈ P → im_checkpoints impl !! id = Some rec →
       anc ∈ m_lineage (rec_manifest rec) → is_Some (im_checkpoints impl !! anc) → anc ∈ P).
Proof.
  intros direct. revert pass prot. induction fuel as [|fuel IH]; intros pass prot Hp Hf.
  { assert (prot ⊆ dom (im_checkpoints impl)) as Hsub by (intros id ?; eapply retained_in_dom; eauto).
    apply subseteq_size in Hsub. rewrite size_dom in Hsub. lia. }
  pose proof (protect_pass_grows (clock pass) impl fbg prot) as (G1 & _ & G3 & G4).
  pose proof (protect_pass_sound (clock pass) impl fbg prot direct (λ id rec Hd, ex_intro _ pass Hd) Hp) as Hs.
  pose proof (protect_pass_direct (clock pass) impl fbg prot) as Hd.
  pose proof (protect_pass_ancestor (clock pass) impl fbg prot) as Ha.
  simpl. destruct (protect_pass (clock pass) impl fbg prot) as [prot' changed]. simpl in *.
  destruct changed.
  - destruct G4 as [|Hlt]; [done|done|]. apply subset_size in Hlt.
    destruct (IH (S pass) prot') as (P & HP & Hsub & H1 & H2 & H3); [done|lia|].
    exists P. split; [done|]. split; [set_solver|]. split; [done|]. split; [|done].
    intros id rec Hrec Hdir. apply Hsub. by eapply Hd.
  - rewrite G3 in * by done. exists prot. split; [done|]. split; [done|]. split; [done|].
    split; [by apply Hd|]. intros id rec anc. intros. by eapply Ha.
Qed.

(** ** The latest N of a family *)
Definition families_ok impl : Prop :=
  map_Forall (λ fid fam, fam_id fam = fid) (im_families impl).

Lemma fold_insert_other {A} (key : A → Z) (val : A → list CheckpointId) l acc k :
  k ∉ key <$> l →
  fold_left (λ out a, <[key a := val a]> out) l acc !! k = (acc : FamilyGenerations) !! k.
Proof.
  revert acc. induction l as [|a l IH]; intros acc Hk; csimpl in *; [done|].
  apply not_elem_of_cons in Hk as [Hne Hk]. rewrite IH, lookup_insert_ne; done.
Qed.
Lemma fold_insert_lookup {A} (key : A → Z) (val : A → list CheckpointId) l acc a :
  NoDup (key <$> l) → a ∈ l →
  fold_left (λ out a, <[key a := val a]> out) l (acc : FamilyGenerations) !! key a = Some (val a).
Proof.
  revert acc. induction l as [|b l IH]; intros acc Hnd Ha; csimpl in *; [by apply not_elem_of_nil in Ha|].
  apply NoDup_cons in Hnd as [Hb Hnd]. apply elem_of_cons in Ha as [->|Ha]; [|by apply IH].
  by rewrite fold_insert_other, lookup_insert_eq.
Qed.

Lemma build_family_lookup impl fid fam : families_ok impl → im_families impl !! fid = Some fam →
  build_family_generations impl !! id_value fid =
    Some (merge_sort (generation_le (im_checkpoints impl)) (fam_checkpoint_ids fam)).
Proof.
  intros Hok Hfam. unfold build_family_generations. rewrite <- (Hok _ _ Hfam).
  apply (fold_insert_lookup (λ kv, id_value (fam_id kv.2))
    (λ kv, merge_sort (generation_le (im_checkpoints impl)) (fam_checkpoint_ids kv.2)) _ _ (fid, fam));
    [|by apply elem_of_iter_order].
  assert ((λ kv : CheckpointFamilyId * FamilyRecord, id_value (fam_id kv.2)) <$> iter_order (im_families impl)
          = id_value <$> (iter_order (im_families impl)).*1) as ->.
  { rewrite <- list_fmap_compose. apply list_fmap_ext. intros i [k f] Hi. simpl.
    f_equal. apply Hok. apply elem_of_iter_order. by eapply list_elem_of_lookup_2. }
  apply NoDup_fmap_2; [|apply NoDup_iter_order]. intros [a] [b]; simpl. by intros ->.
Qed.

(** The checkpoints of a family are known, and no two share a generation. *)
Definition family_wf impl (ids : list CheckpointId) : Prop :=
  NoDup ids ∧ (∀ id, id ∈ ids → is_Some (im_checkpoints impl !! id)) ∧
  (∀ a b, a ∈ ids → b ∈ ids → generation_less (im_checkpoints impl) a b = false →
     generation_less (im_checkpoints impl) b a = false → a = b).

(** The checkpoints of a family that are newer than [id]. *)
Definition newer impl (id : CheckpointId) (ids : list CheckpointId) : list CheckpointId :=
  filter (λ id', generation_less (im_checkpoints impl) id id' = true) ids.

Lemma generation_less_asym cs a b : generation_less cs a b = true → generation_less cs b a = false.
Proof. unfold generation_less. destruct (cs !! a), (cs !! b); rewrite Z.ltb_lt, Z.ltb_ge; lia. Qed.

Definition known_le impl (ids : list CheckpointId) : Prop :=
  ∀ a b c, a ∈ ids → b ∈ ids → c ∈ ids → generation_le (im_checkpoints impl) a b →
    generation_le (im_checkpoints impl) b c → generation_le (im_checkpoints impl) a c.

Lemma generation_le_known impl (ids : list CheckpointId) :
  (∀ id, id ∈ ids → is_Some (im_checkpoints impl !! id)) → known_le impl ids.
Proof.
  intros Hk a b c Ha Hb Hc. unfold generation_le, generation_less.
  destruct (Hk a Ha) as [ra ->], (Hk b Hb) as [rb ->], (Hk c Hc) as [rc ->].
  rewrite !Z.ltb_ge. lia.
Qed.
Lemma generation_le_total impl : Total (generation_le (im_checkpoints impl)).
Proof.
  intros a b. unfold generation_le. destruct (generation_less (im_checkpoints impl) b a) eqn:E; [|by left].
  right. by apply generation_less_asym.
Qed.

Lemma sorted_strong impl ids : known_le impl ids →
  Sorted (generation_le (im_checkpoints impl)) ids → StronglySorted (generation_le (im_checkpoints impl)) ids.
Proof.
  induction ids as [|a ids IH]; intros Hk Hs; [constructor|].
  inversion Hs as [|?? Hs' Hhd]; subst.
  assert (known_le impl ids) as Hk' by (intros x y z ???; apply Hk; by right).
  specialize (IH Hk' Hs'). constructor; [done|]. clear Hs Hs'.
  destruct ids as [|b ids]; [constructor|]. inversion Hhd; subst. inversion IH as [|?? _ Hall]; subst.
  constructor; [done|]. rewrite Forall_forall in Hall |- *. intros c Hc.
  apply (Hk a b c); [left|right; left|right; right; done|done|by apply Hall].
Qed.

(** In generation order, the newer ones are those after the first occurrence. *)
Lemma newer_sorted impl l1 id l2 : family_wf impl (l1 ++ id :: l2) →
  StronglySorted (generation_le (im_checkpoints impl)) (l1 ++ id :: l2) →
  newer impl id (l1 ++ id :: l2) = l2.
Proof.
  intros (Hnd & Hk & Hinj) Hs. unfold newer. rewrite filter_app, filter_cons_False.
  2: { intros E. by pose proof (generation_less_asym _ _ _ E) as E'; rewrite E in E'. }
  assert (Forall (λ x, generation_less (im_checkpoints impl) id x = false) l1) as H1.
  { apply Forall_forall. intros x Hx. apply StronglySorted_app_1_elem_of with (x1 := x) (x2 := id) in Hs;
      [done|done|left]. }
  assert (Forall (λ x, generation_less (im_checkpoints impl) id x = true) l2) as H2.
  { apply StronglySorted_app_1_r in Hs. inversion Hs as [|?? _ Hall]; subst.
    rewrite Forall_forall in Hall |- *. intros x Hx.
    destruct (generation_less (im_checkpoints impl) id x) eqn:E; [done|]. exfalso.
    assert (x = id) as ->.
    { apply Hinj; [set_solver|set_solver|by apply Hall|done]. }
    apply NoDup_app in Hnd as (_ & _ & Hnd). apply NoDup_cons in Hnd as [Hn _]. done. }
  rewrite (filter_none _ l1), (filter_all _ l2); [done|done|].
  eapply Forall_impl; [exact H1|]. simpl. congruence.
Qed.

Definition retained_count (policy : option RetentionPolicy) : Z :=
  match policy with Some p => if pol_latest_n p >? 0 then pol_latest_n p else 1 | None => 1 end.

Lemma family_wf_perm impl l k : l ≡ₚ k → family_wf impl l → family_wf impl k.
Proof.
  intros Hp (H1 & H2 & H3). unfold family_wf. split; [by rewrite <- Hp|]. split.
  - intros id Hid. apply H2. by rewrite Hp.
  - intros a b Ha Hb. apply H3; by rewrite Hp.
Qed.

Lemma keeps_latest_spec impl rec policy fam :
  families_ok impl → im_families impl !! d_family_id (rec_descriptor rec) = Some fam →
  family_wf impl (fam_checkpoint_ids fam) → d_id (rec_descriptor rec) ∈ fam_checkpoint_ids fam →
  zlen (fam_checkpoint_ids fam) < 2 ^ 63 →
  keeps_latest rec policy (build_family_generations impl) = true ↔
    zlen (newer impl (d_id (rec_descriptor rec)) (fam_checkpoint_ids fam)) < retained_count policy.
Proof.
  intros Hok Hfam Hwf Hin Hlen. unfold keeps_latest. rewrite (build_family_lookup impl _ fam) by done.
  fold (retained_count policy). set (n := retained_count policy).
  assert (0 < n) as Hn by (unfold n, retained_count; repeat case_match; lia).
  set (L := merge_sort _ _). set (id := d_id (rec_descriptor rec)) in *.
  assert (L ≡ₚ fam_checkpoint_ids fam) as HL by apply merge_sort_Permutation.
  assert (zlen (newer impl id (fam_checkpoint_ids fam)) = zlen (newer impl id L)) as ->.
  { unfold zlen, newer. by rewrite HL. }
  assert (zlen L = zlen (fam_checkpoint_ids fam)) as HzL by (unfold zlen; by rewrite HL).
  rewrite <- HzL in Hlen. rewrite <- HL in Hin. apply (family_wf_perm impl _ L) in Hwf; [|done].
  assert (StronglySorted (generation_le (im_checkpoints impl)) L) as Hs.
  { apply sorted_strong; [apply generation_le_known, Hwf|].
    apply Sorted_merge_sort, generation_le_total. }
  clearbody L. unfold slot_of.
  destruct (list_find_elem_of (id =.) L id) as [[i x] Hfind]; [done|done|]. rewrite Hfind.
  apply list_find_Some in Hfind as (Hi & <- & _). apply take_drop_middle in Hi as HLi.
  pose proof (lookup_lt_Some _ _ _ Hi). rewrite <- HLi in Hwf, Hs, Hlen |- *.
  rewrite newer_sorted by done. unfold zlen in *. rewrite length_app, length_take in *. cbn [length] in *.
  set (k := length (drop (S i) L)) in *. replace (i `min` length L)%nat with i in * by lia.
  destruct (Z.leb_spec (Z.of_nat (i + S k)) n); [split; [lia|done]|].
  rewrite u64_id by (unfold is_u64; lia). rewrite Z.geb_leb, Z.leb_le. lia.
Qed.

Lemma compute_protected_spec clock impl :
  let fbg := build_family_generations impl in
  let direct id rec := ∃ n, directly impl fbg (clock n) id rec in
  let P := compute_protected clock impl in
  is_Some (protect_loop (protect_fuel impl) 0 clock impl fbg ∅) ∧
  (∀ id, id ∈ P → retained_by impl direct id) ∧
  (∀ id rec, im_checkpoints impl !! id = Some rec → directly impl fbg (clock 0%nat) id rec → id ∈ P) ∧
  (∀ id rec anc, id ∈ P → im_checkpoints impl !! id = Some rec →
     anc ∈ m_lineage (rec_manifest rec) → is_Some (im_checkpoints impl !! anc) → anc ∈ P).
Proof.
  intros fbg direct P. subst P. unfold compute_protected. fold fbg.
  destruct (protect_loop_spec (protect_fuel impl) 0 clock impl fbg ∅) as (P & HP & _ & H1 & H2 & H3).
  - intros id. set_solver.
  - unfold protect_fuel. rewrite size_empty. lia.
  - rewrite HP. cbn [default]. by split; [eexists|].
Qed.

Lemma elem_of_eligible clock impl id :
  id ∈ gc_eligible_unlocked clock impl ↔
    ∃ rec, im_checkpoints impl !! id = Some rec ∧
      (rec_lifecycle rec = CheckpointLifecycle.kCommitted ∨
       rec_lifecycle rec = CheckpointLifecycle.kRetired) ∧
      id ∉ compute_protected clock impl.
Proof.
  unfold gc_eligible_unlocked. rewrite list_elem_of_omap. split.
  - intros ([id' rec] & Hin%elem_of_iter_order & Hf). simpl in Hf.
    repeat case_bool_decide; simplify_eq/=; exists rec; naive_solver.
  - intros (rec & Hrec & Hl & Hn). exists (id, rec). rewrite elem_of_iter_order. split; [done|]. simpl.
    rewrite (bool_decide_eq_false_2 (id ∈ _)) by done.
    repeat case_bool_decide; simplify_eq/=; naive_solver.
Qed.

Lemma hard_protected_direct impl fbg now id rec :
  hard_protected rec (find_policy impl (d_family_id (rec_descriptor rec))) false = true →
  directly impl fbg now id rec.
Proof. intros Hh. unfold directly, is_protected. by rewrite Hh. Qed.

(** ** Claims *)

(** C19: The protected set is computed by a loop that terminates, whatever the
    clock reads and in whatever order the checkpoints are visited.  It contains
    every checkpoint not deleted that is protected in its own right, and every
    ancestor not deleted of a member not deleted; and it contains nothing but
    what is reached by lineage from a checkpoint that was protected in its own
    right when it was examined.  So in a store with no deleted checkpoint, read
    at one time, it is exactly the ancestry closure of the checkpoints protected
    in their own right.  (What happens to deleted checkpoints is not promised:
    see [deleted_is_protected_again].) *)
Theorem protected_set_is_closure clock impl :
  let fbg := build_family_generations impl in
  let P := compute_protected clock impl in
  is_Some (protect_loop (protect_fuel impl) 0 clock impl fbg ∅) ∧
  (∀ id, id ∈ P → retained_by impl (λ id rec, ∃ n, directly impl fbg (clock n) id rec) id) ∧
  (∀ id rec, im_checkpoints impl !! id = Some rec → not_deleted rec →
     directly impl fbg (clock 0%nat) id rec → id ∈ P) ∧
  (∀ id rec anc arec, id ∈ P → im_checkpoints impl !! id = Some rec → not_deleted rec →
     anc ∈ m_lineage (rec_manifest rec) → im_checkpoints impl !! anc = Some arec → not_deleted arec → anc ∈ P) ∧
  (∀ now, map_Forall (λ _, not_deleted) (im_checkpoints impl) → (∀ n, clock n = now) →
     ∀ id, id ∈ P ↔ retained_by impl (directly impl fbg now) id).
Proof.
  intros fbg P. destruct (compute_protected_spec clock impl) as (H1 & H2 & H3 & H4). fold fbg P in H1, H2, H3, H4.
  split; [done|]. split; [done|]. split; [by intros; eapply H3|]. split.
  - intros id rec anc arec Hid Hrec _ Hanc Ha _. by eapply H4; [exact Hid|exact Hrec|exact Hanc|eexists].
  - intros now _ Hc id. split.
    + intros Hid%H2. eapply retained_impl; [|exact Hid]. intros i r [n Hd]. by rewrite Hc in Hd.
    + induction 1; [eapply H3; [done|by rewrite Hc]|by eapply H4].
Qed.

(** C31: A checkpoint offered for collection is committed or retired, is not
    pinned, not a restore point, not under-replicated and not protected by
    policy, and no protected checkpoint descends from it. *)
Theorem eligible_is_unprotected clock impl id :
  id ∈ gc_eligible_unlocked clock impl →
  ∃ rec, im_checkpoints impl !! id = Some rec ∧
    (rec_lifecycle rec = CheckpointLifecycle.kCommitted ∨
     rec_lifecycle rec = CheckpointLifecycle.kRetired) ∧
    d_retention (rec_descriptor rec) ≠ RetentionClass.kPinned ∧
    d_retention (rec_descriptor rec) ≠ RetentionClass.kRestorePoint ∧
    rs_durability_state (rec_replica_set rec) ≠ ReplicaDurabilityState.kUnderReplicated ∧
    (∀ p, find_policy impl (d_family_id (rec_descriptor rec)) = Some p → pol_policy_protected p = false) ∧
    (∀ desc drec, desc ∈ compute_protected clock impl → im_checkpoints impl !! desc = Some drec →
       id ∉ m_lineage (rec_manifest drec)).
Proof.
  intros (rec & Hrec & Hl & Hn)%elem_of_eligible. exists rec. do 2 (split; [done|]).
  destruct (compute_protected_spec clock impl) as (_ & _ & Hdir & Hanc).
  assert (hard_protected rec (find_policy impl (d_family_id (rec_descriptor rec))) false = false) as Hh.
  { apply not_true_is_false. intros Hh. apply Hn. eapply Hdir; [done|]. by apply hard_protected_direct. }
  unfold hard_protected in Hh. rewrite !orb_false_iff, !bool_decide_eq_false in Hh.
  destruct Hh as ((((H1 & _) & H2) & H3) & H4). do 3 (split; [done|]). split.
  - intros p Hp. by rewrite Hp in H4.
  - intros desc drec Hd Hdr Hl'. apply Hn. by eapply Hanc; [exact Hd| | |eexists].
Qed.

(** C32: KEEP_LATEST_N keeps the latest N: for a family whose checkpoints are
    known and have distinct generations, a checkpoint counts as retained by the
    rule exactly when fewer than N checkpoints of the family have a larger
    generation, N being the policy's number or 1. *)
Theorem keep_latest_n_exact impl rec policy fam :
  families_ok impl → im_families impl !! d_family_id (rec_descriptor rec) = Some fam →
  family_wf impl (fam_checkpoint_ids fam) → d_id (rec_descriptor rec) ∈ fam_checkpoint_ids fam →
  zlen (fam_checkpoint_ids fam) < 2 ^ 63 →
  keeps_latest rec policy (build_family_generations impl) = true ↔
    zlen (newer impl (d_id (rec_descriptor rec)) (fam_checkpoint_ids fam)) < retained_count policy.
Proof. apply keeps_latest_spec. Qed.
End retention_facts.

(** ** A family of three checkpoints, the second an ancestor of the third *)
Definition demo_record (id gen : Z) (lineage : list CheckpointId) (l : CheckpointLifecycle.t) : CheckpointRecord :=
  mkRecord (default_CheckpointDescriptor <| d_id := mkId id |> <| d_family_id := mkId 1 |>
              <| d_generation := mkGen gen |>)
    (default_CheckpointManifest <| m_lineage := lineage |>) []
    (default_ReplicaSet <| rs_durability_state := ReplicaDurabilityState.kHealthy |>)
    l IntegrityState.kVerified Freshness.kCurrent.
Definition demo_impl : Impl := default_Impl
  <| im_families := {[ mkId 1 := mkFamily (mkId 1) (mkGen 1) [mkId 10; mkId 11; mkId 12] ]} |>
  <| im_checkpoints := list_to_map
       [(mkId 10, demo_record 10 1 [] CheckpointLifecycle.kCommitted);
        (mkId 11, demo_record 11 2 [] CheckpointLifecycle.kCommitted);
        (mkId 12, demo_record 12 3 [mkId 11] CheckpointLifecycle.kCommitted)] |>.

Lemma eligible_is_unprotected_witness :
  (mkId 10 : CheckpointId) ∈ gc_eligible_unlocked (H:=canonical_order) (λ _ _, 0) demo_impl ∧
  ∃ rec, im_checkpoints demo_impl !! (mkId 10 : CheckpointId) = Some rec ∧
    d_retention (rec_descriptor rec) ≠ RetentionClass.kPinned.
Proof.
  assert ((mkId 10 : CheckpointId) ∈ gc_eligible_unlocked (H:=canonical_order) (λ _ _, 0) demo_impl) as Hin
    by (vm_compute; left).
  split; [exact Hin|].
  destruct (eligible_is_unprotected (H:=canonical_order) (λ _ _, 0) demo_impl (mkId 10) Hin)
    as (rec & H1 & _ & H2 & _). exists rec. exact (conj H1 H2).
Defined.

Lemma keep_latest_n_exact_witness :
  keeps_latest (demo_record 12 3 [mkId 11] CheckpointLifecycle.kCommitted) None
    (build_family_generations (H:=canonical_order) demo_impl) = true.
Proof.
  apply (keep_latest_n_exact (H:=canonical_order) demo_impl
    (demo_record 12 3 [mkId 11] CheckpointLifecycle.kCommitted) None
    (mkFamily (mkId 1) (mkGen 1) [mkId 10; mkId 11; mkId 12])).
  - apply map_Forall_singleton. reflexivity.
  - reflexivity.
  - split; [|split].
    + apply (bool_decide_unpack _). vm_compute. exact I.
    + intros id. cbn. rewrite !elem_of_cons, elem_of_nil.
      intros [->|[->|[->|[]]]]; eexists; vm_compute; reflexivity.
    + intros a b. cbn. rewrite !elem_of_cons, !elem_of_nil.
      intros [->|[->|[->|[]]]] [->|[->|[->|[]]]]; try done; intros E1 E2; vm_compute in E1, E2; discriminate.
  - apply (bool_decide_unpack _). vm_compute. exact I.
  - vm_compute. reflexivity.
  - vm_compute. reflexivity.
Defined.

(** A deleted checkpoint counts as protected again once its family gets a
    protecting policy, or a retained checkpoint has it in its lineage, although
    the declaration says deleted checkpoints never retain blobs. *)
Example deleted_is_protected_again :
  let impl := demo_impl
    <| im_checkpoints ::= <[mkId 11 := demo_record 11 2 [] CheckpointLifecycle.kDeleted]> |> in
  (mkId 11 : CheckpointId) ∈ compute_protected (H:=canonical_order) (λ _ _, 0) impl.
Proof. apply (bool_decide_unpack _). vm_compute. exact I. Qed.
