(* ===== verification/Gc.v ===== *)
(** * Gc: garbage collection

    [src/gc.cpp]: the set of reachable blobs, [gc_plan] and [gc_run].  Both
    compute the protected set anew; the clock readings of the two computations
    in a run are separate parameters. *)
From stdpp Require Import functions.
From S2P Require Import Prelude Base Hash Model Dedup Backend SyntheticBackend Store Publish Restore Retention.

Record GcRunResult := mkGcRunResult {
  gr_epoch : GcEpochId;
  gr_generation : GcGeneration;
  gr_marked_bytes : Z;
  gr_reclaimed_blobs : list BlobId;
  gr_reclaimed_bytes : Z;
  gr_dereferenced_blobs : Z;
  gr_notes : list string
}.
#[export] Instance eta_GcRunResult : Eta GcRunResult := λ r,
  mkGcRunResult (gr_epoch r) (gr_generation r) (gr_marked_bytes r) (gr_reclaimed_blobs r)
    (gr_reclaimed_bytes r) (gr_dereferenced_blobs r) (gr_notes r).
Definition default_GcRunResult : GcRunResult := mkGcRunResult null_id first_gen 0 [] 0 0 [].

Definition add_note (note : string) (r : GcRunResult) : GcRunResult :=
  r <| gr_notes ::= λ ns, ns ++ [note] |>.

(** The elements of a [std::set] of ids in iteration order. *)
Definition id_le {Tag} (a b : BasicId Tag) : Prop := id_value a ≤ id_value b.
#[export] Instance id_le_dec {Tag} : RelDecision (@id_le Tag).
Proof. intros a b. unfold id_le. apply _. Defined.
Definition set_order {Tag} (ids : gset (BasicId Tag)) : list (BasicId Tag) :=
  merge_sort id_le (elements ids).

(** [compute_reachable] *)
Definition compute_reachable (recs : list CheckpointRecord) (retained : gset CheckpointId) : gset BlobId :=
  fold_left (λ reachable rec,
    if bool_decide (d_id (rec_descriptor rec) ∈ retained) then
      fold_left (λ reachable cd, {[cd_blob_id cd]} ∪ reachable) (rec_chunks rec) reachable
    else reachable) recs ∅.

Section gc.
Context `{IterOrder} {B : Type} `{IBackend B}.
Abbreviation Store := (ST (CheckpointStore B) CheckpointStoreError).

Definition reachable_blobs (clock : nat → CheckpointId → Z) (impl : Impl) : gset BlobId :=
  compute_reachable (iter_order (im_checkpoints impl)).*2 (compute_protected clock impl).

(** ** gc_plan *)
Definition gc_plan (clock : nat → CheckpointId → Z) : Store GcRunResult :=
  impl ← gets s_impl;
  let reachable := reachable_blobs clock impl in
  epoch ← fresh_id;
  let marked := fold_left (λ n b,
    match im_blobs impl !! b with Some bd => u64 (n + b_physical_size bd) | None => n end)
    (set_order reachable) 0 in
  let reclaimable := omap (λ kv, if bool_decide (kv.1 ∈ reachable) then None else Some kv.1)
    (iter_order (im_blobs impl)) in
  _ ← modify_impl (λ i, i <| im_gc ::= λ g, g
        <| gc_epoch := mkId epoch |> <| gc_generation ::= next |> <| gc_phase := GcPhase.kMarking |>
        <| gc_reachable_blobs := set_order reachable |> <| gc_marked_bytes := marked |>
        <| gc_reclaimable_blobs := reclaimable |> <| gc_freshness := Freshness.kCurrent |> |>);
  gc ← get_impl im_gc;
  mret (default_GcRunResult <| gr_epoch := gc_epoch gc |> <| gr_generation := gc_generation gc |>
          <| gr_marked_bytes := gc_marked_bytes gc |>).

(** ** gc_run *)

(** Release the references of a swept checkpoint. *)
Fixpoint release_chunks (cds : list ChunkDescriptor) (result : GcRunResult) : Store GcRunResult :=
  match cds with
  | [] => mret result
  | cd :: cds' =>
      r ← attempt (on_dedup (dedup_release_reference (cd_digest cd)));
      release_chunks cds' (match r with
        | Ok _ => result
        | Throw _ => add_note ("refcount disagreement deferred for " +:+ hex (cd_digest cd)) result
        end)
  end.

Fixpoint sweep_checkpoints (eligible : list CheckpointId) (result : GcRunResult) : Store GcRunResult :=
  match eligible with
  | [] => mret result
  | cid :: eligible' =>
      checkpoints ← get_impl im_checkpoints;
      match checkpoints !! cid with
      | None => sweep_checkpoints eligible' result
      | Some rec =>
          if bool_decide (rec_lifecycle rec = CheckpointLifecycle.kGcEligible)
             || bool_decide (rec_lifecycle rec = CheckpointLifecycle.kDeleted) then
            sweep_checkpoints eligible' result
          else
            result ← release_chunks (rec_chunks rec) result;
            _ ← modify_record cid (λ rec, rec <| rec_lifecycle := CheckpointLifecycle.kDeleted |>);
            _ ← bump_counter (λ c, if acct_gc_eligible_checkpoints c >? 0
                  then c <| acct_gc_eligible_checkpoints ::= λ n, u64 (n - 1) |> else c);
            sweep_checkpoints eligible' (result <| gr_dereferenced_blobs ::= incr64 |>)
      end
  end.

(** Remove a blob from the backends of its replicas: [removed_any] and
    [all_removed]. *)
Fixpoint remove_replicas (digest : Sha256Digest) (rids : list ReplicaId) (removed_any all_removed : bool) :
    Store (bool * bool) :=
  match rids with
  | [] => mret (removed_any, all_removed)
  | rid :: rids' =>
      i ← gets s_impl;
      match im_replicas i !! rid with
      | None => remove_replicas digest rids' removed_any all_removed
      | Some rd =>
          match im_backends i !! rp_backend_id rd with
          | None => remove_replicas digest rids' removed_any false
          | Some p =>
              gone ← on_backend p (remove (blob_key_for digest));
              if (gone : bool) then remove_replicas digest rids' true all_removed
              else remove_replicas digest rids' removed_any false
          end
      end
  end.

(** One candidate of the reclaim loop. *)
Definition reclaim_blob (reachable : gset BlobId) (bid : BlobId) (result : GcRunResult) :
    Store GcRunResult :=
  if bool_decide (bid ∈ reachable) then
    mret (add_note "deferred: blob reachable in current snapshot" result)
  else
    blobs ← get_impl im_blobs;
    match blobs !! bid with
    | None => mret result
    | Some bd =>
        table ← gets s_dedup;
        if negb (dedup_refcount table (b_digest bd) =? 0) then
          mret (add_note "deferred: refcount not zero" result)
        else
          '(removed_any, all_removed) ← remove_replicas (b_digest bd) (b_replicas bd) false true;
          result ← (if (removed_any : bool) then
              _ ← bump_counter (λ c, c <| acct_reclaimed_blobs ::= incr64 |>
                    <| acct_reclaimed_bytes ::= λ n, u64 (n + b_physical_size bd) |>);
              _ ← on_dedup (dedup_release_until_orphan (b_digest bd));
              mret (result <| gr_reclaimed_blobs ::= λ bs, bs ++ [bid] |>
                           <| gr_reclaimed_bytes ::= λ n, u64 (n + b_physical_size bd) |>)
            else mret result);
          let result := if (all_removed : bool) then result
                        else add_note "partial removal; retry in next pass" result in
          _ ← modify_impl (λ i, i <| im_blobs ::= delete bid |>);
          mret result
    end.

Fixpoint reclaim_blobs (reachable : gset BlobId) (bids : list BlobId) (result : GcRunResult) :
    Store GcRunResult :=
  match bids with
  | [] => mret result
  | bid :: bids' => result ← reclaim_blob reachable bid result; reclaim_blobs reachable bids' result
  end.

Definition gc_run (clock1 clock2 : nat → CheckpointId → Z) : Store GcRunResult :=
  impl ← gets s_impl;
  let eligible := gc_eligible_unlocked clock1 impl in
  let reachable := reachable_blobs clock2 impl in
  let result := default_GcRunResult <| gr_epoch := gc_epoch (im_gc impl) |>
    <| gr_generation := gc_generation (im_gc impl) |> in
  result ← sweep_checkpoints eligible result;
  reclaimable ← get_impl (λ i, gc_reclaimable_blobs (im_gc i));
  result ← reclaim_blobs reachable reclaimable result;
  _ ← modify (λ s, s <| s_impl ::= λ i, i
        <| im_gc ::= λ g, g <| gc_phase := GcPhase.kComplete |> <| gc_reclaimable_blobs := [] |>
                            <| gc_reachable_blobs := [] |> |>
        <| im_counters ::= λ c, c <| acct_blob_count := Z.of_nat (size (im_blobs i)) |>
             <| acct_unique_physical_bytes := unique_physical_bytes (s_dedup s) |> |> |>);
  mret result.
End gc.

(** ** Reachability *)
Lemma fold_chunks_spec (cds : list ChunkDescriptor) (acc : gset BlobId) b :
  b ∈ fold_left (λ reachable cd, {[cd_blob_id cd]} ∪ reachable) cds acc ↔
    b ∈ acc ∨ ∃ cd, cd ∈ cds ∧ cd_blob_id cd = b.
Proof.
  revert acc. induction cds as [|cd cds IH]; intros acc; simpl.
  - split; [by left|]. intros [|(cd & Hcd & _)]; [done|]. by apply not_elem_of_nil in Hcd.
  - rewrite IH, elem_of_union, elem_of_singleton. setoid_rewrite elem_of_cons. naive_solver.
Qed.

Lemma compute_reachable_spec recs retained b :
  b ∈ compute_reachable recs retained ↔
    ∃ rec cd, rec ∈ recs ∧ d_id (rec_descriptor rec) ∈ retained ∧ cd ∈ rec_chunks rec ∧ cd_blob_id cd = b.
Proof.
  unfold compute_reachable.
  assert (∀ acc : gset BlobId, b ∈ fold_left (λ reachable rec,
    if bool_decide (d_id (rec_descriptor rec) ∈ retained) then
      fold_left (λ reachable cd, {[cd_blob_id cd]} ∪ reachable) (rec_chunks rec) reachable
    else reachable) recs acc ↔ b ∈ acc ∨
    ∃ rec cd, rec ∈ recs ∧ d_id (rec_descriptor rec) ∈ retained ∧ cd ∈ rec_chunks rec ∧ cd_blob_id cd = b)
    as Hgen; [|rewrite Hgen; set_solver].
  induction recs as [|rec recs IH]; intros acc; simpl.
  - split; [by left|]. intros [|(rec & cd & Hr & _)]; [done|]. by apply not_elem_of_nil in Hr.
  - rewrite IH. setoid_rewrite elem_of_cons. case_bool_decide; [rewrite fold_chunks_spec|]; naive_solver.
Qed.

(** ** Safety *)
Section gc_facts.
Context `{IterOrder} {B : Type} `{HB : IBackend B} {HL : BackendLaws B}.
Implicit Types s : CheckpointStore B.

(** The indices agree with the content: a blob is filed under the id derived
    from its digest, a checkpoint under its own id, and chunks and dedup
    entries name the blob of their digest. *)
Definition blobs_ok s : Prop :=
  map_Forall (λ bid bd, bid = blob_id_from_digest (b_digest bd)) (im_blobs (s_impl s)).
Definition record_ok (cid : CheckpointId) (rec : CheckpointRecord) : Prop :=
  d_id (rec_descriptor rec) = cid ∧
  Forall (λ cd, cd_blob_id cd = blob_id_from_digest (cd_digest cd)) (rec_chunks rec).
Definition dedup_ok s : Prop :=
  map_Forall (λ d e, de_blob_id e = blob_id_from_digest d) (s_dedup s).
Definition index_ok s : Prop :=
  blobs_ok s ∧ map_Forall record_ok (im_checkpoints (s_impl s)) ∧ dedup_ok s.

(** Whether a digest's object reads the same from every backend. *)
Definition reads_same (d : Sha256Digest) s s' : Prop :=
  ∀ p, (read (blob_key d) (s_heap s' p)).1 = (read (blob_key d) (s_heap s p)).1.

(** The relation kept by collection for a digest that must survive. *)
Definition survives (d : Sha256Digest) s s' : Prop :=
  blobs_ok s → reads_same d s s' ∧ im_blobs (s_impl s') ⊆ im_blobs (s_impl s).
#[local] Instance survives_preorder d : PreOrder (survives d).
Proof.
  split; [by intros s ?|]. intros s1 s2 s3 H12 H23 Hok. destruct (H12 Hok) as [R12 B12].
  assert (blobs_ok s2) as Hok2.
  { intros bid bd Hbd. eapply Hok, lookup_weaken; eauto. }
  destruct (H23 Hok2) as [R23 B23]. split; [|by etrans]. intros p. by rewrite R23, R12.
Qed.

Lemma survives_same d s s' : s_heap s' = s_heap s → im_blobs (s_impl s') = im_blobs (s_impl s) →
  survives d s s'.
Proof. intros Hh Hb _. split; [intros p; by rewrite Hh|by rewrite Hb]. Qed.

Lemma on_dedup_survives (d : Sha256Digest) {A} (m : ST DedupTable CheckpointStoreError A) :
  frames (survives d) (on_dedup m).
Proof. intros s. unfold on_dedup, zoom. destruct (m (s_dedup s)). by apply survives_same. Qed.

Lemma release_survives d cds result : frames (survives d) (release_chunks cds result).
Proof.
  revert result. induction cds as [|cd cds IH]; intros result; cbn [release_chunks];
    repeat first [ apply IH | apply on_dedup_survives | frame_step ].
Qed.
Lemma sweep_survives d eligible result : frames (survives d) (sweep_checkpoints eligible result).
Proof.
  revert result. induction eligible as [|cid eligible IH]; intros result; cbn [sweep_checkpoints];
    unfold get_impl; repeat first [ apply IH | apply release_survives
    | (intros s; by apply survives_same) | frame_step ].
Qed.

Lemma remove_reads d digest p : digest ≠ d →
  frames (reads_same d) (on_backend p (remove (blob_key_for digest))).
Proof.
  intros Hne s. unfold on_backend, zoom.
  assert (blob_key d ≠ blob_key_for digest) as Hk by (intros E%blob_key_inj; congruence).
  pose proof (remove_other (blob_key_for digest) (blob_key d) (s_heap s p) Hk) as Hr.
  destruct (remove _ _) as [r b]. cbn [snd] in *. intros q. cbn.
  destruct (decide (q = p)) as [->|]; [by rewrite fn_lookup_insert|by rewrite fn_lookup_insert_ne].
Qed.
Lemma remove_survives d digest p : digest ≠ d →
  frames (survives d) (on_backend p (remove (blob_key_for digest))).
Proof.
  intros Hne s _. split; [by apply remove_reads|].
  unfold on_backend, zoom. by destruct (remove _ _).
Qed.
Lemma remove_replicas_survives d digest rids a b : digest ≠ d →
  frames (survives d) (remove_replicas digest rids a b).
Proof.
  intros Hne. revert a b. induction rids as [|rid rids IH]; intros a b; cbn [remove_replicas];
    repeat first [ apply IH | by apply remove_survives | frame_step ].
Qed.

Lemma reclaim_survives d reachable bid result : blob_id_from_digest d ∈ reachable →
  frames (survives d) (reclaim_blob reachable bid result).
Proof.
  intros Hreach. unfold reclaim_blob, get_impl. case_bool_decide as Hbid; [by frame_step|].
  intros s. unfold gets, mbind at 1, ST_bind at 1.
  destruct (im_blobs (s_impl s) !! bid) as [bd|] eqn:Ebd; [|by apply survives_same].
  destruct (decide (b_digest bd = d)) as [Heq|Hne].
  { intros Hok. rewrite <- Heq, <- (Hok _ _ Ebd) in Hreach. done. }
  match goal with |- survives d s (?m s).2 => enough (frames (survives d) m) by done end.
  repeat first [ by apply remove_replicas_survives | apply on_dedup_survives
    | (apply frames_modify; intros s' _; split; [done|apply delete_subseteq])
    | (intros s'; by apply survives_same) | progress cbn beta iota zeta | frame_step ].
Qed.
Lemma reclaim_all_survives d reachable bids result : blob_id_from_digest d ∈ reachable →
  frames (survives d) (reclaim_blobs reachable bids result).
Proof.
  intros Hreach. revert result. induction bids as [|bid bids IH]; intros result; cbn [reclaim_blobs];
    repeat first [ apply IH | by apply reclaim_survives | frame_step ].
Qed.

Lemma reachable_chunk clock s cid rec cd :
  map_Forall record_ok (im_checkpoints (s_impl s)) → cid ∈ compute_protected clock (s_impl s) →
  im_checkpoints (s_impl s) !! cid = Some rec → cd ∈ rec_chunks rec →
  blob_id_from_digest (cd_digest cd) ∈ reachable_blobs clock (s_impl s).
Proof.
  intros Hok Hp Hrec Hcd. destruct (Hok _ _ Hrec) as [Hid Hf]. apply compute_reachable_spec.
  exists rec, cd. split.
  - apply list_elem_of_fmap. exists (cid, rec). split; [done|]. by apply elem_of_iter_order.
  - rewrite Hid. split; [done|]. split; [done|]. rewrite Forall_forall in Hf. by apply Hf.
Qed.

Lemma gc_run_survives clock1 clock2 s cid rec cd :
  index_ok s → cid ∈ compute_protected clock2 (s_impl s) →
  im_checkpoints (s_impl s) !! cid = Some rec → cd ∈ rec_chunks rec →
  reads_same (cd_digest cd) s (gc_run clock1 clock2 s).2.
Proof.
  intros (Hb & Hr & _) Hp Hrec Hcd. pose proof (reachable_chunk clock2 s cid rec cd Hr Hp Hrec Hcd) as Hreach.
  set (d := cd_digest cd) in *. unfold gc_run, get_impl, gets. unfold mbind at 1, ST_bind at 1.
  set (reachable := reachable_blobs clock2 (s_impl s)) in *.
  match goal with |- reads_same d s (?m s).2 => enough (frames (survives d) m) as Hf
    by (by destruct (Hf s Hb)) end.
  repeat first [ apply sweep_survives | by apply reclaim_all_survives
    | (intros s'; by apply survives_same) | progress cbn beta iota zeta | frame_step ].
Qed.

(** Only the records of [X] may change. *)
Definition records_kept (X : list CheckpointId) s s' : Prop :=
  ∀ cid, cid ∉ X → im_checkpoints (s_impl s') !! cid = im_checkpoints (s_impl s) !! cid.
#[local] Instance records_kept_preorder X : PreOrder (records_kept X).
Proof. split; [done|]. intros s1 s2 s3 H12 H23 cid Hcid. by rewrite H23, H12. Qed.
Lemma records_kept_same X s s' : im_checkpoints (s_impl s') = im_checkpoints (s_impl s) → records_kept X s s'.
Proof. intros E cid _. by rewrite E. Qed.

Lemma release_records X cds result : frames (records_kept X) (release_chunks (B:=B) cds result).
Proof.
  revert result. induction cds as [|cd cds IH]; intros result; cbn [release_chunks];
    repeat first [ apply IH | frame_step ].
  intros s. unfold on_dedup, zoom. by destruct (dedup_release_reference _ _).
Qed.
Lemma sweep_records X eligible result : (∀ cid, cid ∈ eligible → cid ∈ X) →
  frames (records_kept X) (sweep_checkpoints (B:=B) eligible result).
Proof.
  revert result. induction eligible as [|cid eligible IH]; intros result HX; cbn [sweep_checkpoints];
    unfold get_impl; repeat first
    [ apply IH; intros ??; apply HX; by right | apply release_records
    | (apply frames_modify; intros s cid' Hcid'; cbn; apply lookup_alter_ne; intros ->; apply Hcid', HX; left)
    | (intros s; by apply records_kept_same) | unfold modify_record, modify_impl; frame_step ].
Qed.
Lemma on_dedup_records (X : list CheckpointId) {A} (m : ST DedupTable CheckpointStoreError A) :
  frames (records_kept X) (on_dedup (B:=B) m).
Proof. intros s. unfold on_dedup, zoom. by destruct (m _). Qed.
Lemma on_backend_records (X : list CheckpointId) {A} p (m : ST B CheckpointStoreError A) : frames (records_kept X) (on_backend p m).
Proof. intros s. unfold on_backend, zoom. by destruct (m _). Qed.
Lemma remove_records X digest rids a b : frames (records_kept X) (remove_replicas (B:=B) digest rids a b).
Proof.
  revert a b. induction rids as [|rid rids IH]; intros a b; cbn [remove_replicas];
    repeat first [ apply IH | apply on_backend_records | frame_step ].
Qed.
Lemma reclaim_records X reachable bids result : frames (records_kept X) (reclaim_blobs (B:=B) reachable bids result).
Proof.
  revert result. induction bids as [|bid bids IH]; intros result; cbn [reclaim_blobs]; unfold reclaim_blob, get_impl;
    repeat first [ apply IH | apply remove_records | apply on_dedup_records
    | (intros s; by apply records_kept_same) | progress cbn beta iota zeta | frame_step ].
Qed.
Lemma gc_run_records clock1 clock2 s :
  records_kept (gc_eligible_unlocked clock1 (s_impl s)) s (gc_run clock1 clock2 s).2.
Proof.
  unfold gc_run, get_impl, gets. unfold mbind at 1, ST_bind at 1.
  set (X := gc_eligible_unlocked clock1 (s_impl s)).
  match goal with |- records_kept X s (?m s).2 => enough (frames (records_kept X) m) as Hf by apply Hf end.
  repeat first [ by apply sweep_records | apply reclaim_records
    | (intros s'; by apply records_kept_same) | progress cbn beta iota zeta | frame_step ].
Qed.

(** ** Reference counts guard the objects *)
Definition guarded (d : Sha256Digest) s s' : Prop :=
  table_ok (s_dedup s) → table_ok (s_dedup s') ∧
  dedup_refcount (s_dedup s') d = dedup_refcount (s_dedup s) d ∧
  (dedup_refcount (s_dedup s) d ≠ 0 → reads_same d s s').
#[local] Instance guarded_preorder d : PreOrder (guarded d).
Proof.
  split; [by intros s|]. intros s1 s2 s3 H12 H23 Hok. destruct (H12 Hok) as (Hok2 & C12 & R12).
  destruct (H23 Hok2) as (Hok3 & C23 & R23). split; [done|]. split; [congruence|].
  intros Hne p. rewrite R23, R12; [done..|]. by rewrite C12.
Qed.
Lemma guarded_same d s s' : s_heap s' = s_heap s → s_dedup s' = s_dedup s → guarded d s s'.
Proof. intros Hh Hd Hok. rewrite Hd. split; [done|]. split; [done|]. intros _ p. by rewrite Hh. Qed.

Lemma orphan_refcount t digest d : table_ok t →
  dedup_refcount (dedup_release_until_orphan digest t).2 d = dedup_refcount t d.
Proof.
  intros Hok. unfold dedup_release_until_orphan, get, modify, mbind, ST_bind, mret, ST_ret.
  destruct (t !! digest) as [e|] eqn:E; [|done]. destruct (Z.gtb_spec (de_refcount e) 0); [done|]. cbn [snd].
  unfold dedup_refcount. destruct (decide (digest = d)) as [->|]; [|by rewrite lookup_delete_ne].
  rewrite lookup_delete_eq, E. destruct (Hok _ _ E) as [_ [Hr _]]. lia.
Qed.
Lemma orphan_guarded d digest : frames (guarded d) (on_dedup (B:=B) (dedup_release_until_orphan digest)).
Proof.
  intros s Hok. unfold on_dedup, zoom.
  pose proof (orphan_refcount (s_dedup s) digest d Hok) as Hc. pose proof (orphan_ok (s_dedup s) digest Hok) as Ho.
  destruct (dedup_release_until_orphan digest (s_dedup s)) as [r t]. cbn in *. by split.
Qed.

(** The objects of a blob are removed only when its count is zero. *)
Lemma remove_guarded d digest rids a b s : dedup_refcount (s_dedup s) digest = 0 →
  guarded d s (remove_replicas digest rids a b s).2 ∧
  s_dedup (remove_replicas digest rids a b s).2 = s_dedup s.
Proof.
  intros Hz. assert (s_dedup (remove_replicas digest rids a b s).2 = s_dedup s) as Hd.
  { enough (frames (λ s s', s_dedup s' = s_dedup s) (remove_replicas (B:=B) digest rids a b)) as Hf by apply Hf.
    assert (PreOrder (λ s s' : CheckpointStore B, s_dedup s' = s_dedup s)) as HR.
    { split; [done|]. intros ??? E1 E2. congruence. }
    revert a b. induction rids as [|rid rids IH]; intros a b; cbn [remove_replicas];
      repeat first [ apply IH | (intros s'; unfold on_backend, zoom; by destruct (remove _ _)) | frame_step ]. }
  split; [|done]. intros Hok. rewrite Hd. split; [done|]. split; [done|]. intros Hne.
  destruct (decide (digest = d)) as [->|Hdd]; [done|].
  (* a different digest: the keys differ *)
  enough (frames (reads_same d) (remove_replicas (B:=B) digest rids a b)) as Hf by apply Hf.
  assert (PreOrder (reads_same d)) as HR.
  { split; [done|]. intros s1 s2 s3 R1 R2 p. by rewrite R2, R1. }
  clear Hd. revert a b. induction rids as [|rid rids IH]; intros a b; cbn [remove_replicas];
    repeat first [ apply IH | by apply remove_reads | frame_step ].
Qed.

Lemma reclaim_guarded d reachable bid result : frames (guarded d) (reclaim_blob reachable bid result).
Proof.
  unfold reclaim_blob, get_impl. case_bool_decide; [by frame_step|].
  apply frames_bind; [apply _|by frame_step|]. intros blobs. destruct (blobs !! bid) as [bd|]; [|by frame_step].
  intros s. unfold gets, mbind at 1, ST_bind at 1.
  destruct (Z.eqb_spec (dedup_refcount (s_dedup s) (b_digest bd)) 0) as [Hz|]; cbn [negb]; [|done].
  unfold mbind at 1, ST_bind at 1. destruct (remove_guarded d _ (b_replicas bd) false true s Hz) as [Hg _].
  destruct (remove_replicas _ _ _ _ _) as [[[a b]|e] s1]; cbn [snd] in Hg; [|done].
  etrans; [exact Hg|].
  match goal with |- guarded d s1 (?m s1).2 => enough (frames (guarded d) m) as Hf by apply Hf end.
  repeat first [ apply orphan_guarded | (intros s'; by apply guarded_same) | progress cbn beta iota zeta | frame_step ].
Qed.
Lemma reclaim_all_guarded d reachable bids result : frames (guarded d) (reclaim_blobs reachable bids result).
Proof.
  revert result. induction bids as [|bid bids IH]; intros result; cbn [reclaim_blobs];
    repeat first [ apply IH | apply reclaim_guarded | frame_step ].
Qed.

(** The sweep touches reference counts only. *)
Definition swept s s' : Prop := s_heap s' = s_heap s ∧ (table_ok (s_dedup s) → table_ok (s_dedup s')).
#[local] Instance swept_preorder : PreOrder swept.
Proof. split; [done|]. intros s1 s2 s3 [H1 T1] [H2 T2]. split; [congruence|auto]. Qed.
Lemma release_swept cds result : frames swept (release_chunks (B:=B) cds result).
Proof.
  revert result. induction cds as [|cd cds IH]; intros result; cbn [release_chunks];
    repeat first [ apply IH | frame_step ].
  intros s. unfold on_dedup, zoom. pose proof (release_ok (s_dedup s) (cd_digest cd)) as Hok.
  destruct (dedup_release_reference _ _). by split.
Qed.
Lemma sweep_swept eligible result : frames swept (sweep_checkpoints (B:=B) eligible result).
Proof.
  revert result. induction eligible as [|cid eligible IH]; intros result; cbn [sweep_checkpoints];
    unfold get_impl; repeat first [ apply IH | apply release_swept | by intros s | frame_step ].
Qed.

Lemma gc_run_guarded clock1 clock2 s d : table_ok (s_dedup s) →
  dedup_refcount (s_dedup (gc_run clock1 clock2 s).2) d ≠ 0 → reads_same d s (gc_run clock1 clock2 s).2.
Proof.
  intros Hok.
  assert (∃ e r rest, gc_run clock1 clock2 s = (sweep_checkpoints e r ≫= rest) s ∧
    ∀ res, frames (guarded d) (rest res)) as (e & r & rest & -> & Hrest).
  { eexists _, _, _. split; [reflexivity|]. intros res. unfold get_impl.
    repeat first [ apply reclaim_all_guarded | (intros s'; by apply guarded_same)
                 | progress cbn beta iota zeta | frame_step ]. }
  unfold mbind, ST_bind. pose proof (sweep_swept e r s) as [Hh Ht].
  destruct (sweep_checkpoints e r s) as [[res|err] s1]; cbn [snd] in *; [|intros _ p; by rewrite Hh].
  destruct (Hrest res s1 (Ht Hok)) as (_ & Hc & Hr). intros Hne p.
  rewrite Hr by (by rewrite <- Hc). by rewrite Hh.
Qed.

(** ** Claims *)

(** C5: Collection is safe.  On a store whose indices agree with the content, a
    collection run (whatever the two clock readings, whatever was planned
    earlier) leaves the blob of every chunk of every protected checkpoint
    readable as before from every backend; it leaves every object whose
    reference count is not zero afterwards as it was; and it changes the record
    of no checkpoint that was not eligible. *)
Theorem gc_run_safe clock1 clock2 s : index_ok s → table_ok (s_dedup s) →
  let s' := (gc_run clock1 clock2 s).2 in
  (∀ cid rec cd p, cid ∈ compute_protected clock2 (s_impl s) →
     im_checkpoints (s_impl s) !! cid = Some rec → cd ∈ rec_chunks rec →
     (read (blob_key (cd_digest cd)) (s_heap s' p)).1 = (read (blob_key (cd_digest cd)) (s_heap s p)).1) ∧
  (∀ d p, dedup_refcount (s_dedup s') d ≠ 0 →
     (read (blob_key d) (s_heap s' p)).1 = (read (blob_key d) (s_heap s p)).1) ∧
  (∀ cid, cid ∉ gc_eligible_unlocked clock1 (s_impl s) →
     im_checkpoints (s_impl s') !! cid = im_checkpoints (s_impl s) !! cid).
Proof.
  intros Hidx Htab. split; [|split].
  - intros cid rec cd p Hp Hrec Hcd. by eapply gc_run_survives.
  - intros d p Hne. by apply gc_run_guarded.
  - apply gc_run_records.
Qed.
End gc_facts.

(** ** Collecting the demonstration checkpoint *)
Definition no_clock : nat → CheckpointId → Z := λ _ _, 0.

#[export] Instance record_ok_dec cid rec : Decision (record_ok cid rec).
Proof. unfold record_ok. apply _. Defined.
Lemma demo_index_ok : index_ok demo_published ∧ table_ok (s_dedup demo_published).
Proof.
  split; [split; [|split]|].
  - apply (bool_decide_unpack _). vm_compute. exact I.
  - apply (bool_decide_unpack _). vm_compute. exact I.
  - apply (bool_decide_unpack _). vm_compute. exact I.
  - intros d e. apply (map_Forall_lookup_1 (λ d e, de_digest e = d ∧ 0 ≤ de_refcount e < 2 ^ 64) (s_dedup demo_published)).
    apply (bool_decide_unpack _). vm_compute. exact I.
Qed.

Definition in_set (id : CheckpointId) (ids : gset CheckpointId) : bool := bool_decide (id ∈ ids).
Lemma in_set_true id ids : in_set id ids = true → id ∈ ids.
Proof. apply bool_decide_eq_true. Qed.
Lemma gc_run_safe_witness :
  match im_checkpoints (s_impl demo_published) !! d_id demo_descriptor with
  | Some rec => Forall (λ cd,
      (read (blob_key (cd_digest cd))
         (s_heap (gc_run (H:=canonical_order) no_clock no_clock demo_published).2 0%nat)).1 =
      (read (blob_key (cd_digest cd)) (s_heap demo_published 0%nat)).1) (rec_chunks rec)
  | None => False
  end.
Proof.
  assert (d_id demo_descriptor ∈ compute_protected (H:=canonical_order) no_clock (s_impl demo_published)) as Hp
    by (apply in_set_true; vm_compute; reflexivity).
  assert (bool_decide (is_Some (im_checkpoints (s_impl demo_published) !! d_id demo_descriptor)) = true) as Hs
    by (vm_compute; reflexivity).
  apply bool_decide_eq_true in Hs as [rec Hrec].
  rewrite Hrec. apply Forall_forall. intros cd Hcd.
  exact (proj1 (gc_run_safe (H:=canonical_order) no_clock no_clock demo_published
    (proj1 demo_index_ok) (proj2 demo_index_ok)) _ rec cd 0%nat Hp Hrec Hcd).
Defined.

(** Retiring the only checkpoint and collecting removes its objects. *)
Definition demo_retired : CheckpointStore SyntheticBackend :=
  (gc_plan (H:=canonical_order) no_clock
     (retire (H:=canonical_order) no_clock (d_id demo_descriptor) demo_published).2).2.
Example gc_collects :
  let out := gc_run (H:=canonical_order) no_clock no_clock demo_retired in
  (is_ok out.1, size (im_blobs (s_impl out.2)), size (sy_objects (s_heap out.2 0%nat)), size (s_dedup out.2))
    = (true, 0, 0, 0)%nat.
Proof. vm_compute. reflexivity. Qed.

(** When a backend is not registered at the time, the run notes "retry in next
    pass" but drops the blob from the table: the object stays, no later plan
    names it, and its dedup entry remains with count zero. *)
Example gc_forgets_unremoved_blob :
  let s0 := demo_retired <| s_impl ::= λ i, i <| im_backends := ∅ |> |> in
  let out := gc_run (H:=canonical_order) no_clock no_clock s0 in
  (is_ok out.1, size (im_blobs (s_impl out.2)), size (sy_objects (s_heap out.2 0%nat)), size (s_dedup out.2),
   length (gc_reclaimable_blobs (im_gc (s_impl (gc_plan (H:=canonical_order) no_clock out.2).2))))
    = (true, 0, 2, 2, 0)%nat.
Proof. vm_compute. reflexivity. Qed.
