(* ===== verification/FileSystem.v ===== *)
(** * FileSystem: the parts of [std::filesystem] and [fstream] the code uses

    A disk is a finite map from paths to files and directories.  Operations on
    it can fail for reasons of their own (no space, no permission): [fs_faults]
    lists, for the next mutating operations, whether they fail, and how far a
    failing one gets.  [fs_log] records every state the disk has been in, newest
    first: a process that dies leaves the disk in one of them. *)
From stdpp Require Import pretty.
From S2P Require Import Prelude Base Backend.

(** The components of an absolute path. *)
Abbreviation Path := (list string).

Inductive Node := File (data : list byte) | Dir.
#[export] Instance Node_eq_dec : EqDecision Node.
Proof. solve_decision. Defined.

Abbreviation Disk := (gmap Path Node).

Record FileSystem := mkFs {
  fs_disk : Disk;
  fs_faults : list (option nat);
  fs_log : list Disk;
  fs_space : option (Z * Z)
}.
#[export] Instance eta_FileSystem : Eta FileSystem := λ r,
  mkFs (fs_disk r) (fs_faults r) (fs_log r) (fs_space r).

Abbreviation Fs := (ST FileSystem CheckpointStoreError).

(** ** Raising *)
Lemma raise_if_false {S A} code msg (k : unit → ST S CheckpointStoreError A) s :
  (raise_if false code msg ≫= k) s = k tt s.
Proof. done. Qed.

(** ** Paths *)

(** [std::filesystem::path(text)]: empty components do not count. *)
Definition parse_path (text : string) : Path := filter (λ c, c ≠ "") (split_on is_slash text).
Definition parent_path (p : Path) : Path := take (length p - 1) p.

(** Where the system ends up that follows components from a directory: ["."]
    and empty ones stay, [".."] goes to the parent, and the root is its own
    parent.  Symbolic links are not modelled. *)
Fixpoint walk (from : Path) (comps : list string) : Path :=
  match comps with
  | [] => from
  | c :: comps' =>
      if String.eqb c ".." then walk (parent_path from) comps'
      else if String.eqb c "." || String.eqb c "" then walk from comps'
      else walk (from ++ [c]) comps'
  end.
(** [base / std::filesystem::path(text)]: an absolute text replaces the base. *)
Definition path_join (base : Path) (text : string) : Path :=
  walk (if bool_decide (front text = Some "/"%char) then [] else base) (split_on is_slash text).
(** [p.generic_string()] of a relative path. *)
Fixpoint join_path (p : Path) : string :=
  match p with
  | [] => ""
  | [c] => c
  | c :: p' => c +:+ String "/" (join_path p')
  end.

(** ** Looking at a disk; the root exists *)
Definition node_at (m : Disk) (p : Path) : option Node :=
  match p with [] => Some Dir | _ => m !! p end.
Definition file_at (m : Disk) (p : Path) : option (list byte) :=
  match node_at m p with Some (File data) => Some data | _ => None end.
Definition is_dir (m : Disk) (p : Path) : bool := bool_decide (node_at m p = Some Dir).
Definition exists_at (m : Disk) (p : Path) : bool :=
  match node_at m p with Some _ => true | None => false end.

(** The entries strictly below a directory. *)
Fixpoint is_prefix (a b : Path) : bool :=
  match a, b with
  | [], _ => true
  | x :: a', y :: b' => String.eqb x y && is_prefix a' b'
  | _, [] => false
  end.
Definition below (a b : Path) : bool := is_prefix a b && (length a <? length b)%nat.
Definition is_empty_dir (m : Disk) (p : Path) : bool :=
  forallb (λ kv, negb (below p kv.1)) (map_to_list m).

(** ** Operations *)
Definition set_disk (m : Disk) : Fs unit := modify (λ s, s <| fs_disk := m |> <| fs_log ::= cons m |>).

Definition next_fault : Fs (option nat) :=
  s ← get;
  match fs_faults s with
  | [] => mret None
  | f :: fs => _ ← modify (λ s, s <| fs_faults := fs |>); mret f
  end.

(** [create_directories(p, ec)]: the directories still missing, outermost
    first; [false] for an error. *)
Fixpoint make_dirs (m : Disk) (done rest : Path) : bool * Disk :=
  match rest with
  | [] => (true, m)
  | c :: rest' =>
      let q := done ++ [c] in
      match node_at m q with
      | Some Dir => make_dirs m q rest'
      | Some (File _) => (false, m)
      | None => make_dirs (<[q := Dir]> m) q rest'
      end
  end.
Definition create_directories (p : Path) : Fs bool :=
  fault ← next_fault;
  s ← get;
  let '(ok, m) := make_dirs (fs_disk s) [] (match fault with Some n => take n p | None => p end) in
  _ ← set_disk m;
  mret (ok && match fault with Some _ => false | None => true end).

(** [ofstream(p, trunc)]; [false] when the stream does not open. *)
Definition open_trunc (p : Path) : Fs bool :=
  fault ← next_fault;
  s ← get;
  match fault with
  | Some _ => mret false
  | None =>
      if is_dir (fs_disk s) p || negb (is_dir (fs_disk s) (parent_path p)) then mret false
      else _ ← set_disk (<[p := File []]> (fs_disk s)); mret true
  end.

(** [write] and [flush] on the stream just opened; [false] when it is not good
    afterwards: only a part of the data got through. *)
Definition write_stream (p : Path) (data : list byte) : Fs bool :=
  fault ← next_fault;
  s ← get;
  _ ← set_disk (<[p := File (match fault with Some n => take n data | None => data end)]> (fs_disk s));
  mret (match fault with Some _ => false | None => true end).

(** [remove(p, ec)]: a file or an empty directory. *)
Definition remove_path (p : Path) : Fs bool :=
  fault ← next_fault;
  s ← get;
  match fault, p, node_at (fs_disk s) p with
  | Some _, _, _ | _, _, None | _, [], _ => mret false
  | None, _, Some (File _) => _ ← set_disk (delete p (fs_disk s)); mret true
  | None, _, Some Dir =>
      if is_empty_dir (fs_disk s) p then _ ← set_disk (delete p (fs_disk s)); mret true
      else mret false
  end.

(** The disk after a directory and what is below it have moved. *)
Definition move_tree (a b : Path) (m : Disk) : Disk :=
  list_to_map ((λ kv, if is_prefix a kv.1 then (b ++ drop (length a) kv.1, kv.2) else kv) <$> map_to_list m).

(** [rename(a, b, ec)]; [false] for an error. *)
Definition rename_path (a b : Path) : Fs bool :=
  fault ← next_fault;
  s ← get;
  let m := fs_disk s in
  match fault, node_at m a with
  | Some _, _ | _, None => mret false
  | None, Some node =>
      if negb (is_dir m (parent_path b)) then mret false
      else
        match node, node_at m b with
        | File _, Some Dir | Dir, Some (File _) => mret false
        | File data, _ => _ ← set_disk (<[b := File data]> (delete a m)); mret true
        | Dir, None =>
            if below a b then mret false else _ ← set_disk (move_tree a b m); mret true
        | Dir, Some Dir =>
            if bool_decide (a = b) then mret true
            else if below a b || negb (is_empty_dir m b) then mret false
            else _ ← set_disk (move_tree a b (delete b m)); mret true
        end
  end.

(** [ifstream(p)] read to its end: [None] when the stream does not open. *)
Definition read_stream (p : Path) : Fs (option (list byte)) := gets (λ s, file_at (fs_disk s) p).
Definition path_exists (p : Path) : Fs bool := gets (λ s, exists_at (fs_disk s) p).
Definition is_directory (p : Path) : Fs bool := gets (λ s, is_dir (fs_disk s) p).
(** [file_size(p, ec)]: [None] for an error. *)
Definition file_size (p : Path) : Fs (option Z) := gets (λ s, zlen <$> file_at (fs_disk s) p).
(** The regular files a [recursive_directory_iterator] visits; the order is
    unspecified. *)
Definition files_below `{IterOrder} (m : Disk) (base : Path) : list Path :=
  omap (λ kv, match kv.2 with File _ => if below base kv.1 then Some kv.1 else None | Dir => None end)
    (iter_order m).

(** ** Joining paths *)
Lemma pretty_N_go_no_slash n s : has_char "/" s = false → has_char "/" (pretty_N_go n s) = false.
Proof.
  revert s. induction (N.lt_wf_0 n) as [n _ IH]. intros s Hs.
  destruct (decide (n = 0%N)) as [->|Hn]; [by rewrite pretty_N_go_0|].
  rewrite pretty_N_go_step by lia. apply IH; [apply N.div_lt; lia|].
  cbn [has_char]. rewrite Hs, orb_false_r. apply bool_decide_eq_false. unfold pretty_N_char.
  repeat case_match; discriminate.
Qed.
Lemma pretty_Z_no_slash (n : Z) : has_char "/" (pretty n) = false.
Proof.
  assert (∀ k : N, has_char "/" (pretty k) = false) as HN.
  { intros k. unfold pretty, pretty_N. case_decide; [done|]. by apply pretty_N_go_no_slash. }
  destruct n as [|p|p]; [done|apply (HN (Npos p))|].
  change (has_char "/" ("-" +:+ pretty (Npos p)) = false). by rewrite has_char_app, HN.
Qed.

Lemma walk_app from xs ys : walk from (xs ++ ys) = walk (walk from xs) ys.
Proof.
  revert from. induction xs as [|c xs IH]; intros from; [done|]. cbn [app walk].
  by repeat case_match.
Qed.
(** Components without a meaning of their own are entered one by one. *)
Lemma walk_plain from comps : forallb component_ok comps = true → walk from comps = from ++ comps.
Proof.
  revert from. induction comps as [|c comps IH]; intros from; cbn [walk forallb]; [by rewrite app_nil_r|].
  intros [(H1 & H2 & H3 & _)%component_ok_plain Hc]%andb_true_iff.
  apply String.eqb_neq in H1, H2, H3. rewrite H3, H2, H1. cbn. rewrite IH by done. by rewrite <- app_assoc.
Qed.

Lemma front_no_char c s : has_char c s = false → front s ≠ Some c.
Proof. destruct s as [|a s]; cbn; [done|]. intros [H%bool_decide_eq_false _]%orb_false_iff. by intros [= ->]. Qed.
(** A long enough text without a separator is a name. *)
Lemma path_join_name base name : has_char "/" name = false → (2 < String.length name)%nat →
  path_join base name = base ++ [name].
Proof.
  intros Hs Hl. unfold path_join. rewrite bool_decide_eq_false_2 by by apply front_no_char.
  rewrite split_on_single by done. cbn [walk].
  assert (name ≠ ".." ∧ name ≠ "." ∧ name ≠ "") as (H1 & H2 & H3) by (split_and!; intros ->; simpl in Hl; lia).
  apply String.eqb_neq in H1, H2, H3. by rewrite H1, H2, H3.
Qed.

(** An accepted key names a place below any base: the checks of
    [validate_backend_key] are what excludes the others. *)
Lemma path_join_key base key : validate_backend_key key = true →
  path_join base key = base ++ split_on is_slash key.
Proof.
  intros (_ & _ & _ & Hf & _ & _ & Hc)%validate_backend_key_spec. unfold path_join.
  rewrite bool_decide_eq_false_2 by done. by apply walk_plain.
Qed.
(** What they exclude: without them a key would reach outside the base. *)
Example path_join_escapes :
  path_join ["srv"; "cps"] "../../etc/passwd" = ["etc"; "passwd"] ∧
  path_join ["srv"; "cps"] "/etc/passwd" = ["etc"; "passwd"] ∧
  path_join ["srv"; "cps"] "blobs/./../../other" = ["srv"; "other"].
Proof. by vm_compute. Qed.

(** ** What each operation can change *)

(** Files outside [X] keep their contents, in the final state and in every
    state the disk goes through. *)
Definition keeps_files (X : Path → Prop) (m m' : Disk) : Prop :=
  ∀ q, ¬ X q → file_at m' q = file_at m q.
Definition touches (X : Path → Prop) (s s' : FileSystem) : Prop :=
  keeps_files X (fs_disk s) (fs_disk s') ∧
  ∃ new, fs_log s' = new ++ fs_log s ∧ Forall (keeps_files X (fs_disk s)) new.

#[export] Instance keeps_files_preorder X : PreOrder (keeps_files X).
Proof. split; [by intros m q|]. intros m1 m2 m3 H1 H2 q Hq. by rewrite H2, H1. Qed.

#[export] Instance touches_preorder X : PreOrder (touches X).
Proof.
  split.
  - intros s. split; [reflexivity|]. by exists [].
  - intros s1 s2 s3 [K1 (n1 & L1 & F1)] [K2 (n2 & L2 & F2)]. split; [by etrans|].
    exists (n2 ++ n1). rewrite L2, L1, app_assoc. split; [done|]. apply Forall_app. split; [|done].
    eapply Forall_impl; [apply F2|]. intros m Hm. by etrans.
Qed.

Lemma touches_weaken (X Y : Path → Prop) s s' : (∀ q, X q → Y q) → touches X s s' → touches Y s s'.
Proof.
  intros HXY [K (n & L & F)]. split; [intros q Hq; apply K; auto|]. exists n. split; [done|].
  eapply Forall_impl; [apply F|]. intros m Hm q Hq. apply Hm. auto.
Qed.

Lemma set_disk_touches X m s : keeps_files X (fs_disk s) m → touches X s (set_disk m s).2.
Proof. intros K. split; [done|]. exists [m]. split; [done|]. by constructor. Qed.

Lemma next_fault_disk s : fs_disk (next_fault s).2 = fs_disk s ∧ fs_log (next_fault s).2 = fs_log s.
Proof. unfold next_fault, get, mbind, ST_bind. by destruct (fs_faults s). Qed.

Lemma next_fault_ok s : ∃ f s1, next_fault s = (Ok f, s1) ∧ fs_disk s1 = fs_disk s ∧ fs_log s1 = fs_log s.
Proof.
  destruct (next_fault_disk s) as [D L]. unfold next_fault, get, mbind, ST_bind in *.
  destruct (fs_faults s); by eexists _, _.
Qed.

Lemma frames_next_fault X : frames (touches X) next_fault.
Proof.
  intros s. destruct (next_fault_disk s) as [D L]. split; [by rewrite D|]. exists []. by rewrite L.
Qed.

Lemma file_at_insert m p q node : p ≠ [] →
  file_at (<[p := node]> m) q =
    if bool_decide (q = p) then match node with File d => Some d | Dir => None end else file_at m q.
Proof.
  intros Hp. unfold file_at, node_at. case_bool_decide as E.
  - subst q. destruct p; [done|]. by rewrite lookup_insert_eq.
  - destruct q; [done|]. by rewrite lookup_insert_ne.
Qed.
Lemma file_at_delete m p q : p ≠ [] →
  file_at (delete p m) q = if bool_decide (q = p) then None else file_at m q.
Proof.
  intros Hp. unfold file_at, node_at. case_bool_decide as E.
  - subst q. destruct p; [done|]. by rewrite lookup_delete_eq.
  - destruct q; [done|]. by rewrite lookup_delete_ne.
Qed.
Lemma file_at_ne_nil m p d : file_at m p = Some d → p ≠ [].
Proof. by destruct p. Qed.
Lemma keeps_insert m p node : p ≠ [] → keeps_files (λ q, q = p) m (<[p := node]> m).
Proof. intros Hp q Hq. rewrite file_at_insert by done. by rewrite bool_decide_eq_false_2. Qed.
Lemma keeps_delete m p : p ≠ [] → keeps_files (λ q, q = p) m (delete p m).
Proof. intros Hp q Hq. rewrite file_at_delete by done. by rewrite bool_decide_eq_false_2. Qed.
Lemma is_dir_not_nil m p : is_dir m p = false → p ≠ [].
Proof. by intros H ->. Qed.

Lemma make_dirs_files m done rest q : file_at (make_dirs m done rest).2 q = file_at m q.
Proof.
  revert m done. induction rest as [|c rest IH]; intros m done; simpl; [reflexivity|].
  destruct (node_at m (done ++ [c])) as [[d|]|] eqn:E; [reflexivity|apply IH|].
  rewrite IH, file_at_insert by (by destruct done). case_bool_decide; [|reflexivity]. subst q.
  unfold file_at. by rewrite E.
Qed.

Lemma frames_create_directories p : frames (touches (λ _, False)) (create_directories p).
Proof.
  unfold create_directories. apply frames_bind; [apply _|apply frames_next_fault|]. intros f s.
  unfold get, mbind, ST_bind. cbn beta iota.
  pose proof (make_dirs_files (fs_disk s) [] (match f with Some n => take n p | None => p end)) as H.
  destruct (make_dirs _ _ _) as [ok m]. apply set_disk_touches. intros q _. apply H.
Qed.

Ltac after_fault := apply frames_bind; [apply _|apply frames_next_fault|]; intros f s;
  unfold get, mbind, ST_bind; cbn beta iota.

Lemma frames_open_trunc p : frames (touches (λ q, q = p)) (open_trunc p).
Proof.
  unfold open_trunc. after_fault. destruct f; [reflexivity|].
  destruct (is_dir (fs_disk s) p) eqn:E; [reflexivity|].
  destruct (is_dir (fs_disk s) (parent_path p)); simpl; [|reflexivity].
  apply set_disk_touches, keeps_insert. by eapply is_dir_not_nil.
Qed.
Lemma frames_write_stream p data : p ≠ [] → frames (touches (λ q, q = p)) (write_stream p data).
Proof. intros Hp. unfold write_stream. after_fault. by apply set_disk_touches, keeps_insert. Qed.
Lemma frames_remove_path p : frames (touches (λ q, q = p)) (remove_path p).
Proof.
  unfold remove_path. after_fault. destruct f; [reflexivity|]. destruct p as [|c p]; [reflexivity|].
  destruct (node_at (fs_disk s) (c :: p)) as [[d|]|]; [|destruct (is_empty_dir _ _)|]; try reflexivity;
    by apply set_disk_touches, keeps_delete.
Qed.
Lemma rename_file_touches a b s : is_dir (fs_disk s) a = false →
  touches (λ q, q = a ∨ q = b) s (rename_path a b s).2.
Proof.
  intros Ha. unfold rename_path. destruct (next_fault_disk s) as [D L].
  unfold mbind at 1, ST_bind at 1.
  assert (touches (λ q, q = a ∨ q = b) s (next_fault s).2) as Ht by apply frames_next_fault.
  destruct (next_fault s) as [[f|e] s1]; cbn [snd] in *; [|done].
  etrans; [apply Ht|]. rewrite <- D in Ha. unfold get, mbind, ST_bind. cbn beta iota.
  destruct f; [reflexivity|]. unfold is_dir at 1.
  destruct (node_at (fs_disk s1) a) as [[d|]|] eqn:E; [| |reflexivity].
  - case_bool_decide; [|reflexivity]. cbn [negb].
    destruct (node_at (fs_disk s1) b) as [[d'|]|] eqn:Eb; try reflexivity;
      apply set_disk_touches; intros q Hq; (rewrite file_at_insert by (by intros ->));
      (rewrite file_at_delete by (by intros ->)); rewrite !bool_decide_eq_false_2 by tauto; done.
  - unfold is_dir in Ha. by rewrite E in Ha.
Qed.

(** ** Replacing a file

    What a file may hold while it is replaced: what it held, nothing, or all of
    the new data. *)
Definition whole (path : Path) (old : option (list byte)) (data : list byte) (m : Disk) : Prop :=
  file_at m path = old ∨ file_at m path = None ∨ file_at m path = Some data.

(** [P] holds of the final disk and of every disk on the way. *)
Definition throughout (P : Disk → Prop) (s s' : FileSystem) : Prop :=
  P (fs_disk s) → P (fs_disk s') ∧ ∃ new, fs_log s' = new ++ fs_log s ∧ Forall P new.

#[export] Instance throughout_preorder P : PreOrder (throughout P).
Proof.
  split.
  - intros s HP. split; [done|]. by exists [].
  - intros s1 s2 s3 H12 H23 H1. destruct (H12 H1) as [H2 (n1 & L1 & F1)].
    destruct (H23 H2) as [H3 (n2 & L2 & F2)]. split; [done|]. exists (n2 ++ n1).
    rewrite L2, L1, app_assoc. split; [done|]. by apply Forall_app.
Qed.

Lemma touches_throughout (X : Path → Prop) path old data s s' : ¬ X path →
  touches X s s' → throughout (whole path old data) s s'.
Proof.
  intros HX [K (new & L & F)] HP. unfold whole in *. split; [by rewrite (K _ HX)|].
  exists new. split; [done|]. eapply Forall_impl; [apply F|]. intros m Hm. unfold whole. by rewrite (Hm _ HX).
Qed.

Lemma set_disk_throughout (P : Disk → Prop) m s : P m → throughout P s (set_disk m s).2.
Proof. intros Hm _. split; [done|]. exists [m]. split; [done|]. by constructor. Qed.

Lemma frames_remove_throughout path old data :
  frames (throughout (whole path old data)) (remove_path path).
Proof.
  unfold remove_path. apply frames_bind; [apply _| |].
  { intros s. apply (touches_throughout (λ _, False)); [tauto|]. apply frames_next_fault. }
  intros f s. unfold get, mbind, ST_bind. cbn beta iota. destruct f; [reflexivity|].
  destruct path as [|c p]; [reflexivity|].
  destruct (node_at (fs_disk s) (c :: p)) as [[d|]|]; [|destruct (is_empty_dir _ _)|]; try reflexivity;
    apply set_disk_throughout; right; left; rewrite file_at_delete by done;
    by rewrite bool_decide_eq_true_2.
Qed.

(** Moving a complete temporary file over another file. *)
Lemma rename_throughout tmp path old data s :
  file_at (fs_disk s) tmp = Some data → path ≠ [] →
  throughout (whole path old data) s (rename_path tmp path s).2 ∧
  ((rename_path tmp path s).1 = Ok true → file_at (fs_disk (rename_path tmp path s).2) path = Some data).
Proof.
  intros Ht Hp. destruct (next_fault_ok s) as (f & s1 & E & D & L). unfold rename_path.
  rewrite (st_bind_run _ _ _ _ _ E).
  assert (throughout (whole path old data) s s1) as Hn.
  { intros HP. rewrite D. split; [done|]. exists []. by rewrite L. }
  rewrite <- D in Ht. unfold file_at in Ht. unfold get, mbind, ST_bind. cbn beta iota.
  destruct f; [split; [exact Hn|by intros [=]]|].
  destruct (node_at (fs_disk s1) tmp) as [[d|]|]; try done. simplify_eq.
  assert (∀ m, file_at (<[path := File data]> m) path = Some data) as Hi.
  { intros m. rewrite file_at_insert by done. by rewrite bool_decide_eq_true_2. }
  destruct (negb _); [split; [exact Hn|by intros [=]]|].
  destruct (node_at (fs_disk s1) path) as [[|]|]; try (split; [exact Hn|by intros [=]]);
    (split; [etrans; [apply Hn|]; apply set_disk_throughout; right; right; apply Hi|intros _; apply Hi]).
Qed.

Lemma write_stream_content p data s : p ≠ [] → (write_stream p data s).1 = Ok true →
  file_at (fs_disk (write_stream p data s).2) p = Some data.
Proof.
  intros Hp. destruct (next_fault_ok s) as (f & s1 & E & D & L). unfold write_stream.
  rewrite (st_bind_run _ _ _ _ _ E). destruct f; [by intros [=]|]. intros _.
  unfold get, mbind, ST_bind. cbn. rewrite file_at_insert by done. by rewrite bool_decide_eq_true_2.
Qed.

(** ** Runs without faults *)
Definition quiet (s : FileSystem) : Prop := Forall (λ f, f = None) (fs_faults s).

Lemma next_fault_quiet s : quiet s →
  ∃ s', next_fault s = (Ok None, s') ∧ quiet s' ∧ fs_disk s' = fs_disk s.
Proof.
  unfold quiet, next_fault, get, mbind, ST_bind. destruct s as [d fs l sp]. cbn.
  destruct 1 as [|f fs -> Hq]; eexists; by repeat split.
Qed.

(** No proper ancestor of [p] is a file. *)
Definition ancestors_free (m : Disk) (p : Path) : Prop := ∀ k, file_at m (take k p) = None.

Lemma make_dirs_ok m done rest : is_dir m done = true →
  (∀ k, file_at m (done ++ take k rest) = None) →
  (make_dirs m done rest).1 = true ∧ is_dir (make_dirs m done rest).2 (done ++ rest) = true.
Proof.
  revert m done. induction rest as [|c rest IH]; intros m done Hd Hf; simpl.
  { by rewrite app_nil_r. }
  assert (file_at m (done ++ [c]) = None) as H1 by apply (Hf 1%nat). unfold file_at in H1.
  assert (∀ k, file_at m ((done ++ [c]) ++ take k rest) = None) as Hf'.
  { intros k. rewrite <- app_assoc. apply (Hf (S k)). }
  replace (done ++ c :: rest) with ((done ++ [c]) ++ rest) by (by rewrite <- app_assoc).
  destruct (node_at m (done ++ [c])) as [[d|]|] eqn:E; [discriminate H1| |].
  - apply IH; [|done]. unfold is_dir. by rewrite E.
  - apply IH.
    + unfold is_dir, node_at. destruct done; simpl; by rewrite lookup_insert_eq.
    + intros k. rewrite file_at_insert by (by destruct done). by case_bool_decide.
Qed.

Lemma make_dirs_deeper m done rest q : (length (done ++ rest) < length q)%nat →
  node_at (make_dirs m done rest).2 q = node_at m q.
Proof.
  revert m done. induction rest as [|c rest IH]; intros m done Hq; simpl; [reflexivity|].
  assert (length ((done ++ [c]) ++ rest) < length q)%nat as Hq' by (by rewrite <- app_assoc).
  destruct (node_at m (done ++ [c])) as [[d|]|]; [reflexivity|by apply IH|].
  rewrite IH by done. unfold node_at. destruct q; [done|]. rewrite lookup_insert_ne; [reflexivity|].
  intros E. rewrite E in Hq'. rewrite length_app in Hq'. lia.
Qed.

(** Directories stay. *)
Lemma is_dir_insert_dir m p q : is_dir m q = true → is_dir (<[p := Dir]> m) q = true.
Proof.
  unfold is_dir, node_at. destruct q as [|x q]; [done|]. rewrite !bool_decide_eq_true. intros Hq.
  destruct (decide (p = x :: q)) as [->|Hne]; [by rewrite lookup_insert_eq|]. by rewrite lookup_insert_ne.
Qed.
Lemma make_dirs_keeps_dirs m start rest q : is_dir m q = true → is_dir (make_dirs m start rest).2 q = true.
Proof.
  revert m start. induction rest as [|c rest IH]; intros m start Hq; simpl; [done|].
  destruct (node_at m (start ++ [c])) as [[d|]|]; [done|by apply IH|]. by apply IH, is_dir_insert_dir.
Qed.
Lemma is_dir_insert_file m p d q : is_dir m q = true → q ≠ p → is_dir (<[p := File d]> m) q = true.
Proof.
  unfold is_dir, node_at. destruct q as [|x q]; [done|]. rewrite !bool_decide_eq_true. intros Hq Hne.
  by rewrite lookup_insert_ne.
Qed.
Lemma is_dir_delete m p q : is_dir m q = true → q ≠ p → is_dir (delete p m) q = true.
Proof.
  unfold is_dir, node_at. destruct q as [|x q]; [done|]. rewrite !bool_decide_eq_true. intros Hq Hne.
  by rewrite lookup_delete_ne.
Qed.
Lemma is_dir_no_file m q d : file_at m q = Some d → is_dir m q = false.
Proof. unfold file_at, is_dir. by destruct (node_at m q) as [[]|]. Qed.

Lemma create_directories_ok p s : quiet s → ancestors_free (fs_disk s) p →
  ∃ s', create_directories p s = (Ok true, s') ∧ quiet s' ∧ is_dir (fs_disk s') p = true ∧
    (∀ q, file_at (fs_disk s') q = file_at (fs_disk s) q) ∧
    (∀ q, (length p < length q)%nat → node_at (fs_disk s') q = node_at (fs_disk s) q) ∧
    (∀ q, is_dir (fs_disk s) q = true → is_dir (fs_disk s') q = true).
Proof.
  intros Hq Hf. destruct (next_fault_quiet s Hq) as (s1 & E1 & Q1 & D1).
  unfold create_directories. rewrite (st_bind_run _ _ _ _ _ E1). unfold get, mbind, ST_bind.
  cbn beta iota. rewrite D1. destruct (make_dirs_ok (fs_disk s) [] p) as [Ho Hd]; [done|done|].
  pose proof (make_dirs_files (fs_disk s) [] p) as Hk.
  pose proof (make_dirs_deeper (fs_disk s) [] p) as Hl.
  pose proof (make_dirs_keeps_dirs (fs_disk s) [] p) as Hs.
  destruct (make_dirs (fs_disk s) [] p) as [ok m]. cbn in *. subst ok.
  eexists. split; [reflexivity|]. by repeat split.
Qed.

Lemma open_trunc_ok p s : quiet s → is_dir (fs_disk s) p = false →
  is_dir (fs_disk s) (parent_path p) = true →
  ∃ s', open_trunc p s = (Ok true, s') ∧ quiet s' ∧ fs_disk s' = <[p := File []]> (fs_disk s).
Proof.
  intros Hq Hp Hd. destruct (next_fault_quiet s Hq) as (s1 & E1 & Q1 & D1).
  unfold open_trunc. rewrite (st_bind_run _ _ _ _ _ E1). unfold get, mbind, ST_bind.
  cbn beta iota. rewrite D1, Hp, Hd. eexists. split; [reflexivity|]. by repeat split.
Qed.

Lemma write_stream_ok p data s : quiet s →
  ∃ s', write_stream p data s = (Ok true, s') ∧ quiet s' ∧ fs_disk s' = <[p := File data]> (fs_disk s).
Proof.
  intros Hq. destruct (next_fault_quiet s Hq) as (s1 & E1 & Q1 & D1).
  unfold write_stream. rewrite (st_bind_run _ _ _ _ _ E1). unfold get, mbind, ST_bind.
  cbn beta iota. rewrite D1. eexists. split; [reflexivity|]. by repeat split.
Qed.

Lemma remove_file_ok p d s : quiet s → file_at (fs_disk s) p = Some d →
  ∃ s', remove_path p s = (Ok true, s') ∧ quiet s' ∧ fs_disk s' = delete p (fs_disk s).
Proof.
  intros Hq Hf. destruct (next_fault_quiet s Hq) as (s1 & E1 & Q1 & D1).
  unfold remove_path. rewrite (st_bind_run _ _ _ _ _ E1). unfold get, mbind, ST_bind.
  cbn beta iota. rewrite D1. destruct p as [|c p]; [done|]. unfold file_at in Hf.
  destruct (node_at (fs_disk s) (c :: p)) as [[]|]; try done.
  eexists. split; [reflexivity|]. by repeat split.
Qed.

Lemma rename_file_ok a b d s : quiet s → file_at (fs_disk s) a = Some d →
  is_dir (fs_disk s) (parent_path b) = true → is_dir (fs_disk s) b = false →
  ∃ s', rename_path a b s = (Ok true, s') ∧ quiet s' ∧
    fs_disk s' = <[b := File d]> (delete a (fs_disk s)).
Proof.
  intros Hq Hf Hd Hb. destruct (next_fault_quiet s Hq) as (s1 & E1 & Q1 & D1).
  unfold rename_path. rewrite (st_bind_run _ _ _ _ _ E1). unfold get, mbind, ST_bind.
  cbn beta iota. rewrite D1, Hd. unfold file_at in Hf. unfold is_dir in Hb.
  destruct (node_at (fs_disk s) a) as [[d'|]|]; try done. simplify_eq. cbn [negb].
  destruct (node_at (fs_disk s) b) as [[d'|]|]; [|done|];
    (eexists; split; [reflexivity|]; by repeat split).
Qed.

(** ** Paths below a directory *)
Lemma is_prefix_spec a b : is_prefix a b = true ↔ ∃ k, b = a ++ k.
Proof.
  revert b. induction a as [|x a IH]; intros b; simpl; [naive_solver|].
  destruct b as [|y b]; [naive_solver|]. rewrite andb_true_iff, String.eqb_eq, IH. naive_solver.
Qed.
Lemma below_spec a b : below a b = true ↔ ∃ k, k ≠ [] ∧ b = a ++ k.
Proof.
  unfold below. rewrite andb_true_iff, is_prefix_spec, Nat.ltb_lt. split.
  - intros [(k & ->) Hl]. exists k. split; [|done]. intros ->. rewrite app_nil_r in Hl. lia.
  - intros (k & Hk & ->). split; [by exists k|]. rewrite length_app. destruct k; [done|]. simpl. lia.
Qed.
Lemma below_app a b k : below a b = true → below a (b ++ k) = true.
Proof.
  rewrite !below_spec. intros (l & Hl & ->). exists (l ++ k). rewrite app_assoc. split; [by destruct l|done].
Qed.
Lemma below_prefix a b c : below a b = true → is_prefix b c = true → below a c = true.
Proof. intros H (k & ->)%is_prefix_spec. by apply below_app. Qed.
Lemma below_not_nil a b : below a b = true → b ≠ [].
Proof. intros (k & Hk & ->)%below_spec. by destruct a, k. Qed.

(** Moving a tree changes only what is below its two ends. *)
Lemma list_to_map_fmap_other (f : Path * Node → Path * Node) (l : list (Path * Node)) q :
  (∀ kv, kv ∈ l → (f kv).1 = q ∨ kv.1 = q → f kv = kv) →
  (list_to_map (f <$> l) : Disk) !! q = (list_to_map l : Disk) !! q.
Proof.
  induction l as [|kv l IH]; intros Hf; [done|]. cbn.
  assert ((list_to_map (f <$> l) : Disk) !! q = (list_to_map l : Disk) !! q) as E.
  { apply IH. intros kv' Hin. apply Hf. by right. }
  assert ((f kv).1 = q ∨ kv.1 = q → f kv = kv) as Hkv by (apply Hf; left).
  destruct (decide ((f kv).1 = q)) as [E1|E1]; [|destruct (decide (kv.1 = q)) as [E2|E2]].
  - rewrite Hkv by auto. rewrite Hkv in E1 by auto. by rewrite E1, !lookup_insert_eq.
  - rewrite Hkv in E1 by auto. done.
  - by rewrite !lookup_insert_ne.
Qed.
Lemma move_tree_other a b m q : is_prefix a q = false → is_prefix b q = false →
  move_tree a b m !! q = m !! q.
Proof.
  intros Ha Hb. unfold move_tree. rewrite list_to_map_fmap_other; [by rewrite list_to_map_to_list|].
  intros [k v] _. cbn. destruct (is_prefix a k) eqn:E; [|done]. cbn. intros [E1| ->]; [|congruence].
  exfalso. rewrite <- E1 in Hb. rewrite <- not_true_iff_false in Hb. apply Hb, is_prefix_spec. by eexists.
Qed.

Lemma rename_path_touches a b s : b ≠ [] →
  touches (λ q, is_prefix a q = true ∨ is_prefix b q = true) s (rename_path a b s).2.
Proof.
  intros Hb. set (X := λ q, is_prefix a q = true ∨ is_prefix b q = true).
  destruct (next_fault_ok s) as (f & s1 & E1 & D & L). unfold rename_path.
  rewrite (st_bind_run _ _ _ _ _ E1).
  assert (touches X s s1) as Hn by (split; [intros q _; by rewrite D|exists []; by rewrite L]).
  etrans; [apply Hn|]. unfold get, mbind, ST_bind. cbn beta iota. destruct f; [reflexivity|].
  assert (∀ p, is_prefix p p = true) as Hpp by (intros p; apply is_prefix_spec; exists []; by rewrite app_nil_r).
  assert (∀ m, (∀ q, ¬ X q → m !! q = fs_disk s1 !! q) → keeps_files X (fs_disk s1) m) as Hk.
  { intros m Hm q Hq. unfold file_at, node_at. destruct q; [done|]. by rewrite Hm. }
  assert (∀ q, ¬ X q → q ≠ a ∧ q ≠ b ∧ is_prefix a q = false ∧ is_prefix b q = false) as HX.
  { intros q Hq. unfold X in Hq. split; [intros ->; apply Hq; auto|]. split; [intros ->; apply Hq; auto|].
    by split; apply not_true_iff_false; intros Hp; apply Hq; auto. }
  destruct (node_at (fs_disk s1) a) as [[d|]|]; [| |reflexivity]; (destruct (negb _); [reflexivity|]).
  - destruct (node_at (fs_disk s1) b) as [[]|]; try reflexivity; apply set_disk_touches, Hk;
      intros q (Ha & Hb' & _)%HX; by rewrite lookup_insert_ne, lookup_delete_ne.
  - destruct (node_at (fs_disk s1) b) as [[]|]; [reflexivity| |].
    + case_bool_decide; [reflexivity|]. destruct (_ || _); [reflexivity|]. apply set_disk_touches, Hk.
      intros q (Ha & Hb' & Pa & Pb)%HX. by rewrite move_tree_other, lookup_delete_ne.
    + destruct (below a b); [reflexivity|]. apply set_disk_touches, Hk.
      intros q (Ha & Hb' & Pa & Pb)%HX. by apply move_tree_other.
Qed.

Create HintDb fs.
#[export] Hint Resolve frames_create_directories frames_open_trunc frames_write_stream
  frames_remove_path : fs.
