(* ===== verification/StateCodec.v ===== *)
(** * StateCodec: the records of the persisted state

    The anonymous namespace of [src/persistence.cpp]: one writer and one reader
    per record.  A writer is the list of bytes its calls append; a reader is a
    [BinReader] program.  [Codec] states what the saving and loading of the
    whole state need of a record, and is discharged for every record. *)
From S2P Require Import Prelude Base Hash Model Dedup BinFormat Backend Store.

Definition kFormatVersion : Z := 1.
Definition kMaxBodyBytes : Z := 2 ^ 31.
Definition kMaxRecords : Z := 2 ^ 22.

(** ** Shared shapes *)

(** [static_cast<E>(r.u8())] *)
Definition r_enum {E} (of_u8 : Z → E) : Reader E := v ← r_u8; mret (of_u8 v).

(** [decode_count(r.u32(), kMaxRecords)] elements pushed in a loop. *)
Definition r_list {A} (p : Reader A) : Reader (list A) := r_vector kMaxRecords p.

(** ** CheckpointDescriptor *)
Definition write_descriptor (d : CheckpointDescriptor) : list byte :=
  w_id (d_id d) ++ w_id (d_family_id d) ++ w_generation (d_generation d) ++
  w_u8 (CheckpointKind.to_u8 (d_kind d)) ++ w_u64 (d_logical_size d) ++
  w_time_point (d_created_at d) ++ w_id (d_owner_id d) ++ w_id (d_producer_boot d) ++
  w_generation (d_producer_generation d) ++ w_optional w_id (d_parent_checkpoint d) ++
  w_optional w_id (d_base_checkpoint d) ++ w_vector w_id (d_lineage d) ++
  w_vector w_id (d_references d) ++ w_string (d_compatibility d) ++
  w_u8 (RetentionClass.to_u8 (d_retention d)) ++ w_u8 (DurabilityClass.to_u8 (d_durability d)) ++
  w_u8 (RestorePriority.to_u8 (d_restore_priority d)) ++
  w_u8 (Provenance.to_u8 (d_provenance d)) ++ w_generation (d_policy_generation d) ++
  w_u64 (d_required_replica_count d).

Definition read_descriptor : Reader CheckpointDescriptor :=
  id ← r_id; family_id ← r_id; generation ← r_generation; kind ← r_enum CheckpointKind.of_u8;
  logical_size ← r_u64; created_at ← r_time_point; owner_id ← r_id; producer_boot ← r_id;
  producer_generation ← r_generation; parent ← r_optional r_id; base ← r_optional r_id;
  lineage ← r_list r_id; references ← r_list r_id; compatibility ← r_string;
  retention ← r_enum RetentionClass.of_u8; durability ← r_enum DurabilityClass.of_u8;
  priority ← r_enum RestorePriority.of_u8; provenance ← r_enum Provenance.of_u8;
  policy_generation ← r_generation; required ← r_u64;
  mret (mkCheckpointDescriptor id family_id generation kind logical_size created_at owner_id
    producer_boot producer_generation parent base lineage references compatibility retention
    durability priority provenance policy_generation required).

(** ** CheckpointManifest *)
Definition write_entry (c : ManifestEntry) : list byte := w_id (e_chunk_id c) ++ w_u64 (e_logical_offset c).
Definition read_entry : Reader ManifestEntry :=
  chunk_id ← r_id; logical_offset ← r_u64; mret (mkManifestEntry chunk_id logical_offset).

Definition write_manifest (m : CheckpointManifest) : list byte :=
  w_id (m_id m) ++ w_generation (m_generation m) ++ w_id (m_checkpoint_id m) ++
  w_generation (m_checkpoint_generation m) ++ w_vector write_entry (m_chunks m) ++
  w_u64 (m_logical_size m) ++ w_sha256 (m_checkpoint_digest m) ++ w_vector w_id (m_lineage m) ++
  w_optional w_id (m_parent m) ++ w_optional w_id (m_base m) ++
  w_u8 (Provenance.to_u8 (m_provenance m)) ++ w_u8 (DurabilityClass.to_u8 (m_durability m)) ++
  w_u64 (m_required_replica_count m) ++ w_sha256 (m_semantic_digest m).

Definition read_manifest : Reader CheckpointManifest :=
  id ← r_id; generation ← r_generation; checkpoint_id ← r_id; checkpoint_generation ← r_generation;
  chunks ← r_list read_entry; logical_size ← r_u64; checkpoint_digest ← r_sha256;
  lineage ← r_list r_id; parent ← r_optional r_id; base ← r_optional r_id;
  provenance ← r_enum Provenance.of_u8; durability ← r_enum DurabilityClass.of_u8;
  required ← r_u64; semantic_digest ← r_sha256;
  mret (mkCheckpointManifest id generation checkpoint_id checkpoint_generation chunks logical_size
    checkpoint_digest lineage parent base provenance durability required semantic_digest).

(** ** ChunkDescriptor *)
Definition write_chunk (c : ChunkDescriptor) : list byte :=
  w_id (cd_id c) ++ w_generation (cd_generation c) ++ w_u64 (cd_logical_offset c) ++
  w_u64 (cd_logical_size c) ++ w_u64 (cd_physical_size c) ++ w_sha256 (cd_digest c) ++
  w_id (cd_blob_id c) ++ w_vector w_id (cd_placements c) ++ w_u64 (cd_refcount c) ++
  w_u8 (Provenance.to_u8 (cd_provenance c)) ++ w_u8 (IntegrityState.to_u8 (cd_integrity c)) ++
  w_boolean (cd_compressed c) ++ w_string (cd_payload_encoding c).

Definition read_chunk : Reader ChunkDescriptor :=
  id ← r_id; generation ← r_generation; logical_offset ← r_u64; logical_size ← r_u64;
  physical_size ← r_u64; digest ← r_sha256; blob_id ← r_id; placements ← r_list r_id;
  refcount ← r_u64; provenance ← r_enum Provenance.of_u8; integrity ← r_enum IntegrityState.of_u8;
  compressed ← r_boolean; payload_encoding ← r_string;
  mret (mkChunkDescriptor id generation logical_offset logical_size physical_size digest blob_id
    placements refcount provenance integrity compressed payload_encoding).

(** ** ReplicaSet *)
Definition write_replica_set (s : ReplicaSet) : list byte :=
  w_id (rs_checkpoint_id s) ++ w_generation (rs_generation s) ++ w_u64 (rs_required_replica_count s) ++
  w_vector w_id (rs_replicas s) ++ w_u8 (ReplicaDurabilityState.to_u8 (rs_durability_state s)) ++
  w_generation (rs_placement_generation s) ++ w_u8 (Provenance.to_u8 (rs_provenance s)).

Definition read_replica_set : Reader ReplicaSet :=
  checkpoint_id ← r_id; generation ← r_generation; required ← r_u64; replicas ← r_list r_id;
  durability_state ← r_enum ReplicaDurabilityState.of_u8; placement_generation ← r_generation;
  provenance ← r_enum Provenance.of_u8;
  mret (mkReplicaSet checkpoint_id generation required replicas durability_state
    placement_generation provenance).

(** ** BlobDescriptor *)
Definition write_blob (b : BlobDescriptor) : list byte :=
  w_id (b_id b) ++ w_generation (b_generation b) ++ w_u64 (b_physical_size b) ++
  w_sha256 (b_digest b) ++ w_u64 (b_refcount b) ++ w_u64 (b_byte_references b) ++
  w_u8 (StorageTierClass.to_u8 (b_tier b)) ++ w_u8 (Provenance.to_u8 (b_provenance b)) ++
  w_u8 (IntegrityState.to_u8 (b_integrity b)) ++ w_u8 (Freshness.to_u8 (b_freshness b)) ++
  w_vector w_id (b_replicas b).

Definition read_blob : Reader BlobDescriptor :=
  id ← r_id; generation ← r_generation; physical_size ← r_u64; digest ← r_sha256;
  refcount ← r_u64; byte_references ← r_u64; tier ← r_enum StorageTierClass.of_u8;
  provenance ← r_enum Provenance.of_u8; integrity ← r_enum IntegrityState.of_u8;
  freshness ← r_enum Freshness.of_u8; replicas ← r_list r_id;
  mret (mkBlobDescriptor id generation physical_size digest refcount byte_references tier
    provenance integrity freshness replicas).

(** ** ReplicaDescriptor *)
Definition write_replica (rp : ReplicaDescriptor) : list byte :=
  w_id (rp_id rp) ++ w_generation (rp_generation rp) ++ w_id (rp_backend_id rp) ++
  w_u8 (ReplicaSourceKind.to_u8 (rp_source_kind rp)) ++ w_u8 (StorageTierClass.to_u8 (rp_tier rp)) ++
  w_u8 (IntegrityState.to_u8 (rp_integrity rp)) ++ w_u8 (ReplicaRole.to_u8 (rp_role rp)) ++
  w_u64 (rp_physical_size rp) ++ w_u8 (Provenance.to_u8 (rp_provenance rp)).

Definition read_replica : Reader ReplicaDescriptor :=
  id ← r_id; generation ← r_generation; backend_id ← r_id;
  source_kind ← r_enum ReplicaSourceKind.of_u8; tier ← r_enum StorageTierClass.of_u8;
  integrity ← r_enum IntegrityState.of_u8; role ← r_enum ReplicaRole.of_u8;
  physical_size ← r_u64; provenance ← r_enum Provenance.of_u8;
  mret (mkReplicaDescriptor id generation backend_id source_kind tier integrity role
    physical_size provenance).

(** ** PlacementDescriptor *)
Definition write_placement (p : PlacementDescriptor) : list byte :=
  w_id (pl_id p) ++ w_generation (pl_generation p) ++ w_id (pl_replica_id p) ++
  w_id (pl_tier_id p) ++ w_id (pl_backend_id p) ++ w_id (pl_node_id p) ++ w_id (pl_volume_id p) ++
  w_u64 (pl_bytes p) ++ w_u8 (Provenance.to_u8 (pl_provenance p)) ++
  w_u8 (Freshness.to_u8 (pl_freshness p)).

Definition read_placement : Reader PlacementDescriptor :=
  id ← r_id; generation ← r_generation; replica_id ← r_id; tier_id ← r_id; backend_id ← r_id;
  node_id ← r_id; volume_id ← r_id; bytes ← r_u64; provenance ← r_enum Provenance.of_u8;
  freshness ← r_enum Freshness.of_u8;
  mret (mkPlacementDescriptor id generation replica_id tier_id backend_id node_id volume_id bytes
    provenance freshness).

(** ** RetentionPolicy: the time to live is a signed count of seconds *)
Definition write_retention (rp : RetentionPolicy) : list byte :=
  w_id (pol_id rp) ++ w_id (pol_family_id rp) ++
  w_u8 (RetentionClass.to_u8 (pol_retention_class rp)) ++ w_u64 (pol_latest_n rp) ++
  w_u64 (u64 (pol_ttl rp)) ++ w_boolean (pol_protect_ancestry rp) ++
  w_boolean (pol_recomputable rp) ++ w_boolean (pol_policy_protected rp) ++
  w_generation (pol_generation rp) ++ w_u8 (Provenance.to_u8 (pol_provenance rp)).

Definition read_ttl : Reader Z := v ← r_u64; mret (s64 v).
Definition read_retention : Reader RetentionPolicy :=
  id ← r_id; family_id ← r_id; retention_class ← r_enum RetentionClass.of_u8; latest_n ← r_u64;
  ttl ← read_ttl; protect_ancestry ← r_boolean; recomputable ← r_boolean;
  policy_protected ← r_boolean; generation ← r_generation; provenance ← r_enum Provenance.of_u8;
  mret (mkRetentionPolicy id family_id retention_class latest_n ttl protect_ancestry recomputable
    policy_protected generation provenance).

(** ** FamilyRecord, CheckpointRecord and DedupEntry, in the bodies of
    [save_state] and [load_state] *)
Definition write_family (f : FamilyRecord) : list byte :=
  w_id (fam_id f) ++ w_generation (fam_family_generation f) ++ w_vector w_id (fam_checkpoint_ids f).
Definition read_family : Reader FamilyRecord :=
  id ← r_id; generation ← r_generation; ids ← r_list r_id; mret (mkFamily id generation ids).

Definition write_record (c : CheckpointRecord) : list byte :=
  write_descriptor (rec_descriptor c) ++ write_manifest (rec_manifest c) ++
  w_vector write_chunk (rec_chunks c) ++ write_replica_set (rec_replica_set c) ++
  w_u8 (CheckpointLifecycle.to_u8 (rec_lifecycle c)) ++
  w_u8 (IntegrityState.to_u8 (rec_integrity c)) ++ w_u8 (Freshness.to_u8 (rec_freshness c)).
Definition read_record : Reader CheckpointRecord :=
  descriptor ← read_descriptor; manifest ← read_manifest; chunks ← r_list read_chunk;
  replica_set ← read_replica_set; lifecycle ← r_enum CheckpointLifecycle.of_u8;
  integrity ← r_enum IntegrityState.of_u8; freshness ← r_enum Freshness.of_u8;
  mret (mkRecord descriptor manifest chunks replica_set lifecycle integrity freshness).

Definition write_dedup (kv : Sha256Digest * DedupEntry) : list byte :=
  w_sha256 kv.1 ++ w_u64 (de_physical_size kv.2) ++ w_u64 (de_refcount kv.2) ++
  w_u8 (IntegrityState.to_u8 (de_integrity kv.2)) ++ w_id (de_blob_id kv.2) ++
  w_generation (de_generation kv.2).
(** The entry is rebuilt under the digest it was saved under. *)
Definition read_dedup : Reader (Sha256Digest * DedupEntry) :=
  digest ← r_sha256; physical_size ← r_u64; refcount ← r_u64;
  integrity ← r_enum IntegrityState.of_u8; blob_id ← r_id; generation ← r_generation;
  mret (digest, mkDedupEntry blob_id digest physical_size refcount integrity generation).

(** ** Values the format carries

    [valid_x]: the integers have their C++ width, vectors are below the record
    ceiling, digests have 32 bytes and enumerations fit their byte. *)
Definition valid_list {A} (P : A → Prop) (l : list A) : Prop := zlen l ≤ kMaxRecords ∧ Forall P l.
Definition valid_opt {A} (P : A → Prop) (o : option A) : Prop := match o with Some a => P a | None => True end.
Definition valid_string (s : string) : Prop := is_u64 (zlen (make_bytes s)).
Definition valid_digest (d : Sha256Digest) : Prop := length d = 32%nat.

Definition valid_descriptor (d : CheckpointDescriptor) : Prop :=
  wf_id (d_id d) ∧ wf_id (d_family_id d) ∧ wf_gen (d_generation d) ∧ CheckpointKind.wf (d_kind d) ∧
  is_u64 (d_logical_size d) ∧ wf_time (d_created_at d) ∧ wf_id (d_owner_id d) ∧
  wf_id (d_producer_boot d) ∧ wf_gen (d_producer_generation d) ∧
  valid_opt wf_id (d_parent_checkpoint d) ∧ valid_opt wf_id (d_base_checkpoint d) ∧
  valid_list wf_id (d_lineage d) ∧ valid_list wf_id (d_references d) ∧
  valid_string (d_compatibility d) ∧ RetentionClass.wf (d_retention d) ∧
  DurabilityClass.wf (d_durability d) ∧ RestorePriority.wf (d_restore_priority d) ∧
  Provenance.wf (d_provenance d) ∧ wf_gen (d_policy_generation d) ∧
  is_u64 (d_required_replica_count d).
Definition valid_entry (c : ManifestEntry) : Prop := wf_id (e_chunk_id c) ∧ is_u64 (e_logical_offset c).
Definition valid_manifest (m : CheckpointManifest) : Prop :=
  wf_id (m_id m) ∧ wf_gen (m_generation m) ∧ wf_id (m_checkpoint_id m) ∧
  wf_gen (m_checkpoint_generation m) ∧ valid_list valid_entry (m_chunks m) ∧
  is_u64 (m_logical_size m) ∧ valid_digest (m_checkpoint_digest m) ∧
  valid_list wf_id (m_lineage m) ∧ valid_opt wf_id (m_parent m) ∧ valid_opt wf_id (m_base m) ∧
  Provenance.wf (m_provenance m) ∧ DurabilityClass.wf (m_durability m) ∧
  is_u64 (m_required_replica_count m) ∧ valid_digest (m_semantic_digest m).
Definition valid_chunk (c : ChunkDescriptor) : Prop :=
  wf_id (cd_id c) ∧ wf_gen (cd_generation c) ∧ is_u64 (cd_logical_offset c) ∧
  is_u64 (cd_logical_size c) ∧ is_u64 (cd_physical_size c) ∧ valid_digest (cd_digest c) ∧
  wf_id (cd_blob_id c) ∧ valid_list wf_id (cd_placements c) ∧ is_u64 (cd_refcount c) ∧
  Provenance.wf (cd_provenance c) ∧ IntegrityState.wf (cd_integrity c) ∧
  valid_string (cd_payload_encoding c).
Definition valid_replica_set (s : ReplicaSet) : Prop :=
  wf_id (rs_checkpoint_id s) ∧ wf_gen (rs_generation s) ∧ is_u64 (rs_required_replica_count s) ∧
  valid_list wf_id (rs_replicas s) ∧ ReplicaDurabilityState.wf (rs_durability_state s) ∧
  wf_gen (rs_placement_generation s) ∧ Provenance.wf (rs_provenance s).
Definition valid_blob (b : BlobDescriptor) : Prop :=
  wf_id (b_id b) ∧ wf_gen (b_generation b) ∧ is_u64 (b_physical_size b) ∧ valid_digest (b_digest b) ∧
  is_u64 (b_refcount b) ∧ is_u64 (b_byte_references b) ∧ StorageTierClass.wf (b_tier b) ∧
  Provenance.wf (b_provenance b) ∧ IntegrityState.wf (b_integrity b) ∧ Freshness.wf (b_freshness b) ∧
  valid_list wf_id (b_replicas b).
Definition valid_replica (rp : ReplicaDescriptor) : Prop :=
  wf_id (rp_id rp) ∧ wf_gen (rp_generation rp) ∧ wf_id (rp_backend_id rp) ∧
  ReplicaSourceKind.wf (rp_source_kind rp) ∧ StorageTierClass.wf (rp_tier rp) ∧
  IntegrityState.wf (rp_integrity rp) ∧ ReplicaRole.wf (rp_role rp) ∧
  is_u64 (rp_physical_size rp) ∧ Provenance.wf (rp_provenance rp).
Definition valid_placement (p : PlacementDescriptor) : Prop :=
  wf_id (pl_id p) ∧ wf_gen (pl_generation p) ∧ wf_id (pl_replica_id p) ∧ wf_id (pl_tier_id p) ∧
  wf_id (pl_backend_id p) ∧ wf_id (pl_node_id p) ∧ wf_id (pl_volume_id p) ∧ is_u64 (pl_bytes p) ∧
  Provenance.wf (pl_provenance p) ∧ Freshness.wf (pl_freshness p).
Definition is_i64 (z : Z) : Prop := - 2 ^ 63 ≤ z < 2 ^ 63.
Definition valid_retention (rp : RetentionPolicy) : Prop :=
  wf_id (pol_id rp) ∧ wf_id (pol_family_id rp) ∧ RetentionClass.wf (pol_retention_class rp) ∧
  is_u64 (pol_latest_n rp) ∧ is_i64 (pol_ttl rp) ∧ wf_gen (pol_generation rp) ∧
  Provenance.wf (pol_provenance rp).
Definition valid_family (f : FamilyRecord) : Prop :=
  wf_id (fam_id f) ∧ wf_gen (fam_family_generation f) ∧ valid_list wf_id (fam_checkpoint_ids f).
Definition valid_record (c : CheckpointRecord) : Prop :=
  valid_descriptor (rec_descriptor c) ∧ valid_manifest (rec_manifest c) ∧
  valid_list valid_chunk (rec_chunks c) ∧ valid_replica_set (rec_replica_set c) ∧
  CheckpointLifecycle.wf (rec_lifecycle c) ∧ IntegrityState.wf (rec_integrity c) ∧
  Freshness.wf (rec_freshness c).
Definition valid_dedup (kv : Sha256Digest * DedupEntry) : Prop :=
  valid_digest kv.1 ∧ de_digest kv.2 = kv.1 ∧ is_u64 (de_physical_size kv.2) ∧
  is_u64 (de_refcount kv.2) ∧ IntegrityState.wf (de_integrity kv.2) ∧ wf_id (de_blob_id kv.2) ∧
  wf_gen (de_generation kv.2).

(** The creation time is kept to the millisecond; everything else is kept. *)
Definition canon_descriptor (d : CheckpointDescriptor) : CheckpointDescriptor := d <| d_created_at ::= trunc_ms |>.
Definition canon_record (c : CheckpointRecord) : CheckpointRecord := c <| rec_descriptor ::= canon_descriptor |>.

(** ** The contract of a record's codec *)

(** [yields p P]: whatever the input, a value returned by [p] satisfies [P]. *)
Definition yields {A} (p : Reader A) (P : A → Prop) : Prop := ∀ r v r', p r = (Ok v, r') → P v.

Class Codec (A : Type) := {
  encode : A → list byte;
  decode : Reader A;
  valid : A → Prop;
  canon : A → A;
  decode_encode a : valid a → reads decode (encode a) (canon a);
  decode_valid : yields decode valid;
  decode_bounds : frames in_bounds decode
}.

(** *** [yields] composes *)
Lemma yields_ret {A} (v : A) (P : A → Prop) : P v → yields (mret v) P.
Proof. by intros HP r v' r' [= <- _]. Qed.
Lemma yields_bind {A B} (p : Reader A) (k : A → Reader B) P Q :
  yields p P → (∀ a, P a → yields (k a) Q) → yields (p ≫= k) Q.
Proof. intros Hp Hk r v r' (a & r1 & H1 & H2)%st_bind_ok. eapply Hk; eauto. Qed.
Lemma yields_le w : yields (r_le w) (λ v, 0 ≤ v < 2 ^ (Z.of_nat w * 8)).
Proof.
  intros r v r'. unfold r_le, get_le, get, lift_result, mbind, ST_bind. cbn beta iota.
  destruct (length (view_ r) <? pos_ r + w)%nat; [done|].
  unfold r_advance, modify, mret, ST_ret. intros [= <- _]. apply le_value_range.
Qed.
Lemma yields_u64 : yields r_u64 is_u64.
Proof. apply (yields_le 8). Qed.
Lemma yields_u32 : yields r_u32 is_u32.
Proof. apply (yields_le 4). Qed.
Lemma yields_u8 : yields r_u8 is_u8.
Proof.
  intros r v r'. unfold r_u8. intros (? & ? & _ & (? & ? & _ & (? & ? & _ & [= <- _])%st_bind_ok)%st_bind_ok)%st_bind_ok.
  apply byte_val_range.
Qed.
Lemma yields_id {Tag} : yields (r_id (Tag:=Tag)) wf_id.
Proof. eapply yields_bind; [apply yields_u64|]. intros. by apply yields_ret. Qed.
Lemma yields_generation {Tag} : yields (r_generation (Tag:=Tag)) wf_gen.
Proof. eapply yields_bind; [apply yields_u64|]. intros. by apply yields_ret. Qed.
Lemma yields_boolean : yields r_boolean (λ _, True).
Proof. done. Qed.
Lemma yields_bytes_fixed n : 0 ≤ n → yields (r_bytes_fixed n) (λ b, zlen b = n).
Proof.
  intros Hn r v r'. unfold r_bytes_fixed, r_require, raise_if, throw_if, raise, throw, get,
    r_advance, modify, mbind, ST_bind, mret, ST_ret. cbn beta iota.
  destruct (Z.gtb_spec n (zlen (view_ r) - Z.of_nat (pos_ r))); [done|]. intros [= <- _].
  unfold zlen in *. rewrite length_take, length_drop. lia.
Qed.
Lemma yields_sha256 : yields r_sha256 valid_digest.
Proof. intros r v r' H. apply yields_bytes_fixed in H; [|lia]. unfold valid_digest, zlen in *. lia. Qed.
Lemma yields_string : yields r_string valid_string.
Proof.
  eapply yields_bind; [eapply yields_bind; [apply yields_u64|]|].
  - intros n Hn r v r' H. instantiate (1 := λ b, is_u64 (zlen b)).
    apply yields_bytes_fixed in H; [|apply Hn].
    cbv beta in H |- *. by rewrite H.
  - intros b Hb. apply yields_ret. unfold valid_string, make_bytes, bytes_to_string.
    by rewrite String.list_byte_of_string_of_list_byte.
Qed.
Lemma s64_range v : is_u64 v → is_i64 (s64 v).
Proof. unfold is_u64, is_i64, s64. intros. destruct (Z.ltb_spec v (2 ^ 63)); lia. Qed.
Lemma yields_ttl : yields read_ttl is_i64.
Proof. eapply yields_bind; [apply yields_u64|]. intros. by apply yields_ret, s64_range. Qed.
Lemma yields_time_point : yields r_time_point wf_time.
Proof.
  eapply yields_bind; [eapply yields_bind; [apply yields_u64|]|].
  - intros. by apply yields_ret, s64_range.
  - intros. apply yields_ret, s64_range, u64_range.
Qed.
Lemma yields_optional {A} (p : Reader A) P : yields p P → yields (r_optional p) (valid_opt P).
Proof.
  intros Hp. eapply yields_bind; [apply yields_boolean|]. intros [] _; [|by apply yields_ret].
  eapply yields_bind; [apply Hp|]. intros. by apply yields_ret.
Qed.
Lemma yields_repeat {A} n (p : Reader A) P :
  yields p P → yields (r_repeat n p) (λ l, length l = n ∧ Forall P l).
Proof.
  intros Hp. induction n as [|n IH]; simpl; [apply yields_ret; split; [done|constructor]|].
  eapply yields_bind; [apply Hp|]. intros a Ha. eapply yields_bind; [apply IH|].
  intros l [Hl HP]. apply yields_ret. split; [simpl; by rewrite Hl|by constructor].
Qed.
Lemma yields_list {A} (p : Reader A) P : yields p P → yields (r_list p) (valid_list P).
Proof.
  intros Hp. eapply yields_bind; [apply yields_u32|]. intros c [Hc _].
  eapply (yields_bind _ _ (λ n, 0 ≤ n ≤ kMaxRecords)).
  - intros r n r'. unfold lift_result, decode_count. destruct (Z.gtb_spec c kMaxRecords); [done|].
    by intros [= <- _].
  - intros n Hn r l r' H. eapply yields_repeat in H as [Hl HP]; [|apply Hp]. split; [|done].
    unfold zlen. lia.
Qed.
Lemma yields_enum {E} (of_u8 : Z → E) (wf : E → Prop) :
  (∀ v, is_u8 v → wf (of_u8 v)) → yields (r_enum of_u8) wf.
Proof. intros H. eapply yields_bind; [apply yields_u8|]. intros. by apply yields_ret, H. Qed.

(** *** Reading back *)
Lemma reads_r_enum {E} (of_u8 : Z → E) (to_u8 : E → Z) e :
  is_u8 (to_u8 e) → of_u8 (to_u8 e) = e → reads (r_enum of_u8) (w_u8 (to_u8 e)) e.
Proof. apply reads_enum. Qed.
Lemma reads_ttl v : is_i64 v → reads read_ttl (w_u64 (u64 v)) v.
Proof. intros Hv. eapply reads_bind_last; [apply reads_u64, u64_range|]. rewrite s64_u64 by done. apply reads_ret. Qed.
Lemma reads_opt {A} (p : Reader A) (w : A → list byte) (P : A → Prop) o :
  (∀ a, P a → reads p (w a) a) → valid_opt P o → reads (r_optional p) (w_optional w o) o.
Proof. intros Hp Ho. apply reads_optional. intros a ->. by apply Hp. Qed.
Lemma reads_list {A} (p : Reader A) (w : A → list byte) (P : A → Prop) l :
  (∀ a, P a → reads p (w a) a) → valid_list P l → reads (r_list p) (w_vector w l) l.
Proof.
  intros Hp [Hl HP]. apply reads_vector; [done|done|]. intros a Ha. apply Hp.
  by eapply Forall_forall in HP.
Qed.
Lemma reads_ids {Tag} (l : list (BasicId Tag)) : valid_list wf_id l → reads (r_list r_id) (w_vector w_id l) l.
Proof. apply reads_list. auto with codec. Qed.
Lemma reads_opt_id {Tag} (o : option (BasicId Tag)) :
  valid_opt wf_id o → reads (r_optional r_id) (w_optional w_id o) o.
Proof. apply reads_opt. auto with codec. Qed.

Import CheckpointKind CheckpointLifecycle IntegrityState Provenance StorageTierClass
  ReplicaDurabilityState RetentionClass Freshness DurabilityClass ReplicaSourceKind ReplicaRole
  RestorePriority GcPhase.
#[export] Hint Resolve CheckpointKind_of_to CheckpointKind_range CheckpointLifecycle_of_to
  CheckpointLifecycle_range IntegrityState_of_to IntegrityState_range Provenance_of_to
  Provenance_range StorageTierClass_of_to StorageTierClass_range ReplicaDurabilityState_of_to
  ReplicaDurabilityState_range RetentionClass_of_to RetentionClass_range Freshness_of_to
  Freshness_range DurabilityClass_of_to DurabilityClass_range ReplicaSourceKind_of_to
  ReplicaSourceKind_range ReplicaRole_of_to ReplicaRole_range RestorePriority_of_to
  RestorePriority_range GcPhase_of_to GcPhase_range
  reads_r_enum reads_ttl reads_ids reads_opt_id : codec.

Create HintDb yields.
Ltac enum_in_byte := first
  [ exact (yields_enum _ _ CheckpointKind_of_wf)
  | exact (yields_enum _ _ CheckpointLifecycle_of_wf)
  | exact (yields_enum _ _ IntegrityState_of_wf)
  | exact (yields_enum _ _ Provenance_of_wf)
  | exact (yields_enum _ _ StorageTierClass_of_wf)
  | exact (yields_enum _ _ ReplicaDurabilityState_of_wf)
  | exact (yields_enum _ _ RetentionClass_of_wf)
  | exact (yields_enum _ _ Freshness_of_wf)
  | exact (yields_enum _ _ DurabilityClass_of_wf)
  | exact (yields_enum _ _ ReplicaSourceKind_of_wf)
  | exact (yields_enum _ _ ReplicaRole_of_wf)
  | exact (yields_enum _ _ RestorePriority_of_wf)
  | exact (yields_enum _ _ GcPhase_of_wf) ].
#[export] Hint Extern 1 (yields (r_enum _) _) => enum_in_byte : yields.
#[export] Hint Resolve
  yields_u64 yields_u8 yields_id yields_generation yields_boolean yields_sha256 yields_string
  yields_ttl yields_time_point yields_optional yields_list : yields.

(** *** Bounds *)
Lemma bounds_u64 : frames in_bounds r_u64.
Proof. apply bounds_le. Qed.
Lemma bounds_u32 : frames in_bounds r_u32.
Proof. apply bounds_le. Qed.
Lemma bounds_id {Tag} : frames in_bounds (r_id (Tag:=Tag)).
Proof. unfold r_id. solve_frames. apply bounds_u64. Qed.
Lemma bounds_generation {Tag} : frames in_bounds (r_generation (Tag:=Tag)).
Proof. unfold r_generation. solve_frames. apply bounds_u64. Qed.
Lemma bounds_boolean : frames in_bounds r_boolean.
Proof. unfold r_boolean. solve_frames. apply bounds_u8. Qed.
Lemma bounds_sha256 : frames in_bounds r_sha256.
Proof. by apply bounds_bytes_fixed. Qed.
Lemma bounds_string : frames in_bounds r_string.
Proof.
  intros r. unfold r_string, r_bytes. unfold mbind at 1, ST_bind at 1. unfold mbind at 1, ST_bind at 1.
  destruct (r_u64 r) as [[n|e] r1] eqn:E; pose proof (bounds_u64 r) as Hb; rewrite E in Hb; [|done].
  cbn [snd] in Hb. apply yields_u64 in E. pose proof (bounds_bytes_fixed n (proj1 E) r1) as Hb'.
  destruct (r_bytes_fixed n r1) as [[b|e] r2]; cbn [snd] in *; by etrans.
Qed.
Lemma bounds_ttl : frames in_bounds read_ttl.
Proof. unfold read_ttl. solve_frames. apply bounds_u64. Qed.
Lemma bounds_time_point : frames in_bounds r_time_point.
Proof. unfold r_time_point, r_i64. solve_frames. apply bounds_u64. Qed.
Lemma bounds_optional {A} (p : Reader A) : frames in_bounds p → frames in_bounds (r_optional p).
Proof. intros Hp. unfold r_optional. solve_frames; auto using bounds_boolean. Qed.
Lemma bounds_list {A} (p : Reader A) : frames in_bounds p → frames in_bounds (r_list p).
Proof. intros Hp. unfold r_list, r_vector. solve_frames; auto using bounds_u32, bounds_repeat. Qed.
Lemma bounds_enum {E} (of_u8 : Z → E) : frames in_bounds (r_enum of_u8).
Proof. unfold r_enum. solve_frames. apply bounds_u8. Qed.
Create HintDb bounds.
#[export] Hint Resolve bounds_u8 bounds_u64 bounds_u32 bounds_id bounds_generation bounds_boolean
  bounds_sha256 bounds_string bounds_ttl bounds_time_point bounds_optional bounds_list bounds_enum
  : bounds.

(** *** One proof per law, for every record *)
(** The fields one after the other; the record is taken apart only at the end. *)
Ltac solve_reads :=
  let x := fresh "x" in let H := fresh "H" in
  intros x H; hnf in H; destruct_and! H;
  repeat first
    [ eapply reads_bind; [solve [eauto 6 with codec]|]
    | eapply reads_bind_last; [solve [eauto 6 with codec]|] ];
  destruct x; apply reads_ret.
Ltac solve_yields :=
  repeat (eapply yields_bind; [solve [eauto 6 with yields]|]; intros ? ?);
  apply yields_ret; hnf; cbn; by split_and!.
Ltac solve_bounds := solve_frames; eauto 6 with bounds.

Lemma reads_entry x : valid_entry x → reads read_entry (write_entry x) (x).
Proof. revert x. solve_reads. Qed.
Lemma yields_entry : yields read_entry valid_entry.
Proof. solve_yields. Qed.
Lemma bounds_entry : frames in_bounds read_entry.
Proof. unfold read_entry. solve_bounds. Qed.
Lemma reads_entrys l : valid_list valid_entry l → reads (r_list read_entry) (w_vector write_entry l) l.
Proof. apply reads_list, reads_entry. Qed.
#[export] Hint Resolve reads_entry reads_entrys : codec.
#[export] Hint Resolve yields_entry : yields.
#[export] Hint Resolve bounds_entry : bounds.

Lemma reads_manifest x : valid_manifest x → reads read_manifest (write_manifest x) (x).
Proof. revert x. solve_reads. Qed.
Lemma yields_manifest : yields read_manifest valid_manifest.
Proof. solve_yields. Qed.
Lemma bounds_manifest : frames in_bounds read_manifest.
Proof. unfold read_manifest. solve_bounds. Qed.
#[export] Hint Resolve reads_manifest : codec.
#[export] Hint Resolve yields_manifest : yields.
#[export] Hint Resolve bounds_manifest : bounds.

Lemma reads_chunk x : valid_chunk x → reads read_chunk (write_chunk x) (x).
Proof. revert x. solve_reads. Qed.
Lemma yields_chunk : yields read_chunk valid_chunk.
Proof. solve_yields. Qed.
Lemma bounds_chunk : frames in_bounds read_chunk.
Proof. unfold read_chunk. solve_bounds. Qed.
Lemma reads_chunks l : valid_list valid_chunk l → reads (r_list read_chunk) (w_vector write_chunk l) l.
Proof. apply reads_list, reads_chunk. Qed.
#[export] Hint Resolve reads_chunk reads_chunks : codec.
#[export] Hint Resolve yields_chunk : yields.
#[export] Hint Resolve bounds_chunk : bounds.

Lemma reads_replica_set x : valid_replica_set x → reads read_replica_set (write_replica_set x) (x).
Proof. revert x. solve_reads. Qed.
Lemma yields_replica_set : yields read_replica_set valid_replica_set.
Proof. solve_yields. Qed.
Lemma bounds_replica_set : frames in_bounds read_replica_set.
Proof. unfold read_replica_set. solve_bounds. Qed.
#[export] Hint Resolve reads_replica_set : codec.
#[export] Hint Resolve yields_replica_set : yields.
#[export] Hint Resolve bounds_replica_set : bounds.

Lemma reads_blob x : valid_blob x → reads read_blob (write_blob x) (x).
Proof. revert x. solve_reads. Qed.
Lemma yields_blob : yields read_blob valid_blob.
Proof. solve_yields. Qed.
Lemma bounds_blob : frames in_bounds read_blob.
Proof. unfold read_blob. solve_bounds. Qed.
#[export] Hint Resolve reads_blob : codec.
#[export] Hint Resolve yields_blob : yields.
#[export] Hint Resolve bounds_blob : bounds.

Lemma reads_replica x : valid_replica x → reads read_replica (write_replica x) (x).
Proof. revert x. solve_reads. Qed.
Lemma yields_replica : yields read_replica valid_replica.
Proof. solve_yields. Qed.
Lemma bounds_replica : frames in_bounds read_replica.
Proof. unfold read_replica. solve_bounds. Qed.
#[export] Hint Resolve reads_replica : codec.
#[export] Hint Resolve yields_replica : yields.
#[export] Hint Resolve bounds_replica : bounds.

Lemma reads_placement x : valid_placement x → reads read_placement (write_placement x) (x).
Proof. revert x. solve_reads. Qed.
Lemma yields_placement : yields read_placement valid_placement.
Proof. solve_yields. Qed.
Lemma bounds_placement : frames in_bounds read_placement.
Proof. unfold read_placement. solve_bounds. Qed.
#[export] Hint Resolve reads_placement : codec.
#[export] Hint Resolve yields_placement : yields.
#[export] Hint Resolve bounds_placement : bounds.

Lemma reads_retention x : valid_retention x → reads read_retention (write_retention x) (x).
Proof. revert x. solve_reads. Qed.
Lemma yields_retention : yields read_retention valid_retention.
Proof. solve_yields. Qed.
Lemma bounds_retention : frames in_bounds read_retention.
Proof. unfold read_retention. solve_bounds. Qed.
#[export] Hint Resolve reads_retention : codec.
#[export] Hint Resolve yields_retention : yields.
#[export] Hint Resolve bounds_retention : bounds.

Lemma reads_family x : valid_family x → reads read_family (write_family x) (x).
Proof. revert x. solve_reads. Qed.
Lemma yields_family : yields read_family valid_family.
Proof. solve_yields. Qed.
Lemma bounds_family : frames in_bounds read_family.
Proof. unfold read_family. solve_bounds. Qed.
#[export] Hint Resolve reads_family : codec.
#[export] Hint Resolve yields_family : yields.
#[export] Hint Resolve bounds_family : bounds.

Lemma reads_descriptor x : valid_descriptor x → reads read_descriptor (write_descriptor x) (canon_descriptor x).
Proof. revert x. solve_reads. Qed.
Lemma yields_descriptor : yields read_descriptor valid_descriptor.
Proof. solve_yields. Qed.
Lemma bounds_descriptor : frames in_bounds read_descriptor.
Proof. unfold read_descriptor. solve_bounds. Qed.
#[export] Hint Resolve reads_descriptor : codec.
#[export] Hint Resolve yields_descriptor : yields.
#[export] Hint Resolve bounds_descriptor : bounds.

Lemma reads_record x : valid_record x → reads read_record (write_record x) (canon_record x).
Proof. revert x. solve_reads. Qed.
Lemma yields_record : yields read_record valid_record.
Proof. solve_yields. Qed.
Lemma bounds_record : frames in_bounds read_record.
Proof. unfold read_record. solve_bounds. Qed.
#[export] Hint Resolve reads_record : codec.
#[export] Hint Resolve yields_record : yields.
#[export] Hint Resolve bounds_record : bounds.

Lemma reads_dedup x : valid_dedup x → reads read_dedup (write_dedup x) x.
Proof.
  destruct x as [k [b d n c i g]]. intros (? & Hd & ?). cbn in Hd. subst d.
  assert (valid_digest k ∧ is_u64 n ∧ is_u64 c ∧ IntegrityState.wf i ∧ wf_id b ∧ wf_gen g) by tauto.
  unfold write_dedup, read_dedup. cbn [fst snd de_physical_size de_refcount de_integrity de_blob_id
    de_generation]. destruct_and!.
  repeat first
    [ eapply reads_bind; [solve [eauto 6 with codec]|]
    | eapply reads_bind_last; [solve [eauto 6 with codec]|] ]. apply reads_ret.
Qed.
Lemma yields_dedup : yields read_dedup valid_dedup.
Proof. solve_yields. Qed.
Lemma bounds_dedup : frames in_bounds read_dedup.
Proof. unfold read_dedup. solve_bounds. Qed.

(** ** The instances used by the saving and loading of the state *)
#[export] Instance family_codec : Codec FamilyRecord := {|
  encode := write_family; decode := read_family; valid := valid_family; canon x := x;
  decode_encode := reads_family; decode_valid := yields_family; decode_bounds := bounds_family |}.
#[export] Instance record_codec : Codec CheckpointRecord := {|
  encode := write_record; decode := read_record; valid := valid_record; canon := canon_record;
  decode_encode := reads_record; decode_valid := yields_record; decode_bounds := bounds_record |}.
#[export] Instance blob_codec : Codec BlobDescriptor := {|
  encode := write_blob; decode := read_blob; valid := valid_blob; canon x := x;
  decode_encode := reads_blob; decode_valid := yields_blob; decode_bounds := bounds_blob |}.
#[export] Instance replica_codec : Codec ReplicaDescriptor := {|
  encode := write_replica; decode := read_replica; valid := valid_replica; canon x := x;
  decode_encode := reads_replica; decode_valid := yields_replica; decode_bounds := bounds_replica |}.
#[export] Instance placement_codec : Codec PlacementDescriptor := {|
  encode := write_placement; decode := read_placement; valid := valid_placement; canon x := x;
  decode_encode := reads_placement; decode_valid := yields_placement; decode_bounds := bounds_placement |}.
#[export] Instance retention_codec : Codec RetentionPolicy := {|
  encode := write_retention; decode := read_retention; valid := valid_retention; canon x := x;
  decode_encode := reads_retention; decode_valid := yields_retention; decode_bounds := bounds_retention |}.
#[export] Instance dedup_codec : Codec (Sha256Digest * DedupEntry) := {|
  encode := write_dedup; decode := read_dedup; valid := valid_dedup; canon x := x;
  decode_encode := reads_dedup; decode_valid := yields_dedup; decode_bounds := bounds_dedup |}.

(** ** The validity of a value can be evaluated *)
#[export] Instance is_u64_dec z : Decision (is_u64 z).
Proof. unfold is_u64. apply _. Defined.
#[export] Instance wf_id_dec {Tag} (i : BasicId Tag) : Decision (wf_id i).
Proof. unfold wf_id. apply _. Defined.
#[export] Instance wf_gen_dec {Tag} (g : BasicGeneration Tag) : Decision (wf_gen g).
Proof. unfold wf_gen. apply _. Defined.
#[export] Instance valid_opt_dec {A} (P : A → Prop) `{∀ a, Decision (P a)} o : Decision (valid_opt P o).
Proof. destruct o; simpl; apply _. Defined.
#[export] Instance valid_list_dec {A} (P : A → Prop) `{∀ a, Decision (P a)} l : Decision (valid_list P l).
Proof. unfold valid_list. apply _. Defined.
#[export] Instance valid_string_dec s : Decision (valid_string s).
Proof. unfold valid_string. apply _. Defined.
#[export] Instance valid_digest_dec d : Decision (valid_digest d).
Proof. unfold valid_digest. apply _. Defined.
#[export] Instance CheckpointKind_wf_dec e : Decision (CheckpointKind.wf e).
Proof. destruct e; simpl; apply _. Defined.
#[export] Instance CheckpointLifecycle_wf_dec e : Decision (CheckpointLifecycle.wf e).
Proof. destruct e; simpl; apply _. Defined.
#[export] Instance IntegrityState_wf_dec e : Decision (IntegrityState.wf e).
Proof. destruct e; simpl; apply _. Defined.
#[export] Instance Provenance_wf_dec e : Decision (Provenance.wf e).
Proof. destruct e; simpl; apply _. Defined.
#[export] Instance StorageTierClass_wf_dec e : Decision (StorageTierClass.wf e).
Proof. destruct e; simpl; apply _. Defined.
#[export] Instance ReplicaDurabilityState_wf_dec e : Decision (ReplicaDurabilityState.wf e).
Proof. destruct e; simpl; apply _. Defined.
#[export] Instance RetentionClass_wf_dec e : Decision (RetentionClass.wf e).
Proof. destruct e; simpl; apply _. Defined.
#[export] Instance Freshness_wf_dec e : Decision (Freshness.wf e).
Proof. destruct e; simpl; apply _. Defined.
#[export] Instance DurabilityClass_wf_dec e : Decision (DurabilityClass.wf e).
Proof. destruct e; simpl; apply _. Defined.
#[export] Instance ReplicaSourceKind_wf_dec e : Decision (ReplicaSourceKind.wf e).
Proof. destruct e; simpl; apply _. Defined.
#[export] Instance ReplicaRole_wf_dec e : Decision (ReplicaRole.wf e).
Proof. destruct e; simpl; apply _. Defined.
#[export] Instance RestorePriority_wf_dec e : Decision (RestorePriority.wf e).
Proof. destruct e; simpl; apply _. Defined.
#[export] Instance GcPhase_wf_dec e : Decision (GcPhase.wf e).
Proof. destruct e; simpl; apply _. Defined.
#[export] Instance wf_time_dec z : Decision (wf_time z).
Proof. unfold wf_time. apply _. Defined.
#[export] Instance is_i64_dec z : Decision (is_i64 z).
Proof. unfold is_i64. apply _. Defined.
#[export] Instance valid_entry_dec x : Decision (valid_entry x).
Proof. unfold valid_entry. apply _. Defined.
#[export] Instance valid_descriptor_dec x : Decision (valid_descriptor x).
Proof. unfold valid_descriptor. apply _. Defined.
#[export] Instance valid_manifest_dec x : Decision (valid_manifest x).
Proof. unfold valid_manifest. apply _. Defined.
#[export] Instance valid_chunk_dec x : Decision (valid_chunk x).
Proof. unfold valid_chunk. apply _. Defined.
#[export] Instance valid_replica_set_dec x : Decision (valid_replica_set x).
Proof. unfold valid_replica_set. apply _. Defined.
#[export] Instance valid_blob_dec x : Decision (valid_blob x).
Proof. unfold valid_blob. apply _. Defined.
#[export] Instance valid_replica_dec x : Decision (valid_replica x).
Proof. unfold valid_replica. apply _. Defined.
#[export] Instance valid_placement_dec x : Decision (valid_placement x).
Proof. unfold valid_placement. apply _. Defined.
#[export] Instance valid_retention_dec x : Decision (valid_retention x).
Proof. unfold valid_retention. apply _. Defined.
#[export] Instance valid_family_dec x : Decision (valid_family x).
Proof. unfold valid_family. apply _. Defined.
#[export] Instance valid_record_dec x : Decision (valid_record x).
Proof. unfold valid_record. apply _. Defined.
#[export] Instance valid_dedup_dec x : Decision (valid_dedup x).
Proof. unfold valid_dedup. apply _. Defined.
