(* ===== verification/Persistence.v ===== *)
(** * Persistence: saving and loading the authoritative state

    [save_state], [load_state], [atomic_write_file] and [read_file] of
    [src/persistence.cpp].  The state file lives on a disk of its own: both
    members act on a pair of the store and that disk.  Loading acts on the
    store and a [BinReader]; what has been assigned when it throws stays
    assigned. *)
From stdpp Require Import pretty.
From S2P Require Import Prelude Base Hash Model Dedup BinFormat Backend SyntheticBackend Store StateCodec FileSystem.

(** ** atomic_write_file and read_file *)
Definition temp_name (path : string) (ticks : Z) : string := path +:+ ".tmp." +:+ pretty ticks.

(** [ticks] is the reading of the steady clock. *)
Definition atomic_write_file (ticks : Z) (path : string) (data : list byte) : Fs unit :=
  _ ← create_directories (parent_path (parse_path path));
  let tmp := parse_path (temp_name path ticks) in
  opened ← open_trunc tmp;
  _ ← raise_if (negb opened) ErrorCode.kIo "cannot open state temp for write";
  good ← write_stream tmp data;
  _ ← (if good : bool then mret tt
       else _ ← remove_path tmp; raise ErrorCode.kIo "state temp write failed");
  present ← path_exists (parse_path path);
  _ ← (if present : bool then _ ← remove_path (parse_path path); mret tt else mret tt);
  renamed ← rename_path tmp (parse_path path);
  raise_if (negb renamed) ErrorCode.kIo "state rename failed".

Definition read_file (path : string) : Fs (list byte) :=
  data ← read_stream (parse_path path);
  match data with
  | None => raise ErrorCode.kNotFound "state file not found"
  | Some data => mret data
  end.

(** ** The frame around the body *)
Definition state_magic : list byte := make_bytes "CPST".

Definition state_frame (body : list byte) : list byte :=
  w_bytes_fixed state_magic ++ w_u32 kFormatVersion ++ w_u32 (u32 (zlen body)) ++
  w_bytes_fixed body ++ w_u32 (crc32 body 0) ++ w_sha256 (sha256 body).

Definition parse_frame : Reader (list byte) :=
  magic ← r_bytes_fixed 4;
  _ ← raise_if (negb (bytes_equal magic state_magic)) ErrorCode.kBadMagic "state magic mismatch";
  version ← r_u32;
  _ ← raise_if (negb (version =? kFormatVersion))
        ErrorCode.kUnsupportedVersion "state version unsupported";
  body_len ← r_u32;
  _ ← raise_if (body_len >? kMaxBodyBytes) ErrorCode.kMalformed "state body too large";
  body ← r_bytes_fixed body_len;
  stored_crc ← r_u32;
  stored_digest ← r_sha256;
  frame ← get;
  _ ← raise_if (negb (r_remaining frame =? 0)) ErrorCode.kMalformed "state trailing garbage";
  _ ← raise_if (negb (crc32 body 0 =? stored_crc))
        ErrorCode.kChecksumMismatch "state body checksum mismatch";
  _ ← raise_if (negb (digest_equal (sha256 body) stored_digest))
        ErrorCode.kDigestMismatch "state body digest mismatch";
  mret body.

Definition check_frame (raw : list byte) : outcome (list byte) :=
  if zlen raw <? 4 + 4 + 4 + 4 + 32 then throw_error ErrorCode.kTruncated "state frame too small"
  else (parse_frame (new_reader raw)).1.

(** ** Sorting for determinism *)
Definition by_key {A} (key : A → Z) (a b : A) : Prop := key a ≤ key b.
#[export] Instance by_key_dec {A} (key : A → Z) : RelDecision (by_key key).
Proof. intros a b. unfold by_key. apply _. Defined.
Definition sort_by {A} (key : A → Z) (l : list A) : list A := merge_sort (by_key key) l.

Definition by_hex (a b : Sha256Digest * DedupEntry) : Prop := string_leb_rel (hex a.1) (hex b.1).
#[export] Instance by_hex_dec : RelDecision by_hex.
Proof. intros a b. unfold by_hex. apply _. Defined.

Section persistence.
Context `{IterOrder} {B : Type}.
Abbreviation Store := (ST (CheckpointStore B) CheckpointStoreError).

(** ** save_state *)
Definition values `{Countable K} {A} (m : gmap K A) : list A := (iter_order m).*2.

Definition saved_families (i : Impl) : list FamilyRecord :=
  sort_by (λ f, id_value (fam_id f)) (values (im_families i)).
Definition saved_checkpoints (i : Impl) : list CheckpointRecord :=
  sort_by (λ c, id_value (d_id (rec_descriptor c))) (values (im_checkpoints i)).
Definition saved_blobs (i : Impl) : list BlobDescriptor :=
  sort_by (λ b, id_value (b_id b)) (values (im_blobs i)).
Definition saved_replicas (i : Impl) : list ReplicaDescriptor :=
  sort_by (λ r, id_value (rp_id r)) (values (im_replicas i)).
Definition saved_placements (i : Impl) : list PlacementDescriptor :=
  sort_by (λ p, id_value (pl_id p)) (values (im_placements i)).
Definition saved_retention (i : Impl) : list RetentionPolicy :=
  sort_by (λ r, id_value (pol_id r)) (values (im_retention i)).
Definition saved_dedup (t : DedupTable) : list (Sha256Digest * DedupEntry) :=
  merge_sort by_hex (dedup_snapshot t).

Definition write_gc (g : GcState) : list byte :=
  w_id (gc_epoch g) ++ w_generation (gc_generation g) ++ w_u8 (GcPhase.to_u8 (gc_phase g)) ++
  w_u64 (gc_marked_bytes g) ++ w_u64 (gc_reclaimed_bytes g).

Definition write_header (s : CheckpointStore B) : list byte :=
  let i := s_impl s in
  let c := im_counters i in
  w_u64 (gen_value (s_coordinator_epoch s)) ++ w_id (opt_boot_id (s_options s)) ++
  w_u64 (im_next_id_counter i) ++ w_u64 (acct_integrity_failures c) ++
  w_u64 (acct_stale_rejections c) ++ w_u64 (acct_duplicate_rejections c) ++
  w_u64 (acct_worker_restarts c) ++ w_u64 (acct_reclaimed_blobs c) ++
  w_u64 (acct_reclaimed_bytes c) ++ w_u64 (acct_restored_bytes c).

Definition save_body (s : CheckpointStore B) : list byte :=
  let i := s_impl s in
  write_header s ++
  w_vector write_family (saved_families i) ++
  w_vector write_record (saved_checkpoints i) ++
  w_vector write_blob (saved_blobs i) ++
  w_vector write_replica (saved_replicas i) ++
  w_vector write_placement (saved_placements i) ++
  w_vector write_retention (saved_retention i) ++
  write_gc (im_gc i) ++
  w_vector write_dedup (saved_dedup (s_dedup s)).

(** The store and the disk of its state file. *)
Abbreviation Persist := (ST (CheckpointStore B * FileSystem) CheckpointStoreError).
Definition on_fs {A} (m : Fs A) : Persist A := zoom snd (λ fs p, (p.1, fs)) m.

Definition save_state (ticks : Z) : Persist unit :=
  s ← gets fst;
  on_fs (atomic_write_file ticks (opt_state_path (s_options s)) (state_frame (save_body s))).

(** ** load_state *)
Abbreviation Load := (ST (CheckpointStore B * BinReader) CheckpointStoreError).
Definition on_store {A} (m : Store A) : Load A := zoom fst (λ s p, (s, p.2)) m.
Definition on_reader {A} (m : Reader A) : Load A := zoom snd (λ r p, (p.1, r)) m.

(** [x = r.f()] for a member [x] of the store. *)
Definition load_field {A} (p : Reader A) (assign : A → CheckpointStore B → CheckpointStore B) : Load unit :=
  x ← on_reader p;
  on_store (modify (assign x)).

Fixpoint times (n : nat) (m : Load unit) : Load unit :=
  match n with O => mret tt | S n => _ ← m; times n m end.

(** A count, then that many records, each added to the store. *)
Definition load_each {A} (p : Reader A) (add : A → Store unit) : Load unit :=
  c ← on_reader r_u32;
  n ← lift_result (decode_count c kMaxRecords);
  times (Z.to_nat n) (x ← on_reader p; on_store (add x)).

Definition clear_state (i : Impl) : Impl :=
  i <| im_next_id_counter := 1000 |> <| im_counters := default_AccountingSnapshot |>
    <| im_families := ∅ |> <| im_checkpoints := ∅ |> <| im_blobs := ∅ |> <| im_replicas := ∅ |>
    <| im_placements := ∅ |> <| im_retention := ∅ |> <| im_gc := default_GcState |>.

Definition set_impl (f : Impl → Impl) (s : CheckpointStore B) : CheckpointStore B := s <| s_impl ::= f |>.
Definition set_counter (f : AccountingSnapshot → AccountingSnapshot) : CheckpointStore B → CheckpointStore B :=
  set_impl (λ i, i <| im_counters ::= f |>).
Definition set_gc (f : GcState → GcState) : CheckpointStore B → CheckpointStore B :=
  set_impl (λ i, i <| im_gc ::= f |>).

Definition load_header : Load unit :=
  _ ← load_field r_u64 (λ v s, s <| s_coordinator_epoch := mkGen v |>);
  _ ← load_field r_id (λ v s, s <| s_options ::= λ o, o <| opt_boot_id := v |> |>);
  _ ← load_field r_u64 (λ v, set_impl (λ i, i <| im_next_id_counter := v |>));
  _ ← load_field r_u64 (λ v, set_counter (λ c, c <| acct_integrity_failures := v |>));
  _ ← load_field r_u64 (λ v, set_counter (λ c, c <| acct_stale_rejections := v |>));
  _ ← load_field r_u64 (λ v, set_counter (λ c, c <| acct_duplicate_rejections := v |>));
  _ ← load_field r_u64 (λ v, set_counter (λ c, c <| acct_worker_restarts := v |>));
  _ ← load_field r_u64 (λ v, set_counter (λ c, c <| acct_reclaimed_blobs := v |>));
  _ ← load_field r_u64 (λ v, set_counter (λ c, c <| acct_reclaimed_bytes := v |>));
  load_field r_u64 (λ v, set_counter (λ c, c <| acct_restored_bytes := v |>)).

(** [if (map.count(key)) throw; map.emplace(key, a)] *)
Definition add_unique `{Countable K} {A} (field : Impl → gmap K A)
    (put : (gmap K A → gmap K A) → Impl → Impl) (key : K) (a : A) (message : string) : Store unit :=
  m ← get_impl field;
  _ ← raise_if (bool_decide (is_Some (m !! key))) ErrorCode.kMalformed message;
  modify_impl (put (<[key := a]>)).

Definition add_family (f : FamilyRecord) : Store unit :=
  _ ← add_unique im_families (λ g i, i <| im_families ::= g |>) (fam_id f) f
        "duplicate family id in state";
  modify_impl (λ i, i <| im_next_checkpoint_generation ::= <[fam_id f := mkGen 1]> |>).

(** [auto& ng = next[family]; if (ng.precedes(g)) ng = g;] *)
Definition raise_generation (family : CheckpointFamilyId) (g : CheckpointGeneration)
    (next : gmap CheckpointFamilyId CheckpointGeneration) : gmap CheckpointFamilyId CheckpointGeneration :=
  let ng := default first_gen (next !! family) in
  <[family := if precedes ng g then g else ng]> next.

Definition add_record (rec : CheckpointRecord) : Store unit :=
  _ ← add_unique im_checkpoints (λ g i, i <| im_checkpoints ::= g |>) (d_id (rec_descriptor rec)) rec
        "duplicate checkpoint id in state";
  modify_impl (λ i, i <| im_next_checkpoint_generation ::=
    raise_generation (d_family_id (rec_descriptor rec)) (d_generation (rec_descriptor rec)) |>).

Definition advance_generations : Store unit :=
  modify_impl (λ i, i <| im_next_checkpoint_generation ::= fmap next |>).

Definition add_blob (b : BlobDescriptor) : Store unit :=
  add_unique im_blobs (λ g i, i <| im_blobs ::= g |>) (b_id b) b "duplicate blob id in state".
Definition add_replica (rp : ReplicaDescriptor) : Store unit :=
  add_unique im_replicas (λ g i, i <| im_replicas ::= g |>) (rp_id rp) rp "duplicate replica id in state".
Definition add_placement (p : PlacementDescriptor) : Store unit :=
  add_unique im_placements (λ g i, i <| im_placements ::= g |>) (pl_id p) p "duplicate placement id in state".
Definition add_policy (rp : RetentionPolicy) : Store unit :=
  add_unique im_retention (λ g i, i <| im_retention ::= g |>) (pol_id rp) rp "duplicate retention id in state".

Definition load_gc : Load unit :=
  _ ← load_field r_id (λ v, set_gc (λ g, g <| gc_epoch := v |>));
  _ ← load_field r_generation (λ v, set_gc (λ g, g <| gc_generation := v |>));
  _ ← load_field (r_enum GcPhase.of_u8) (λ v, set_gc (λ g, g <| gc_phase := v |>));
  _ ← load_field r_u64 (λ v, set_gc (λ g, g <| gc_marked_bytes := v |>));
  load_field r_u64 (λ v, set_gc (λ g, g <| gc_reclaimed_bytes := v |>)).

Definition add_dedup (kv : Sha256Digest * DedupEntry) : Store unit :=
  table ← gets s_dedup;
  _ ← raise_if (dedup_contains table kv.1) ErrorCode.kMalformed "duplicate dedup entry in state";
  on_dedup (insert_blob_entry_direct kv.2).

(** The derived counters, from the recovered records. *)
Definition recount (table : DedupTable) (i : Impl) (c : AccountingSnapshot) : AccountingSnapshot :=
  let records := values (im_checkpoints i) in
  let logical := fold_left (λ n rec, u64 (n + d_logical_size (rec_descriptor rec))) records 0 in
  let unique := unique_physical_bytes table in
  c <| acct_family_count := Z.of_nat (size (im_families i)) |>
    <| acct_checkpoint_count := Z.of_nat (size (im_checkpoints i)) |>
    <| acct_manifest_count := Z.of_nat (size (im_checkpoints i)) |>
    <| acct_blob_count := Z.of_nat (size (im_blobs i)) |>
    <| acct_replica_count := Z.of_nat (size (im_replicas i)) |>
    <| acct_placement_count := Z.of_nat (size (im_placements i)) |>
    <| acct_chunk_count := fold_left (λ n rec, u64 (n + zlen (rec_chunks rec))) records 0 |>
    <| acct_logical_bytes := logical |>
    <| acct_committed_checkpoint_count := fold_left (λ n rec,
         if bool_decide (rec_lifecycle rec = CheckpointLifecycle.kCommitted) then incr64 n else n)
         records 0 |>
    <| acct_unique_physical_bytes := unique |>
    <| acct_deduplicated_bytes := if logical >=? unique then logical - unique else 0 |>
    <| acct_blob_references := dedup_size table |>.

Definition load_records : Load unit :=
  _ ← on_store (modify_impl clear_state);
  _ ← load_header;
  _ ← load_each read_family add_family;
  _ ← load_each read_record add_record;
  _ ← on_store advance_generations;
  _ ← load_each read_blob add_blob;
  _ ← load_each read_replica add_replica;
  _ ← load_each read_placement add_placement;
  _ ← load_each read_retention add_policy;
  _ ← load_gc;
  load_each read_dedup add_dedup.

Definition load_body : Load unit :=
  _ ← load_records;
  r ← gets snd;
  _ ← raise_if (negb (r_remaining r =? 0)) ErrorCode.kMalformed "state body trailing garbage";
  on_store (λ s, modify_impl (λ i, i <| im_counters ::= recount (s_dedup s) i |>) s).

(** Loading a body: the reader is a local variable. *)
Definition rebuild (body : list byte) : Store unit := λ s,
  let '(r, (s', _)) := load_body (s, new_reader body) in (r, s').

Definition load_state : Persist unit :=
  s ← gets fst;
  raw ← on_fs (read_file (opt_state_path (s_options s)));
  body ← lift_result (check_frame raw);
  zoom fst (λ s p, (s, p.2)) (rebuild body).

(** ** Loading what was written

    [loads m enc s s']: wherever the bytes [enc] are, [m] started at them in
    the store [s] returns, stops right after them and leaves [s']. *)
Definition loads (m : Load unit) (enc : list byte) (s s' : CheckpointStore B) : Prop :=
  ∀ pre post, m (s, mkReader (pre ++ enc ++ post) (length pre))
    = (Ok tt, (s', mkReader (pre ++ enc ++ post) (length (pre ++ enc)))).

Lemma loads_bind (m k : Load unit) e1 e2 s s1 s2 :
  loads m e1 s s1 → loads k e2 s1 s2 → loads (_ ← m; k) (e1 ++ e2) s s2.
Proof.
  intros H1 H2 pre post. specialize (H1 pre (e2 ++ post)). specialize (H2 (pre ++ e1) post).
  rewrite <- !app_assoc in *. by rewrite (st_bind_run _ _ _ _ _ H1), H2.
Qed.
Lemma loads_bind_nil (m k : Load unit) e s s1 s2 :
  loads m [] s s1 → loads k e s1 s2 → loads (_ ← m; k) e s s2.
Proof. apply loads_bind. Qed.
Lemma loads_nil (m : Load unit) s s' :
  (∀ r, m (s, r) = (Ok tt, (s', r))) → loads m [] s s'.
Proof. intros Hm pre post. rewrite app_nil_r. apply Hm. Qed.
Lemma loads_store (m : Store unit) s s' : m s = (Ok tt, s') → loads (on_store m) [] s s'.
Proof. intros Hm. apply loads_nil. intros r. unfold on_store, zoom. cbn. by rewrite Hm. Qed.

Lemma loads_eq (m : Load unit) e s s1 s2 : loads m e s s1 → s1 = s2 → loads m e s s2.
Proof. by intros ? <-. Qed.

(** A reading step followed by a step on the store. *)
Lemma loads_read {A} (p : Reader A) (k : A → Store unit) e a s s' :
  reads p e a → k a s = (Ok tt, s') → loads (x ← on_reader p; on_store (k x)) e s s'.
Proof.
  intros Hp Hk pre post. specialize (Hp pre post).
  unfold on_reader, on_store, zoom, mbind, ST_bind. cbn [fst snd]. rewrite Hp. cbn [fst snd]. by rewrite Hk.
Qed.
Lemma loads_field {A} (p : Reader A) assign e a s :
  reads p e a → loads (load_field p assign) e s (assign a s).
Proof. intros Hp. by apply (loads_read p (λ x, modify (assign x)) e a). Qed.

Lemma loads_times {A} (p : Reader A) (w : A → list byte) (f : A → A) (add : A → Store unit) l s s' :
  (∀ a, a ∈ l → reads p (w a) (f a)) → for_each (f <$> l) add s = (Ok tt, s') →
  loads (times (length l) (x ← on_reader p; on_store (add x))) (l ≫= w) s s'.
Proof.
  revert s. induction l as [|a l IH]; intros s Hp Hl; simpl in *.
  { injection Hl as <-. by apply loads_nil. }
  apply st_bind_ok in Hl as ([] & s1 & Ha & Hl). eapply loads_bind.
  - eapply loads_read; [apply Hp; left|done].
  - apply IH; [|done]. intros; apply Hp; by right.
Qed.

Lemma loads_then {A} (p : Reader A) (k : A → Load unit) e e' a s s' :
  reads p e a → loads (k a) e' s s' → loads (x ← on_reader p; k x) (e ++ e') s s'.
Proof.
  intros Hp Hk pre post. specialize (Hp pre (e' ++ post)). specialize (Hk (pre ++ e) post).
  rewrite <- !app_assoc in *.
  rewrite (st_bind_run _ _ _ a (s, mkReader (pre ++ e ++ e' ++ post) (length (pre ++ e)))); [done|].
  unfold on_reader, zoom. cbn [fst snd]. by rewrite Hp.
Qed.

Lemma loads_each {A} {C : Codec A} (add : A → Store unit) (l : list A) s s' :
  valid_list valid l → for_each (canon <$> l) add s = (Ok tt, s') →
  loads (load_each decode add) (w_vector encode l) s s'.
Proof.
  intros [Hn Hl] Hadd. rewrite Forall_forall in Hl. pose proof (zlen_nonneg l).
  assert (zlen l < 2 ^ 32) by (unfold kMaxRecords in Hn; lia).
  unfold load_each, w_vector. rewrite u32_id by (unfold is_u32; lia).
  eapply loads_then; [apply reads_u32; unfold is_u32; lia|].
  assert (decode_count (zlen l) kMaxRecords = Ok (zlen l)) as Hd.
  { unfold decode_count. by destruct (Z.gtb_spec (zlen l) kMaxRecords); [lia|]. }
  intros pre post. rewrite (st_bind_run _ _ _ (zlen l) (s, mkReader (pre ++ (l ≫= encode) ++ post) (length pre)))
    by (unfold lift_result; by rewrite Hd).
  unfold zlen. rewrite Nat2Z.id.
  exact (loads_times decode encode canon add l s s' (λ a Ha, decode_encode a (Hl a Ha)) Hadd pre post).
Qed.

(** ** Adding records with distinct keys *)
Definition insert_by `{Countable K} {A} (key : A → K) (m : gmap K A) (l : list A) : gmap K A :=
  foldl (λ m a, <[key a := a]> m) m l.

(** A map field of the store's state and its updater. *)
Class MapField `{Countable K} {A} (field : Impl → gmap K A)
    (put : (gmap K A → gmap K A) → Impl → Impl) : Prop := {
  field_put g i : field (put g i) = g (field i);
  put_put g h i : put g (put h i) = put (λ m, g (h m)) i;
  put_id i : put (λ m, m) i = i
}.

Lemma set_impl_compose f g (s : CheckpointStore B) : set_impl f (set_impl g s) = set_impl (λ i, f (g i)) s.
Proof. reflexivity. Qed.

Lemma add_unique_ok `{Countable K} {A} (field : Impl → gmap K A) put (key : K) (a : A) msg s :
  field (s_impl s) !! key = None →
  add_unique field put key a msg s = (Ok tt, set_impl (put (<[key := a]>)) s).
Proof. intros Hk. unfold add_unique, get_impl, gets, mbind, ST_bind. cbn beta iota. by rewrite Hk. Qed.

(** [distinct_from key l m]: the keys of [l] differ from each other and are not
    bound in [m]. *)
Definition distinct_from `{Countable K} {A} (key : A → K) (l : list A) (m : gmap K A) : Prop :=
  NoDup (key <$> l) ∧ ∀ a, a ∈ l → m !! key a = None.

Lemma distinct_from_cons `{Countable K} {A} (key : A → K) a l (m : gmap K A) :
  distinct_from key (a :: l) m → m !! key a = None ∧ distinct_from key l (<[key a := a]> m).
Proof.
  intros [[Ha Hl]%NoDup_cons Hm]. split; [apply Hm; left|]. split; [done|]. intros b Hb.
  rewrite lookup_insert_ne; [apply Hm; by right|]. intros E. apply Ha. rewrite E.
  by apply list_elem_of_fmap_2.
Qed.

Section add_all.
Context `{Countable K} {A : Type} (field : Impl → gmap K A) (put : (gmap K A → gmap K A) → Impl → Impl)
  `{!MapField field put}.

(** Each record is added and followed by an update [after] of other fields. *)
Lemma for_each_add (key : A → K) (add : A → Store unit) (after : A → Impl → Impl) l s :
  (∀ a s, field (s_impl s) !! key a = None →
     add a s = (Ok tt, set_impl (λ i, after a (put (<[key a := a]>) i)) s)) →
  (∀ a i, field (after a i) = field i) →
  distinct_from key l (field (s_impl s)) →
  for_each l add s = (Ok tt, set_impl (λ i, foldl (λ i a, after a (put (<[key a := a]>) i)) i l) s).
Proof.
  intros Hadd Hafter. revert s. induction l as [|a l IH]; intros s Hd; simpl.
  { by destruct s. }
  apply distinct_from_cons in Hd as [Ha Hd]. rewrite (st_bind_run _ _ _ _ _ (Hadd a s Ha)).
  rewrite IH; [done|]. cbn. by rewrite Hafter, field_put.
Qed.

Lemma foldl_put (key : A → K) l i :
  foldl (λ i a, put (<[key a := a]>) i) i l = put (λ m, insert_by key m l) i.
Proof.
  revert i. induction l as [|a l IH]; intros i; simpl; [by rewrite put_id|]. by rewrite IH, put_put.
Qed.

Lemma for_each_unique (key : A → K) msg l s :
  distinct_from key l (field (s_impl s)) →
  for_each l (λ a, add_unique field put (key a) a msg) s =
    (Ok tt, set_impl (put (λ m, insert_by key m l)) s).
Proof.
  intros Hd. rewrite (for_each_add key _ (λ _ i, i)); [|intros; by apply add_unique_ok|done|done].
  cbv beta. f_equal. unfold set_impl, update. by rewrite (foldl_put key).
Qed.
End add_all.

(** What [insert_by] rebuilds *)
Lemma insert_by_list_to_map `{Countable K} {A} (key : A → K) l (m : gmap K A) :
  NoDup (key <$> l) → insert_by key m l = list_to_map ((λ a, (key a, a)) <$> l) ∪ m.
Proof.
  revert m. induction l as [|a l IH]; intros m Hl; simpl; [by rewrite (left_id_L ∅ (∪))|].
  apply NoDup_cons in Hl as [Ha Hl]. rewrite IH by done. rewrite <- insert_union_r; [by rewrite insert_union_l|].
  apply not_elem_of_list_to_map. rewrite <- list_fmap_compose. done.
Qed.

(** Every record is stored under its own key. *)
Definition keyed `{Countable K} {A} (key : A → K) (m : gmap K A) : Prop := map_Forall (λ k a, key a = k) m.

Lemma keyed_pairs `{Countable K} {A} (key : A → K) (m : gmap K A) : keyed key m →
  (λ a, (key a, a)) <$> (map_to_list m).*2 = map_to_list m.
Proof.
  intros Hk. rewrite <- list_fmap_compose. rewrite <- (list_fmap_id (map_to_list m)) at 2.
  apply list_fmap_ext. intros j [k a] Hj. cbn. f_equal. apply Hk.
  apply elem_of_map_to_list. by eapply list_elem_of_lookup_2.
Qed.

Lemma values_perm `{Countable K} {A} (m : gmap K A) : values m ≡ₚ (map_to_list m).*2.
Proof. unfold values. by rewrite iter_order_perm. Qed.

Lemma keyed_NoDup `{Countable K} {A} (key : A → K) (m : gmap K A) l :
  keyed key m → l ≡ₚ values m → NoDup (key <$> l).
Proof.
  intros Hk ->. rewrite values_perm.
  assert (key <$> (map_to_list m).*2 = ((λ a, (key a, a)) <$> (map_to_list m).*2).*1) as ->.
  { by rewrite <- !list_fmap_compose. }
  rewrite keyed_pairs by done. apply NoDup_fst_map_to_list.
Qed.

Lemma insert_by_values `{Countable K} {A} (key : A → K) (m : gmap K A) l :
  keyed key m → l ≡ₚ values m → insert_by key ∅ l = m.
Proof.
  intros Hk Hl. rewrite insert_by_list_to_map by (by eapply keyed_NoDup).
  rewrite (right_id_L ∅ (∪)). trans (list_to_map (M:=gmap K A) (map_to_list m)); [|apply list_to_map_to_list].
  apply list_to_map_proper.
  - rewrite <- list_fmap_compose. by apply (keyed_NoDup key m).
  - rewrite Hl, values_perm. by rewrite keyed_pairs.
Qed.

Lemma sort_by_perm {A} (key : A → Z) (l : list A) : sort_by key l ≡ₚ l.
Proof. apply merge_sort_Permutation. Qed.

#[local] Ltac map_field := split; [done|done|by intros []].
#[export] Instance families_field : MapField im_families (λ g i, i <| im_families ::= g |>).
Proof. map_field. Qed.
#[export] Instance checkpoints_field : MapField im_checkpoints (λ g i, i <| im_checkpoints ::= g |>).
Proof. map_field. Qed.
#[export] Instance blobs_field : MapField im_blobs (λ g i, i <| im_blobs ::= g |>).
Proof. map_field. Qed.
#[export] Instance replicas_field : MapField im_replicas (λ g i, i <| im_replicas ::= g |>).
Proof. map_field. Qed.
#[export] Instance placements_field : MapField im_placements (λ g i, i <| im_placements ::= g |>).
Proof. map_field. Qed.
#[export] Instance retention_field : MapField im_retention (λ g i, i <| im_retention ::= g |>).
Proof. map_field. Qed.

(** ** States the format carries *)
Definition valid_map `{Countable K} {A} (P : A → Prop) (key : A → K) (m : gmap K A) : Prop :=
  keyed key m ∧ map_Forall (λ _ a, P a) m ∧ Z.of_nat (size m) ≤ kMaxRecords.

Definition valid_counters (c : AccountingSnapshot) : Prop :=
  is_u64 (acct_integrity_failures c) ∧ is_u64 (acct_stale_rejections c) ∧
  is_u64 (acct_duplicate_rejections c) ∧ is_u64 (acct_worker_restarts c) ∧
  is_u64 (acct_reclaimed_blobs c) ∧ is_u64 (acct_reclaimed_bytes c) ∧ is_u64 (acct_restored_bytes c).

Definition valid_gc (g : GcState) : Prop :=
  wf_id (gc_epoch g) ∧ wf_gen (gc_generation g) ∧ GcPhase.wf (gc_phase g) ∧
  is_u64 (gc_marked_bytes g) ∧ is_u64 (gc_reclaimed_bytes g).

(** Everything is stored under its own id, has its C++ width and is below the
    record ceiling; the body is below the body ceiling. *)
Definition persistable (s : CheckpointStore B) : Prop :=
  let i := s_impl s in
  wf_gen (s_coordinator_epoch s) ∧ wf_id (opt_boot_id (s_options s)) ∧ is_u64 (im_next_id_counter i) ∧
  valid_counters (im_counters i) ∧ valid_gc (im_gc i) ∧
  valid_map valid_family fam_id (im_families i) ∧
  valid_map valid_record (λ c, d_id (rec_descriptor c)) (im_checkpoints i) ∧
  valid_map valid_blob b_id (im_blobs i) ∧ valid_map valid_replica rp_id (im_replicas i) ∧
  valid_map valid_placement pl_id (im_placements i) ∧
  valid_map valid_retention pol_id (im_retention i) ∧
  map_Forall (λ k e, valid_dedup (k, e)) (s_dedup s) ∧ Z.of_nat (size (s_dedup s)) ≤ kMaxRecords ∧
  zlen (save_body s) ≤ kMaxBodyBytes.

#[export] Instance valid_map_dec `{Countable K} {A} (P : A → Prop) `{∀ a, Decision (P a)} (key : A → K) m :
  Decision (valid_map P key m).
Proof. unfold valid_map, keyed. apply _. Defined.
#[export] Instance valid_counters_dec c : Decision (valid_counters c).
Proof. unfold valid_counters. apply _. Defined.
#[export] Instance valid_gc_dec g : Decision (valid_gc g).
Proof. unfold valid_gc. apply _. Defined.
#[export] Instance persistable_dec s : Decision (persistable s).
Proof. unfold persistable. apply _. Defined.

Lemma size_values `{Countable K} {A} (m : gmap K A) l : l ≡ₚ values m → zlen l = Z.of_nat (size m).
Proof.
  intros Hl%Permutation_length. unfold zlen. rewrite Hl. unfold values.
  by rewrite length_fmap, length_iter_order.
Qed.

Lemma valid_map_list `{Countable K} {A} (P : A → Prop) (key : A → K) m l :
  valid_map P key m → l ≡ₚ values m → valid_list P l.
Proof.
  intros (_ & HP & Hn) Hl. split; [by erewrite size_values|]. rewrite Hl, values_perm.
  apply Forall_forall. intros a ([k b] & -> & Hb)%list_elem_of_fmap. apply elem_of_map_to_list in Hb.
  by eapply HP.
Qed.

Lemma distinct_from_values `{Countable K} {A} (key : A → K) (m : gmap K A) l :
  keyed key m → l ≡ₚ values m → distinct_from key l ∅.
Proof. intros Hk Hl. split; [by eapply keyed_NoDup|]. done. Qed.

Lemma distinct_from_canon `{Countable K} {A} (key : A → K) (f : A → A) (m : gmap K A) l :
  (∀ a, key (f a) = key a) → distinct_from key l m → distinct_from key (f <$> l) m.
Proof.
  intros Hf [Hn Hm]. split.
  - rewrite <- list_fmap_compose. erewrite list_fmap_ext; [exact Hn|]. intros. apply Hf.
  - intros a (b & -> & Hb)%list_elem_of_fmap. rewrite Hf. by apply Hm.
Qed.

Lemma insert_by_canon `{Countable K} {A} (key : A → K) (f : A → A) (m : gmap K A) l :
  (∀ a, key (f a) = key a) → insert_by key (f <$> m) (f <$> l) = f <$> insert_by key m l.
Proof.
  intros Hf. revert m. induction l as [|a l IH]; intros m; [done|]. cbn.
  rewrite Hf, <- fmap_insert. apply IH.
Qed.

(** *** The two additions that also move the generations *)
Lemma add_family_ok a s : im_families (s_impl s) !! fam_id a = None →
  add_family a s = (Ok tt, set_impl (λ i, (i <| im_families ::= <[fam_id a := a]> |>)
    <| im_next_checkpoint_generation ::= <[fam_id a := mkGen 1]> |>) s).
Proof. intros Ha. unfold add_family. by rewrite (st_bind_run _ _ _ _ _ (add_unique_ok _ _ _ _ _ _ Ha)). Qed.
Lemma add_record_ok a s : im_checkpoints (s_impl s) !! d_id (rec_descriptor a) = None →
  add_record a s = (Ok tt, set_impl (λ i, (i <| im_checkpoints ::= <[d_id (rec_descriptor a) := a]> |>)
    <| im_next_checkpoint_generation ::=
      raise_generation (d_family_id (rec_descriptor a)) (d_generation (rec_descriptor a)) |>) s).
Proof. intros Ha. unfold add_record. by rewrite (st_bind_run _ _ _ _ _ (add_unique_ok _ _ _ _ _ _ Ha)). Qed.

Definition family_generations (l : list FamilyRecord) (m : gmap CheckpointFamilyId CheckpointGeneration) :=
  foldl (λ m f, <[fam_id f := mkGen 1]> m) m l.
Definition raise_generations (l : list CheckpointRecord) (m : gmap CheckpointFamilyId CheckpointGeneration) :=
  foldl (λ m c, raise_generation (d_family_id (rec_descriptor c)) (d_generation (rec_descriptor c)) m) m l.

Lemma add_families_ok l s : distinct_from fam_id l (im_families (s_impl s)) →
  for_each l add_family s = (Ok tt, set_impl (λ i,
    (i <| im_families ::= λ m, insert_by fam_id m l |>)
       <| im_next_checkpoint_generation ::= family_generations l |>) s).
Proof.
  intros Hd. rewrite (for_each_add im_families (λ g i, i <| im_families ::= g |>) fam_id add_family
    (λ f i, i <| im_next_checkpoint_generation ::= <[fam_id f := mkGen 1]> |>));
    [|intros; by apply add_family_ok|done|done].
  f_equal. unfold set_impl, update. f_equal. generalize (s_impl s). clear Hd.
  induction l as [|f l IH]; intros i; [by destruct i|]. cbn [foldl]. rewrite IH. reflexivity.
Qed.
Lemma add_records_ok l s : distinct_from (λ c, d_id (rec_descriptor c)) l (im_checkpoints (s_impl s)) →
  for_each l add_record s = (Ok tt, set_impl (λ i,
    (i <| im_checkpoints ::= λ m, insert_by (λ c, d_id (rec_descriptor c)) m l |>)
       <| im_next_checkpoint_generation ::= raise_generations l |>) s).
Proof.
  intros Hd. rewrite (for_each_add im_checkpoints (λ g i, i <| im_checkpoints ::= g |>)
    (λ c, d_id (rec_descriptor c)) add_record (λ c i, i <| im_next_checkpoint_generation ::=
      raise_generation (d_family_id (rec_descriptor c)) (d_generation (rec_descriptor c)) |>));
    [|intros; by apply add_record_ok|done|done].
  f_equal. unfold set_impl, update. f_equal. generalize (s_impl s). clear Hd.
  induction l as [|f l IH]; intros i; [by destruct i|]. cbn [foldl]. rewrite IH. reflexivity.
Qed.

(** The dedup entries *)
Definition insert_entries (t : DedupTable) (l : list (Sha256Digest * DedupEntry)) : DedupTable :=
  foldl (λ t kv, <[de_digest kv.2 := kv.2]> t) t l.
Lemma add_dedups_ok (l : list (Sha256Digest * DedupEntry)) s :
  Forall (λ kv, de_digest kv.2 = kv.1) l → distinct_from fst l ((λ e, (de_digest e, e)) <$> s_dedup s) →
  for_each l add_dedup s = (Ok tt, s <| s_dedup ::= λ t, insert_entries t l |>).
Proof.
  revert s. induction l as [|[k e] l IH]; intros s Hl Hd; simpl; [by destruct s|].
  apply Forall_cons in Hl as [He Hl]. cbn in He. apply distinct_from_cons in Hd as [Hk Hd]. cbn in Hk.
  rewrite lookup_fmap, fmap_None in Hk.
  assert (add_dedup (k, e) s = (Ok tt, s <| s_dedup ::= <[de_digest e := e]> |>)) as Ha.
  { unfold add_dedup, gets, dedup_contains, mbind, ST_bind. cbn beta iota. cbn [fst snd]. by rewrite Hk. }
  rewrite (st_bind_run _ _ _ _ _ Ha), IH; [done|done|].
  cbn [update s_dedup]. rewrite fmap_insert, He. exact Hd.
Qed.

(** ** The recovered state *)
Definition recovered_generations (i : Impl) (m : gmap CheckpointFamilyId CheckpointGeneration) :
    gmap CheckpointFamilyId CheckpointGeneration :=
  next <$> raise_generations (saved_checkpoints i) (family_generations (saved_families i) m).

Definition kept_counters (c : AccountingSnapshot) : AccountingSnapshot :=
  default_AccountingSnapshot
    <| acct_integrity_failures := acct_integrity_failures c |>
    <| acct_stale_rejections := acct_stale_rejections c |>
    <| acct_duplicate_rejections := acct_duplicate_rejections c |>
    <| acct_worker_restarts := acct_worker_restarts c |>
    <| acct_reclaimed_blobs := acct_reclaimed_blobs c |>
    <| acct_reclaimed_bytes := acct_reclaimed_bytes c |>
    <| acct_restored_bytes := acct_restored_bytes c |>.
Definition kept_gc (g : GcState) : GcState :=
  default_GcState <| gc_epoch := gc_epoch g |> <| gc_generation := gc_generation g |>
    <| gc_phase := gc_phase g |> <| gc_marked_bytes := gc_marked_bytes g |>
    <| gc_reclaimed_bytes := gc_reclaimed_bytes g |>.

(** The records of [s] loaded into [t], before the counters are derived. *)
Definition with_records (s t : CheckpointStore B) : CheckpointStore B :=
  let i := s_impl s in
  t <| s_coordinator_epoch := s_coordinator_epoch s |>
    <| s_options ::= λ o, o <| opt_boot_id := opt_boot_id (s_options s) |> |>
    <| s_dedup := s_dedup s |>
    <| s_impl ::= λ j, j
       <| im_next_id_counter := im_next_id_counter i |>
       <| im_counters := kept_counters (im_counters i) |>
       <| im_families := im_families i |>
       <| im_checkpoints := canon_record <$> im_checkpoints i |>
       <| im_next_checkpoint_generation ::= recovered_generations i |>
       <| im_blobs := im_blobs i |> <| im_replicas := im_replicas i |>
       <| im_placements := im_placements i |> <| im_retention := im_retention i |>
       <| im_gc := kept_gc (im_gc i) |> |>.
Definition recovered (s t : CheckpointStore B) : CheckpointStore B :=
  set_impl (λ i, i <| im_counters ::= recount (s_dedup s) i |>) (with_records s t).

Lemma loads_header (s t : CheckpointStore B) : persistable s →
  loads load_header (write_header s) t
    (set_impl (λ j, j <| im_next_id_counter := im_next_id_counter (s_impl s) |>
        <| im_counters ::= λ c, c
           <| acct_integrity_failures := acct_integrity_failures (im_counters (s_impl s)) |>
           <| acct_stale_rejections := acct_stale_rejections (im_counters (s_impl s)) |>
           <| acct_duplicate_rejections := acct_duplicate_rejections (im_counters (s_impl s)) |>
           <| acct_worker_restarts := acct_worker_restarts (im_counters (s_impl s)) |>
           <| acct_reclaimed_blobs := acct_reclaimed_blobs (im_counters (s_impl s)) |>
           <| acct_reclaimed_bytes := acct_reclaimed_bytes (im_counters (s_impl s)) |>
           <| acct_restored_bytes := acct_restored_bytes (im_counters (s_impl s)) |> |>)
      (t <| s_coordinator_epoch := s_coordinator_epoch s |>
         <| s_options ::= λ o, o <| opt_boot_id := opt_boot_id (s_options s) |> |>)).
Proof.
  intros (Hg & Hb & Hn & (?&?&?&?&?&?&?) & _). unfold load_header, write_header.
  eapply loads_eq.
  - do 9 (eapply loads_bind; [apply loads_field; solve [eauto with codec]|]).
    apply loads_field. solve [eauto with codec].
  - destruct (s_coordinator_epoch s). reflexivity.
Qed.

Lemma loads_gc (g : GcState) (t : CheckpointStore B) : valid_gc g →
  loads load_gc (write_gc g) t (set_gc (λ j, j <| gc_epoch := gc_epoch g |>
    <| gc_generation := gc_generation g |> <| gc_phase := gc_phase g |>
    <| gc_marked_bytes := gc_marked_bytes g |> <| gc_reclaimed_bytes := gc_reclaimed_bytes g |>) t).
Proof.
  intros (?&?&?&?&?). unfold load_gc, write_gc.
  eapply loads_eq.
  - do 4 (eapply loads_bind; [apply loads_field; solve [eauto with codec]|]).
    apply loads_field. solve [eauto with codec].
  - reflexivity.
Qed.

Lemma saved_dedup_perm (t : DedupTable) : saved_dedup t ≡ₚ map_to_list t.
Proof. unfold saved_dedup, dedup_snapshot. by rewrite merge_sort_Permutation, iter_order_perm. Qed.

Lemma insert_entries_saved (t : DedupTable) : map_Forall (λ k e, valid_dedup (k, e)) t →
  insert_entries ∅ (saved_dedup t) = t.
Proof.
  intros Hv.
  assert (∀ l m, Forall (λ kv, de_digest kv.2 = kv.1) l → NoDup l.*1 →
    insert_entries m l = list_to_map l ∪ m) as Hins.
  { induction l as [|[k e] l IH]; intros m Hl Hn; [by rewrite list_to_map_nil, (left_id_L ∅ (∪))|].
    apply Forall_cons in Hl as [He Hl]. cbn in He, Hn. apply NoDup_cons in Hn as [Hk Hn].
    cbn. rewrite IH, He by done. rewrite <- insert_union_r; [by rewrite insert_union_l|].
    by apply not_elem_of_list_to_map. }
  pose proof (saved_dedup_perm t) as Hp. rewrite Hins.
  - rewrite (right_id_L ∅ (∪)). trans (list_to_map (M:=DedupTable) (map_to_list t)).
    + apply list_to_map_proper; [|done]. rewrite Hp. apply NoDup_fst_map_to_list.
    + apply list_to_map_to_list.
  - rewrite Hp. apply Forall_forall. intros [k e] He%elem_of_map_to_list. by apply (Hv k e).
  - rewrite Hp. apply NoDup_fst_map_to_list.
Qed.

Lemma loads_each_map {A} {C : Codec A} `{Countable K} (add : A → Store unit) (key : A → K) (m : gmap K A) l s s' :
  valid_map valid key m → l ≡ₚ values m →
  (∀ l', l' = canon <$> l → for_each l' add s = (Ok tt, s')) →
  loads (load_each decode add) (w_vector encode l) s s'.
Proof. intros Hm Hl Hadd. apply loads_each; [by eapply valid_map_list|]. by apply Hadd. Qed.

Lemma store_eq (x y : CheckpointStore B) :
  s_options x = s_options y → s_coordinator_epoch x = s_coordinator_epoch y →
  s_dedup x = s_dedup y → s_impl x = s_impl y → s_heap x = s_heap y → x = y.
Proof. destruct x, y; cbn. by intros -> -> -> -> ->. Qed.
Lemma impl_eq (x y : Impl) :
  im_backends x = im_backends y → im_primary_backend_id x = im_primary_backend_id y →
  im_families x = im_families y → im_checkpoints x = im_checkpoints y → im_blobs x = im_blobs y →
  im_replicas x = im_replicas y → im_placements x = im_placements y →
  im_retention x = im_retention y → im_workers x = im_workers y →
  im_next_checkpoint_generation x = im_next_checkpoint_generation y →
  im_next_family_id x = im_next_family_id y → im_next_id_counter x = im_next_id_counter y →
  im_gc x = im_gc y → im_restore_plans x = im_restore_plans y →
  im_restore_evidence x = im_restore_evidence y → im_active_restores x = im_active_restores y →
  im_reservations x = im_reservations y → im_counters x = im_counters y → x = y.
Proof. destruct x, y; cbn. by do 18 intros ->. Qed.

Lemma raise_generations_canon l m : raise_generations (canon_record <$> l) m = raise_generations l m.
Proof. revert m. induction l as [|c l IH]; intros m; [done|]. apply IH. Qed.

Lemma insert_by_canon_values `{Countable K} {A} (key : A → K) (f : A → A) (m : gmap K A) l :
  (∀ a, key (f a) = key a) → keyed key m → l ≡ₚ values m → insert_by key ∅ (f <$> l) = f <$> m.
Proof.
  intros Hf Hk Hl. rewrite <- (fmap_empty f), insert_by_canon by done. by rewrite (insert_by_values key m).
Qed.

Lemma valid_saved_dedup (t : DedupTable) : map_Forall (λ k e, valid_dedup (k, e)) t →
  Z.of_nat (size t) ≤ kMaxRecords →
  valid_list valid_dedup (saved_dedup t) ∧ Forall (λ kv, de_digest kv.2 = kv.1) (saved_dedup t) ∧
  distinct_from fst (saved_dedup t) (∅ : gmap Sha256Digest (Sha256Digest * DedupEntry)).
Proof.
  intros Hv Hn. pose proof (saved_dedup_perm t) as Hp. split; [split|split; [|split; [|done]]].
  - unfold zlen. by rewrite Hp, length_map_to_list.
  - rewrite Hp. apply Forall_forall. intros [k e] He%elem_of_map_to_list. by apply (Hv k e).
  - rewrite Hp. apply Forall_forall. intros [k e] He%elem_of_map_to_list. by apply (Hv k e).
  - rewrite Hp. apply NoDup_fst_map_to_list.
Qed.

(** Reduce the accesses to the parts of the state, and nothing else. *)
#[local] Ltac flat_state :=
  lazy beta iota zeta delta [set_gc set_impl update with_records kept_gc kept_counters clear_state
    s_options s_coordinator_epoch s_dedup s_impl s_heap
    im_backends im_primary_backend_id im_families im_checkpoints im_blobs im_replicas im_placements
    im_retention im_workers im_next_checkpoint_generation im_next_family_id im_next_id_counter im_gc
    im_restore_plans im_restore_evidence im_active_restores im_reservations im_counters 
    default_AccountingSnapshot default_GcState canon record_codec
    gc_epoch gc_generation gc_phase gc_reachable_blobs
    gc_reclaimable_blobs gc_marked_bytes gc_reclaimed_bytes gc_freshness
    acct_family_count acct_checkpoint_count acct_committed_checkpoint_count acct_logical_bytes
    acct_unique_physical_bytes acct_deduplicated_bytes acct_manifest_count acct_chunk_count
    acct_blob_count acct_blob_references acct_replica_count acct_placement_count
    acct_active_writes acct_active_restores acct_restored_bytes acct_gc_eligible_checkpoints
    acct_reclaimed_blobs acct_reclaimed_bytes acct_integrity_failures acct_stale_rejections
    acct_duplicate_rejections acct_worker_restarts] in *.

Lemma loads_records (s t : CheckpointStore B) : persistable s → s_dedup t = ∅ →
  loads load_records (save_body s) t (with_records s t).
Proof.
  intros Hs Ht. pose proof Hs as (_ & _ & _ & _ & Hgc & Hfam & Hcp & Hblob & Hrep & Hpl & Hret & Hdd & Hdn & _).
  unfold load_records, save_body. cbv zeta.
  eapply loads_eq.
  { eapply loads_bind_nil; [by apply loads_store|].
    eapply loads_bind; [by apply loads_header|].
    eapply loads_bind.
    { apply (loads_each_map (C:=family_codec) _ fam_id _ _ _ _ Hfam); [apply sort_by_perm|]. intros l' ->.
      rewrite list_fmap_id. apply add_families_ok. eapply distinct_from_values; [apply Hfam|apply sort_by_perm]. }
    eapply loads_bind.
    { apply (loads_each_map (C:=record_codec) _ _ _ _ _ _ Hcp); [apply sort_by_perm|]. intros l' ->.
      apply add_records_ok, distinct_from_canon; [done|].
      eapply distinct_from_values; [apply Hcp|apply sort_by_perm]. }
    eapply loads_bind_nil; [by apply loads_store|].
    eapply loads_bind.
    { apply (loads_each_map (C:=blob_codec) _ b_id _ _ _ _ Hblob); [apply sort_by_perm|]. intros l' ->.
      rewrite list_fmap_id. apply for_each_unique; [apply _|].
      eapply distinct_from_values; [apply Hblob|apply sort_by_perm]. }
    eapply loads_bind.
    { apply (loads_each_map (C:=replica_codec) _ rp_id _ _ _ _ Hrep); [apply sort_by_perm|]. intros l' ->.
      rewrite list_fmap_id. apply for_each_unique; [apply _|].
      eapply distinct_from_values; [apply Hrep|apply sort_by_perm]. }
    eapply loads_bind.
    { apply (loads_each_map (C:=placement_codec) _ pl_id _ _ _ _ Hpl); [apply sort_by_perm|]. intros l' ->.
      rewrite list_fmap_id. apply for_each_unique; [apply _|].
      eapply distinct_from_values; [apply Hpl|apply sort_by_perm]. }
    eapply loads_bind.
    { apply (loads_each_map (C:=retention_codec) _ pol_id _ _ _ _ Hret); [apply sort_by_perm|]. intros l' ->.
      rewrite list_fmap_id. apply for_each_unique; [apply _|].
      eapply distinct_from_values; [apply Hret|apply sort_by_perm]. }
    eapply loads_bind; [by apply loads_gc|].
    apply (loads_each (C:=dedup_codec)); [by apply valid_saved_dedup|].
    rewrite list_fmap_id. apply add_dedups_ok; [by apply valid_saved_dedup|].
    cbn [s_dedup update set_gc set_impl]. rewrite Ht, fmap_empty. by apply valid_saved_dedup. }
  destruct t as [o e d i h], i, o; cbn in Ht; subst d.
  pose proof (insert_by_values fam_id _ _ (proj1 Hfam) (sort_by_perm _ _ : saved_families _ ≡ₚ _)) as E1.
  pose proof (insert_by_canon_values (λ c, d_id (rec_descriptor c)) canon_record _ _ (λ _, eq_refl) (proj1 Hcp)
    (sort_by_perm _ _ : saved_checkpoints _ ≡ₚ _)) as E2.
  pose proof (insert_by_values b_id _ _ (proj1 Hblob) (sort_by_perm _ _ : saved_blobs _ ≡ₚ _)) as E3.
  pose proof (insert_by_values rp_id _ _ (proj1 Hrep) (sort_by_perm _ _ : saved_replicas _ ≡ₚ _)) as E4.
  pose proof (insert_by_values pl_id _ _ (proj1 Hpl) (sort_by_perm _ _ : saved_placements _ ≡ₚ _)) as E5.
  pose proof (insert_by_values pol_id _ _ (proj1 Hret) (sort_by_perm _ _ : saved_retention _ ≡ₚ _)) as E6.
  pose proof (insert_entries_saved _ Hdd) as E7.
  clear Hs Hgc Hfam Hcp Hblob Hrep Hpl Hret Hdd Hdn. flat_state.
  rewrite E1, E2, E3, E4, E5, E6, E7, raise_generations_canon. reflexivity.
Qed.

Lemma rebuild_ok (s t : CheckpointStore B) : persistable s → s_dedup t = ∅ →
  rebuild (save_body s) t = (Ok tt, recovered s t).
Proof.
  intros Hs Ht. pose proof (loads_records s t Hs Ht [] []) as Hl.
  rewrite app_nil_r in Hl. cbn [app] in Hl. unfold rebuild, load_body, new_reader.
  rewrite (st_bind_run _ _ _ _ _ Hl). unfold gets, mbind, ST_bind. cbn beta iota.
  unfold r_remaining. cbn [snd view_ pos_]. unfold zlen. rewrite Z.sub_diag. reflexivity.
Qed.
End persistence.

(** ** The frame *)

(** Where [enc] is in the view, a read of it followed by [k]. *)
Lemma reads_step {A C} (p : Reader A) (k : A → Reader C) e a pre post :
  reads p e a →
  (p ≫= k) (mkReader (pre ++ e ++ post) (length pre)) = k a (mkReader ((pre ++ e) ++ post) (length (pre ++ e))).
Proof. intros H. rewrite (st_bind_run _ _ _ _ _ (H pre post)). by rewrite <- app_assoc. Qed.

Lemma new_reader_at v : new_reader v = mkReader ([] ++ v) (length (@nil byte)).
Proof. reflexivity. Qed.
Lemma state_frame_ok body : zlen body ≤ kMaxBodyBytes →
  (parse_frame (new_reader (state_frame body))).1 = Ok body.
Proof.
  intros Hb. pose proof (zlen_nonneg body). assert (is_u32 (zlen body)) by (unfold is_u32, kMaxBodyBytes in *; lia).
  rewrite new_reader_at. unfold state_frame, parse_frame. rewrite u32_id by done.
  rewrite (reads_step _ _ _ state_magic) by (by apply reads_bytes_fixed).
  assert (bytes_equal state_magic state_magic = true) as -> by reflexivity. rewrite raise_if_false.
  rewrite (reads_step _ _ _ kFormatVersion) by (apply reads_u32; unfold is_u32, kFormatVersion; lia).
  rewrite Z.eqb_refl, raise_if_false.
  rewrite (reads_step _ _ _ (zlen body)) by (by apply reads_u32).
  destruct (Z.gtb_spec (zlen body) kMaxBodyBytes); [lia|]. rewrite raise_if_false.
  rewrite (reads_step _ _ _ body) by (by apply reads_bytes_fixed).
  rewrite (reads_step _ _ _ (crc32 body 0)) by (apply reads_u32, is_u32_crc).
  rewrite <- (app_nil_r (w_sha256 (sha256 body))).
  rewrite (reads_step _ _ _ (sha256 body)) by (apply reads_sha256, length_sha256).
  rewrite app_nil_r. unfold get at 1, mbind at 1, ST_bind at 1. cbn beta iota.
  unfold r_remaining. cbn [view_ pos_]. unfold zlen at 1. rewrite Z.sub_diag. rewrite raise_if_false.
  rewrite Z.eqb_refl, raise_if_false. rewrite (proj2 (digest_equal_true _ _) eq_refl), raise_if_false. reflexivity.
Qed.

Lemma length_state_frame body : zlen (state_frame body) = 48 + zlen body.
Proof.
  unfold state_frame, w_bytes_fixed, w_u32, w_sha256, zlen.
  rewrite !length_app, !length_put_le, length_sha256. change (length state_magic) with 4%nat. lia.
Qed.

Lemma check_frame_ok body : zlen body ≤ kMaxBodyBytes → check_frame (state_frame body) = Ok body.
Proof.
  intros Hb. unfold check_frame. rewrite length_state_frame. pose proof (zlen_nonneg body).
  destruct (Z.ltb_spec (48 + zlen body) (4 + 4 + 4 + 4 + 32)); [lia|]. by apply state_frame_ok.
Qed.

(** *** Only frames are accepted

    [spells p enc]: what [p] consumes is exactly the encoding of what it
    returns. *)
Definition spells {A} (p : Reader A) (enc : A → list byte) : Prop := ∀ r v r',
  p r = (Ok v, r') → view_ r' = view_ r ∧
  drop (pos_ r) (view_ r) = enc v ++ drop (pos_ r') (view_ r) .

Lemma spells_le w : spells (r_le w) (λ v, put_le v w).
Proof.
  intros r v r'. unfold r_le, get_le, get, lift_result, mbind, ST_bind. cbn beta iota.
  destruct (Nat.ltb_spec (length (view_ r)) (pos_ r + w)); [done|].
  unfold r_advance, modify, mret, ST_ret. intros [= <- <-]. cbn [update view_ pos_]. split; [done|].
  rewrite put_le_le_value by lia. rewrite <- drop_drop. by rewrite take_drop.
Qed.
Lemma spells_bytes_fixed n : 0 ≤ n → spells (r_bytes_fixed n) (λ b, b).
Proof.
  intros Hn r v r'. unfold r_bytes_fixed, r_require, raise_if, throw_if, raise, throw, get,
    r_advance, modify, mbind, ST_bind, mret, ST_ret. cbn beta iota.
  destruct (Z.gtb_spec n (zlen (view_ r) - Z.of_nat (pos_ r))); [done|]. intros [= <- <-].
  cbn [update view_ pos_]. split; [done|]. rewrite <- drop_drop. by rewrite take_drop.
Qed.
Lemma raise_if_ok {S} c code msg (s : S) u s' : raise_if c code msg s = (Ok u, s') → c = false ∧ s' = s.
Proof. destruct c; [done|]. by intros [= _ <-]. Qed.

Lemma bytes_equal_true a b : bytes_equal a b = true → a = b.
Proof. unfold bytes_equal. destruct (negb _); [done|]. by intros ?%bool_decide_eq_true. Qed.

Lemma check_frame_only raw body : check_frame raw = Ok body →
  zlen body ≤ kMaxBodyBytes ∧ raw = state_frame body.
Proof.
  unfold check_frame. destruct (zlen raw <? _); [done|].
  destruct (parse_frame (new_reader raw)) as [r r'] eqn:E. cbn [fst]. intros ->.
  unfold parse_frame in E.
  apply st_bind_ok in E as (magic & r1 & H1 & E).
  apply st_bind_ok in E as (_ & r1' & [Hm ->]%raise_if_ok & E).
  apply st_bind_ok in E as (version & r2 & H2 & E).
  apply st_bind_ok in E as (_ & r2' & [Hv ->]%raise_if_ok & E).
  apply st_bind_ok in E as (len & r3 & H3 & E).
  apply st_bind_ok in E as (_ & r3' & [Hl ->]%raise_if_ok & E).
  apply st_bind_ok in E as (body' & r4 & H4 & E).
  apply st_bind_ok in E as (crc & r5 & H5 & E).
  apply st_bind_ok in E as (digest & r6 & H6 & E).
  apply st_bind_ok in E as (frame & r6' & [= <- <-] & E).
  apply st_bind_ok in E as (_ & r7 & [Hr ->]%raise_if_ok & E).
  apply st_bind_ok in E as (_ & r7' & [Hc ->]%raise_if_ok & E).
  apply st_bind_ok in E as (_ & r8 & [Hd ->]%raise_if_ok & [= -> _]).
  apply negb_false_iff in Hm, Hv, Hr, Hc, Hd. apply digest_equal_true in Hd as <-.
  rewrite Z.eqb_eq in Hv, Hr, Hc. subst version crc.
  assert (magic = state_magic) as -> by (by apply bytes_equal_true).
  destruct (Z.gtb_spec len kMaxBodyBytes) as [|Hlen]; [done|].
  pose proof (yields_u32 _ _ _ H3) as [Hlen0 _].
  pose proof (yields_bytes_fixed len Hlen0 _ _ _ H4) as Hbody.
  cbv beta in Hbody.
  apply spells_bytes_fixed in H1 as [V1 D1]; [|lia]. apply spells_le in H2 as [V2 D2].
  apply spells_le in H3 as [V3 D3]. apply spells_bytes_fixed in H4 as [V4 D4]; [|done].
  apply spells_le in H5 as [V5 D5]. apply spells_bytes_fixed in H6 as [V6 D6]; [|lia].
  split; [lia|].
  rewrite V5, V4, V3, V2, V1 in D6. rewrite V4, V3, V2, V1 in D5. rewrite V3, V2, V1 in D4.
  rewrite V2, V1 in D3. rewrite V1 in D2. cbn [new_reader view_ pos_] in *. rewrite drop_0 in D1.
  rewrite D1, D2, D3, D4, D5, D6. unfold state_frame, w_bytes_fixed, w_u32, w_sha256.
  unfold r_remaining in Hr. rewrite V6, V5, V4, V3, V2, V1 in Hr. cbn [new_reader view_] in Hr.
  rewrite drop_ge by (unfold zlen in Hr; lia). rewrite app_nil_r, Hbody.
  rewrite u32_id by (unfold is_u32, kMaxBodyBytes in *; lia). done.
Qed.
