(* ===== verification/Recovery.v ===== *)
(** * Recovery: the theorems about saving and loading

    The writing of the state file under faults and crashes, the round trip of
    the state through it, the rejection of damaged files, the types of whatever
    is loaded, and the generations after a recovery. *)
From stdpp Require Import pretty.
From S2P Require Import Prelude Base Hash Model Dedup BinFormat Backend SyntheticBackend Store Publish Restore StateCodec FileSystem Persistence.

(** ** The name of the temporary file *)
Lemma split_on_extend s t : has_char "/" t = false →
  ∃ init last, split_on is_slash s = init ++ [last] ∧ split_on is_slash (s +:+ t) = init ++ [last +:+ t].
Proof.
  intros Ht. induction s as [|c s (init & last & E1 & E2)].
  { exists [], "". split; [done|]. by apply split_on_single. }
  change (String c s +:+ t) with (String c (s +:+ t)). cbn [split_on]. rewrite E1, E2.
  destruct (is_slash c).
  - by exists ("" :: init), last.
  - destruct init as [|w init]; [by exists [], (String c last)|]. by exists (String c w :: init), last.
Qed.

Lemma string_app_neq s t : t ≠ "" → s ≠ s +:+ t.
Proof.
  intros Ht E. apply (f_equal String.length) in E. rewrite string_length_app in E.
  destruct t; [done|]. simpl in E. lia.
Qed.

(** The temporary file is a different file of the same directory. *)
Lemma temp_path_spec path ticks :
  parse_path (temp_name path ticks) ≠ parse_path path ∧ parse_path (temp_name path ticks) ≠ [] ∧
  (∀ init last, split_on is_slash path = init ++ [last] → last ≠ "" →
     parent_path (parse_path (temp_name path ticks)) = parent_path (parse_path path)).
Proof.
  unfold temp_name, parse_path. set (t := ".tmp." +:+ pretty ticks).
  assert (t ≠ "") as Ht by done.
  assert (has_char "/" t = false) as Hs by (unfold t; rewrite has_char_app; apply pretty_Z_no_slash).
  destruct (split_on_extend path t Hs) as (init & last & E1 & E2). rewrite E1, E2, !filter_app.
  assert (last +:+ t ≠ "") as Hne by (intros E; apply (f_equal String.length) in E;
    rewrite string_length_app in E; destruct t; [done|]; simpl in E; lia).
  rewrite (filter_cons_True _ (last +:+ t)) by done. rewrite filter_nil.
  split; [|split; [by destruct (filter _ init)|]].
  - destruct (decide (last = "")) as [->|Hl].
    + rewrite filter_cons_False by naive_solver. intros E. apply (f_equal length) in E.
      rewrite !length_app in E. simpl in E. lia.
    + rewrite filter_cons_True, filter_nil by done. intros [_ [= E]]%app_inj_2; [|done].
      symmetry in E. by apply string_app_neq in E.
  - intros init' last' E Hl. apply app_inj_2 in E as [<- [= <-]]; [|done].
    rewrite filter_cons_True, filter_nil by done. unfold parent_path. rewrite !length_app.
    simpl. by rewrite !Nat.add_sub, !take_app_length.
Qed.

(** ** Writing the state file *)

Section state_file.
Variables (ticks : Z) (path : string) (data : list byte).
Let p : Path := parse_path path.
Let tmp : Path := parse_path (temp_name path ticks).
Hypothesis path_names_a_file : p ≠ [].

Lemma frames_before_rename old m : frames (touches (λ q, q = tmp)) m → frames (throughout (whole p old data)) (m : Fs bool).
Proof.
  intros Hm s. destruct (temp_path_spec path ticks) as (Hne & _ & _).
  apply (touches_throughout (λ q, q = tmp)); [|apply Hm]. intros E. by apply Hne.
Qed.

Lemma write_state_file s :
  throughout (whole p (file_at (fs_disk s) p) data) s (atomic_write_file ticks path data s).2 ∧
  ((atomic_write_file ticks path data s).1 = Ok tt →
     file_at (fs_disk (atomic_write_file ticks path data s).2) p = Some data).
Proof.
  destruct (temp_path_spec path ticks) as (Hne & Htn & _). fold p tmp in Hne, Htn.
  set (old := file_at (fs_disk s) p). set (W := whole p old data).
  set (Q := λ (r : result CheckpointStoreError unit) s',
    throughout W s s' ∧ (r = Ok tt → file_at (fs_disk s') p = Some data)).
  change (Q (atomic_write_file ticks path data s).1 (atomic_write_file ticks path data s).2).
  assert (∀ s1 e, throughout W s s1 → Q (Throw e) s1) as Hthrow by (intros; by split).
  unfold atomic_write_file. fold p tmp.
  apply (run_framed (throughout W)); [| |intros b1 s1 _ T1].
  { apply frames_before_rename. intros s'. eapply touches_weaken; [|apply frames_create_directories]. by intros q []. }
  { auto. }
  apply (run_framed (throughout W)); [by apply frames_before_rename, frames_open_trunc| |intros b2 s2 _ T2].
  { intros. apply Hthrow. by etrans. }
  assert (throughout W s s2) as T by (by etrans). clear T1 T2.
  destruct b2; [|by apply Hthrow]. rewrite raise_if_false.
  apply (run_framed (throughout W)); [by apply frames_before_rename, frames_write_stream| |intros good s3 E3 T3].
  { intros. apply Hthrow. by etrans. }
  assert (throughout W s s3) as T' by (by etrans). clear T T3.
  assert (good = true → file_at (fs_disk s3) tmp = Some data) as Hc.
  { intros ->. pose proof (write_stream_content tmp data s2 Htn) as H. rewrite E3 in H. by apply H. }
  destruct good.
  2: { apply (run_framed (throughout W)).
       - apply frames_bind; [apply _|apply frames_before_rename, frames_remove_path|].
         intros ?. apply frames_throw, _.
       - intros. apply Hthrow. by etrans.
       - intros a s4 E4 _. apply st_bind_ok in E4 as (? & ? & _ & [=]). }
  specialize (Hc eq_refl). rewrite (st_bind_run _ _ _ tt s3) by done.
  apply (run_framed (throughout W)); [intros s'; reflexivity| |intros present s4 E4 _].
  { intros. apply Hthrow. by etrans. }
  injection E4 as _ <-.
  apply (run_framed (throughout W)).
  { destruct present; [|apply frames_ret, _]. apply frames_bind; [apply _|apply frames_remove_throughout|].
    intros ?. apply frames_ret, _. }
  { intros. apply Hthrow. by etrans. }
  intros [] s4 E4 T4. assert (file_at (fs_disk s4) tmp = Some data) as Ht4.
  { rewrite <- Hc. destruct present; [|by injection E4 as <-].
    apply st_bind_ok in E4 as (b & s5 & E5 & [= <-]). pose proof (frames_remove_path p s3) as [K _].
    rewrite E5 in K. cbn in K. by apply K. }
  destruct (rename_throughout tmp p old data s4 Ht4 path_names_a_file) as [T5 C5].
  destruct (rename_path tmp p s4) as [[b5|e] s5] eqn:E5;
    [rewrite (st_bind_run _ _ _ _ _ E5)|rewrite (st_bind_run_throw _ _ _ _ _ E5)]; cbn [fst snd] in *.
  2: { apply Hthrow. do 2 (etrans; [eassumption|]). done. }
  split; [etrans; [apply T'|]; etrans; [apply T4|]; by destruct b5|].
  destruct b5; [|by intros [=]]. intros _. by apply C5.
Qed.

Lemma length_parent (q : Path) : q ≠ [] → length (parent_path q) = (length q - 1)%nat.
Proof. intros Hq. unfold parent_path. rewrite length_take. lia. Qed.

(** Without faults the write succeeds, unless something of the wrong kind is
    in the way. *)
Lemma write_state_file_total s init last :
  split_on is_slash path = init ++ [last] → last ≠ "" → quiet s →
  ancestors_free (fs_disk s) (parent_path p) → is_dir (fs_disk s) p = false →
  is_dir (fs_disk s) tmp = false →
  (atomic_write_file ticks path data s).1 = Ok tt.
Proof.
  intros Hl Hlast Hq Hf Hp Ht. destruct (temp_path_spec path ticks) as (Hne & Htn & Hpar).
  specialize (Hpar _ _ Hl Hlast). fold p tmp in Hne, Htn, Hpar.
  assert (length (parent_path p) < length p)%nat as Hlp.
  { rewrite length_parent by done. assert (length p ≠ 0%nat) by (by destruct p). lia. }
  assert (length (parent_path p) < length tmp)%nat as Hlt.
  { rewrite <- Hpar, length_parent by done. assert (length tmp ≠ 0%nat) by (by destruct tmp). lia. }
  unfold atomic_write_file. fold p tmp.
  destruct (create_directories_ok _ _ Hq Hf) as (s1 & E1 & Q1 & D1 & F1 & N1 & _).
  rewrite (st_bind_run _ _ _ _ _ E1).
  assert (is_dir (fs_disk s1) p = false) as Hp1 by (unfold is_dir in *; by rewrite N1).
  assert (is_dir (fs_disk s1) tmp = false) as Ht1 by (unfold is_dir in *; by rewrite N1).
  destruct (open_trunc_ok tmp s1 Q1 Ht1) as (s2 & E2 & Q2 & D2); [by rewrite Hpar|].
  rewrite (st_bind_run _ _ _ _ _ E2), raise_if_false.
  destruct (write_stream_ok tmp data s2 Q2) as (s3 & E3 & Q3 & D3).
  rewrite (st_bind_run _ _ _ _ _ E3), (st_bind_run _ _ _ tt s3) by done.
  rewrite (st_bind_run _ _ _ (exists_at (fs_disk s3) p) s3) by done.
  assert (∀ q, q ≠ tmp → node_at (fs_disk s3) q = node_at (fs_disk s1) q) as N3.
  { intros q Hqt. rewrite D3, D2. unfold node_at. destruct q; [done|]. by rewrite !lookup_insert_ne. }
  assert (file_at (fs_disk s3) tmp = Some data) as F3.
  { rewrite D3, file_at_insert by done. by rewrite bool_decide_eq_true_2. }
  assert (parent_path p ≠ tmp) as Hpt by (intros E; rewrite E in Hlt; lia).
  assert (∃ s4, (if exists_at (fs_disk s3) p then _ ← remove_path p; mret tt else mret tt) s3 = (Ok tt, s4) ∧
    quiet s4 ∧ (∀ q, q ≠ p → node_at (fs_disk s4) q = node_at (fs_disk s3) q) ∧
    is_dir (fs_disk s4) p = false) as (s4 & E4 & Q4 & N4 & Hp4).
  { assert (is_dir (fs_disk s3) p = false) as Hp3 by (unfold is_dir in *; by rewrite N3).
    unfold exists_at. destruct (node_at (fs_disk s3) p) as [[d|]|] eqn:En.
    - destruct (remove_file_ok p d s3 Q3) as (s4 & E4 & Q4 & D4); [unfold file_at; by rewrite En|].
      exists s4. rewrite (st_bind_run _ _ _ _ _ E4). split; [done|]. split; [done|]. rewrite D4. split.
      + intros q Hqp. unfold node_at. destruct q; [done|]. by rewrite lookup_delete_ne.
      + unfold is_dir, node_at. destruct p; [done|]. by rewrite lookup_delete_eq.
    - unfold is_dir in Hp3. by rewrite En in Hp3.
    - by exists s3. }
  rewrite (st_bind_run _ _ _ _ _ E4).
  destruct (rename_file_ok tmp p data s4 Q4) as (s5 & E5 & _); [| |done|].
  - unfold file_at in *. by rewrite N4.
  - unfold is_dir in *. assert (parent_path p ≠ p) by (intros E; rewrite E in Hlp; lia).
    rewrite N4, N3 by done. done.
  - by rewrite (st_bind_run _ _ _ _ _ E5).
Qed.
End state_file.

(** ** The saved bytes do not depend on the iteration order *)
#[export] Instance by_key_trans {A} (key : A → Z) : Transitive (by_key key).
Proof. intros a b c. unfold by_key. lia. Qed.
#[export] Instance by_key_total {A} (key : A → Z) : Total (by_key key).
Proof. intros a b. unfold by_key. lia. Qed.

Lemma sort_by_unique {A} (key : A → Z) (l k : list A) : l ≡ₚ k →
  (∀ a b, a ∈ l → b ∈ l → key a = key b → a = b) → sort_by key l = sort_by key k.
Proof.
  intros Hp Hinj. eapply (Sorted_unique_strong (by_key key)).
  - intros a b Ha Hb Hab Hba. apply Hinj; [by rewrite <- (sort_by_perm key l)| |unfold by_key in *; lia].
    by rewrite Hp, <- (sort_by_perm key k).
  - apply Sorted_merge_sort, _.
  - apply Sorted_merge_sort, _.
  - by rewrite !sort_by_perm.
Qed.

Lemma string_compare_trans a b c : String.compare a b ≠ Gt → String.compare b c ≠ Gt →
  String.compare a c ≠ Gt.
Proof.
  revert b c. induction a as [|x a IH]; intros [|y b] [|z c]; simpl; try done.
  unfold Ascii.compare.
  destruct (N.compare_spec (N_of_ascii x) (N_of_ascii y)) as [E1|E1|E1];
    destruct (N.compare_spec (N_of_ascii y) (N_of_ascii z)) as [E2|E2|E2]; try done;
    destruct (N.compare_spec (N_of_ascii x) (N_of_ascii z)) as [E3|E3|E3]; try done; try lia.
  apply IH.
Qed.
#[export] Instance string_leb_trans : Transitive string_leb_rel.
Proof.
  intros a b c. unfold string_leb_rel, String.leb. pose proof (string_compare_trans a b c) as H.
  repeat case_match; try done; naive_solver.
Qed.
#[export] Instance by_hex_trans : Transitive by_hex.
Proof. intros a b c. unfold by_hex. apply transitivity. Qed.
#[export] Instance by_hex_total : Total by_hex.
Proof. intros a b. apply String.leb_total. Qed.

Lemma values_inj `{Countable K} {A C} (O : IterOrder) (key : A → K) (f : A → C) (m : gmap K A) :
  keyed key m → (∀ a b, f a = f b → key a = key b) →
  ∀ a b, a ∈ values m → b ∈ values m → f a = f b → a = b.
Proof.
  intros Hk Hf a b. rewrite !values_perm, !list_elem_of_fmap.
  intros ([k1 a1] & -> & H1%elem_of_map_to_list) ([k2 a2] & -> & H2%elem_of_map_to_list) E%Hf.
  cbn in *. rewrite (Hk _ _ H1), (Hk _ _ H2) in E. subst k2. congruence.
Qed.

Lemma sorted_values_order `{Countable K} {A} (O1 O2 : IterOrder) (key : A → K) (f : A → Z) (m : gmap K A) :
  keyed key m → (∀ a b, f a = f b → key a = key b) →
  sort_by f (values (H:=O1) m) = sort_by f (values (H:=O2) m).
Proof.
  intros Hk Hf. apply sort_by_unique; [by rewrite !values_perm|]. by eapply values_inj.
Qed.

Lemma saved_dedup_order (O1 O2 : IterOrder) (t : DedupTable) :
  saved_dedup (H:=O1) t = saved_dedup (H:=O2) t.
Proof.
  eapply (Sorted_unique_strong by_hex).
  - intros [k1 e1] [k2 e2] H1 H2 H12 H21. rewrite saved_dedup_perm in H1. rewrite saved_dedup_perm in H2.
    apply elem_of_map_to_list in H1, H2.
    assert (k1 = k2) as -> by (apply hex_inj, String.leb_antisym; [apply H12|apply H21]). congruence.
  - apply Sorted_merge_sort, _.
  - apply Sorted_merge_sort, _.
  - by rewrite !saved_dedup_perm.
Qed.

(** All records are stored under their own ids. *)
Definition all_keyed {B} (s : CheckpointStore B) : Prop :=
  let i := s_impl s in
  keyed fam_id (im_families i) ∧ keyed (λ c, d_id (rec_descriptor c)) (im_checkpoints i) ∧
  keyed b_id (im_blobs i) ∧ keyed rp_id (im_replicas i) ∧ keyed pl_id (im_placements i) ∧
  keyed pol_id (im_retention i).

(** ** Whatever is loaded has the right type *)
Definition typed_map `{Countable K} {A} (P : A → Prop) (key : A → K) (m : gmap K A) : Prop :=
  keyed key m ∧ map_Forall (λ _ a, P a) m.

Definition typed {B} (s : CheckpointStore B) : Prop :=
  let i := s_impl s in
  wf_gen (s_coordinator_epoch s) ∧ wf_id (opt_boot_id (s_options s)) ∧ is_u64 (im_next_id_counter i) ∧
  valid_gc (im_gc i) ∧
  typed_map valid_family fam_id (im_families i) ∧
  typed_map valid_record (λ c, d_id (rec_descriptor c)) (im_checkpoints i) ∧
  typed_map valid_blob b_id (im_blobs i) ∧ typed_map valid_replica rp_id (im_replicas i) ∧
  typed_map valid_placement pl_id (im_placements i) ∧
  typed_map valid_retention pol_id (im_retention i) ∧
  map_Forall (λ k e, valid_dedup (k, e)) (s_dedup s).

Lemma typed_map_empty `{Countable K} {A} (P : A → Prop) (key : A → K) : typed_map P key ∅.
Proof. split; apply map_Forall_empty. Qed.
Lemma typed_map_insert `{Countable K} {A} (P : A → Prop) (key : A → K) (m : gmap K A) a :
  typed_map P key m → P a → typed_map P key (<[key a := a]> m).
Proof. intros [Hk Hm] Ha. split; by apply map_Forall_insert_2. Qed.

(** Statements that keep an invariant [I] of the store. *)
Definition keeps {B} (I : CheckpointStore B → Prop) (p p' : CheckpointStore B * BinReader) : Prop := I p.1 → I p'.1.
#[export] Instance keeps_preorder {B} (I : CheckpointStore B → Prop) : PreOrder (keeps I).
Proof. split; [by intros ??|intros a b c H1 H2 H; by apply H2, H1]. Qed.

Section keeps.
Context `{IterOrder} {B : Type} (I : CheckpointStore B → Prop).
Abbreviation Store := (ST (CheckpointStore B) CheckpointStoreError).

Lemma keeps_on_reader {A} (p : Reader A) : frames (keeps I) (on_reader (B:=B) p).
Proof. intros [s r] Hs. unfold on_reader, zoom. cbn. by destruct (p r). Qed.
Lemma keeps_on_store {A} (m : Store A) : (∀ s, I s → I (m s).2) → frames (keeps I) (on_store m).
Proof. intros Hm [s r] Hs. specialize (Hm s Hs). unfold on_store, zoom. cbn in *. by destruct (m s). Qed.

(** A value that was read satisfies what its reader yields. *)
Lemma keeps_read {A} (p : Reader A) (P : A → Prop) (k : A → Store unit) :
  yields p P → (∀ a s, P a → I s → I (k a s).2) →
  frames (keeps I) (x ← on_reader p; on_store (k x)).
Proof.
  intros Hp Hk [s r] Hs. unfold on_reader, on_store, zoom, mbind, ST_bind. cbn [fst snd].
  destruct (p r) as [[a|e] r'] eqn:E; cbn; [|done].
  specialize (Hk a s (Hp _ _ _ E) Hs). by destruct (k a s).
Qed.
Lemma keeps_field {A} (p : Reader A) (P : A → Prop) (assign : A → CheckpointStore B → CheckpointStore B) :
  yields p P → (∀ a s, P a → I s → I (assign a s)) → frames (keeps I) (load_field p assign).
Proof. intros Hp Hk. by apply (keeps_read p P (λ x, modify (assign x))). Qed.

Lemma keeps_each {A} {C : Codec A} (add : A → Store unit) :
  (∀ a s, valid a → I s → I (add a s).2) → frames (keeps I) (load_each decode add).
Proof.
  intros Hadd. unfold load_each. solve_frames; [apply keeps_on_reader|].
  match goal with |- frames _ (times ?n _) => generalize n end. intros n.
  induction n as [|n IH]; simpl; [apply frames_ret, _|].
  apply frames_bind; [apply _|eapply keeps_read; [apply decode_valid|exact Hadd]|intros _; apply IH].
Qed.
End keeps.

(** One goal per statement of a sequence. *)
Ltac frames_chain :=
  lazymatch goal with
  | |- frames _ (_ ≫= _) => apply frames_bind; [apply _| |intros _; frames_chain]
  | _ => idtac
  end.

Section typed.
Context `{IterOrder} {B : Type}.

Lemma add_unique_after `{Countable K} {A} (I : CheckpointStore B → Prop) (field : Impl → gmap K A) put key (a : A) msg s :
  (I s → I (set_impl (put (<[key := a]>)) s)) → I s → I (add_unique field put key a msg s).2.
Proof.
  intros Hi Hs. unfold add_unique, get_impl, gets, mbind, ST_bind. cbn beta iota.
  case_bool_decide; [done|]. by apply Hi.
Qed.

Ltac split_typed H :=
  let i := fresh in destruct H as (?&?&?&?&?&?&?&?&?&?&?).
Ltac typed_by := unfold typed, set_impl; cbn; split_and!; eauto using typed_map_insert.

Lemma typed_add_family a (s : CheckpointStore B) : valid_family a → typed s → typed (add_family a s).2.
Proof.
  intros Ha Hs. unfold add_family, add_unique, get_impl, gets, mbind, ST_bind. cbn beta iota.
  case_bool_decide; [done|]. split_typed Hs. typed_by.
Qed.
Lemma typed_add_record a (s : CheckpointStore B) : valid_record a → typed s → typed (add_record a s).2.
Proof.
  intros Ha Hs. unfold add_record, add_unique, get_impl, gets, mbind, ST_bind. cbn beta iota.
  case_bool_decide; [done|]. split_typed Hs. typed_by. by apply (typed_map_insert _ (λ c, d_id (rec_descriptor c))).
Qed.
Lemma typed_add_dedup kv (s : CheckpointStore B) : valid_dedup kv → typed s → typed (add_dedup kv s).2.
Proof.
  intros Ha Hs. unfold add_dedup, gets, mbind, ST_bind. cbn beta iota.
  destruct (dedup_contains _ _); [done|]. split_typed Hs. typed_by.
  destruct kv as [k e]. pose proof Ha as (_ & Hd & _). cbn in *. subst k. by apply map_Forall_insert_2.
Qed.

Lemma typed_load_body : frames (keeps typed) (load_body (B:=B)).
Proof.
  unfold load_body. apply frames_bind; [apply _| |intros _].
  2: { solve_frames; [destruct (negb _); [apply frames_throw, _|apply frames_ret, _]|].
       apply keeps_on_store. intros s Hs. split_typed Hs. typed_by. }
  unfold load_records. frames_chain.
  - apply keeps_on_store. intros s Hs. split_typed Hs. typed_by; auto using typed_map_empty; by repeat split.
  - unfold load_header. frames_chain;
      (eapply keeps_field; [solve [eauto with yields]|]); intros v s Hv Hs; split_typed Hs; typed_by.
  - eapply (keeps_each typed (C:=family_codec)). apply typed_add_family.
  - eapply (keeps_each typed (C:=record_codec)). apply typed_add_record.
  - apply keeps_on_store. intros s Hs. split_typed Hs. typed_by.
  - eapply (keeps_each typed (C:=blob_codec)). intros a s Ha. apply add_unique_after. intros Hs. split_typed Hs. typed_by.
  - eapply (keeps_each typed (C:=replica_codec)). intros a s Ha. apply add_unique_after. intros Hs. split_typed Hs. typed_by.
  - eapply (keeps_each typed (C:=placement_codec)). intros a s Ha. apply add_unique_after. intros Hs. split_typed Hs. typed_by.
  - eapply (keeps_each typed (C:=retention_codec)). intros a s Ha. apply add_unique_after. intros Hs. split_typed Hs. typed_by.
  - unfold load_gc. frames_chain;
      (eapply keeps_field; [solve [eauto with yields]|]); intros v s Hv Hs;
      destruct Hs as (?&?&?&(?&?&?&?&?)&?&?&?&?&?&?&?); typed_by; unfold valid_gc, set_gc, set_impl; cbn; by split_and!.
  - eapply (keeps_each typed (C:=dedup_codec)). apply typed_add_dedup.
Qed.
End typed.

(** ** Loading stays inside the body *)
Definition reader_in_bounds {B} (p p' : CheckpointStore B * BinReader) : Prop := in_bounds p.2 p'.2.
#[export] Instance reader_in_bounds_preorder {B} : PreOrder (@reader_in_bounds B).
Proof. split; [by intros p; red|intros a b c]. unfold reader_in_bounds. apply transitivity. Qed.

Section bounds.
Context `{IterOrder} {B : Type}.
Abbreviation Store := (ST (CheckpointStore B) CheckpointStoreError).

Lemma bounds_on_reader {A} (p : Reader A) : frames in_bounds p → frames reader_in_bounds (on_reader (B:=B) p).
Proof. intros Hp [s r]. specialize (Hp r). unfold on_reader, zoom. cbn. by destruct (p r). Qed.
Lemma bounds_on_store {A} (m : Store A) : frames reader_in_bounds (on_store m).
Proof. intros [s r]. unfold on_store, zoom. cbn. destruct (m s). by red. Qed.
Lemma bounds_field {A} (p : Reader A) (assign : A → CheckpointStore B → CheckpointStore B) :
  frames in_bounds p → frames reader_in_bounds (load_field p assign).
Proof.
  intros Hp. unfold load_field. apply frames_bind; [apply _|by apply bounds_on_reader|].
  intros. apply bounds_on_store.
Qed.
Lemma bounds_each {A} (p : Reader A) (add : A → Store unit) :
  frames in_bounds p → frames reader_in_bounds (load_each p add).
Proof.
  intros Hp. unfold load_each. solve_frames; [apply bounds_on_reader, bounds_u32|].
  match goal with |- frames _ (times ?n _) => generalize n end. intros n.
  induction n as [|n IH]; simpl; [apply frames_ret, _|].
  apply frames_bind; [apply _| |intros _; apply IH].
  apply frames_bind; [apply _|by apply bounds_on_reader|intros; apply bounds_on_store].
Qed.

Lemma bounds_load_body : frames reader_in_bounds (load_body (B:=B)).
Proof.
  unfold load_body. apply frames_bind; [apply _| |intros _].
  2: { solve_frames; [destruct (negb _); [apply frames_throw, _|apply frames_ret, _]|apply bounds_on_store]. }
  unfold load_records, load_header, load_gc. frames_chain;
    first [apply bounds_on_store | apply bounds_each; solve [eauto using bounds_dedup with bounds] | idtac].
  all: frames_chain; apply bounds_field; solve [eauto with bounds].
Qed.
End bounds.

Lemma bounds_parse_frame : frames in_bounds parse_frame.
Proof.
  assert (∀ c code msg, frames in_bounds (raise_if (S:=BinReader) c code msg)) as Hr.
  { intros [] code msg; [apply frames_throw, _|apply frames_ret, _]. }
  unfold parse_frame. apply frames_bind; [apply _|by apply bounds_bytes_fixed|intros m].
  apply frames_bind; [apply _|apply Hr|intros _]. apply frames_bind; [apply _|apply bounds_u32|intros v].
  apply frames_bind; [apply _|apply Hr|intros _].
  intros r. unfold mbind at 1, ST_bind at 1. pose proof (bounds_u32 r) as H3.
  destruct (r_u32 r) as [[n|e] r1] eqn:E; cbn [snd] in *; [|done]. apply yields_u32 in E as [Hn _].
  etrans; [apply H3|]. clear H3. revert r1. match goal with |- ∀ r1, in_bounds r1 (?m r1).2 => change (frames in_bounds m) end.
  apply frames_bind; [apply _|apply Hr|intros _].
  apply frames_bind; [apply _|by apply bounds_bytes_fixed|intros b].
  solve_frames; eauto using bounds_u32, bounds_sha256.
Qed.

(** ** Generations after a recovery *)
Lemma raise_generation_lookup f g m f' : raise_generation f g m !! f' =
  if decide (f' = f) then Some (mkGen (Z.max (gen_value (default first_gen (m !! f))) (gen_value g)))
  else m !! f'.
Proof.
  unfold raise_generation, precedes. case_decide as E; [subst f'|by rewrite lookup_insert_ne].
  rewrite lookup_insert_eq. destruct (default first_gen (m !! f)) as [a], g as [b]. cbn.
  destruct (Z.ltb_spec a b); do 2 f_equal; lia.
Qed.

(** The table after all the records: above every one of them, and no higher
    than needed. *)
Lemma raise_generations_spec l m f g : raise_generations l m !! f = Some g →
  (∀ c, c ∈ l → d_family_id (rec_descriptor c) = f → gen_value (d_generation (rec_descriptor c)) ≤ gen_value g) ∧
  (∀ g0, m !! f = Some g0 → gen_value g0 ≤ gen_value g) ∧
  (m !! f = Some g ∨ g = first_gen ∨
   ∃ c, c ∈ l ∧ d_family_id (rec_descriptor c) = f ∧ d_generation (rec_descriptor c) = g).
Proof.
  revert m. induction l as [|c l IH]; intros m Hg; cbn in Hg.
  { split; [|split; [|by left]]; [by intros c Hc%elem_of_nil|]. intros g0 H0. rewrite H0 in Hg. by simplify_eq. }
  apply IH in Hg as (Hl & Hm & Hor). rewrite raise_generation_lookup in Hm, Hor.
  destruct (decide (f = d_family_id (rec_descriptor c))) as [->|Hf].
  - specialize (Hm _ eq_refl). cbn in Hm.
    split; [intros c' [->|Hc]%elem_of_cons Hfc; [lia|by apply Hl]|]. split.
    + intros g0 H0. rewrite H0 in Hm. cbn in Hm. lia.
    + destruct Hor as [[= Hor]|[->|(c' & Hc & Hfc & Hgc)]]; [|by right; left|].
      2: { right; right. exists c'. split; [by right|done]. }
      destruct (Z.max_spec (gen_value (default first_gen (m !! d_family_id (rec_descriptor c))))
        (gen_value (d_generation (rec_descriptor c)))) as [[_ E]|[_ E]]; rewrite E in Hor; subst g.
      * right; right. exists c. split; [left|]. split; [done|]. by destruct (d_generation _).
      * destruct (m !! d_family_id (rec_descriptor c)) as [[v]|]; cbn; [by left|by right; left].
  - split; [intros c' [->|Hc]%elem_of_cons Hfc; [by subst f|by apply Hl]|]. split; [done|].
    destruct Hor as [Hor|[Hor|(c' & Hc & Hfc & Hgc)]]; [by left|by right; left|].
    right; right. exists c'. split; [by right|done].
Qed.

Lemma raise_generations_dom l m f :
  (is_Some (m !! f) ∨ ∃ c, c ∈ l ∧ d_family_id (rec_descriptor c) = f) → is_Some (raise_generations l m !! f).
Proof.
  revert m. induction l as [|c l IH]; intros m [Hm|(c' & Hc & Hf)]; [done|by apply elem_of_nil in Hc| |];
    cbn; apply IH.
  - left. rewrite raise_generation_lookup. by case_decide.
  - apply elem_of_cons in Hc as [->|Hc]; [|by right; exists c'].
    left. rewrite raise_generation_lookup. by rewrite decide_True.
Qed.

Lemma family_generations_lookup l m f : f ∈ (fam_id <$> l) → family_generations l m !! f = Some (mkGen 1).
Proof.
  revert m. induction l as [|x l IH] using rev_ind; intros m Hf; [by apply elem_of_nil in Hf|].
  unfold family_generations. rewrite foldl_app. cbn. rewrite fmap_app in Hf.
  destruct (decide (f = fam_id x)) as [->|Hne]; [by rewrite lookup_insert_eq|].
  rewrite lookup_insert_ne by done. apply IH. set_solver.
Qed.

Lemma family_generations_first l :
  map_Forall (λ _ x, x = mkGen 1) (family_generations l ∅).
Proof.
  assert (∀ (m : gmap CheckpointFamilyId CheckpointGeneration), map_Forall (λ _ x, x = mkGen 1) m →
    map_Forall (λ _ x, x = mkGen 1) (family_generations l m)) as Hall.
  { induction l as [|x l IH]; intros m Hm; [done|]. cbn. apply IH. by apply map_Forall_insert_2. }
  apply Hall, map_Forall_empty.
Qed.

(** ** Claims *)
Section claims.
Context `{IterOrder} {B : Type}.
Implicit Types (s t : CheckpointStore B) (fs : FileSystem).

Definition state_path (s : CheckpointStore B) : Path := parse_path (opt_state_path (s_options s)).

(** C8: Saving is safe against faults and crashes.  In every state the disk
    goes through, whatever fails, the state file holds what it held before,
    or nothing, or the whole new frame, never a part of it; when the call
    returns it holds the new frame; the store itself is not changed; and
    without faults, with nothing of the wrong kind in the way, it returns. *)
Theorem save_state_never_torn ticks s fs : state_path s ≠ [] →
  let out := save_state ticks (s, fs) in
  let old := file_at (fs_disk fs) (state_path s) in
  let frame := state_frame (save_body s) in
  out.2.1 = s ∧
  (whole (state_path s) old frame (fs_disk out.2.2) ∧
   ∃ new, fs_log out.2.2 = new ++ fs_log fs ∧ Forall (whole (state_path s) old frame) new) ∧
  (out.1 = Ok tt → file_at (fs_disk out.2.2) (state_path s) = Some frame) ∧
  (∀ init last, split_on is_slash (opt_state_path (s_options s)) = init ++ [last] → last ≠ "" →
     quiet fs → ancestors_free (fs_disk fs) (parent_path (state_path s)) →
     is_dir (fs_disk fs) (state_path s) = false →
     is_dir (fs_disk fs) (parse_path (temp_name (opt_state_path (s_options s)) ticks)) = false →
     out.1 = Ok tt).
Proof.
  intros Hp. cbv zeta. unfold save_state, gets, on_fs, zoom, mbind, ST_bind. cbn [fst snd].
  destruct (write_state_file ticks (opt_state_path (s_options s)) (state_frame (save_body s)) Hp fs) as [Ht Hok].
  pose proof (write_state_file_total ticks (opt_state_path (s_options s)) (state_frame (save_body s)) Hp fs) as Htot.
  destruct (atomic_write_file ticks (opt_state_path (s_options s)) (state_frame (save_body s)) fs) as [r fs'].
  cbn [fst snd] in *. split; [done|]. split; [apply Ht; by left|]. by split.
Qed.

Lemma save_state_keeps_store ticks s fs : (save_state ticks (s, fs)).2.1 = s.
Proof.
  unfold save_state, gets, on_fs, zoom, mbind, ST_bind. cbn [fst snd].
  by destruct (atomic_write_file _ _ _ _).
Qed.

(** Loading a file that holds what [s] saves. *)
Lemma load_saved s t fs : persistable s → s_dedup t = ∅ →
  file_at (fs_disk fs) (state_path t) = Some (state_frame (save_body s)) →
  load_state (t, fs) = (Ok tt, (recovered s t, fs)).
Proof.
  intros Hs Ht Hf. unfold state_path in Hf.
  unfold load_state, gets, on_fs, zoom, read_file, read_stream, lift_result, mbind, ST_bind. cbn [fst snd].
  unfold gets. cbn [fst snd]. rewrite Hf. unfold mret, ST_ret. cbn [fst snd].
  rewrite check_frame_ok by apply Hs. by rewrite rebuild_ok.
Qed.

(** C7: The state survives the file: what a store saves, a store that starts
    with an empty dedup table loads back completely: epoch, authority boot,
    families, checkpoints (their creation time kept to the millisecond), blobs,
    replicas, placements, policies, collection state, dedup entries and the
    kept counters; the other counters are recounted. *)
Theorem save_load_round_trip ticks s t fs s' fs' :
  persistable s → s_dedup t = ∅ → state_path s ≠ [] →
  opt_state_path (s_options t) = opt_state_path (s_options s) →
  save_state ticks (s, fs) = (Ok tt, (s', fs')) →
  s' = s ∧ load_state (t, fs') = (Ok tt, (recovered s t, fs')).
Proof.
  intros Hs Ht Hp Hpath. unfold save_state, gets, on_fs, zoom, mbind at 1, ST_bind at 1. cbn [fst snd].
  destruct (write_state_file ticks (opt_state_path (s_options s)) (state_frame (save_body s)) Hp fs) as [_ Hok].
  destruct (atomic_write_file ticks (opt_state_path (s_options s)) (state_frame (save_body s)) fs) as [r fs1].
  cbn [fst snd] in *. intros [= -> <- <-]. split; [done|]. apply load_saved; [done..|].
  unfold state_path. rewrite Hpath. by apply Hok.
Qed.

(** C21: Only intact files are loaded.  Loading never writes to the disk; a file
    that is not the frame of a body of admissible size (truncated, extended,
    altered, with another magic, version, checksum or digest) is refused and the
    store stays as it was; of a frame exactly its body goes to the decoder, which
    may still refuse it. *)
Theorem load_state_intact_only t fs :
  let out := load_state (t, fs) in
  out.2.2 = fs ∧
  match file_at (fs_disk fs) (state_path t) with
  | None => out.1 = throw_error ErrorCode.kNotFound "state file not found" ∧ out.2.1 = t
  | Some raw =>
      (∃ body, zlen body ≤ kMaxBodyBytes ∧ raw = state_frame body ∧
         (out.1, out.2.1) = rebuild body t) ∨
      ((∀ body, zlen body ≤ kMaxBodyBytes → raw ≠ state_frame body) ∧
         is_ok out.1 = false ∧ out.2.1 = t)
  end.
Proof.
  cbv zeta. unfold load_state, gets, on_fs, zoom, read_file, read_stream, lift_result, mbind, ST_bind.
  cbn [fst snd]. unfold gets. cbn [fst snd]. unfold state_path.
  destruct (file_at (fs_disk fs) (parse_path (opt_state_path (s_options t)))) as [raw|]; [|done].
  unfold mret, ST_ret. cbn [fst snd]. destruct (check_frame raw) as [body|e] eqn:E.
  - apply check_frame_only in E as [Hb ->]. destruct (rebuild body t) as [r t'] eqn:Er. cbn.
    split; [done|]. left. exists body. by rewrite Er.
  - cbn [fst snd is_ok]. split; [done|]. right. split; [|done]. intros body Hb ->.
    by rewrite check_frame_ok in E.
Qed.

(** C22: Loading is type-safe: from a well-typed store, whatever the bytes of the
    file and whether or not the loading completes, every record of the store
    is stored under its own id, every integer of a record has its width (the
    accounting counters are left out), every vector is
    below the record ceiling, every digest has 32 bytes and every enumeration
    fits its byte. *)
Theorem load_state_typed t fs : typed t → typed (load_state (t, fs)).2.1.
Proof.
  intros Ht. unfold load_state, gets, on_fs, zoom, read_file, read_stream, lift_result, mbind, ST_bind.
  cbn [fst snd]. unfold gets. cbn [fst snd].
  destruct (file_at (fs_disk fs) (parse_path (opt_state_path (s_options t)))) as [raw|]; [|done].
  unfold mret, ST_ret. cbn [fst snd]. destruct (check_frame raw) as [body|e]; [|done].
  pose proof (typed_load_body (t, new_reader body) Ht) as Hl. cbn [fst snd]. unfold rebuild.
  by destruct (load_body (t, new_reader body)) as [r [t' r']].
Qed.

(** C33: Parsing stays inside its input: whatever the bytes, neither the frame
    parser nor the loading of the body moves its position beyond the end of
    the view, and the view is never replaced. *)
Theorem load_state_in_bounds raw body t :
  in_bounds (new_reader raw) (parse_frame (new_reader raw)).2 ∧
  (pos_ (parse_frame (new_reader raw)).2 ≤ length raw)%nat ∧
  in_bounds (new_reader body) (load_body (t, new_reader body)).2.2 ∧
  (pos_ (load_body (t, new_reader body)).2.2 ≤ length body)%nat.
Proof.
  pose proof (bounds_parse_frame (new_reader raw)) as H1.
  pose proof (bounds_load_body (t, new_reader body)) as H2.
  split; [done|]. split; [apply H1; cbn; lia|]. split; [done|]. apply H2. cbn. lia.
Qed.

(** C23: No generation is issued twice across a recovery: after a new store has
    loaded what [s] saved, the next generation of a family follows that of
    every checkpoint recovered for it, and is the successor of the highest one,
    or of the first generation. *)
Theorem recovery_generations_fresh s t r t' :
  persistable s → s_dedup t = ∅ → im_next_checkpoint_generation (s_impl t) = ∅ →
  (∀ id rec, im_checkpoints (s_impl s) !! id = Some rec →
     gen_value (d_generation (rec_descriptor rec)) < 2 ^ 64 - 1) →
  rebuild (save_body s) t = (r, t') →
  r = Ok tt ∧
  (∀ id rec, im_checkpoints (s_impl t') !! id = Some rec →
     ∃ g, im_next_checkpoint_generation (s_impl t') !! d_family_id (rec_descriptor rec) = Some g ∧
       precedes (d_generation (rec_descriptor rec)) g = true) ∧
  (∀ f g, im_next_checkpoint_generation (s_impl t') !! f = Some g →
     ∃ g0, g = next g0 ∧ (g0 = first_gen ∨ ∃ id rec, im_checkpoints (s_impl t') !! id = Some rec ∧
       d_family_id (rec_descriptor rec) = f ∧ d_generation (rec_descriptor rec) = g0)).
Proof.
  intros Hs Ht Hn Hmax. rewrite rebuild_ok by done. intros [= <- <-]. split; [done|].
  destruct Hs as (_ & _ & _ & _ & _ & _ & (Hk & Hv & _) & _).
  unfold recovered, set_impl, with_records. cbn. rewrite Hn. unfold recovered_generations.
  assert (∀ c, c ∈ saved_checkpoints (s_impl s) →
    im_checkpoints (s_impl s) !! d_id (rec_descriptor c) = Some c) as Hin.
  { intros c. unfold saved_checkpoints. rewrite sort_by_perm, values_perm, list_elem_of_fmap.
    intros ([k c'] & -> & Hc%elem_of_map_to_list). cbn. by rewrite (Hk _ _ Hc). }
  assert (∀ id rec, im_checkpoints (s_impl s) !! id = Some rec → rec ∈ saved_checkpoints (s_impl s)) as Hin'.
  { intros id rec Hc. unfold saved_checkpoints. rewrite sort_by_perm, values_perm, list_elem_of_fmap.
    exists (id, rec). split; [done|]. by apply elem_of_map_to_list. }
  split.
  - intros id rec. rewrite lookup_fmap. intros (rec0 & Hc & ->)%fmap_Some. cbn.
    destruct (raise_generations_dom (saved_checkpoints (s_impl s))
      (family_generations (saved_families (s_impl s)) ∅) (d_family_id (rec_descriptor rec0))) as [g Hg].
    { right. exists rec0. split; [by eapply Hin'|done]. }
    rewrite lookup_fmap, Hg. exists (next g). split; [done|].
    destruct (raise_generations_spec _ _ _ _ Hg) as (Hl & _ & Hor).
    specialize (Hl rec0 (Hin' _ _ Hc) eq_refl). pose proof (Hv _ _ Hc) as ((_&_&(Hg0&_)&_)&_).
    unfold precedes, next, incr64. cbn. apply Z.ltb_lt. rewrite u64_id; [lia|].
    assert (gen_value g < 2 ^ 64 - 1); [|unfold is_u64; lia].
    destruct Hor as [Hor|[->|(c & Hcl & _ & <-)]]; [|done|by eapply Hmax, Hin].
    by rewrite (family_generations_first _ _ _ Hor).
  - intros f g. rewrite lookup_fmap. intros (g0 & Hg & ->)%fmap_Some. exists g0. split; [done|].
    destruct (raise_generations_spec _ _ _ _ Hg) as (_ & _ & [Hor|[->|(c & Hc & Hf & Hgc)]]); [|by left|].
    + left. apply (family_generations_first _ _ _ Hor).
    + right. exists (d_id (rec_descriptor c)), (canon_record c). rewrite lookup_fmap. by rewrite (Hin _ Hc).
Qed.
End claims.

(** C34: The saved bytes are deterministic: they do not depend on the order in
    which the hash tables are traversed. *)
Theorem save_deterministic (O1 O2 : IterOrder) {B} (s : CheckpointStore B) :
  all_keyed s → save_body (H:=O1) s = save_body (H:=O2) s.
Proof.
  intros (H1 & H2 & H3 & H4 & H5 & H6).
  assert (∀ Tag (a b : BasicId Tag), id_value a = id_value b → a = b) as Hid.
  { by intros Tag [a] [b]; cbn; intros ->. }
  unfold save_body, saved_families, saved_checkpoints, saved_blobs, saved_replicas, saved_placements,
    saved_retention. cbv zeta.
  rewrite (sorted_values_order O1 O2 fam_id), (sorted_values_order O1 O2 (λ c, d_id (rec_descriptor c))),
    (sorted_values_order O1 O2 b_id), (sorted_values_order O1 O2 rp_id), (sorted_values_order O1 O2 pl_id),
    (sorted_values_order O1 O2 pol_id), (saved_dedup_order O1 O2); auto.
Qed.

(** ** The demonstration store, saved and recovered *)
Definition demo_saved : CheckpointStore SyntheticBackend :=
  demo_published <| s_options ::= λ o, o <| opt_state_path := "var/cps/state.bin" |> |>.
Definition demo_fresh : CheckpointStore SyntheticBackend :=
  new_store (default_StoreOptions <| opt_state_path := "var/cps/state.bin" |>) (λ _, demo_backend).
Definition empty_disk : FileSystem := mkFs ∅ [] [] None.

Lemma demo_persistable : persistable (H:=canonical_order) demo_saved.
Proof. apply (bool_decide_unpack _). vm_compute. exact I. Qed.

Definition demo_save : outcome unit * (CheckpointStore SyntheticBackend * FileSystem) :=
  save_state (H:=canonical_order) 42 (demo_saved, empty_disk).

Lemma save_state_never_torn_witness :
  demo_save.1 = Ok tt ∧
  file_at (fs_disk demo_save.2.2) ["var"; "cps"; "state.bin"] =
    Some (state_frame (save_body (H:=canonical_order) demo_saved)).
Proof.
  destruct (save_state_never_torn (H:=canonical_order) 42 demo_saved empty_disk ltac:(done))
    as (_ & _ & Hok & Hquiet).
  assert (demo_save.1 = Ok tt) as E.
  { apply (Hquiet ["var"; "cps"] "state.bin"); [reflexivity|done|by constructor| |reflexivity|reflexivity].
    intros [|[|[|k]]]; reflexivity. }
  split; [exact E|]. exact (Hok E).
Defined.

Definition demo_fs : FileSystem := demo_save.2.2.
Lemma demo_save_ok : save_state (H:=canonical_order) 42 (demo_saved, empty_disk) = (Ok tt, (demo_saved, demo_fs)).
Proof.
  assert (is_ok demo_save.1 = true) as E1 by (vm_compute; reflexivity).
  assert (demo_save.2.1 = demo_saved) as E2 by apply save_state_keeps_store.
  unfold demo_fs. fold demo_save. destruct demo_save as [[[]|e] [s' fs']]; [|discriminate E1].
  cbn [fst snd] in *. by rewrite E2.
Qed.

Lemma save_load_round_trip_witness :
  load_state (H:=canonical_order) (demo_fresh, demo_fs) =
    (Ok tt, (recovered (H:=canonical_order) demo_saved demo_fresh, demo_fs)).
Proof.
  assert (s_dedup demo_fresh = ∅) as E1 by reflexivity.
  assert (state_path demo_saved ≠ []) as E2 by discriminate.
  assert (opt_state_path (s_options demo_fresh) = opt_state_path (s_options demo_saved)) as E3 by (vm_compute; reflexivity).
  destruct (save_load_round_trip (H:=canonical_order) 42 demo_saved demo_fresh empty_disk demo_saved demo_fs
    demo_persistable E1 E2 E3 demo_save_ok) as [_ E]. exact E.
Defined.

Lemma load_state_typed_witness :
  typed (load_state (H:=canonical_order) (demo_fresh, demo_save.2.2)).2.1.
Proof.
  apply load_state_typed. apply (bool_decide_unpack _). vm_compute. exact I.
Defined.

Definition demo_rebuilt : outcome unit * CheckpointStore SyntheticBackend :=
  rebuild (H:=canonical_order) (save_body (H:=canonical_order) demo_saved) demo_fresh.

Lemma recovery_generations_fresh_witness :
  demo_rebuilt.1 = Ok tt ∧
  im_next_checkpoint_generation (s_impl demo_rebuilt.2) !! mkId 1 = Some (mkGen 2).
Proof.
  split; [|vm_compute; reflexivity].
  refine (proj1 (recovery_generations_fresh (H:=canonical_order) demo_saved demo_fresh demo_rebuilt.1
    demo_rebuilt.2 demo_persistable _ _ _ (surjective_pairing demo_rebuilt))); [reflexivity|reflexivity|].
  apply (map_Forall_lookup (λ _ rec, gen_value (d_generation (rec_descriptor rec)) < 2 ^ 64 - 1)
    (im_checkpoints (s_impl demo_saved))).
  apply (bool_decide_unpack _). vm_compute. exact I.
Defined.

(** The same tables traversed backwards. *)
Definition reverse_order : IterOrder :=
  {| iter_order K _ _ A m := rev (map_to_list m);
     iter_order_perm K _ _ A m := symmetry (Permutation_rev (map_to_list m)) |}.

Lemma save_deterministic_witness :
  save_body (H:=canonical_order) demo_saved = save_body (H:=reverse_order) demo_saved.
Proof.
  apply save_deterministic. apply (bool_decide_unpack _). vm_compute. exact I.
Defined.

(** ** What the format leaves out *)

(** The allocator of family ids is not saved.  The family a recovered store
    creates first gets an id that is in use: the record of the old family
    stays, and its next generation starts over. *)
Example family_id_reused_after_recovery :
  let s := demo_rebuilt.2 in
  let out := create_family (mkId 9) Provenance.kUnknown s in
  im_families (s_impl s) !! mkId 1 ≠ None ∧ out.1 = Ok (mkId 1) ∧
  im_families (s_impl out.2) !! mkId 1 = im_families (s_impl s) !! mkId 1 ∧
  im_next_checkpoint_generation (s_impl s) !! mkId 1 = Some (mkGen 2) ∧
  im_next_checkpoint_generation (s_impl out.2) !! mkId 1 = Some (mkGen 1).
Proof. cbv zeta. split; [vm_compute; discriminate|]. vm_compute. by repeat split. Qed.

(** The state file is removed before the new one takes its place: a process
    that dies in between leaves none. *)
Example save_state_gap :
  let p := ["var"; "cps"; "state.bin"] in
  let first := atomic_write_file 42 "var/cps/state.bin" [x41] empty_disk in
  let again := atomic_write_file 43 "var/cps/state.bin" [x42] first.2 in
  file_at (fs_disk first.2) p = Some [x41] ∧ again.1 = Ok tt ∧ Exists (λ m, file_at m p = None)
    (take (length (fs_log again.2) - length (fs_log first.2)) (fs_log again.2)).
Proof.
  cbv zeta. split; [|split].
  - vm_compute. reflexivity.
  - vm_compute. reflexivity.
  - apply (bool_decide_unpack _). vm_compute. exact I.
Qed.
