(* ===== verification/LocalBackend.v ===== *)
(** * LocalBackend: the filesystem backend

    [include/checkpointstore/storage/local_backend.hpp] and
    [src/local_backend.cpp], over the disk of FileSystem.v: the POSIX build,
    where [fsync_path] does nothing.  An object owns the disk it works on; the
    mutex around the staging table is not modelled. *)
From stdpp Require Import pretty.
From S2P Require Import Prelude Base Hash Model Backend FileSystem.

Record LocalBackend := mkLocal {
  lo_root : Path;
  lo_descriptor : BackendDescriptor;
  lo_capabilities : BackendCapabilities;
  lo_seq : Z;
  lo_staged : gmap string Path;
  lo_fs : FileSystem
}.
#[export] Instance eta_LocalBackend : Eta LocalBackend := λ r,
  mkLocal (lo_root r) (lo_descriptor r) (lo_capabilities r) (lo_seq r) (lo_staged r) (lo_fs r).

Abbreviation LoST := (ST LocalBackend CheckpointStoreError).
Definition on_disk {A} (m : Fs A) : LoST A := zoom lo_fs (λ fs b, b <| lo_fs := fs |>) m.

(** ** Helpers *)
Definition flatten_key (key : string) : string := string_map (λ c, if is_slash c then "_"%char else c) key.

Definition local_capabilities : BackendCapabilities :=
  fold_left (λ cs c, set_capability c cs)
    [BackendCapability.kPersistent; BackendCapability.kAtomicRename; BackendCapability.kFsync;
     BackendCapability.kRandomRead; BackendCapability.kRandomWrite; BackendCapability.kRangeRead;
     BackendCapability.kDeletion; BackendCapability.kLocalStaging;
     BackendCapability.kDurabilityClass] (mkCapabilities 0).

(** ** The constructor *)
Definition local_subdirs : list string := ["blobs"; "temp"; "quarantine"; "manifests"; "metadata"].

Definition init_root (root : string) : Fs unit :=
  _ ← raise_if (String.eqb root "") ErrorCode.kInvalidArgument "local backend root is empty";
  made ← create_directories (parse_path root);
  present ← path_exists (parse_path root);
  _ ← raise_if (negb made && negb present) ErrorCode.kIo "cannot create local backend root";
  for_each local_subdirs (λ sub, _ ← create_directories (parse_path root ++ [sub]); mret tt).

Definition local_descriptor (root : string) (id : StorageBackendId) : BackendDescriptor :=
  mkBackendDescriptor id (mkGen 1) "local-filesystem" StorageTierClass.kLocalFilesystem (mkId 1)
    (mkId 1) (mkId 1) local_capabilities Provenance.kMeasured Freshness.kCurrent root.

Definition new_local (root : string) (id : StorageBackendId) (fs : FileSystem) : outcome LocalBackend :=
  let '(r, fs') := init_root root fs in
  _ ← r; mret (mkLocal (parse_path root) (local_descriptor root id) local_capabilities 0 ∅ fs').

(** ** Operations *)
Definition lo_query_capacity : LoST TierMetadata :=
  b ← get;
  healthy ← on_disk (is_directory (lo_root b));
  let meta := default_TierMetadata
    <| tm_id := bk_tier_id (lo_descriptor b) |>
    <| tm_tier_class := bk_tier_class (lo_descriptor b) |>
    <| tm_durability := DurabilityClass.kLocal |> <| tm_health := healthy |> in
  mret (match fs_space (lo_fs b) with
        | Some (capacity, available) =>
            meta <| tm_total_bytes := capacity |> <| tm_free_bytes := available |>
                 <| tm_provenance := Provenance.kMeasured |> <| tm_freshness := Freshness.kCurrent |>
        | None => meta <| tm_provenance := Provenance.kUnknown |> <| tm_freshness := Freshness.kUnknown |>
        end).

Definition physical_path (key : BackendKey) : LoST Path :=
  _ ← raise_if (negb (validate_backend_key (key_value key)))
        ErrorCode.kInvalidArgument "invalid backend key";
  gets (λ b, path_join (lo_root b) (key_value key)).

Definition temp_file_name (key : string) (seq : Z) : string :=
  flatten_key key +:+ "_" +:+ pretty seq +:+ ".tmp".
Definition temp_path (key : BackendKey) : LoST Path :=
  _ ← raise_if (negb (validate_backend_key (key_value key)))
        ErrorCode.kInvalidArgument "invalid backend key";
  b ← get;
  let seq := incr64 (lo_seq b) in
  _ ← modify (λ b, b <| lo_seq := seq |>);
  mret (path_join (path_join (lo_root b) "temp") (temp_file_name (key_value key) seq)).

Definition lo_put_temp (key : BackendKey) (data : list byte) : LoST unit :=
  _ ← physical_path key;
  tmp_path ← temp_path key;
  opened ← on_disk (open_trunc tmp_path);
  _ ← raise_if (negb opened) ErrorCode.kIo "cannot open temp for write";
  good ← on_disk (write_stream tmp_path data);
  _ ← raise_if (negb good) ErrorCode.kIo "temp write failed";
  modify (λ b, b <| lo_staged ::= <[key_value key := tmp_path]> |>).

(** Move a file to its final place: the object that is there goes first. *)
Definition replace_file (tmp_path final_path : Path) : Fs unit :=
  present ← path_exists final_path;
  _ ← (if present : bool then _ ← remove_path final_path; mret tt else mret tt);
  _ ← create_directories (parent_path final_path);
  renamed ← rename_path tmp_path final_path;
  raise_if (negb renamed) ErrorCode.kIo "commit rename failed".

(** [commit(key)] *)
Definition lo_commit (key : BackendKey) : LoST unit :=
  staged ← gets lo_staged;
  match staged !! key_value key with
  | None => raise ErrorCode.kTransaction "commit called for unstaged key"
  | Some tmp =>
      final_path ← physical_path key;
      _ ← on_disk (replace_file tmp final_path);
      modify (λ b, b <| lo_staged ::= delete (key_value key) |>)
  end.

(** [commit(temp_key, final_key)] *)
Definition lo_commit_to (temp_key final_key : BackendKey) : LoST unit :=
  tmp_path ← physical_path temp_key;
  final_path ← physical_path final_key;
  on_disk (replace_file tmp_path final_path).

Definition lo_read (key : BackendKey) : LoST (list byte) :=
  p ← physical_path key;
  data ← on_disk (read_stream p);
  match data with
  | None => raise ErrorCode.kNotFound "backend object not found"
  | Some data => mret data
  end.

Definition lo_exists (key : BackendKey) : LoST bool := p ← physical_path key; on_disk (path_exists p).
Definition lo_remove (key : BackendKey) : LoST bool := p ← physical_path key; on_disk (remove_path p).
Definition lo_stat (key : BackendKey) : LoST Z :=
  p ← physical_path key;
  sz ← on_disk (file_size p);
  mret (default 0 sz).
Definition lo_flush : LoST unit := mret tt.

Definition lo_list_controlled `{IterOrder} : LoST (list BackendKey) :=
  gets (λ b,
    let m := fs_disk (lo_fs b) in
    ["blobs"; "manifests"] ≫= λ sub,
      let base := lo_root b ++ [sub] in
      if is_dir m base
      then (λ p, mkKey (join_path (drop (length (lo_root b)) p))) <$> files_below m base
      else []).

(** The stream is hashed a buffer at a time. *)
Fixpoint hash_buffers (buffer_size fuel : nat) (h : Sha256Hasher) (data : list byte) : Sha256Hasher :=
  match fuel, data with
  | S fuel, _ :: _ =>
      hash_buffers buffer_size fuel (update_hasher h (take buffer_size data)) (drop buffer_size data)
  | _, _ => h
  end.

Definition lo_verify (key : BackendKey) (expected : Sha256Digest) : LoST IntegrityState.t :=
  p ← physical_path key;
  present ← on_disk (path_exists p);
  if negb present then mret IntegrityState.kMissing
  else
    data ← on_disk (read_stream p);
    mret (match data with
          | None => IntegrityState.kMissing
          | Some data =>
              let digest := final_hasher (hash_buffers (Z.to_nat (2 ^ 16)) (length data) new_hasher data) in
              if digest_equal digest expected then IntegrityState.kVerified
              else IntegrityState.kCorrupt
          end).

Definition lo_health : LoST bool := b ← get; on_disk (is_directory (lo_root b)).
Definition lo_close : LoST unit := mret tt.

#[export] Instance LocalBackend_IBackend `{IterOrder} : IBackend LocalBackend := {
  descriptor := lo_descriptor;
  capabilities := lo_capabilities;
  query_capacity := lo_query_capacity;
  put_temp := lo_put_temp;
  commit := lo_commit;
  commit_to := lo_commit_to;
  read := lo_read;
  object_exists := lo_exists;
  remove := lo_remove;
  stat := lo_stat;
  flush := lo_flush;
  list_controlled := lo_list_controlled;
  verify := lo_verify;
  health := lo_health;
  close := lo_close
}.

(** ** Keys and paths *)
Lemma forall_component_plain comps : forallb component_ok comps = true → Forall (λ c, c ≠ "") comps.
Proof.
  induction comps as [|c l IH]; simpl; [constructor|].
  intros [(Hc & _)%component_ok_plain Hl]%andb_true_iff. constructor; auto.
Qed.
Lemma split_on_not_nil sep s : split_on sep s ≠ [].
Proof. destruct s as [|c s]; simpl; [done|]. by destruct (sep c), (split_on sep s). Qed.

(** The components of an accepted key are those of its path. *)
Lemma parse_valid_key key : validate_backend_key key = true →
  parse_path key = split_on is_slash key.
Proof.
  intros (_ & _ & _ & _ & _ & _ & Hc)%validate_backend_key_spec. unfold parse_path.
  by apply filter_all, forall_component_plain.
Qed.
Lemma parse_valid_not_nil key : validate_backend_key key = true → parse_path key ≠ [].
Proof. intros Hk. rewrite parse_valid_key by done. apply split_on_not_nil. Qed.

Lemma join_cons c p : p ≠ [] → join_path (c :: p) = c +:+ String "/" (join_path p).
Proof. by destruct p. Qed.
Lemma join_split s : join_path (split_on is_slash s) = s.
Proof.
  induction s as [|c s IH]; [done|]. cbn [split_on]. unfold is_slash at 1.
  pose proof (split_on_not_nil is_slash s) as Hn. case_bool_decide as E.
  - subst c. rewrite join_cons by done. by rewrite IH.
  - destruct (split_on is_slash s) as [|w ws]; [done|]. rewrite <- IH. by destruct ws.
Qed.
Lemma join_parse key : validate_backend_key key = true → join_path (parse_path key) = key.
Proof. intros Hk. rewrite parse_valid_key by done. apply join_split. Qed.
Lemma parse_valid_inj k k' : validate_backend_key k = true → validate_backend_key k' = true →
  parse_path k = parse_path k' → k = k'.
Proof. intros H H' E. rewrite <- (join_parse k), <- (join_parse k') by done. by rewrite E. Qed.

Lemma physical_join root key : validate_backend_key key = true → path_join root key = root ++ parse_path key.
Proof. intros Hk. by rewrite parse_valid_key, path_join_key. Qed.

Lemma flatten_no_slash key : has_char "/" (flatten_key key) = false.
Proof.
  unfold flatten_key. induction key as [|c key IH]; cbn; [done|]. rewrite IH, orb_false_r.
  apply bool_decide_eq_false. unfold is_slash. by case_bool_decide.
Qed.
Lemma temp_join root key seq :
  path_join (path_join root "temp") (temp_file_name key seq) = root ++ ["temp"; temp_file_name key seq].
Proof.
  rewrite (path_join_name root "temp") by (done || (cbn; lia)).
  rewrite path_join_name; [by rewrite <- app_assoc|..]; unfold temp_file_name.
  - by rewrite !has_char_app, flatten_no_slash, pretty_Z_no_slash.
  - rewrite !string_length_app. simpl. lia.
Qed.

(** ** Reading *)
Definition object_path (b : LocalBackend) (key : BackendKey) : Path := lo_root b ++ parse_path (key_value key).
(** The bytes stored under a key. *)
Definition object_at (b : LocalBackend) (key : BackendKey) : option (list byte) :=
  file_at (fs_disk (lo_fs b)) (object_path b key).

Lemma physical_path_run {A} key (k : Path → LoST A) b :
  (physical_path key ≫= k) b =
    if validate_backend_key (key_value key) then k (object_path b key) b
    else raise ErrorCode.kInvalidArgument "invalid backend key" b.
Proof.
  unfold physical_path, raise_if, throw_if, mbind, ST_bind.
  destruct (validate_backend_key (key_value key)) eqn:Hk; [|done]. cbn -[path_join]. by rewrite physical_join.
Qed.
Lemma fs_put_same b : b <| lo_fs := lo_fs b |> = b.
Proof. by destruct b. Qed.

(** What the reading operations answer; none of them changes anything. *)
Lemma lo_read_run key b : lo_read key b =
  (if validate_backend_key (key_value key) then
     match object_at b key with
     | Some data => Ok data
     | None => throw_error ErrorCode.kNotFound "backend object not found"
     end
   else throw_error ErrorCode.kInvalidArgument "invalid backend key", b).
Proof.
  unfold lo_read. rewrite physical_path_run. destruct (validate_backend_key _); [|done].
  unfold on_disk, zoom, read_stream, gets, mbind, ST_bind. rewrite fs_put_same.
  unfold object_at. by destruct (file_at _ _).
Qed.
Lemma lo_exists_run key b : lo_exists key b =
  (if validate_backend_key (key_value key) then Ok (exists_at (fs_disk (lo_fs b)) (object_path b key))
   else throw_error ErrorCode.kInvalidArgument "invalid backend key", b).
Proof.
  unfold lo_exists. rewrite physical_path_run. destruct (validate_backend_key _); [|done].
  unfold on_disk, zoom, path_exists, gets. by rewrite fs_put_same.
Qed.

Lemma hash_buffers_absorbed n fuel h msg data : (0 < n)%nat → (length data ≤ fuel)%nat →
  absorbed h msg → absorbed (hash_buffers n fuel h data) (msg ++ data).
Proof.
  intros Hb. revert h msg data. induction fuel as [|fuel IH]; intros h msg data Hl Ha.
  { destruct data; [|simpl in Hl; lia]. by rewrite app_nil_r. }
  destruct data as [|x data]; [by rewrite app_nil_r|]. cbn [hash_buffers].
  rewrite <- (take_drop n (x :: data)) at 3. rewrite app_assoc. apply IH; [|by apply update_absorbed].
  rewrite length_drop. simpl in *. lia.
Qed.
Lemma hash_stream n data : (0 < n)%nat →
  final_hasher (hash_buffers n (length data) new_hasher data) = sha256 data.
Proof.
  intros Hn. rewrite (final_spec _ data); [by rewrite sha256_is_spec|].
  by apply (hash_buffers_absorbed n _ _ []), absorbed_new.
Qed.

Lemma lo_verify_run key expected b : lo_verify key expected b =
  (if validate_backend_key (key_value key) then
     Ok match object_at b key with
        | Some data => if digest_equal (sha256 data) expected then IntegrityState.kVerified
                       else IntegrityState.kCorrupt
        | None => IntegrityState.kMissing
        end
   else throw_error ErrorCode.kInvalidArgument "invalid backend key", b).
Proof.
  unfold lo_verify. rewrite physical_path_run. destruct (validate_backend_key _); [|done].
  unfold on_disk, zoom, path_exists, read_stream, gets, mbind, ST_bind. rewrite fs_put_same.
  unfold object_at, file_at, exists_at. destruct (node_at _ _) as [[d|]|] eqn:E; cbn [negb]; [| |done].
  - rewrite fs_put_same. unfold mret, ST_ret. rewrite E, hash_stream by (apply (Z2Nat.inj_lt 0); lia). done.
  - by rewrite fs_put_same, E.
Qed.

Lemma object_path_inj b k k' :
  validate_backend_key (key_value k) = true → validate_backend_key (key_value k') = true →
  object_path b k = object_path b k' → k = k'.
Proof. intros H H' E%app_inv_head. by apply key_value_inj, parse_valid_inj. Qed.

Lemma remove_path_file_other p q s : q ≠ p →
  file_at (fs_disk (remove_path p s).2) q = file_at (fs_disk s) q.
Proof. intros Hq. destruct (frames_remove_path p s) as [K _]. by apply K. Qed.

Lemma lo_remove_other key key' b : key' ≠ key → (lo_read key' (lo_remove key b).2).1 = (lo_read key' b).1.
Proof.
  intros Hne. rewrite !lo_read_run. cbn [fst]. unfold lo_remove. rewrite physical_path_run.
  destruct (validate_backend_key (key_value key)) eqn:Hk; [|done].
  destruct (validate_backend_key (key_value key')) eqn:Hk'; [|done].
  assert (object_path b key' ≠ object_path b key) as Hp by (intros E%object_path_inj; done).
  unfold on_disk, zoom. pose proof (remove_path_file_other _ _ (lo_fs b) Hp) as E.
  destruct (remove_path _ _) as [r fs']. cbn [snd] in *. unfold object_at, object_path in *. cbn.
  unfold object_path in E. by rewrite E.
Qed.

(** The backend keeps its contract with the store: what is proved of
    publication, restore, verification and collection holds for it. *)
#[export] Instance local_laws `{IterOrder} : BackendLaws LocalBackend.
Proof.
  split; simpl; intros.
  - by rewrite lo_read_run.
  - by rewrite lo_verify_run.
  - by rewrite lo_exists_run.
  - unfold lo_health, get, on_disk, zoom, is_directory, gets, mbind, ST_bind. cbn. apply fs_put_same.
  - rewrite lo_verify_run, lo_read_run in *. cbn [fst] in *. destruct (validate_backend_key _); [|done].
    destruct (object_at b key) as [data|]; [|done]. exists data. split; [done|].
    destruct (digest_equal _ _) eqn:E; [|done]. by apply digest_equal_true.
  - by apply lo_remove_other.
Qed.

(** ** Nothing outside the root is touched

    Every staged file is below the root. *)
Definition staged_below (b : LocalBackend) : Prop :=
  map_Forall (λ _ tmp, below (lo_root b) tmp = true) (lo_staged b).

(** [contained root m P]: on an object with that root, [m] changes files below
    the root only, at every moment, keeps [staged_below], and returns a value
    that satisfies [P]. *)
Definition contained (root : Path) {A} (m : LoST A) (P : A → Prop) : Prop := ∀ b,
  lo_root b = root → staged_below b →
  lo_root (m b).2 = root ∧ staged_below (m b).2 ∧
  touches (λ q, below root q = true) (lo_fs b) (lo_fs (m b).2) ∧
  ∀ a, (m b).1 = Ok a → P a.

Section contained.
Context (root : Path).

Lemma contained_pure {A} (m : LoST A) (P : A → Prop) :
  (∀ b, lo_root b = root → staged_below b → (m b).2 = b ∧ ∀ a, (m b).1 = Ok a → P a) → contained root m P.
Proof.
  intros Hm b Hr Hs. destruct (Hm b Hr Hs) as [-> Ha]. split; [done|]. split; [done|].
  split; [reflexivity|done].
Qed.
Lemma contained_ret {A} (a : A) (P : A → Prop) : P a → contained root (mret a) P.
Proof. intros Ha. apply contained_pure. intros b _ _. split; [done|]. by intros ? [= <-]. Qed.
Lemma contained_throw {A} e (P : A → Prop) : contained root (throw e) P.
Proof. by apply contained_pure. Qed.
Lemma contained_raise_if c code msg : contained root (raise_if c code msg) (λ _, True).
Proof. apply contained_pure. intros b _ _. unfold raise_if, throw_if. by destruct c. Qed.
Lemma contained_bind {A C} (m : LoST A) (k : A → LoST C) P Q :
  contained root m P → (∀ a, P a → contained root (k a) Q) → contained root (m ≫= k) Q.
Proof.
  intros Hm Hk b Hr Hs. specialize (Hm b Hr Hs) as (R1 & S1 & T1 & A1). unfold mbind, ST_bind.
  destruct (m b) as [[a|e] b1]; cbn [fst snd] in *; [|split; [done|]; split; [done|]; split; [done|]; by intros ? [=]].
  destruct (Hk a (A1 a eq_refl) b1 R1 S1) as (R2 & S2 & T2 & A2).
  split; [done|]. split; [done|]. split; [by etrans|done].
Qed.
Lemma contained_on_disk {A} (m : Fs A) :
  frames (touches (λ q, below root q = true)) m → contained root (on_disk m) (λ _, True).
Proof.
  intros Hm b Hr Hs. specialize (Hm (lo_fs b)). unfold on_disk, zoom.
  destruct (m (lo_fs b)) as [r fs']. cbn [fst snd] in *. split; [exact Hr|]; split; [exact Hs|]; by split.
Qed.
Lemma contained_physical_path key : contained root (physical_path key) (λ p, below root p = true).
Proof.
  apply contained_pure. intros b Hr _. unfold physical_path, raise_if, throw_if, mbind, ST_bind.
  destruct (validate_backend_key (key_value key)) eqn:Hk; [|done]. cbn. split; [done|].
  intros a [= <-]. apply below_spec. rewrite physical_join, Hr by done. exists (parse_path (key_value key)).
  split; [by apply parse_valid_not_nil|done].
Qed.
Lemma contained_temp_path key : contained root (temp_path key) (λ p, below root p = true).
Proof.
  intros b Hr Hs. unfold temp_path, raise_if, throw_if, get, mbind, ST_bind.
  destruct (validate_backend_key (key_value key)); cbn -[path_join]; split_and!; try done; try reflexivity;
    intros a [=]. subst a. apply below_spec. rewrite temp_join, Hr. eexists. by split; [|reflexivity].
Qed.
Lemma contained_modify (f : LocalBackend → LocalBackend) :
  (∀ b, lo_root b = root → staged_below b → lo_root (f b) = root ∧ staged_below (f b) ∧ lo_fs (f b) = lo_fs b) →
  contained root (modify f) (λ _, True).
Proof.
  intros Hf b Hr Hs. destruct (Hf b Hr Hs) as (R & S & F). cbn. rewrite F.
  split; [done|]. split; [done|]. by split.
Qed.

Lemma touches_at p (m : Fs bool) : below root p = true →
  frames (touches (λ q, q = p)) m → frames (touches (λ q, below root q = true)) m.
Proof. intros Hp Hm s. eapply touches_weaken; [|apply Hm]. by intros q ->. Qed.

Lemma replace_file_touches tmp p : below root tmp = true → below root p = true →
  frames (touches (λ q, below root q = true)) (replace_file tmp p).
Proof.
  intros Ht Hp. unfold replace_file. apply frames_bind; [apply _|by apply frames_gets, _|intros present].
  apply frames_bind; [apply _| |intros _].
  { destruct present; [|by apply frames_ret, _].
    apply frames_bind; [apply _| |intros ?; by apply frames_ret, _].
    apply (touches_at p); [done|apply frames_remove_path]. }
  apply frames_bind; [apply _| |intros _].
  { intros s. eapply touches_weaken; [|apply frames_create_directories]. by intros q []. }
  apply frames_bind; [apply _| |intros ok; by apply frames_throw_if, _].
  intros s. eapply touches_weaken; [|apply rename_path_touches; by eapply below_not_nil].
  intros q [?|?]; [by apply (below_prefix _ tmp)|by apply (below_prefix _ p)].
Qed.
End contained.

(** The operations that change something. *)
Lemma contained_put_temp root key data : contained root (lo_put_temp key data) (λ _, True).
Proof.
  unfold lo_put_temp. eapply contained_bind; [apply contained_physical_path|intros _ _].
  eapply contained_bind; [apply contained_temp_path|intros tmp Ht].
  eapply contained_bind; [apply contained_on_disk; apply (touches_at root tmp); [done|apply frames_open_trunc]|intros opened _].
  eapply contained_bind; [apply contained_raise_if|intros _ _].
  eapply contained_bind.
  { apply contained_on_disk, (touches_at root tmp); [done|]. by apply frames_write_stream, (below_not_nil root). }
  intros good _. eapply contained_bind; [apply contained_raise_if|intros _ _].
  apply contained_modify. intros b Hr Hs. split; [done|]. split; [|done].
  apply map_Forall_insert_2; [cbn; by rewrite Hr|done].
Qed.

Lemma contained_staged root : contained root (gets lo_staged) (λ st,
  map_Forall (λ _ tmp, below root tmp = true) st).
Proof.
  apply contained_pure. intros b Hr Hs. split; [done|]. intros st [= <-]. by rewrite <- Hr.
Qed.

Lemma contained_commit root key : contained root (lo_commit key) (λ _, True).
Proof.
  unfold lo_commit. eapply contained_bind; [apply contained_staged|intros st Hst].
  destruct (st !! key_value key) as [tmp|] eqn:E; [|apply contained_throw].
  eapply contained_bind; [apply contained_physical_path|intros p Hp].
  eapply contained_bind; [apply contained_on_disk, replace_file_touches; [exact (Hst _ _ E)|done]|intros _ _].
  apply contained_modify. intros b Hr Hs. split; [done|]. split; [|done]. by apply map_Forall_delete.
Qed.
Lemma contained_commit_to root key key' : contained root (lo_commit_to key key') (λ _, True).
Proof.
  unfold lo_commit_to. eapply contained_bind; [apply contained_physical_path|intros tmp Ht].
  eapply contained_bind; [apply contained_physical_path|intros p Hp].
  by apply contained_on_disk, replace_file_touches.
Qed.
Lemma contained_remove root key : contained root (lo_remove key) (λ _, True).
Proof.
  unfold lo_remove. eapply contained_bind; [apply contained_physical_path|intros p Hp].
  apply contained_on_disk, (touches_at root p); [done|apply frames_remove_path].
Qed.

(** The operations as data, to speak of sequences of them. *)
Inductive LocalOp :=
  | OpPutTemp (key : BackendKey) (data : list byte)
  | OpCommit (key : BackendKey)
  | OpCommitTo (temp_key final_key : BackendKey)
  | OpRemove (key : BackendKey).
Definition run_op (op : LocalOp) (b : LocalBackend) : LocalBackend :=
  match op with
  | OpPutTemp key data => (lo_put_temp key data b).2
  | OpCommit key => (lo_commit key b).2
  | OpCommitTo temp_key final_key => (lo_commit_to temp_key final_key b).2
  | OpRemove key => (lo_remove key b).2
  end.
Definition run_ops (ops : list LocalOp) (b : LocalBackend) : LocalBackend := foldl (λ b op, run_op op b) b ops.

(** ** Replacing an object *)

(** Under any faults, the object's file holds what it held, nothing, or all of
    the staged bytes, in every state of the disk. *)
Lemma replace_file_whole tmp p data s : file_at (fs_disk s) tmp = Some data → p ≠ [] → tmp ≠ p →
  throughout (whole p (file_at (fs_disk s) p) data) s (replace_file tmp p s).2 ∧
  ((replace_file tmp p s).1 = Ok tt → file_at (fs_disk (replace_file tmp p s).2) p = Some data).
Proof.
  intros Hd Hp Hne. set (old := file_at (fs_disk s) p). set (W := whole p old data).
  set (Q := λ (r : outcome unit) s',
    throughout W s s' ∧ (r = Ok tt → file_at (fs_disk s') p = Some data)).
  change (Q (replace_file tmp p s).1 (replace_file tmp p s).2).
  assert (∀ s1 e, throughout W s s1 → Q (Throw e) s1) as Hthrow by (intros; by split).
  unfold replace_file. rewrite (st_bind_run _ _ _ (exists_at (fs_disk s) p) s) by done.
  apply (run_framed (λ s s', throughout W s s' ∧ file_at (fs_disk s') tmp = file_at (fs_disk s) tmp)).
  { intros s0. split; destruct (exists_at (fs_disk s) p); try reflexivity.
    - apply frames_bind; [apply _|apply frames_remove_throughout|intros ?; apply frames_ret, _].
    - unfold mbind, ST_bind. pose proof (remove_path_file_other p tmp s0 Hne).
      by destruct (remove_path p s0) as [[] ?]. }
  { intros e s1 [T _]. by apply Hthrow. }
  intros [] s1 _ [T1 D1].
  apply (run_framed (λ s s', throughout W s s' ∧ file_at (fs_disk s') tmp = file_at (fs_disk s) tmp)).
  { intros s0. pose proof (frames_create_directories (parent_path p) s0) as Ht. split; [|apply Ht; by intros []].
    eapply touches_throughout; [|apply Ht]. by intros []. }
  { intros e s2 [T _]. apply Hthrow. by etrans. }
  intros made s2 _ [T2 D2]. rewrite <- D1, <- D2 in Hd.
  destruct (rename_throughout tmp p old data s2 Hd Hp) as [T3 C3].
  destruct (rename_path tmp p s2) as [[b3|e] s3] eqn:E3;
    [rewrite (st_bind_run _ _ _ _ _ E3)|rewrite (st_bind_run_throw _ _ _ _ _ E3)]; cbn [fst snd] in *.
  2: { apply Hthrow. by do 2 (etrans; [eassumption|]). }
  split; [do 2 (etrans; [eassumption|]); by destruct b3|].
  destruct b3; [|by intros [=]]. intros _. by apply C3.
Qed.

(** Without faults, and with nothing of the wrong kind in the way, it succeeds;
    no other file changes. *)
Lemma replace_file_ok tmp p data s :
  quiet s → file_at (fs_disk s) tmp = Some data → p ≠ [] → tmp ≠ p →
  ancestors_free (fs_disk s) (parent_path p) → is_dir (fs_disk s) p = false →
  ∃ s', replace_file tmp p s = (Ok tt, s') ∧ quiet s' ∧
    (∀ q, file_at (fs_disk s') q = if bool_decide (q = p) then Some data
       else if bool_decide (q = tmp) then None else file_at (fs_disk s) q) ∧
    (∀ q, is_dir (fs_disk s) q = true → is_dir (fs_disk s') q = true).
Proof.
  intros Hq Hd Hp Hne Hf Hdir. unfold replace_file.
  rewrite (st_bind_run _ _ _ (exists_at (fs_disk s) p) s) by done.
  assert (∀ m q, is_dir m q = true → file_at m q = None) as Hdf.
  { intros m q. unfold is_dir, file_at. by destruct (node_at m q) as [[]|]. }
  assert (∃ s1, (if exists_at (fs_disk s) p then _ ← remove_path p; mret tt else mret tt) s = (Ok tt, s1) ∧
    quiet s1 ∧ (∀ q, node_at (fs_disk s1) q = if bool_decide (q = p) then None else node_at (fs_disk s) q))
    as (s1 & E1 & Q1 & N1).
  { unfold exists_at, is_dir in *. destruct (node_at (fs_disk s) p) as [[d|]|] eqn:En.
    - destruct (remove_file_ok p d s Hq) as (s1 & E1 & Q1 & D1); [unfold file_at; by rewrite En|].
      exists s1. rewrite (st_bind_run _ _ _ _ _ E1). split; [done|]. split; [done|]. intros q.
      rewrite D1. unfold node_at. destruct (decide (q = p)) as [->|Hqp].
      + rewrite bool_decide_eq_true_2 by done. destruct p; [done|]. by rewrite lookup_delete_eq.
      + rewrite (bool_decide_eq_false_2 (q = p)) by done. destruct q; [done|]. by rewrite lookup_delete_ne.
    - by rewrite bool_decide_eq_true_2 in Hdir.
    - exists s. split; [done|]. split; [done|]. intros q. destruct (decide (q = p)) as [->|Hqp].
      + by rewrite (bool_decide_eq_true_2 (p = p)).
      + by rewrite (bool_decide_eq_false_2 (q = p)). }
  rewrite (st_bind_run _ _ _ _ _ E1).
  assert (ancestors_free (fs_disk s1) (parent_path p)) as Hf1.
  { intros k. unfold file_at. rewrite N1. case_bool_decide; [done|]. apply Hf. }
  destruct (create_directories_ok _ _ Q1 Hf1) as (s2 & E2 & Q2 & Dp & F2 & N2 & K2).
  rewrite (st_bind_run _ _ _ _ _ E2).
  assert (file_at (fs_disk s2) tmp = Some data) as Hd2.
  { rewrite F2. unfold file_at in *. rewrite N1, bool_decide_eq_false_2; done. }
  assert (is_dir (fs_disk s2) p = false) as Hdir2.
  { assert (length (parent_path p) < length p)%nat as Hl.
    { unfold parent_path. rewrite length_take. destruct p; [done|]. simpl. lia. }
    unfold is_dir. by rewrite (N2 _ Hl), N1, (bool_decide_eq_true_2 (p = p)). }
  destruct (rename_file_ok tmp p data s2 Q2 Hd2 Dp Hdir2) as (s3 & E3 & Q3 & D3).
  rewrite (st_bind_run _ _ _ _ _ E3). exists s3. split; [done|]. split; [done|].
  assert (tmp ≠ []) as Htn by (by eapply file_at_ne_nil). rewrite D3. split.
  - intros q. rewrite file_at_insert by done. case_bool_decide as Eq; [done|].
    rewrite file_at_delete by done. case_bool_decide; [done|]. rewrite F2. unfold file_at.
    by rewrite N1, bool_decide_eq_false_2.
  - intros q Hqd. assert (q ≠ p) by (intros ->; congruence).
    assert (q ≠ tmp) by (intros ->; apply Hdf in Hqd; congruence).
    apply is_dir_insert_file; [|done]. apply is_dir_delete; [|done]. apply K2.
    unfold is_dir. by rewrite N1, (bool_decide_eq_false_2 (q = p)).
Qed.

(** ** Staging *)

(** The temporary directory is there, and nothing fails. *)
Definition ready (b : LocalBackend) : Prop :=
  quiet (lo_fs b) ∧ is_dir (fs_disk (lo_fs b)) (lo_root b ++ ["temp"]) = true.
(** A key outside the staging area. *)
Definition outside_temp (key : BackendKey) : Prop :=
  match split_on is_slash (key_value key) with c :: _ => c ≠ "temp" | [] => False end.
(** Nothing of the wrong kind is at the place of the object. *)
Definition placeable (key : BackendKey) (b : LocalBackend) : Prop :=
  validate_backend_key (key_value key) = true ∧ outside_temp key ∧
  ancestors_free (fs_disk (lo_fs b)) (parent_path (object_path b key)) ∧
  is_dir (fs_disk (lo_fs b)) (object_path b key) = false.

Definition next_temp (key : BackendKey) (b : LocalBackend) : Path :=
  lo_root b ++ ["temp"; temp_file_name (key_value key) (incr64 (lo_seq b))].

Lemma on_disk_run {A} (m : Fs A) b r fs' : m (lo_fs b) = (r, fs') → on_disk m b = (r, b <| lo_fs := fs' |>).
Proof. intros E. unfold on_disk, zoom. by rewrite E. Qed.

Lemma temp_path_run key b : validate_backend_key (key_value key) = true →
  temp_path key b = (Ok (next_temp key b), b <| lo_seq := incr64 (lo_seq b) |>).
Proof.
  intros Hk. unfold temp_path, raise_if, throw_if, get, mbind, ST_bind. rewrite Hk. cbn -[path_join]. by rewrite temp_join.
Qed.

Lemma outside_temp_path key b q : validate_backend_key (key_value key) = true → outside_temp key →
  object_path b key ≠ lo_root b ++ "temp" :: q.
Proof.
  intros Hk Ho E. unfold object_path in E. apply app_inv_head in E. rewrite parse_valid_key in E by done.
  unfold outside_temp in Ho. by rewrite E in Ho.
Qed.

Lemma parent_snoc p c : parent_path (p ++ [c]) = p.
Proof. unfold parent_path. rewrite length_app. simpl. by rewrite Nat.add_sub, take_app_length. Qed.

(** Staging adds one temporary file. *)
Lemma lo_put_temp_run key data b : ready b → validate_backend_key (key_value key) = true →
  is_dir (fs_disk (lo_fs b)) (next_temp key b) = false →
  ∃ fs', lo_put_temp key data b = (Ok tt, b <| lo_seq := incr64 (lo_seq b) |>
       <| lo_fs := fs' |> <| lo_staged ::= <[key_value key := next_temp key b]> |>) ∧ quiet fs' ∧
    (∀ q, file_at (fs_disk fs') q =
       if bool_decide (q = next_temp key b) then Some data else file_at (fs_disk (lo_fs b)) q) ∧
    (∀ q, is_dir (fs_disk (lo_fs b)) q = true → is_dir (fs_disk fs') q = true) ∧
    (∀ q, q ≠ next_temp key b → is_dir (fs_disk fs') q = is_dir (fs_disk (lo_fs b)) q).
Proof.
  intros [Hq Hd] Hk Ht. unfold lo_put_temp. rewrite physical_path_run, Hk.
  rewrite (st_bind_run _ _ _ _ _ (temp_path_run key b Hk)). set (tmp := next_temp key b) in *.
  assert (tmp ≠ []) as Hn by (unfold tmp, next_temp; by destruct (lo_root b)).
  assert (parent_path tmp = lo_root b ++ ["temp"]) as Hpar.
  { unfold tmp, next_temp. change ["temp"; ?n] with (["temp"] ++ [n]). by rewrite app_assoc, parent_snoc. }
  destruct (open_trunc_ok tmp (lo_fs b) Hq Ht) as (fs1 & E1 & Q1 & D1); [by rewrite Hpar|].
  rewrite (st_bind_run _ _ _ true (b <| lo_seq := incr64 (lo_seq b) |> <| lo_fs := fs1 |>))
    by (by apply on_disk_run). rewrite raise_if_false.
  destruct (write_stream_ok tmp data fs1 Q1) as (fs2 & E2 & Q2 & D2).
  rewrite (st_bind_run _ _ _ true (b <| lo_seq := incr64 (lo_seq b) |> <| lo_fs := fs2 |>))
    
    by exact (on_disk_run (write_stream tmp data) (b <| lo_seq := incr64 (lo_seq b) |> <| lo_fs := fs1 |>) (Ok true) fs2 E2). rewrite raise_if_false.
  exists fs2. split; [done|]. split; [done|].
  assert (∀ q, q ≠ tmp → node_at (fs_disk fs2) q = node_at (fs_disk (lo_fs b)) q) as N2.
  { intros q Hqt. rewrite D2, D1. unfold node_at. destruct q; [done|]. by rewrite !lookup_insert_ne. }
  split; [|split].
  - intros q. rewrite D2, file_at_insert by done. case_bool_decide as E; [done|].
    by rewrite D1, file_at_insert, bool_decide_eq_false_2.
  - intros q Hqd. assert (q ≠ tmp) by (intros ->; congruence). unfold is_dir in *. by rewrite N2.
  - intros q Hqd. unfold is_dir. by rewrite N2.
Qed.

Lemma object_path_not_below_temp key b f k rest : validate_backend_key (key_value key) = true → outside_temp key →
  take k (object_path b key) ≠ lo_root b ++ "temp" :: f :: rest.
Proof.
  intros Hk Ho E. apply (outside_temp_path key b (f :: rest ++ drop k (object_path b key)) Hk Ho).
  rewrite <- (take_drop k (object_path b key)) at 1. rewrite E. by rewrite <- app_assoc.
Qed.

Lemma object_at_same b b' key : lo_root b' = lo_root b →
  file_at (fs_disk (lo_fs b')) (object_path b key) = file_at (fs_disk (lo_fs b)) (object_path b key) →
  (lo_read key b').1 = (lo_read key b).1.
Proof.
  intros Hr Hf. rewrite !lo_read_run. cbn [fst]. unfold object_at. unfold object_path in *. rewrite Hr, Hf. done.
Qed.

(** Publishing what was staged. *)
Lemma lo_commit_run key tmp data b : quiet (lo_fs b) → placeable key b →
  lo_staged b !! key_value key = Some tmp → file_at (fs_disk (lo_fs b)) tmp = Some data →
  tmp ≠ object_path b key →
  ∃ fs', lo_commit key b = (Ok tt, b <| lo_fs := fs' |> <| lo_staged ::= delete (key_value key) |>) ∧ quiet fs' ∧
    (∀ q, file_at (fs_disk fs') q = if bool_decide (q = object_path b key) then Some data
       else if bool_decide (q = tmp) then None else file_at (fs_disk (lo_fs b)) q) ∧
    (∀ q, is_dir (fs_disk (lo_fs b)) q = true → is_dir (fs_disk fs') q = true).
Proof.
  intros Hq (Hk & Ho & Hf & Hd) Hs Ht Hne.
  assert (object_path b key ≠ []) as Hn.
  { unfold object_path. intros [_ E]%app_nil. by apply (parse_valid_not_nil _ Hk). }
  destruct (replace_file_ok tmp (object_path b key) data (lo_fs b) Hq Ht Hn Hne Hf Hd) as (fs' & E & Q & F & K).
  exists fs'. split; [|done]. unfold lo_commit. rewrite (st_bind_run _ _ _ (lo_staged b) b) by done. rewrite Hs.
  rewrite physical_path_run, Hk. by rewrite (st_bind_run _ _ _ _ _ (on_disk_run _ _ _ _ E)).
Qed.

(** ** Claims *)

(** C15: Writing is transactional on a disk without faults, for a valid key outside
    the staging area with nothing of the wrong kind at its place: staging the
    object and committing it succeed, staging shows nothing to readers, the commit
    publishes exactly the staged bytes, no other object changes, the
    temporary file is gone, and the object is ready for the next write. *)
Theorem local_write_transactional key data b :
  ready b → placeable key b → is_dir (fs_disk (lo_fs b)) (next_temp key b) = false →
  ∃ b1 b2, lo_put_temp key data b = (Ok tt, b1) ∧ lo_commit key b1 = (Ok tt, b2) ∧
    (∀ key', outside_temp key' → (lo_read key' b1).1 = (lo_read key' b).1) ∧
    lo_read key b2 = (Ok data, b2) ∧
    (∀ key', outside_temp key' → key' ≠ key → (lo_read key' b2).1 = (lo_read key' b).1) ∧
    file_at (fs_disk (lo_fs b2)) (next_temp key b) = None ∧
    lo_staged b2 = delete (key_value key) (lo_staged b) ∧ ready b2.
Proof.
  intros Hr Hp Ht. pose proof Hr as [Hq Hdir]. pose proof Hp as (Hk & Ho & Hf & Hd).
  destruct (lo_put_temp_run key data b Hr Hk Ht) as (fs1 & E1 & Q1 & F1 & K1 & N1).
  set (b1 := b <| lo_seq := _ |> <| lo_fs := _ |> <| lo_staged ::= _ |>) in E1.
  assert (∀ key', validate_backend_key (key_value key') = true → outside_temp key' →
    object_path b key' ≠ next_temp key b) as Hot by (intros; by apply outside_temp_path).
  assert (placeable key b1) as Hp1.
  { split; [done|]. split; [done|]. change (object_path b1 key) with (object_path b key). split.
    - intros k. cbn. rewrite F1, bool_decide_eq_false_2; [apply Hf|]. unfold parent_path. rewrite take_take.
      by apply object_path_not_below_temp.
    - cbn. rewrite N1; [done|]. by apply Hot. }
  destruct (lo_commit_run key (next_temp key b) data b1 Q1 Hp1) as (fs2 & E2 & Q2 & F2 & K2).
  { apply lookup_insert_eq. }
  { cbn. by rewrite F1, bool_decide_eq_true_2. }
  { by apply not_eq_sym, Hot. }
  change (object_path b1 key) with (object_path b key) in F2.
  set (b2 := b1 <| lo_fs := _ |> <| lo_staged ::= _ |>) in E2.
  exists b1, b2. split; [done|]. split; [done|]. split; [|split; [|split; [|split; [|split]]]].
  - intros key' Ho'. destruct (validate_backend_key (key_value key')) eqn:Hk';
      [|by rewrite !lo_read_run, Hk'].
    apply object_at_same; [done|]. cbn. rewrite F1, bool_decide_eq_false_2; [done|by apply Hot].
  - rewrite lo_read_run, Hk. unfold object_at. change (object_path b2 key) with (object_path b key). cbn.
    by rewrite F2, bool_decide_eq_true_2.
  - intros key' Ho' Hne. destruct (validate_backend_key (key_value key')) eqn:Hk';
      [|by rewrite !lo_read_run, Hk'].
    apply object_at_same; [done|]. cbn. rewrite F2, bool_decide_eq_false_2 by (by intros ?%object_path_inj).
    rewrite bool_decide_eq_false_2 by (by apply Hot). cbn.
    rewrite F1, bool_decide_eq_false_2; [done|by apply Hot].
  - cbn. rewrite F2, bool_decide_eq_false_2 by (by apply not_eq_sym, Hot). by rewrite bool_decide_eq_true_2.
  - cbn. by rewrite delete_insert_eq.
  - split; [done|]. apply K2, K1, Hdir.
Qed.

(** C14: A commit never shows a torn object.  In every state the disk goes
    through, whatever fails and wherever the process dies, the object holds
    what it held, nothing, or exactly the staged bytes; success means the
    staged bytes, and a failed commit leaves the staging entry. *)
Theorem local_commit_never_torn key tmp data b :
  lo_staged b !! key_value key = Some tmp → file_at (fs_disk (lo_fs b)) tmp = Some data →
  tmp ≠ object_path b key →
  let out := lo_commit key b in
  let W := whole (object_path b key) (object_at b key) data in
  (W (fs_disk (lo_fs out.2)) ∧
   ∃ new, fs_log (lo_fs out.2) = new ++ fs_log (lo_fs b) ∧ Forall W new) ∧
  (out.1 = Ok tt → object_at out.2 key = Some data ∧ lo_staged out.2 = delete (key_value key) (lo_staged b)) ∧
  (is_ok out.1 = false → lo_staged out.2 = lo_staged b).
Proof.
  intros Hs Ht Hne. cbv zeta. unfold lo_commit. rewrite (st_bind_run _ _ _ (lo_staged b) b) by done.
  rewrite Hs, physical_path_run.
  assert (whole (object_path b key) (object_at b key) data (fs_disk (lo_fs b))) as Hw by (by left).
  destruct (validate_backend_key (key_value key)) eqn:Hk.
  2: { split; [split; [exact Hw|by exists []]|]. split; [by intros [=]|done]. }
  assert (object_path b key ≠ []) as Hn.
  { unfold object_path. intros [_ E]%app_nil. by apply (parse_valid_not_nil _ Hk). }
  destruct (replace_file_whole tmp (object_path b key) data (lo_fs b) Ht Hn Hne) as [T C].
  destruct (replace_file tmp (object_path b key) (lo_fs b)) as [[[]|e] fs'] eqn:E;
    [rewrite (st_bind_run _ _ _ _ _ (on_disk_run _ _ _ _ E))
    |rewrite (st_bind_run_throw _ _ _ _ _ (on_disk_run _ _ _ _ E))]; cbn [fst snd modify] in *.
  - split; [exact (T Hw)|]. split; [|done]. intros _. split; [exact (C eq_refl)|done].
  - split; [exact (T Hw)|]. split; [by intros [=]|done].
Qed.

(** C13: The backend stays below its root.  Whatever keys it is given, those with
    [..] and absolute ones included (see [path_join_escapes] for where they would
    lead), whatever fails and wherever the process dies, no file outside the root
    directory changes, in any state of the disk, over any sequence of operations. *)
Theorem local_stays_below_root ops b : staged_below b →
  let b' := run_ops ops b in
  touches (λ q, below (lo_root b) q = true) (lo_fs b) (lo_fs b') ∧ staged_below b' ∧ lo_root b' = lo_root b.
Proof.
  cbv zeta. revert b. induction ops as [|op ops IH]; intros b Hs; [by split|].
  assert (lo_root (run_op op b) = lo_root b ∧ staged_below (run_op op b) ∧
    touches (λ q, below (lo_root b) q = true) (lo_fs b) (lo_fs (run_op op b))) as (R & S & T).
  { destruct op; cbn [run_op];
      [ destruct (contained_put_temp (lo_root b) key data b eq_refl Hs) as (?&?&?&_)
      | destruct (contained_commit (lo_root b) key b eq_refl Hs) as (?&?&?&_)
      | destruct (contained_commit_to (lo_root b) temp_key final_key b eq_refl Hs) as (?&?&?&_)
      | destruct (contained_remove (lo_root b) key b eq_refl Hs) as (?&?&?&_) ]; done. }
  destruct (IH _ S) as (T' & S' & R'). rewrite R in T'.
  change (run_ops (op :: ops) b) with (run_ops ops (run_op op b)).
  split; [by etrans|]. split; [done|]. by etrans.
Qed.

(** ** Evaluation *)
Definition blank_disk : FileSystem := mkFs ∅ [] [] (Some (1000, 400)).
Definition demo_local : LocalBackend :=
  match new_local "srv/cps" (mkId 1) blank_disk with
  | Ok b => b
  | Throw _ => mkLocal [] (local_descriptor "" (mkId 1)) local_capabilities 0 ∅ blank_disk
  end.
Definition demo_key : BackendKey := mkKey "blobs/ab/abcd".
Definition demo_bytes : list byte := [x01; x02; x03].

Lemma ancestors_free_bool m p : forallb (λ k, match file_at m (take k p) with None => true | Some _ => false end)
  (seq 0 (S (length p))) = true → ancestors_free m p.
Proof.
  rewrite forallb_forall. intros Hall k. specialize (Hall (Nat.min k (length p))).
  assert (take k p = take (Nat.min k (length p)) p) as ->.
  { destruct (Nat.le_gt_cases k (length p)); [by rewrite Nat.min_l|].
    rewrite Nat.min_r by lia. by rewrite !take_ge by lia. }
  destruct (file_at m _); [|done]. exfalso. assert (false = true) by (apply Hall, in_seq; lia). done.
Qed.

Lemma demo_local_ready : ready demo_local.
Proof. split; [constructor|reflexivity]. Qed.
Lemma demo_key_placeable : placeable demo_key demo_local.
Proof. split; [reflexivity|]. split; [discriminate|]. split; [by apply ancestors_free_bool|reflexivity]. Qed.

Lemma local_write_transactional_witness :
  ∃ b1 b2, lo_put_temp demo_key demo_bytes demo_local = (Ok tt, b1) ∧ lo_commit demo_key b1 = (Ok tt, b2) ∧
    lo_read demo_key b2 = (Ok demo_bytes, b2).
Proof.
  destruct (local_write_transactional demo_key demo_bytes demo_local demo_local_ready demo_key_placeable eq_refl)
    as (b1 & b2 & E1 & E2 & _ & E3 & _).
  by exists b1, b2.
Defined.

(** A staged object whose place is taken, on a disk whose third operation from
    now, the rename, fails. *)
Definition demo_overwrite (faults : list (option nat)) : LocalBackend :=
  let b1 := (lo_commit demo_key (lo_put_temp demo_key demo_bytes demo_local).2).2 in
  let b2 := (lo_put_temp demo_key [x09] b1).2 in
  b2 <| lo_fs ::= λ fs, fs <| fs_faults := faults |> |>.

Lemma local_commit_never_torn_witness :
  let b := demo_overwrite [None; None; Some 0%nat] in
  whole (object_path b demo_key) (object_at b demo_key) [x09] (fs_disk (lo_fs (lo_commit demo_key b).2)).
Proof.
  intros b. set (tmp := ["srv"; "cps"; "temp"; "blobs_ab_abcd_2.tmp"]).
  assert (lo_staged b !! key_value demo_key = Some tmp) as E1 by (vm_compute; reflexivity).
  assert (file_at (fs_disk (lo_fs b)) tmp = Some [x09]) as E2 by (vm_compute; reflexivity).
  assert (tmp ≠ object_path b demo_key) as E3 by (vm_compute; discriminate).
  destruct (local_commit_never_torn demo_key tmp [x09] b E1 E2 E3) as [[W _] _]. exact W.
Defined.

Lemma local_stays_below_root_witness :
  let b := run_ops [OpPutTemp demo_key demo_bytes; OpCommit demo_key; OpRemove (mkKey "../x")] demo_local in
  touches (λ q, below ["srv"; "cps"] q = true) (lo_fs demo_local) (lo_fs b) ∧
  object_at b demo_key = Some demo_bytes.
Proof.
  intros b. split; [|vm_compute; reflexivity].
  assert (staged_below demo_local) as Hs by (intros k tmp; discriminate).
  destruct (local_stays_below_root
    [OpPutTemp demo_key demo_bytes; OpCommit demo_key; OpRemove (mkKey "../x")] demo_local Hs) as [T _]. exact T.
Defined.

(** A commit that fails loses the object it was to replace: the old file is
    removed before the rename. *)
Example failed_commit_loses_object :
  let b := demo_overwrite [None; None; Some 0%nat] in
  let out := lo_commit demo_key b in
  (lo_read demo_key b).1 = Ok demo_bytes ∧
  outcome_code out.1 = ErrorCode.kIo ∧ outcome_code (lo_read demo_key out.2).1 = ErrorCode.kNotFound.
Proof. vm_compute. by repeat split. Qed.

(** The files of the staging area can be read as objects. *)
Example staged_bytes_visible :
  let b := (lo_put_temp demo_key demo_bytes demo_local).2 in
  (lo_read (mkKey "temp/blobs_ab_abcd_1.tmp") b).1 = Ok demo_bytes.
Proof. vm_compute. reflexivity. Qed.

(** A root that is a regular file is accepted. *)
Example root_may_be_a_file :
  is_ok (new_local "a" (mkId 1) (mkFs (<[["a"] := File []]> ∅) [] [] None)) = true.
Proof. vm_compute. reflexivity. Qed.
