(* ===== verification/Accounting.v ===== *)
(** * Accounting: counters, capacity, authority reset, durability, tiers

    [src/accounting.cpp], [src/replication.cpp] and [src/tier.cpp]. *)
From S2P Require Import Prelude Base Hash Model Dedup Backend SyntheticBackend Store Publish Retention Gc.

Record DedupAccounting := mkDedupAccounting {
  da_logical_bytes : Z;
  da_unique_physical_bytes : Z;
  da_deduplicated_bytes : Z
}.

(** ** Replication durability *)
Record Tally := mkTally { verified : Z; any_corrupt : bool; any_missing : bool }.
Definition tally_replica (t : Tally) (r : ReplicaDescriptor) : Tally :=
  if bool_decide (rp_integrity r = IntegrityState.kVerified)
  then mkTally (incr64 (verified t)) (any_corrupt t) (any_missing t)
  else if bool_decide (rp_integrity r = IntegrityState.kCorrupt)
  then mkTally (verified t) true (any_missing t)
  else if bool_decide (rp_integrity r = IntegrityState.kMissing)
  then mkTally (verified t) (any_corrupt t) true
  else t.

Definition evaluate_replica_durability (required_count : Z) (replicas : list ReplicaDescriptor) :
    ReplicaDurabilityState.t :=
  let t := fold_left tally_replica replicas (mkTally 0 false false) in
  if verified t >=? required_count then ReplicaDurabilityState.kHealthy
  else if any_corrupt t then ReplicaDurabilityState.kDegraded
  else if any_missing t then ReplicaDurabilityState.kRebuilding
  else ReplicaDurabilityState.kUnderReplicated.

(** ** Tiers *)
Definition classify_backend_tier (b : BackendDescriptor) : StorageTierClass.t :=
  match bk_tier_class b with
  | StorageTierClass.kLocalNvmeClass => StorageTierClass.kLocalFilesystem
  | c => c
  end.

Definition synthetic_tier_metadata (id : StorageTierId) (cls : StorageTierClass.t)
    (total_bytes latency_us : Z) : TierMetadata :=
  default_TierMetadata
    <| tm_id := id |> <| tm_tier_class := cls |> <| tm_total_bytes := total_bytes |>
    <| tm_free_bytes := total_bytes |> <| tm_latency_us := latency_us |>
    <| tm_durability := DurabilityClass.kUnknown |> <| tm_provenance := Provenance.kSynthetic |>
    <| tm_freshness := Freshness.kCurrent |> <| tm_locality := "synthetic-remote" |>
    <| tm_failure_domain := "synthetic-fd" |> <| tm_cost_class := "synthetic" |> <| tm_health := true |>.

(** ** Reports *)
Section accounting.
Context `{IterOrder} {B : Type} `{IBackend B}.
Abbreviation Store := (ST (CheckpointStore B) CheckpointStoreError).
Implicit Types s : CheckpointStore B.

Definition accounting : Store AccountingSnapshot := get_impl im_counters.

(** The sum of the logical sizes of the committed checkpoints. *)
Definition committed_logical (i : Impl) : Z :=
  fold_left (λ n kv,
    if bool_decide (rec_lifecycle kv.2 = CheckpointLifecycle.kCommitted)
    then u64 (n + d_logical_size (rec_descriptor kv.2)) else n) (iter_order (im_checkpoints i)) 0.

Definition dedup_accounting : Store DedupAccounting := gets (λ s,
  let logical := committed_logical (s_impl s) in
  let unique := unique_physical_bytes (s_dedup s) in
  mkDedupAccounting logical unique (if logical >=? unique then logical - unique else 0)).

Definition primary_capacity (rep : CapacityReport) : Store CapacityReport :=
  i ← gets s_impl;
  match im_backends i !! im_primary_backend_id i with
  | None => mret rep
  | Some p =>
      m ← on_backend p query_capacity;
      mret (rep <| cap_total_bytes := tm_total_bytes m |> <| cap_free_bytes := tm_free_bytes m |>
                <| cap_provenance := tm_provenance m |> <| cap_freshness := tm_freshness m |>)
  end.

Definition reserved_bytes (i : Impl) : Z :=
  fold_left (λ n kv, u64 (n + kv.2)) (iter_order (im_reservations i)) 0.
Definition reclaimable_bytes (i : Impl) : Z :=
  fold_left (λ n bid, match im_blobs i !! bid with
                      | Some b => u64 (n + b_physical_size b)
                      | None => n
                      end) (gc_reclaimable_blobs (im_gc i)) 0.

Definition capacity_report : Store CapacityReport :=
  rep ← primary_capacity default_CapacityReport;
  s ← get;
  let committed := unique_physical_bytes (s_dedup s) in
  let logical := committed_logical (s_impl s) in
  mret (rep <| cap_committed_bytes := committed |> <| cap_logical_bytes := logical |>
            <| cap_deduplicated_bytes := if logical >=? committed then logical - committed else 0 |>
            <| cap_reserved_bytes := reserved_bytes (s_impl s) |>
            <| cap_reclaimable_bytes := reclaimable_bytes (s_impl s) |>).

(** ** Authority reset *)
Definition reset_record (rec : CheckpointRecord) : CheckpointRecord :=
  match rec_lifecycle rec with
  | CheckpointLifecycle.kWriting | CheckpointLifecycle.kCreating =>
      rec <| rec_lifecycle := CheckpointLifecycle.kFailed |>
  | _ => rec
  end.
Definition reset_blob (b : BlobDescriptor) : BlobDescriptor :=
  let b := b <| b_freshness := Freshness.kRevalidationRequired |> in
  if bool_decide (b_integrity b = IntegrityState.kCorrupt) then b
  else b <| b_integrity := IntegrityState.kUnverified |>.

Definition reset_authority : Store unit :=
  _ ← modify_impl (λ i, i <| im_checkpoints ::= fmap reset_record |>);
  _ ← modify_impl (λ i, i <| im_blobs ::= fmap reset_blob |>);
  _ ← modify_impl (λ i, i <| im_gc ::= λ g, g <| gc_phase := GcPhase.kIdle |> |>);
  _ ← modify_impl (λ i, i <| im_active_restores := [] |>);
  bump_counter (λ c, c <| acct_worker_restarts ::= incr64 |>).
End accounting.

(** ** What a durability verdict means *)
Definition with_integrity (v : IntegrityState.t) (l : list ReplicaDescriptor) : list ReplicaDescriptor :=
  filter (λ r, rp_integrity r = v) l.

Lemma tally_replica_eq t r : tally_replica t r =
  match rp_integrity r with
  | IntegrityState.kVerified => mkTally (incr64 (verified t)) (any_corrupt t) (any_missing t)
  | IntegrityState.kCorrupt => mkTally (verified t) true (any_missing t)
  | IntegrityState.kMissing => mkTally (verified t) (any_corrupt t) true
  | _ => t
  end.
Proof. unfold tally_replica. by destruct (rp_integrity r). Qed.

Lemma tally_spec l t : is_u64 (verified t + zlen l) → 0 ≤ verified t →
  fold_left tally_replica l t =
    mkTally (verified t + zlen (with_integrity IntegrityState.kVerified l))
      (any_corrupt t || negb (bool_decide (with_integrity IntegrityState.kCorrupt l = [])))
      (any_missing t || negb (bool_decide (with_integrity IntegrityState.kMissing l = []))).
Proof.
  unfold with_integrity. revert t. induction l as [|r l IH]; intros t Hu Ht.
  { destruct t. cbn. by rewrite Z.add_0_r, !orb_false_r. }
  assert (∀ x : ReplicaDescriptor, ∀ k, zlen (x :: k) = zlen k + 1) as Hl by (intros; unfold zlen; simpl; lia).
  rewrite Hl in Hu. pose proof (zlen_nonneg l). unfold is_u64 in Hu.
  assert (incr64 (verified t) = verified t + 1) as Hi by (apply u64_id; unfold is_u64; lia).
  cbn [fold_left]. rewrite tally_replica_eq. destruct (rp_integrity r) eqn:E;
    repeat first [ rewrite (filter_cons_True _ r) by (by rewrite E)
                 | rewrite (filter_cons_False _ r) by (by rewrite E) ];
    (rewrite IH; [|cbn [verified]; unfold is_u64; lia..]); cbn [verified any_corrupt any_missing];
    rewrite ?Hi, ?Hl, ?orb_true_r, ?orb_true_l; try (f_equal; lia); done.
Qed.

(** ** Claims *)

(** The replicas that count according to the declaration. *)
Definition authoritative_replicas (l : list ReplicaDescriptor) : list ReplicaDescriptor :=
  filter (λ r, rp_integrity r = IntegrityState.kVerified ∧ rp_role r = ReplicaRole.kAuthoritative) l.
(** No replica of another role is verified, as in a set this store makes: it
    publishes authoritative replicas, and a replica that leaves the role is
    corrupt. *)
Definition verified_authoritative (l : list ReplicaDescriptor) : Prop :=
  Forall (λ r, rp_integrity r = IntegrityState.kVerified → rp_role r = ReplicaRole.kAuthoritative) l.
Lemma authoritative_verified l : verified_authoritative l →
  with_integrity IntegrityState.kVerified l = authoritative_replicas l.
Proof.
  intros Hl. unfold with_integrity, authoritative_replicas. induction Hl as [|r l Hr _ IH]; [done|].
  rewrite !filter_cons. repeat case_decide; try (by rewrite IH); naive_solver.
Qed.

Lemma evaluate_replica_durability_eq required l : zlen l < 2 ^ 64 →
  evaluate_replica_durability required l =
    if required <=? zlen (with_integrity IntegrityState.kVerified l) then ReplicaDurabilityState.kHealthy
    else if bool_decide (with_integrity IntegrityState.kCorrupt l = []) then
      if bool_decide (with_integrity IntegrityState.kMissing l = [])
      then ReplicaDurabilityState.kUnderReplicated else ReplicaDurabilityState.kRebuilding
    else ReplicaDurabilityState.kDegraded.
Proof.
  intros Hl. pose proof (zlen_nonneg l). unfold evaluate_replica_durability.
  rewrite tally_spec by (cbn; unfold is_u64; lia). cbn [verified any_corrupt any_missing orb].
  rewrite Z.add_0_l, Z.geb_leb. by repeat case_bool_decide.
Qed.
Lemma with_integrity_perm v l l' : l' ≡ₚ l → with_integrity v l' ≡ₚ with_integrity v l.
Proof. intros Hp. unfold with_integrity. by rewrite Hp. Qed.
Lemma perm_nil_bool {A} `{EqDecision A} (l l' : list A) : l' ≡ₚ l → bool_decide (l' = []) = bool_decide (l = []).
Proof.
  intros Hp. apply bool_decide_ext. split; intros E; rewrite E in Hp;
    [by apply Permutation_nil_l in Hp|by apply Permutation_nil_r in Hp].
Qed.

(** C37: The durability verdict is exact.  For a replica set in which only
    authoritative replicas are verified, healthy means that at least the required
    number of replicas is verified and authoritative; with fewer, a corrupt
    replica makes the set degraded, else a missing one makes it rebuilding, else
    it is under-replicated.  The order of the replicas does not matter. *)
Theorem replica_durability_exact required l : zlen l < 2 ^ 64 → verified_authoritative l →
  let n := zlen (authoritative_replicas l) in
  let verdict := evaluate_replica_durability required l in
  (verdict = ReplicaDurabilityState.kHealthy ↔ required ≤ n) ∧
  (verdict = ReplicaDurabilityState.kDegraded ↔
     n < required ∧ with_integrity IntegrityState.kCorrupt l ≠ []) ∧
  (verdict = ReplicaDurabilityState.kRebuilding ↔
     n < required ∧ with_integrity IntegrityState.kCorrupt l = [] ∧
     with_integrity IntegrityState.kMissing l ≠ []) ∧
  (verdict = ReplicaDurabilityState.kUnderReplicated ↔
     n < required ∧ with_integrity IntegrityState.kCorrupt l = [] ∧
     with_integrity IntegrityState.kMissing l = []) ∧
  (∀ l', l' ≡ₚ l → evaluate_replica_durability required l' = verdict).
Proof.
  intros Hl Ha. cbv zeta. rewrite <- authoritative_verified by done.
  rewrite (evaluate_replica_durability_eq required l) by done.
  do 4 (split; [destruct (Z.leb_spec required (zlen (with_integrity IntegrityState.kVerified l)));
    repeat case_bool_decide; (split; [|]); intros; try done; (try by split_and!); try lia; naive_solver lia|]).
  intros l' Hp. rewrite evaluate_replica_durability_eq by (unfold zlen in *; by rewrite Hp).
  rewrite !(perm_nil_bool _ _ (with_integrity_perm _ _ _ Hp)).
  unfold zlen. by rewrite (with_integrity_perm IntegrityState.kVerified _ _ Hp).
Qed.
Definition some_replica (v : IntegrityState.t) (role : ReplicaRole.t) : ReplicaDescriptor :=
  mkReplicaDescriptor (mkId 1) (mkGen 1) (mkId 1) ReplicaSourceKind.kLocal
    StorageTierClass.kLocalFilesystem v role 1 Provenance.kMeasured.
Lemma replica_durability_exact_witness :
  evaluate_replica_durability 2 [some_replica IntegrityState.kVerified ReplicaRole.kAuthoritative;
      some_replica IntegrityState.kCorrupt ReplicaRole.kQuarantined] =
    ReplicaDurabilityState.kDegraded.
Proof.
  apply (replica_durability_exact 2 _); [done|repeat constructor; done|]. vm_compute. by split.
Defined.

(** The role itself is never looked at: a verified replica counts whatever it is. *)
Example any_role_counts :
  evaluate_replica_durability 1 [some_replica IntegrityState.kVerified ReplicaRole.kQuarantined] =
    ReplicaDurabilityState.kHealthy.
Proof. reflexivity. Qed.

Section reset.
Context {B : Type}.
Implicit Types s : CheckpointStore B.

Lemma reset_record_twice rec : reset_record (reset_record rec) = reset_record rec.
Proof. destruct rec as [? ? ? ? [] ? ?]; reflexivity. Qed.
Lemma reset_blob_twice b : reset_blob (reset_blob b) = reset_blob b.
Proof. destruct b as [? ? ? ? ? ? ? ? [] ? ?]; reflexivity. Qed.

Definition reset_impl (i : Impl) : Impl :=
  i <| im_checkpoints ::= fmap reset_record |> <| im_blobs ::= fmap reset_blob |>
    <| im_gc ::= λ g, g <| gc_phase := GcPhase.kIdle |> |> <| im_active_restores := [] |>
    <| im_counters ::= λ c, c <| acct_worker_restarts ::= incr64 |> |>.
Lemma reset_authority_run s : reset_authority s = (Ok tt, s <| s_impl ::= reset_impl |>).
Proof. reflexivity. Qed.

End reset.

(** ** What a reset leaves

    The boot identity, which is what a publication is checked against: the
    descriptor made before the reset is still accepted. *)
Example boot_survives_reset :
  let s := (reset_authority demo_store).2 in
  (opt_boot_id (s_options s) = opt_boot_id (s_options demo_store)) ∧
  is_ok (publish (H:=canonical_order) demo_descriptor demo_data s).1 = true.
Proof. vm_compute. by split. Qed.
(** And the list of reclaimable blobs: a run after the reset removes what the plan
    before it had named. *)
Example plan_survives_reset :
  let out := gc_run (H:=canonical_order) no_clock no_clock (reset_authority demo_retired).2 in
  (is_ok out.1, size (im_blobs (s_impl out.2)), size (sy_objects (s_heap out.2 0%nat))) = (true, 0, 0)%nat.
Proof. vm_compute. reflexivity. Qed.
