(* ===== verification/ProtoOps.v ===== *)
(** * ProtoOps: the payloads of the requests and replies

    [tools/proto_ops.hpp].  A decoder reads from the start of the payload and
    ignores what follows. *)
From S2P Require Import Prelude Base Hash Model BinFormat.

(** Running a reader on a fresh [BinReader]. *)
Definition decode_with {A} (p : Reader A) (v : list byte) : outcome A := (p (new_reader v)).1.

(** ** Authority *)
Record AuthorityEnvelope := mkEnvelope { ae_boot : Z; ae_epoch : Z; ae_generation : Z }.
#[export] Instance AuthorityEnvelope_eq_dec : EqDecision AuthorityEnvelope.
Proof. solve_decision. Defined.

Definition encode_authority (a : AuthorityEnvelope) : list byte :=
  w_u64 (ae_boot a) ++ w_u64 (ae_epoch a) ++ w_u64 (ae_generation a).
Definition read_authority : Reader AuthorityEnvelope :=
  boot ← r_u64; epoch ← r_u64; generation ← r_u64; mret (mkEnvelope boot epoch generation).
Definition decode_authority (v : list byte) : outcome AuthorityEnvelope := decode_with read_authority v.

(** ** Scalars *)
Definition encode_u64 (v : Z) : list byte := w_u64 v.
Definition decode_u64 (v : list byte) : outcome Z := decode_with r_u64 v.
Definition encode_family_reply (family : Z) : list byte := encode_u64 family.
Definition decode_family_reply (v : list byte) : outcome Z := decode_u64 v.

(** ** Publish *)
Record PublishRequest := mkPublishRequest {
  pq_auth : AuthorityEnvelope; pq_family : Z; pq_fill : byte; pq_size : Z
}.
Definition encode_publish (a : AuthorityEnvelope) (family : Z) (fill : byte) (size : Z) : list byte :=
  w_u64 (ae_boot a) ++ w_u64 (ae_epoch a) ++ w_u64 (ae_generation a) ++ w_u64 family ++
  w_u8 (byte_val fill) ++ w_u64 size.
Definition decode_publish (v : list byte) : outcome PublishRequest :=
  decode_with (auth ← read_authority; family ← r_u64; fill ← r_u8; size ← r_u64;
               mret (mkPublishRequest auth family (byte_of fill) size)) v.

Record PublishReply := mkPublishReply { pr_id : Z; pr_chunks : Z; pr_hits : Z; pr_misses : Z }.
Definition encode_publish_reply (id chunks dedup_hits dedup_misses : Z) : list byte :=
  w_u64 id ++ w_u64 chunks ++ w_u64 dedup_hits ++ w_u64 dedup_misses.
Definition decode_publish_reply (v : list byte) : outcome PublishReply :=
  decode_with (id ← r_u64; chunks ← r_u64; hits ← r_u64; misses ← r_u64;
               mret (mkPublishReply id chunks hits misses)) v.

(** ** Verify and restore *)
Definition read_u64_pair : Reader (Z * Z) := a ← r_u64; b ← r_u64; mret (a, b).
Definition encode_verify (id integrity : Z) : list byte := w_u64 id ++ w_u64 integrity.
Definition decode_verify_id (v : list byte) : outcome Z := decode_u64 v.
Definition decode_integrity_reply (v : list byte) : outcome Z := decode_u64 v.

Definition encode_restore (auth : AuthorityEnvelope) (id : Z) : list byte :=
  w_u64 (ae_boot auth) ++ w_u64 (ae_epoch auth) ++ w_u64 (ae_generation auth) ++ w_u64 id.
Definition decode_restore (v : list byte) : outcome (AuthorityEnvelope * Z) :=
  decode_with (a ← read_authority; id ← r_u64; mret (a, id)) v.
Definition encode_restore_reply (integrity bytes : Z) : list byte := w_u64 integrity ++ w_u64 bytes.
Definition decode_restore_reply (v : list byte) : outcome (Z * Z) := decode_with read_u64_pair v.

(** ** Nack *)
Record NackPayload := mkNack { nack_code : ErrorCode.t; nack_message : string }.
Definition encode_nack (code : ErrorCode.t) (msg : string) : list byte :=
  w_u32 (ErrorCode.to_u32 code) ++ w_string msg.
Definition decode_nack (v : list byte) : outcome NackPayload :=
  decode_with (code ← r_u32; message ← r_string; mret (mkNack (ErrorCode.of_u32 code) message)) v.

(** ** Register and retain *)
Definition encode_register (boot : Z) (root : string) : list byte := w_u64 boot ++ w_string root.
Definition decode_register (v : list byte) : outcome (Z * string) :=
  decode_with (b ← r_u64; s ← r_string; mret (b, s)) v.
Definition encode_retain (family latest_n : Z) : list byte := w_u64 family ++ w_u64 latest_n.
Definition decode_retain (v : list byte) : outcome (Z * Z) := decode_with read_u64_pair v.

(** ** Reading what was written *)
Lemma decode_encoded {A} (p : Reader A) enc a junk : reads p enc a → decode_with p (enc ++ junk) = Ok a.
Proof.
  intros Hp. unfold decode_with, new_reader. pose proof (Hp [] junk) as E. cbn [app length] in E. by rewrite E.
Qed.

Ltac read_fields :=
  repeat first
    [ apply reads_ret
    | eapply reads_bind; [first [solve [auto with codec] | eassumption]|]
    | eapply reads_bind_last; [first [solve [auto with codec] | eassumption]|] ].

Definition wf_envelope (a : AuthorityEnvelope) : Prop :=
  is_u64 (ae_boot a) ∧ is_u64 (ae_epoch a) ∧ is_u64 (ae_generation a).
Lemma reads_authority a : wf_envelope a → reads read_authority (encode_authority a) a.
Proof. destruct a. intros (?&?&?). unfold read_authority, encode_authority. cbn [ae_boot ae_epoch ae_generation] in *. read_fields. Qed.

Lemma reads_pair a b : is_u64 a → is_u64 b → reads read_u64_pair (w_u64 a ++ w_u64 b) (a, b).
Proof. intros. unfold read_u64_pair. read_fields. Qed.

(** An envelope followed by more fields. *)
Lemma reads_under_authority {A} a (k : AuthorityEnvelope → Reader A) rest v :
  wf_envelope a → reads (k a) rest v →
  reads (read_authority ≫= k) (w_u64 (ae_boot a) ++ w_u64 (ae_epoch a) ++ w_u64 (ae_generation a) ++ rest) v.
Proof.
  intros Ha Hk. pose proof (reads_bind _ _ _ _ _ _ (reads_authority a Ha) Hk) as H.
  unfold encode_authority in H. by rewrite <- !app_assoc in H.
Qed.

Lemma decode_u64_ok v junk : is_u64 v → decode_u64 (encode_u64 v ++ junk) = Ok v.
Proof. intros Hv. by apply decode_encoded, reads_u64. Qed.
Lemma decode_publish_ok a family fill size junk : wf_envelope a → is_u64 family → is_u64 size →
  decode_publish (encode_publish a family fill size ++ junk) = Ok (mkPublishRequest a family fill size).
Proof.
  intros Ha Hf Hs. apply decode_encoded, reads_under_authority; [done|].
  assert (is_u8 (byte_val fill)) by apply byte_val_range.
  read_fields. rewrite byte_of_val. apply reads_ret.
Qed.
Lemma decode_restore_ok a id junk : wf_envelope a → is_u64 id →
  decode_restore (encode_restore a id ++ junk) = Ok (a, id).
Proof. intros Ha Hi. apply decode_encoded, reads_under_authority; [done|]. read_fields. Qed.
Lemma decode_nack_ok code msg junk : ErrorCode.wf code → is_u64 (zlen (make_bytes msg)) →
  decode_nack (encode_nack code msg ++ junk) = Ok (mkNack code msg).
Proof.
  intros Hc Hm. apply decode_encoded. pose proof (ErrorCode.ErrorCode_range code Hc).
  read_fields. rewrite ErrorCode.ErrorCode_of_to by done. apply reads_ret.
Qed.
Lemma decode_register_ok boot root junk : is_u64 boot → is_u64 (zlen (make_bytes root)) →
  decode_register (encode_register boot root ++ junk) = Ok (boot, root).
Proof. intros. apply decode_encoded. read_fields. Qed.
Lemma decode_retain_ok f n junk : is_u64 f → is_u64 n → decode_retain (encode_retain f n ++ junk) = Ok (f, n).
Proof. intros. by apply decode_encoded, reads_pair. Qed.
Lemma decode_publish_reply_ok id chunks hits misses junk :
  is_u64 id → is_u64 chunks → is_u64 hits → is_u64 misses →
  decode_publish_reply (encode_publish_reply id chunks hits misses ++ junk)
    = Ok (mkPublishReply id chunks hits misses).
Proof. intros. apply decode_encoded. unfold encode_publish_reply. read_fields. Qed.
Lemma decode_restore_reply_ok v n junk : is_u64 v → is_u64 n →
  decode_restore_reply (encode_restore_reply v n ++ junk) = Ok (v, n).
Proof. intros. by apply decode_encoded, reads_pair. Qed.

(** ** Claims *)

(** C40: Every request and reply comes out of its decoder as it went into its
    encoder, whatever bytes follow it. *)
Theorem payload_round_trips a family fill size id n msg code boot root chunks hits misses junk :
  wf_envelope a → is_u64 family → is_u64 size → is_u64 id → is_u64 n → is_u64 boot →
  is_u64 chunks → is_u64 hits → is_u64 misses → ErrorCode.wf code →
  is_u64 (zlen (make_bytes msg)) → is_u64 (zlen (make_bytes root)) →
  decode_authority (encode_authority a ++ junk) = Ok a ∧
  decode_family_reply (encode_family_reply family ++ junk) = Ok family ∧
  decode_publish (encode_publish a family fill size ++ junk) = Ok (mkPublishRequest a family fill size) ∧
  decode_publish_reply (encode_publish_reply id chunks hits misses ++ junk)
    = Ok (mkPublishReply id chunks hits misses) ∧
  decode_verify_id (encode_verify id n ++ junk) = Ok id ∧
  decode_restore (encode_restore a id ++ junk) = Ok (a, id) ∧
  decode_restore_reply (encode_restore_reply n size ++ junk) = Ok (n, size) ∧
  decode_nack (encode_nack code msg ++ junk) = Ok (mkNack code msg) ∧
  decode_register (encode_register boot root ++ junk) = Ok (boot, root) ∧
  decode_retain (encode_retain family n ++ junk) = Ok (family, n).
Proof.
  intros. split_and!; auto using decode_u64_ok, decode_publish_ok, decode_publish_reply_ok, decode_restore_ok,
    decode_restore_reply_ok, decode_nack_ok, decode_register_ok, decode_retain_ok.
  - by apply decode_encoded, reads_authority.
  - unfold encode_verify. rewrite <- app_assoc. by apply decode_u64_ok.
Qed.
Lemma payload_round_trips_witness :
  decode_publish (encode_publish (mkEnvelope 7 1 1) 3 x41 524288 ++ [x00])
    = Ok (mkPublishRequest (mkEnvelope 7 1 1) 3 x41 524288).
Proof.
  apply (payload_round_trips (mkEnvelope 7 1 1) 3 x41 524288 0 0 "" ErrorCode.kNone 0 "" 0 0 0 [x00]);
    by vm_compute.
Defined.
