(* ===== verification/Coordinator.v ===== *)
(** * Coordinator: the authority state machine and its requests

    [tools/coordinator.cpp] and the client of [tools/worker.cpp].  The process
    owns a store and hands requests to it; the clocks it reads are arguments.
    The state file is on a disk of its own: the backend's files are elsewhere,
    below the backend's root.  Printing is not modelled. *)
From S2P Require Import Prelude Base Hash Model BinFormat Protocol Backend Store Publish Restore Retention Gc FileSystem LocalBackend Persistence Accounting ProtoOps.

(** The readings of the clocks during one request. *)
Record Readings := mkReadings {
  at_now : Z;
  at_elapsed : Z;
  at_clock : nat → CheckpointId → Z;
  at_clock2 : nat → CheckpointId → Z;
  at_ticks : Z
}.

Record Coordinator (B : Type) := mkCoordinator {
  co_store : CheckpointStore B;
  co_disk : FileSystem;
  co_active_boot : Z;
  co_epoch : Z;
  co_stale_rejections : Z;
  co_registered : list Z;
  co_roster : gset Z;
  co_revoked : gset Z
}.
Arguments mkCoordinator {B}.
Arguments co_store {B}.
Arguments co_disk {B}.
Arguments co_active_boot {B}.
Arguments co_epoch {B}.
Arguments co_stale_rejections {B}.
Arguments co_registered {B}.
Arguments co_roster {B}.
Arguments co_revoked {B}.
#[export] Instance eta_Coordinator {B} : Eta (Coordinator B) := λ r,
  mkCoordinator (co_store r) (co_disk r) (co_active_boot r) (co_epoch r) (co_stale_rejections r)
    (co_registered r) (co_roster r) (co_revoked r).

Section coordinator.
Context `{IterOrder} {B : Type} `{IBackend B}.
Abbreviation Co := (ST (Coordinator B) CheckpointStoreError).

Definition on_co_store {A} (m : ST (CheckpointStore B) CheckpointStoreError A) : Co A :=
  zoom co_store (λ s co, co <| co_store := s |>) m.
(** Saving and loading act on the store and the disk of the state file. *)
Definition on_persist {A} (m : ST (CheckpointStore B * FileSystem) CheckpointStoreError A) : Co A :=
  zoom (λ co, (co_store co, co_disk co)) (λ p co, co <| co_store := p.1 |> <| co_disk := p.2 |>) m.

(** ** Construction *)
Definition coordinator_boot_ : Z := 0xEEEE.

(** [backend] is the backend rooted at [data_root/store]. *)
Definition new_coordinator (data_root : string) (chunk_size : Z) (backend : B) (disk : FileSystem) :
    outcome unit * Coordinator B :=
  let o := default_StoreOptions
    <| opt_state_path := data_root +:+ "/metadata/checkpoint-store.state" |>
    <| opt_boot_id := mkId coordinator_boot_ |> <| opt_chunk_size := chunk_size |> in
  let co := mkCoordinator (new_store o (λ _, backend)) disk 0 1 0 [] ∅ ∅ in
  (_ ← on_co_store (register_backend (mkId 1) (Some 0%nat));
   present ← gets (λ co, exists_at (fs_disk (co_disk co)) (parse_path (opt_state_path o)));
   if present : bool then on_persist load_state else mret tt) co.

(** ** Authority *)
Definition count_stale : Co unit := modify (λ co, co <| co_stale_rejections ::= incr64 |>).

Definition publish_authority_ok (a : AuthorityEnvelope) : Co bool :=
  co ← get;
  if negb (ae_boot a =? co_active_boot co) || negb (ae_epoch a =? co_epoch co)
  then _ ← count_stale; mret false
  else mret true.

Definition restore_authority_ok (a : AuthorityEnvelope) : Co bool :=
  co ← get;
  if negb (ae_epoch a =? co_epoch co) then _ ← count_stale; mret false
  else if negb (bool_decide (ae_boot a ∈ co_roster co)) then _ ← count_stale; mret false
  else mret true.

Definition advance_epoch : Co unit :=
  _ ← modify (λ co, co <| co_epoch ::= incr64 |>);
  _ ← modify (λ co, co <| co_active_boot := 0 |>);
  count_stale.

(** A request is served when the check of its authority succeeds. *)
Definition under_authority (check : Co bool) (message : string) (k : Co (list byte)) : Co (list byte) :=
  ok ← check;
  if ok : bool then k else raise ErrorCode.kStaleAuthority message.

(** ** Requests, one definition per kind *)
Definition handle_register (payload : list byte) : Co (list byte) :=
  p ← lift_result (decode_register payload);
  let boot := p.1 in
  _ ← modify (λ co, co <| co_registered ::= λ l, l ++ [boot] |>);
  _ ← modify (λ co, co <| co_roster ::= λ r, {[boot]} ∪ r |>);
  co ← get;
  _ ← (if (co_active_boot co =? 0) && negb (bool_decide (boot ∈ co_revoked co))
       then _ ← modify (λ co, co <| co_active_boot := boot |>);
            _ ← on_co_store (set_authority_boot (mkId boot));
            on_co_store reset_authority
       else mret tt);
  epoch ← gets co_epoch;
  mret (encode_u64 epoch).

Definition handle_create_family (payload : list byte) : Co (list byte) :=
  owner ← lift_result (decode_u64 payload);
  fam ← on_co_store (create_family (mkId owner) Provenance.kUnknown);
  mret (encode_family_reply (id_value fam)).

Definition handle_publish (env : Readings) (payload : list byte) : Co (list byte) :=
  req ← lift_result (decode_publish payload);
  under_authority (publish_authority_ok (pq_auth req)) "stale publish authority"
    (let data := replicate (Z.to_nat (pq_size req)) (pq_fill req) in
     d ← on_co_store (make_full_descriptor (at_now env) (mkId (pq_family req)) (mkId 1) (zlen data)
           DurabilityClass.kLocal);
     pub ← on_co_store (publish d data);
     mret (encode_publish_reply (id_value (d_id (pub_descriptor pub))) (zlen (m_chunks (pub_manifest pub)))
       (pub_dedup_hits pub) (pub_dedup_misses pub))).

Definition handle_verify (payload : list byte) : Co (list byte) :=
  id ← lift_result (decode_verify_id payload);
  iv ← on_co_store (verify_checkpoint (mkId id));
  mret (encode_u64 (IntegrityState.to_u8 iv)).

Definition handle_restore (env : Readings) (payload : list byte) : Co (list byte) :=
  p ← lift_result (decode_restore payload);
  under_authority (restore_authority_ok p.1) "stale restore authority"
    (rc ← on_co_store (restore (at_elapsed env) (mkId 1) (mkId p.2) RestorePriority.kNormal);
     mret (encode_restore_reply (IntegrityState.to_u8 (rc_integrity rc)) (zlen (rc_bytes rc)))).

Definition handle_retire (env : Readings) (payload : list byte) : Co (list byte) :=
  p ← lift_result (decode_restore payload);
  under_authority (publish_authority_ok p.1) "stale retire authority"
    (_ ← on_co_store (retire (at_clock env) (mkId p.2)); mret (encode_u64 p.2)).

Definition handle_gc_run (env : Readings) (payload : list byte) : Co (list byte) :=
  p ← lift_result (decode_restore payload);
  under_authority (publish_authority_ok p.1) "stale gc authority"
    (_ ← on_co_store (gc_plan (at_clock env));
     res ← on_co_store (gc_run (at_clock env) (at_clock2 env));
     mret (encode_u64 (zlen (gr_reclaimed_blobs res)))).

Definition handle_retain (payload : list byte) : Co (list byte) :=
  p ← lift_result (decode_retain payload);
  let pol := default_RetentionPolicy <| pol_id := mkId 1 |> <| pol_family_id := mkId p.1 |>
    <| pol_retention_class := RetentionClass.kKeepLatestN |> <| pol_latest_n := p.2 |> in
  _ ← on_co_store (set_retention_policy pol);
  mret (encode_u64 p.2).

Definition handle_save (env : Readings) : Co (list byte) :=
  _ ← on_persist (save_state (at_ticks env)); mret (encode_u64 1).

Definition handle_advance : Co (list byte) :=
  _ ← advance_epoch;
  epoch ← gets co_epoch;
  mret (encode_u64 epoch).

Definition dispatch (env : Readings) (kind : MessageKind.t) (payload : list byte) : Co (list byte) :=
  match kind with
  | MessageKind.kRegisterBackend => handle_register payload
  | MessageKind.kCreateFamily => handle_create_family payload
  | MessageKind.kPublish => handle_publish env payload
  | MessageKind.kVerify => handle_verify payload
  | MessageKind.kRestore => handle_restore env payload
  | MessageKind.kRetire => handle_retire env payload
  | MessageKind.kGcRun => handle_gc_run env payload
  | MessageKind.kRetain => handle_retain payload
  | MessageKind.kSave => handle_save env
  | MessageKind.kAdvanceEpoch => handle_advance
  | _ => raise ErrorCode.kNotSupported "unsupported request"
  end.

(** ** The connection

    What the peer sends before it closes, whether each of our sends succeeds
    (all of them once the list is used up), and what was sent. *)
Record Connection := mkConnection { cn_in : list byte; cn_sends : list bool; cn_out : list byte }.

(** [read_exact]: the bytes, or [None] when the stream ends before. *)
Definition read_exact (n : nat) (input : list byte) : option (list byte) * list byte :=
  if (length input <? n)%nat then (None, []) else (Some (take n input), drop n input).

(** [send_all]; a failed send may have got a part across, which the peer,
    reading whole frames, drops. *)
Definition send_all (data : list byte) (conn : Connection) : bool * Connection :=
  match cn_sends conn with
  | false :: sends => (false, mkConnection (cn_in conn) sends (cn_out conn))
  | true :: sends => (true, mkConnection (cn_in conn) sends (cn_out conn ++ data))
  | [] => (true, mkConnection (cn_in conn) [] (cn_out conn ++ data))
  end.

Abbreviation Serve := (ST (Coordinator B * Connection) CheckpointStoreError).
Definition on_coordinator {A} (m : Co A) : Serve A := zoom fst (λ co p, (co, p.2)) m.
Definition receive (n : nat) : Serve (option (list byte)) := λ p,
  let '(r, rest) := read_exact n (cn_in p.2) in
  (Ok r, (p.1, mkConnection rest (cn_sends p.2) (cn_out p.2))).
Definition send (data : list byte) : Serve bool := λ p,
  let '(ok, conn) := send_all data p.2 in (Ok ok, (p.1, conn)).

(** The payload length of a frame header. *)
Definition frame_length (hdr : list byte) : Z :=
  Z.lor (Z.lor (Z.lor (at_pos hdr 7) (Z.shiftl (at_pos hdr 8) 8)) (Z.shiftl (at_pos hdr 9) 16))
    (Z.shiftl (at_pos hdr 10) 24).

(** The answer to a decoded frame. *)
Definition answer (env : Readings) (frame : DecodedFrame) : Co (list byte) :=
  reply ← attempt (dispatch env (df_kind frame) (df_payload frame));
  mret (match reply with
        | Ok reply => encode_frame MessageKind.kAck reply
        | Throw e => encode_frame MessageKind.kNack (encode_nack (error_code e) (error_message e))
        end).

(** One turn of the loop over a connection; whether it stays open.  An
    exception of [decode_frame] leaves the loop, and the program. *)
Definition serve_request (env : Readings) : Serve bool :=
  hdr ← receive 11;
  match hdr with
  | None => mret false
  | Some hdr =>
      let len := frame_length hdr in
      if len >? kMaxPayloadBytes then mret false
      else
        rest ← receive (Z.to_nat (len + 4));
        match rest with
        | None => mret false
        | Some rest =>
            frame ← lift_result (decode_frame (hdr ++ rest));
            out ← on_coordinator (answer env frame);
            send out
        end
  end.

(** The loop over a connection.  Every turn but the last consumes a header, so
    [length (cn_in conn)] more turns are enough. *)
Fixpoint serve_connection (fuel turn : nat) (env : nat → Readings) : Serve unit :=
  match fuel with
  | O => mret tt
  | S fuel =>
      open ← serve_request (env turn);
      if open : bool then serve_connection fuel (S turn) env else mret tt
  end.
Definition serve (env : nat → Readings) : Serve unit := λ p,
  serve_connection (S (length (cn_in p.2))) 0 env p.

(** ** The client of worker.cpp *)

(** What [Client.request] makes of the bytes that come back. *)
Definition client_reply (input : list byte) : outcome (list byte) :=
  match read_exact 11 input with
  | (None, _) => throw_error ErrorCode.kTruncated "reply header missing"
  | (Some hdr, input) =>
      match read_exact (Z.to_nat (u32 (frame_length hdr + 4))) input with
      | (None, _) => throw_error ErrorCode.kTruncated "reply truncated"
      | (Some rest, _) =>
          dec ← decode_frame (hdr ++ rest);
          if bool_decide (df_kind dec = MessageKind.kNack)
          then n ← decode_nack (df_payload dec); throw_error (nack_code n) (nack_message n)
          else mret (df_payload dec)
      end
  end.

(** A request over a connection of its own, answered by the coordinator; the
    program that serves it dies of an exception of [serve]. *)
Definition client_request (env : nat → Readings) (kind : MessageKind.t) (payload : list byte)
    (co : Coordinator B) : outcome (list byte) * Coordinator B :=
  let '(_, (co', conn)) := serve env (co, mkConnection (encode_frame kind payload) [] []) in
  (client_reply (cn_out conn), co').

(** ** The loop ends *)
Lemma read_exact_length n input r rest : read_exact n input = (r, rest) →
  (length rest ≤ length input)%nat ∧ (∀ d, r = Some d → length input = (n + length rest)%nat).
Proof.
  unfold read_exact. destruct (Nat.ltb_spec (length input) n); intros [= <- <-].
  - split; [simpl; lia|done].
  - rewrite length_drop. split; [lia|]. intros. lia.
Qed.

(** A turn that leaves the connection open has consumed a header. *)
Lemma serve_request_consumes env p p' : serve_request env p = (Ok true, p') →
  (11 + length (cn_in p'.2) ≤ length (cn_in p.2))%nat.
Proof.
  unfold serve_request. intros (hdr & p1 & H1 & Hk)%st_bind_ok.
  unfold receive in H1. destruct (read_exact 11 (cn_in p.2)) as [r rest] eqn:E1. injection H1 as -> <-.
  apply read_exact_length in E1 as [_ E1]. destruct hdr as [hdr|]; [|done]. specialize (E1 hdr eq_refl).
  destruct (frame_length hdr >? kMaxPayloadBytes); [done|].
  apply st_bind_ok in Hk as (r2 & p2 & H2 & Hk). unfold receive in H2. cbn [snd fst cn_in] in H2.
  destruct (read_exact _ rest) as [r3 rest2] eqn:E2. injection H2 as -> <-.
  apply read_exact_length in E2 as [E2 _]. destruct r2 as [r2|]; [|done].
  apply st_bind_ok in Hk as (frame & p3 & H3 & Hk). unfold lift_result in H3. injection H3 as _ <-.
  apply st_bind_ok in Hk as (out & p4 & H4 & Hk). unfold on_coordinator, zoom in H4. cbn [fst snd] in H4.
  destruct (answer env frame p.1) as [r4 co']. injection H4 as -> <-.
  unfold send, send_all in Hk. cbn in Hk.
  destruct (cn_sends p.2) as [|[] ?]; [injection Hk as <-|injection Hk as <-|discriminate Hk]; cbn; lia.
Qed.

(** Any larger number of turns gives the same result. *)
Lemma serve_enough_fuel fuel1 fuel2 turn env p :
  (length (cn_in p.2) < fuel1)%nat → (length (cn_in p.2) < fuel2)%nat →
  serve_connection fuel1 turn env p = serve_connection fuel2 turn env p.
Proof.
  revert fuel2 turn p. induction fuel1 as [|fuel1 IH]; intros [|fuel2] turn p H1 H2; [lia..|]. cbn.
  unfold mbind, ST_bind. destruct (serve_request (env turn) p) as [[[]|e] p'] eqn:E; [|done..].
  apply serve_request_consumes in E. apply IH; lia.
Qed.

(** ** A request and its answer *)
Lemma frame_length_header k n : is_u32 n → frame_length (frame_header k n) = n.
Proof.
  intros Hn. pose proof (header_len k n [] Hn) as Hl. rewrite app_nil_r in Hl. unfold read_le32 in Hl.
  change (length (frame_header k n) <? 7 + 4)%nat with false in Hl. cbn iota in Hl. injection Hl as Hl.
  unfold frame_length. rewrite <- Hl at 5. by rewrite Z.shiftl_0_r.
Qed.

Lemma read_exact_app a b : read_exact (length a) (a ++ b) = (Some a, b).
Proof.
  unfold read_exact. rewrite (proj2 (Nat.ltb_ge _ _)) by (rewrite length_app; lia).
  by rewrite take_app_length, drop_app_length.
Qed.

(** Serving one well-formed frame. *)
Lemma serve_request_frame env k p rest sends out co : kind_ok k → zlen p ≤ kMaxPayloadBytes →
  serve_request env (co, mkConnection (encode_frame k p ++ rest) sends out) =
    let '(r, co') := answer env (mkFrame k p) co in
    match r with
    | Ok data => send data (co', mkConnection rest sends out)
    | Throw e => (Throw e, (co', mkConnection rest sends out))
    end.
Proof.
  intros Hk Hp. pose proof (zlen_nonneg p). assert (is_u32 (zlen p)) as Hu.
  { unfold is_u32, kMaxPayloadBytes in *. lia. }
  set (h := frame_header k (zlen p)). set (b := p ++ put_le32 (crc32 p 0)).
  assert (encode_frame k p = h ++ b) as Ef by apply encode_frame_split.
  unfold serve_request. rewrite (st_bind_run _ _ _ (Some h) (co, mkConnection (b ++ rest) sends out)).
  2: { unfold receive. cbn [fst snd cn_in cn_sends cn_out]. rewrite Ef, <- app_assoc.
       change 11%nat with (length h). by rewrite read_exact_app. }
  cbv iota. assert (frame_length h = zlen p) as -> by (by apply frame_length_header).
  destruct (Z.gtb_spec (zlen p) kMaxPayloadBytes); [lia|].
  rewrite (st_bind_run _ _ _ (Some b) (co, mkConnection rest sends out)).
  2: { unfold receive. cbn [fst snd cn_in cn_sends cn_out].
       replace (Z.to_nat (zlen p + 4)) with (length b); [by rewrite read_exact_app|].
       unfold b, zlen. rewrite length_app, put_le32_eq, length_put_le. lia. }
  cbv iota. rewrite <- Ef. rewrite (st_bind_run _ _ _ (mkFrame k p) (co, mkConnection rest sends out))
    by (unfold lift_result; by rewrite decode_encode).
  unfold on_coordinator, zoom, mbind, ST_bind. cbn [fst snd].
  by destruct (answer env (mkFrame k p) co) as [[data|e] co'].
Qed.

Lemma client_reply_frame k p : kind_ok k → zlen p ≤ kMaxPayloadBytes →
  client_reply (encode_frame k p) =
    if bool_decide (k = MessageKind.kNack)
    then n ← decode_nack p; throw_error (nack_code n) (nack_message n) else Ok p.
Proof.
  intros Hk Hp. pose proof (zlen_nonneg p). assert (is_u32 (zlen p)) as Hu.
  { unfold is_u32, kMaxPayloadBytes in *. lia. }
  unfold client_reply. rewrite encode_frame_split. change 11%nat with (length (frame_header k (zlen p))).
  rewrite read_exact_app, frame_length_header, u32_id by (done || unfold is_u32, kMaxPayloadBytes in *; lia).
  set (b := p ++ put_le32 (crc32 p 0)).
  replace (Z.to_nat (zlen p + 4)) with (length b)
    by (unfold b, zlen; rewrite length_app, put_le32_eq, length_put_le; lia).
  assert (read_exact (length b) b = (Some b, [])) as ->.
  { pose proof (read_exact_app b []) as E. by rewrite app_nil_r in E. }
  unfold b. rewrite <- encode_frame_split, decode_encode by done. done.
Qed.

(** *** Replies are short *)
Definition short (m : Co (list byte)) : Prop := ∀ co r co', m co = (Ok r, co') → zlen r ≤ 32.
Lemma short_ret r : zlen r ≤ 32 → short (mret r).
Proof. by intros Hr co r' co' [= <- _]. Qed.
Lemma short_bind {A} (m : Co A) k : (∀ a, short (k a)) → short (m ≫= k).
Proof. intros Hk co r co' (a & co1 & _ & H2)%st_bind_ok. by eapply Hk. Qed.
Lemma short_raise code msg : short (raise code msg).
Proof. by intros co r co' [=]. Qed.
Lemma short_under check msg k : short k → short (under_authority check msg k).
Proof. intros Hk. apply short_bind. intros []; [done|]. apply short_raise. Qed.
Lemma zlen_w_u64 v : zlen (w_u64 v) = 8.
Proof. unfold zlen, w_u64. by rewrite length_put_le. Qed.

Ltac short_steps := repeat lazymatch goal with
  | |- short (mret _) => apply short_ret; unfold encode_u64, encode_family_reply, encode_publish_reply,
      encode_restore_reply, encode_u64; rewrite ?zlen_app, ?zlen_w_u64; lia
  | |- short (under_authority _ _ _) => apply short_under
  | |- short (_ ≫= _) => apply short_bind; intros
  | |- short (raise _ _) => apply short_raise
  end.
Lemma dispatch_short env kind payload : short (dispatch env kind payload).
Proof.
  destruct kind; unfold dispatch, handle_register, handle_create_family, handle_publish, handle_verify,
    handle_restore, handle_retire, handle_gc_run, handle_retain, handle_save, handle_advance;
    cbv zeta; short_steps.
Qed.

(** ** What a request can do to the authority *)
Definition authority (co : Coordinator B) := (co_active_boot co, co_epoch co, co_roster co, co_revoked co).
Definition same_authority (co co' : Coordinator B) : Prop := authority co' = authority co.
#[local] Instance same_authority_preorder : PreOrder same_authority.
Proof. split; [by intros co|]. intros c1 c2 c3 H1 H2. by etrans. Qed.

Lemma frames_on_co_store {A} (m : ST (CheckpointStore B) CheckpointStoreError A) :
  frames same_authority (on_co_store m).
Proof. intros co. unfold on_co_store, zoom. by destruct (m (co_store co)). Qed.
Lemma frames_on_persist {A} (m : ST (CheckpointStore B * FileSystem) CheckpointStoreError A) :
  frames same_authority (on_persist m).
Proof. intros co. unfold on_persist, zoom. by destruct (m _). Qed.
Lemma frames_count_stale : frames same_authority count_stale.
Proof. by intros co. Qed.
Lemma frames_publish_check a : frames same_authority (publish_authority_ok a).
Proof. unfold publish_authority_ok. solve_frames; done || apply frames_count_stale. Qed.
Lemma frames_restore_check a : frames same_authority (restore_authority_ok a).
Proof. unfold restore_authority_ok. solve_frames; done || apply frames_count_stale. Qed.
Lemma frames_under check msg k : frames same_authority check → frames same_authority k →
  frames same_authority (under_authority check msg k).
Proof.
  intros Hc Hk. apply frames_bind; [apply _|done|]. intros []; [done|]. apply frames_throw, _.
Qed.
Create HintDb authority.
#[local] Hint Resolve frames_on_co_store frames_on_persist frames_publish_check frames_restore_check
  frames_under : authority.

(** Only registration and the advance of the epoch touch the authority. *)
Lemma dispatch_authority env kind payload :
  kind ≠ MessageKind.kRegisterBackend → kind ≠ MessageKind.kAdvanceEpoch →
  frames same_authority (dispatch env kind payload).
Proof.
  intros H1 H2. destruct kind; try done; unfold dispatch, handle_create_family, handle_publish, handle_verify,
    handle_restore, handle_retire, handle_gc_run, handle_retain, handle_save, raise; cbv zeta;
    solve_frames; eauto with authority;
    (apply frames_under; [auto with authority|]); solve_frames; auto with authority.
Qed.

Definition advanced (co : Coordinator B) : Coordinator B :=
  co <| co_epoch ::= incr64 |> <| co_active_boot := 0 |> <| co_stale_rejections ::= incr64 |>.
Lemma dispatch_advance env payload co :
  dispatch env MessageKind.kAdvanceEpoch payload co = (Ok (encode_u64 (incr64 (co_epoch co))), advanced co).
Proof. reflexivity. Qed.

Lemma register_epoch payload co : co_epoch (handle_register payload co).2 = co_epoch co.
Proof.
  assert (frames (λ co co' : Coordinator B, co_epoch co' = co_epoch co) (handle_register payload)) as Hf; [|apply Hf].
  assert (PreOrder (λ co co' : Coordinator B, co_epoch co' = co_epoch co)).
  { split; [by intros ?|]. intros ? ? ? ? ?. by etrans. }
  assert (∀ A (m : ST (CheckpointStore B) CheckpointStoreError A),
    frames (λ co co' : Coordinator B, co_epoch co' = co_epoch co) (on_co_store m)) as Hs.
  { intros A m c. unfold on_co_store, zoom. by destruct (m _). }
  unfold handle_register. cbv zeta. solve_frames; done || apply Hs.
Qed.

(** One request served by the process. *)
Inductive co_step : Coordinator B → Coordinator B → Prop :=
  | step_dispatch env kind payload co : co_step co (dispatch env kind payload co).2.

Lemma step_epoch co co' : co_step co co' → co_epoch co' = co_epoch co ∨ co_epoch co' = incr64 (co_epoch co).
Proof.
  intros [env kind payload c]. destruct (decide (kind = MessageKind.kAdvanceEpoch)) as [->|H1]; [by right|left].
  destruct (decide (kind = MessageKind.kRegisterBackend)) as [->|H2]; [apply register_epoch|].
  pose proof (dispatch_authority env kind payload H2 H1 c) as E. unfold same_authority, authority in E. congruence.
Qed.

(** The epoch never goes back, short of 2^64 requests. *)
Lemma steps_epoch n co co' : nsteps co_step n co co' → 0 ≤ co_epoch co →
  co_epoch co + Z.of_nat n < 2 ^ 64 → co_epoch co ≤ co_epoch co' ≤ co_epoch co + Z.of_nat n.
Proof.
  induction 1 as [co|n co1 co2 co3 Hs _ IH]; intros H1 H2; [lia|].
  apply step_epoch in Hs as [E|E]; rewrite E in *; [lia|]. unfold incr64 in *.
  rewrite u64_id in * by (unfold is_u64; lia). lia.
Qed.

(** A request that carries the authority [a]. *)
Definition carries (kind : MessageKind.t) (payload : list byte) (a : AuthorityEnvelope) : Prop :=
  match kind with
  | MessageKind.kPublish => ∃ req, decode_publish payload = Ok req ∧ pq_auth req = a
  | MessageKind.kRestore | MessageKind.kRetire | MessageKind.kGcRun => ∃ id, decode_restore payload = Ok (a, id)
  | _ => False
  end.

(** What the process keeps when it refuses a request. *)
Definition refused (co : Coordinator B) : Coordinator B := co <| co_stale_rejections ::= incr64 |>.

Lemma under_publish_refused a msg k co : ae_boot a ≠ co_active_boot co ∨ ae_epoch a ≠ co_epoch co →
  under_authority (publish_authority_ok a) msg k co = (throw_error ErrorCode.kStaleAuthority msg, refused co).
Proof.
  intros Ha. unfold under_authority, publish_authority_ok, get, mbind, ST_bind.
  assert (negb (ae_boot a =? co_active_boot co) || negb (ae_epoch a =? co_epoch co) = true) as ->; [|done].
  rewrite orb_true_iff, !negb_true_iff, !Z.eqb_neq. done.
Qed.
Lemma under_restore_refused a msg k co : ae_epoch a ≠ co_epoch co →
  under_authority (restore_authority_ok a) msg k co = (throw_error ErrorCode.kStaleAuthority msg, refused co).
Proof.
  intros Ha. unfold under_authority, restore_authority_ok, get, mbind, ST_bind.
  by rewrite (proj2 (Z.eqb_neq _ _) Ha).
Qed.

(** With its message, which fits a frame. *)
Lemma stale_epoch_throws env kind payload a co : carries kind payload a → ae_epoch a ≠ co_epoch co →
  ∃ msg, dispatch env kind payload co = (throw_error ErrorCode.kStaleAuthority msg, refused co) ∧
    zlen (make_bytes msg) ≤ 100.
Proof.
  intros Hc Ha.
  destruct kind; try done; destruct Hc as [x Hc]; cbn [dispatch]; unfold handle_publish, handle_restore,
    handle_retire, handle_gc_run.
  1: destruct Hc as [-> <-].
  2-4: rewrite Hc.
  all: erewrite st_bind_run by reflexivity; cbv zeta;
    first [rewrite under_publish_refused by auto | rewrite under_restore_refused by auto];
    eexists; (split; [reflexivity|by vm_compute]).
Qed.
Lemma stale_epoch_refused env kind payload a co : carries kind payload a → ae_epoch a ≠ co_epoch co →
  outcome_code (dispatch env kind payload co).1 = ErrorCode.kStaleAuthority ∧
  (dispatch env kind payload co).2 = refused co.
Proof. intros Hc Ha. by destruct (stale_epoch_throws env kind payload a co Hc Ha) as (msg & -> & _). Qed.
End coordinator.

(** ** Claims *)
Section claims.
Context `{IterOrder} {B : Type} `{IBackend B}.
Implicit Types co : Coordinator B.

(** A request over a connection of its own gives the result of [dispatch]. *)
Lemma client_request_dispatch env kind payload co :
  kind_ok kind → zlen payload ≤ kMaxPayloadBytes →
  let out := dispatch (env 0%nat) kind payload co in
  (∀ e, out.1 = Throw e →
     ErrorCode.wf (error_code e) ∧ zlen (make_bytes (error_message e)) ≤ kMaxPayloadBytes - 12) →
  client_request env kind payload co =
    (match out.1 with
     | Ok reply => Ok reply
     | Throw e => throw_error (error_code e) (error_message e)
     end, out.2).
Proof.
  intros Hk Hp. cbv zeta. intros He.
  unfold client_request, serve. cbn [snd cn_in]. rewrite length_encode_frame.
  cbn [serve_connection Nat.add]. rewrite <- (app_nil_r (encode_frame kind payload)).
  pose proof (serve_request_frame (env 0%nat) kind payload [] [] [] co Hk Hp) as E.
  unfold answer, attempt, mbind at 1, ST_bind at 1 in E. cbn [df_kind df_payload] in E.
  pose proof (dispatch_short (env 0%nat) kind payload co) as Hs.
  destruct (dispatch (env 0%nat) kind payload co) as [[reply|e] co']; cbn [fst snd] in *.
  - specialize (Hs _ _ eq_refl). rewrite (st_bind_run _ _ _ _ _ E). cbv iota.
    rewrite (st_bind_run _ _ _ false (co', mkConnection [] [] (encode_frame MessageKind.kAck reply))) by done.
    cbn [fst snd cn_out mret ST_ret]. rewrite client_reply_frame; [done|done|]. unfold kMaxPayloadBytes. lia.
  - destruct (He e eq_refl) as [Hwf Hlen]. rewrite (st_bind_run _ _ _ _ _ E). cbv iota.
    set (nack := encode_nack (error_code e) (error_message e)).
    rewrite (st_bind_run _ _ _ false (co', mkConnection [] [] (encode_frame MessageKind.kNack nack))) by done.
    pose proof (zlen_nonneg (make_bytes (error_message e))).
    cbn [fst snd cn_out mret ST_ret]. rewrite client_reply_frame; [|done|].
    + rewrite bool_decide_eq_true_2 by done. rewrite <- (app_nil_r nack). unfold nack.
      rewrite decode_nack_ok; [done|done|]. unfold is_u64, kMaxPayloadBytes in *. lia.
    + unfold nack, encode_nack, w_string, w_bytes. rewrite !zlen_app, zlen_w_u64.
      assert (zlen (w_u32 (ErrorCode.to_u32 (error_code e))) = 4) as ->; [|lia].
      unfold zlen, w_u32. by rewrite length_put_le.
Qed.

(** C11: A remote request is the local call.  Whatever the coordinator's state,
    sending a request over a fresh connection and reading what comes back
    gives the client the result of [dispatch], an error with its code and
    message included, and leaves the coordinator in the state [dispatch]
    leaves; the loop over the connection ends, and more turns change nothing. *)
Theorem rpc_transparent env kind payload co :
  kind_ok kind → zlen payload ≤ kMaxPayloadBytes →
  let out := dispatch (env 0%nat) kind payload co in
  (∀ e, out.1 = Throw e →
     ErrorCode.wf (error_code e) ∧ zlen (make_bytes (error_message e)) ≤ kMaxPayloadBytes - 12) →
  client_request env kind payload co =
    (match out.1 with
     | Ok reply => Ok reply
     | Throw e => throw_error (error_code e) (error_message e)
     end, out.2) ∧
  ∀ fuel, (length (encode_frame kind payload) < fuel)%nat →
    let p := (co, mkConnection (encode_frame kind payload) [] []) in
    serve_connection fuel 0 env p = serve env p.
Proof.
  intros Hk Hp. cbv zeta. intros He. split; [by apply client_request_dispatch|].
  intros fuel Hf. by apply serve_enough_fuel; cbn [snd cn_in]; lia.
Qed.

(** C10: A revoked epoch stays fenced.  After the epoch has advanced, whatever
    requests the process serves, no publish, restore, retirement or collection
    that carries the old epoch, or an older one, is ever executed: it is
    refused with the stale-authority code and changes nothing but the count of
    refusals.  The bound excludes a wrap-around of the 64-bit epoch. *)
Theorem revoked_epoch_is_fenced n env payload co co' env' kind payload' a :
  0 ≤ co_epoch co → co_epoch co + 1 + Z.of_nat n < 2 ^ 64 →
  nsteps co_step n (dispatch env MessageKind.kAdvanceEpoch payload co).2 co' →
  carries kind payload' a → ae_epoch a ≤ co_epoch co →
  outcome_code (dispatch env' kind payload' co').1 = ErrorCode.kStaleAuthority ∧
  (dispatch env' kind payload' co').2 = refused co'.
Proof.
  intros H1 H2 Hn Hc Ha. eapply stale_epoch_refused; [done|]. rewrite dispatch_advance in Hn. cbn [snd] in Hn.
  assert (co_epoch (advanced co) = co_epoch co + 1) as E by (apply u64_id; unfold is_u64; lia).
  apply steps_epoch in Hn; rewrite E in *; lia.
Qed.
End claims.

(** ** A session over the filesystem backend *)
#[local] Existing Instance canonical_order.
Definition demo_readings : Readings := mkReadings 5000000 1 no_clock no_clock 42.
Definition demo_env : nat → Readings := λ _, demo_readings.
Definition demo_coordinator : Coordinator LocalBackend :=
  (new_coordinator "srv/data" 2 demo_local blank_disk).2.
Definition demo_registered : Coordinator LocalBackend :=
  (dispatch demo_readings MessageKind.kRegisterBackend (encode_register 7 "w") demo_coordinator).2.
Definition demo_publish : list byte := encode_publish (mkEnvelope 7 1 1) 1 x41 5.
(** Register, create a family, publish five bytes. *)
Definition demo_session : Coordinator LocalBackend :=
  let c := (dispatch demo_readings MessageKind.kCreateFamily (encode_u64 1) demo_registered).2 in
  (dispatch demo_readings MessageKind.kPublish demo_publish c).2.

Lemma rpc_transparent_witness :
  (client_request demo_env MessageKind.kRestore (encode_restore (mkEnvelope 7 1 1) 1000) demo_session).1
    = Ok (encode_restore_reply 2 5).
Proof.
  set (payload := encode_restore (mkEnvelope 7 1 1) 1000).
  assert ((dispatch demo_readings MessageKind.kRestore payload demo_session).1 = Ok (encode_restore_reply 2 5)) as E
    by (vm_compute; reflexivity).
  assert (zlen payload ≤ kMaxPayloadBytes) as Hp by (vm_compute; discriminate).
  destruct (rpc_transparent demo_env MessageKind.kRestore payload demo_session I Hp) as [R _].
  - intros e. change (demo_env 0%nat) with demo_readings. rewrite E. discriminate.
  - rewrite R. cbn [fst]. change (demo_env 0%nat) with demo_readings. rewrite E. exact eq_refl.
Defined.

Lemma revoked_epoch_is_fenced_witness :
  let co := (dispatch demo_readings MessageKind.kAdvanceEpoch [] demo_registered).2 in
  let co' := (dispatch demo_readings MessageKind.kRegisterBackend (encode_register 7 "w") co).2 in
  co_active_boot co' = 7 ∧
  outcome_code (dispatch demo_readings MessageKind.kPublish demo_publish co').1 = ErrorCode.kStaleAuthority.
Proof.
  intros co co'. split; [vm_compute; reflexivity|].
  assert (decode_publish demo_publish = Ok (mkPublishRequest (mkEnvelope 7 1 1) 1 x41 5)) as Ed by (vm_compute; reflexivity).
  refine (proj1 (revoked_epoch_is_fenced 1 demo_readings [] demo_registered co' demo_readings MessageKind.kPublish
    demo_publish (mkEnvelope 7 1 1) _ _ _ _ _)).
  - vm_compute. discriminate.
  - vm_compute. reflexivity.
  - eapply nsteps_l; [|apply nsteps_O]. apply step_dispatch.
  - exact (ex_intro _ _ (conj Ed eq_refl)).
  - vm_compute. discriminate.
Defined.

(** After the revocation no incarnation is active, but the active boot is then
    0, and a publish that names boot 0 and the new epoch passes the check. *)
Example boot_zero_publishes_after_revocation :
  let c := (dispatch demo_readings MessageKind.kCreateFamily (encode_u64 1) demo_registered).2 in
  let co := (dispatch demo_readings MessageKind.kAdvanceEpoch [] c).2 in
  let out := dispatch demo_readings MessageKind.kPublish (encode_publish (mkEnvelope 0 2 1) 1 x42 1) co in
  co_active_boot co = 0 ∧ is_ok out.1 = true ∧ size (im_checkpoints (s_impl (co_store out.2))) = 1%nat.
Proof. vm_compute. by repeat split. Qed.

(** Nothing is ever revoked for good: the same boot registers again and is
    active under the new epoch. *)
Example revoked_boot_returns :
  let co := (dispatch demo_readings MessageKind.kAdvanceEpoch [] demo_registered).2 in
  let co' := (dispatch demo_readings MessageKind.kRegisterBackend (encode_register 7 "w") co).2 in
  co_active_boot co = 0 ∧ co_active_boot co' = 7 ∧ co_epoch co' = 2 ∧ co_revoked co' = ∅.
Proof. vm_compute. by repeat split. Qed.

(** [decode_frame] is called outside the [try]: a frame with a bad checksum
    ends the program. *)
Example malformed_frame_ends_the_program :
  let frame := frame_header MessageKind.kSave 0 ++ [x01; x00; x00; x00] in
  outcome_code (serve demo_env (demo_registered, mkConnection frame [] [])).1 = ErrorCode.kChecksumMismatch.
Proof. vm_compute. reflexivity. Qed.
