(* ===== verification/References.v ===== *)
(** * References: the reference counts of the whole store

    The dedup table counts references; the catalogue holds them.  Here the two
    are tied together: over the histories of [store_step] the counter of a digest
    is the number of chunks of that digest in the checkpoints that have not been
    swept, and a failed publication whose pieces are all new leaves the table as
    it was ([publish_failed_new]). *)
From stdpp Require Import functions.
From S2P Require Import Prelude Base Hash Model Chunking Dedup BinFormat Backend SyntheticBackend Store Publish Restore Retention Gc FileSystem Persistence Recovery Accounting.

(** ** Counting references *)
Definition occurrences (d : Sha256Digest) (ds : list Sha256Digest) : Z := zlen (filter (λ x, x = d) ds).
Lemma occurrences_cons d x ds :
  occurrences d (x :: ds) = (if decide (x = d) then 1 else 0) + occurrences d ds.
Proof. unfold occurrences, zlen. rewrite filter_cons. case_decide; cbn [length]; lia. Qed.
Lemma occurrences_app d ds1 ds2 : occurrences d (ds1 ++ ds2) = occurrences d ds1 + occurrences d ds2.
Proof. unfold occurrences, zlen. rewrite filter_app, length_app. lia. Qed.
Lemma occurrences_nonneg d ds : 0 ≤ occurrences d ds.
Proof. unfold occurrences, zlen. lia. Qed.

(** The digests a checkpoint refers to: a swept one refers to nothing. *)
Definition swept_state (l : CheckpointLifecycle.t) : bool :=
  bool_decide (l = CheckpointLifecycle.kGcEligible) || bool_decide (l = CheckpointLifecycle.kDeleted).
Definition references (rec : CheckpointRecord) : list Sha256Digest :=
  if swept_state (rec_lifecycle rec) then [] else cd_digest <$> rec_chunks rec.

Definition total (d : Sha256Digest) (m : gmap CheckpointId (list Sha256Digest)) : Z :=
  map_fold (λ _ ds n, occurrences d ds + n) 0 m.
Lemma total_insert d m k ds : m !! k = None → total d (<[k := ds]> m) = occurrences d ds + total d m.
Proof. intros Hk. unfold total. rewrite map_fold_insert_L; [done|lia|done]. Qed.
Lemma total_nonneg d m : 0 ≤ total d m.
Proof.
  unfold total. apply (map_fold_weak_ind (λ n _, 0 ≤ n)); [done|].
  intros k ds m' n _ Hn. pose proof (occurrences_nonneg d ds). lia.
Qed.
Lemma total_split d m k ds : m !! k = Some ds → total d m = occurrences d ds + total d (delete k m).
Proof.
  intros Hk. rewrite <- (insert_delete_id m k ds) at 1 by done. apply total_insert. apply lookup_delete_eq.
Qed.
Lemma total_replace d m k ds ds' : m !! k = Some ds →
  total d (<[k := ds']> m) = total d m - occurrences d ds + occurrences d ds'.
Proof.
  intros Hk. rewrite (total_split d m k ds Hk), <- insert_delete_eq, total_insert by apply lookup_delete_eq. lia.
Qed.
Lemma total_ge d m k ds : m !! k = Some ds → occurrences d ds ≤ total d m.
Proof. intros Hk. rewrite (total_split d m k ds Hk). pose proof (total_nonneg d (delete k m)). lia. Qed.

Lemma occurrences_zero d ds : occurrences d ds = 0 ↔ d ∉ ds.
Proof.
  induction ds as [|x ds IH]; [split; [intros _ ?%elem_of_nil|]; done|].
  rewrite occurrences_cons, not_elem_of_cons. pose proof (occurrences_nonneg d ds).
  case_decide; [subst; split; [lia|by intros []]|]. rewrite Z.add_0_l, IH. naive_solver.
Qed.
(** A digest nobody refers to has a total of zero, and only such a digest. *)
Lemma total_zero d m : total d m = 0 ↔ ∀ k ds, m !! k = Some ds → d ∉ ds.
Proof.
  split.
  - intros Hz k ds Hk. apply occurrences_zero. pose proof (total_ge d m k ds Hk). pose proof (occurrences_nonneg d ds). lia.
  - induction m as [|k ds m Hk IH] using map_ind; [done|]. intros Hz. rewrite total_insert by done.
    rewrite (proj2 (occurrences_zero d ds)) by (eapply Hz, lookup_insert_eq).
    rewrite IH; [done|]. intros k' ds' Hk'. apply (Hz k'). rewrite lookup_insert_ne by congruence. done.
Qed.

Section references.
Context `{IterOrder} {B : Type} `{HB : IBackend B} {HL : BackendLaws B}.
Implicit Types s : CheckpointStore B.

Definition held s : gmap CheckpointId (list Sha256Digest) := references <$> im_checkpoints (s_impl s).
(** The number of chunks with this digest in the checkpoints not yet swept. *)
Definition live_references s (d : Sha256Digest) : Z := total d (held s).

(** The invariant. *)
Definition balanced s : Prop :=
  table_ok (s_dedup s) ∧ ∀ d, dedup_refcount (s_dedup s) d = live_references s d.

(** Steps that neither take nor release references. *)
Definition keeps s s' : Prop :=
  held s' = held s ∧
  (table_ok (s_dedup s) → table_ok (s_dedup s') ∧
     ∀ d, dedup_refcount (s_dedup s') d = dedup_refcount (s_dedup s) d).
#[local] Instance keeps_preorder : PreOrder keeps.
Proof.
  split; [by intros s|]. intros s1 s2 s3 [H12 T12] [H23 T23]. split; [congruence|]. intros Hok.
  destruct (T12 Hok) as [Hok2 C12]. destruct (T23 Hok2) as [Hok3 C23]. split; [done|]. intros d. by rewrite C23.
Qed.
Lemma keeps_balanced s s' : keeps s s' → balanced s → balanced s'.
Proof.
  intros [Hh Ht] [Hok Hb]. destruct (Ht Hok) as [Hok' Hc]. split; [done|]. intros d.
  rewrite Hc, Hb. unfold live_references. by rewrite Hh.
Qed.
Lemma keeps_same s s' : im_checkpoints (s_impl s') = im_checkpoints (s_impl s) → s_dedup s' = s_dedup s → keeps s s'.
Proof. intros Hc Hd. unfold keeps, held. by rewrite Hc, Hd. Qed.

Lemma keeps_on_backend {A} p (m : ST B CheckpointStoreError A) : frames keeps (on_backend p m).
Proof. intros s. unfold on_backend, zoom. by destruct (m (s_heap s p)). Qed.
Lemma keeps_content s s' : content_kept s s' → keeps s s'.
Proof.
  intros (Hc & Hrest & _). split; [|injection Hrest as _ _ _ _ _ _ -> _; done].
  unfold held. apply map_eq. intros id. apply (f_equal (lookup id)) in Hc. rewrite !lookup_fmap in *.
  destruct (im_checkpoints (s_impl s') !! id) as [r'|], (im_checkpoints (s_impl s) !! id) as [r|];
    cbn in *; try done.
  injection Hc as _ _ Ech El. unfold references. by rewrite Ech, El.
Qed.
(** Assigning to a record what does not concern its references. *)
Lemma keeps_modify_record id f : (∀ rec, references (f rec) = references rec) →
  frames keeps (modify_record (B:=B) id f).
Proof. intros Hf s. split; [|done]. by apply fmap_alter_id. Qed.

(** ** Collection *)
Lemma release_one d s : table_ok (s_dedup s) → 0 < dedup_refcount (s_dedup s) d →
  ∃ s', on_dedup (dedup_release_reference d) s = (Ok true, s') ∧ s_impl s' = s_impl s ∧
    table_ok (s_dedup s') ∧
    ∀ d', dedup_refcount (s_dedup s') d' = dedup_refcount (s_dedup s) d' - (if decide (d = d') then 1 else 0).
Proof.
  intros Hok Hpos. pose proof (release_ok (s_dedup s) d Hok) as Hok'. revert Hpos Hok'.
  unfold on_dedup, zoom, dedup_release_reference, dedup_refcount, get, mbind, ST_bind.
  destruct (s_dedup s !! d) as [e|] eqn:E; [|lia]. intros Hpos.
  rewrite (proj2 (Z.eqb_neq (de_refcount e) 0)) by lia. cbn. intros Hok'.
  eexists. split; [done|]. split; [done|]. split; [done|]. cbn. intros d'.
  destruct (decide (d = d')) as [<-|Hne]; [|rewrite lookup_insert_ne by done; lia].
  rewrite lookup_insert_eq, E. cbn. apply u64_id. destruct (Hok _ _ E) as [_ Hr]. unfold is_u64 in *. lia.
Qed.

Lemma release_chunks_run cds result s : table_ok (s_dedup s) →
  (∀ d, occurrences d (cd_digest <$> cds) ≤ dedup_refcount (s_dedup s) d) →
  ∃ r s', release_chunks cds result s = (Ok r, s') ∧ s_impl s' = s_impl s ∧ table_ok (s_dedup s') ∧
    ∀ d, dedup_refcount (s_dedup s') d = dedup_refcount (s_dedup s) d - occurrences d (cd_digest <$> cds).
Proof.
  revert result s. induction cds as [|cd cds IH]; intros result s Hok Hle; cbn [release_chunks].
  { exists result, s. split_and!; try done. intros d. change (occurrences d _) with 0. lia. }
  pose proof (λ d, occurrences_nonneg d (cd_digest <$> cds)) as Hnn.
  assert (∀ d, occurrences d (cd_digest <$> cd :: cds) =
    (if decide (cd_digest cd = d) then 1 else 0) + occurrences d (cd_digest <$> cds)) as Hcons
    by (intros d; apply occurrences_cons).
  destruct (release_one (cd_digest cd) s Hok) as (s1 & E1 & I1 & Ok1 & C1).
  { specialize (Hle (cd_digest cd)). specialize (Hnn (cd_digest cd)). rewrite Hcons, decide_True in Hle by done. lia. }
  rewrite (st_bind_run _ _ _ (Ok true) s1) by (unfold attempt; by rewrite E1).
  destruct (IH result s1 Ok1) as (r & s2 & E2 & I2 & Ok2 & C2).
  { intros d. specialize (Hle d). rewrite Hcons in Hle. rewrite C1. lia. }
  exists r, s2. split; [done|]. split; [congruence|]. split; [done|]. intros d. rewrite C2, C1, Hcons. lia.
Qed.

Lemma sweep_balanced eligible result s : balanced s →
  ∃ r s', sweep_checkpoints eligible result s = (Ok r, s') ∧ balanced s'.
Proof.
  revert result s. induction eligible as [|cid eligible IH]; intros result s Hb; cbn [sweep_checkpoints].
  { by exists result, s. }
  unfold get_impl. rewrite (st_bind_run _ _ _ (im_checkpoints (s_impl s)) s) by done.
  destruct (im_checkpoints (s_impl s) !! cid) as [rec|] eqn:E; [|by apply IH].
  fold (swept_state (rec_lifecycle rec)). destruct (swept_state (rec_lifecycle rec)) eqn:El; [by apply IH|].
  assert (held s !! cid = Some (cd_digest <$> rec_chunks rec)) as Eh.
  { unfold held. rewrite lookup_fmap, E. cbn. unfold references. by rewrite El. }
  destruct Hb as [Hok Hb].
  destruct (release_chunks_run (rec_chunks rec) result s Hok) as (r & s1 & E1 & I1 & Ok1 & C1).
  { intros d. rewrite Hb. by eapply total_ge. }
  rewrite (st_bind_run _ _ _ _ _ E1). erewrite st_bind_run by reflexivity. erewrite st_bind_run by reflexivity.
  apply IH. split; [done|]. intros d. cbn. rewrite C1, Hb. unfold live_references.
  match goal with |- _ = total d ?m => assert (m = <[cid := []]> (held s)) as -> end.
  { unfold held. cbn. rewrite I1. apply map_eq. intros k. rewrite lookup_fmap.
    destruct (decide (cid = k)) as [<-|Hne].
    - rewrite lookup_insert_eq, lookup_alter_eq, E. done.
    - by rewrite lookup_insert_ne, lookup_alter_ne, lookup_fmap by done. }
  rewrite (total_replace _ _ _ _ _ Eh). change (occurrences d []) with 0. lia.
Qed.

Lemma keeps_on_dedup_orphan d : frames keeps (on_dedup (B:=B) (dedup_release_until_orphan d)).
Proof.
  intros s. unfold on_dedup, zoom.
  pose proof (λ Hok d', orphan_refcount (s_dedup s) d d' Hok) as Hc. pose proof (orphan_ok (s_dedup s) d) as Ho.
  destruct (dedup_release_until_orphan d (s_dedup s)) as [r t]. split; [done|]. cbn in *. auto.
Qed.
Lemma remove_keeps d rids a b : frames keeps (remove_replicas (B:=B) d rids a b).
Proof.
  revert a b. induction rids as [|rid rids IH]; intros a b; cbn [remove_replicas];
    repeat first [ apply IH | apply keeps_on_backend | frame_step ].
Qed.
Lemma reclaim_keeps reachable bids result : frames keeps (reclaim_blobs (B:=B) reachable bids result).
Proof.
  revert result. induction bids as [|bid bids IH]; intros result; cbn [reclaim_blobs];
    unfold reclaim_blob, get_impl;
    repeat first [ apply IH | apply remove_keeps | apply keeps_on_dedup_orphan | (intros s; by apply keeps_same)
                 | progress cbn beta iota zeta | frame_step ].
Qed.
Lemma gc_run_balanced clock1 clock2 s : balanced s → balanced (gc_run clock1 clock2 s).2.
Proof.
  intros Hb.
  assert (∃ e r rest, gc_run clock1 clock2 s = (sweep_checkpoints e r ≫= rest) s ∧
    ∀ res, frames keeps (rest res)) as (e & r & rest & -> & Hrest).
  { eexists _, _, _. split; [reflexivity|]. intros res. unfold get_impl.
    repeat first [ apply reclaim_keeps | (intros s'; by apply keeps_same)
                 | progress cbn beta iota zeta | frame_step ]. }
  destruct (sweep_balanced e r s Hb) as (res & s1 & E1 & Hb1). rewrite (st_bind_run _ _ _ _ _ E1).
  eapply keeps_balanced; [apply Hrest|done].
Qed.
Lemma gc_plan_keeps clock : frames keeps (gc_plan (B:=B) clock).
Proof. intros s. by apply keeps_same. Qed.

(** ** The operations that move no reference *)
Lemma retire_keeps clock id : frames keeps (retire (B:=B) clock id).
Proof.
  intros s. unfold retire, find_checkpoint, get_impl, raise_if, throw_if, raise, throw, mbind, ST_bind, gets.
  destruct (im_checkpoints (s_impl s) !! id) as [rec|] eqn:E; [|done]. cbn [mret ST_ret].
  case_bool_decide as El; [by apply keeps_same|]. split; [|done]. unfold held. cbn. apply map_eq. intros k.
  rewrite !lookup_fmap. destruct (decide (id = k)) as [<-|Hne]; [|by rewrite lookup_alter_ne].
  rewrite lookup_alter_eq, E. cbn. unfold references. cbn.
  destruct (decide (rec_lifecycle rec = CheckpointLifecycle.kCommitted)) as [El'|]; [by rewrite El'|by destruct El].
Qed.
Lemma verify_chunk_keeps id chunk : frames keeps (verify_chunk (B:=B) id chunk).
Proof.
  unfold verify_chunk.
  repeat first [ apply find_checkpoint_frames; apply _ | apply keeps_on_backend
               | apply keeps_modify_record | progress unfold raise | frame_step ].
  intros rec. unfold references. cbn. case_match; [done|]. apply list_eq. intros i. rewrite !list_lookup_fmap.
  match goal with |- context [alter _ ?n _] => destruct (decide (n = i)) as [->|Hne] end;
    [rewrite list_lookup_alter_eq|by rewrite list_lookup_alter_ne]. by destruct (rec_chunks rec !! i).
Qed.
Lemma create_family_keeps owner prov : frames keeps (create_family (B:=B) owner prov).
Proof.
  unfold create_family, get_impl. repeat first [ (intros s; by apply keeps_same) | frame_step ].
Qed.
Lemma make_full_descriptor_keeps now family owner size durability :
  frames keeps (make_full_descriptor (B:=B) now family owner size durability).
Proof.
  unfold make_full_descriptor, get_impl, raise, fresh_id. repeat first [ (intros s; by apply keeps_same) | frame_step ].
Qed.
Lemma reset_authority_keeps : frames keeps (reset_authority (B:=B)).
Proof.
  intros s. rewrite reset_authority_run. split; [|done]. unfold held. cbn. rewrite <- map_fmap_compose.
  apply map_fmap_ext. by intros k [? ? ? ? [] ? ?] _.
Qed.

(** ** Publication *)
Abbreviation State := (CheckpointStore B * PublishLocals)%type.

(** What the loop over the pieces counts: the table and the misses. *)
Definition counted (q : State) := (s_dedup q.1, l_dedup_misses q.2).
Definition same_counted (q q' : State) : Prop := counted q' = counted q.
#[local] Instance same_counted_preorder : PreOrder same_counted.
Proof. split; [done|]. unfold same_counted. intros ???. congruence. Qed.
Definition same_table s s' : Prop := s_dedup s' = s_dedup s.
#[local] Instance same_table_preorder : PreOrder same_table.
Proof. split; [done|]. unfold same_table. intros ???. congruence. Qed.
Lemma counted_in_store {A} (m : ST (CheckpointStore B) CheckpointStoreError A) :
  frames same_table m → frames same_counted (in_store m).
Proof.
  intros Hm q. specialize (Hm q.1). unfold in_store, zoom, same_counted, counted.
  destruct (m q.1) as [r s']. cbn in *. by rewrite Hm.
Qed.
Lemma table_on_backend {A} p (m : ST B CheckpointStoreError A) : frames same_table (on_backend p m).
Proof. intros s. unfold on_backend, zoom. by destruct (m (s_heap s p)). Qed.
Lemma table_record_blob cd rid : frames same_table (record_blob (B:=B) cd rid).
Proof. unfold record_blob. repeat first [ (by intros s) | frame_step ]. Qed.
Lemma table_record_placement cd rid : frames same_table (record_placement (B:=B) cd rid).
Proof. unfold record_placement, fresh_id, get_impl. repeat first [ (by intros s) | frame_step ]. Qed.
Lemma table_verify_content p cds data : frames same_table (verify_content p cds data).
Proof.
  unfold verify_content. assert (∀ h, frames same_table (read_back p cds h)) as Hr.
  { induction cds as [|cd cds IH]; intros h; cbn [read_back];
      repeat first [ apply IH | apply table_on_backend | (by intros s) | progress unfold raise | frame_step ]. }
  repeat first [ apply Hr | progress unfold raise_if | frame_step ].
Qed.

(** What the table operations of publication do to the counts. *)
Lemma add_counted d t b t' : table_ok t → is_Some (t !! d) → dedup_add_reference d t = (Ok b, t') →
  table_ok t' ∧ size t' = size t ∧
  ∀ d', dedup_refcount t' d' = (if decide (d = d') then 1 else 0) + dedup_refcount t d'.
Proof.
  intros Hok [e He] Ha. pose proof (add_ok t d Hok) as Hok'. rewrite Ha in Hok'. split; [done|]. revert Ha.
  unfold dedup_add_reference, raise_if, throw_if, raise, throw, modify, get, mbind, ST_bind, mret, ST_ret. rewrite He.
  case_bool_decide; [done|]. destruct (Z.eqb_spec (de_refcount e) (2 ^ 64 - 1)) as [|Hmax]; [done|]. cbn.
  intros [= <- <-]. split; [apply map_size_insert_Some; by rewrite He|]. intros d'. unfold dedup_refcount.
  destruct (decide (d = d')) as [<-|Hne]; [|by rewrite lookup_insert_ne].
  rewrite lookup_insert_eq, He. cbn. destruct (Hok _ _ He) as [_ Hr]. unfold incr64, is_u64 in *.
  rewrite u64_id by (unfold is_u64; lia). lia.
Qed.
Lemma insert_counted id d n v g t b t' : table_ok t → dedup_insert id d n v g t = (Ok b, t') →
  table_ok t' ∧
  (t' = t ∨ size t' = S (size t) ∧
     ∀ d', dedup_refcount t' d' = (if decide (d = d') then 1 else 0) + dedup_refcount t d').
Proof.
  intros Hok Hi. pose proof (insert_ok t id d n v g Hok) as Hok'. rewrite Hi in Hok'. split; [done|]. revert Hi.
  unfold dedup_insert, raise, throw, modify, get, mbind, ST_bind, mret, ST_ret.
  destruct (t !! d) as [e|] eqn:E; [destruct (_ =? n); [intros [= <- <-]; by left|done]|].
  intros [= <- <-]. right. split; [by apply map_size_insert_None|]. intros d'. unfold dedup_refcount.
  destruct (decide (d = d')) as [<-|Hne]; [by rewrite lookup_insert_eq, E|by rewrite lookup_insert_ne].
Qed.
Lemma on_dedup_ok {A} (m : ST DedupTable CheckpointStoreError A) s a s' :
  on_dedup m s = (Ok a, s') → m (s_dedup s) = (Ok a, s_dedup s').
Proof. unfold on_dedup, zoom. destruct (m (s_dedup s)) as [[a'|e] t]; [|done]. by intros [= <- <-]. Qed.

(** Sharing a blob takes one reference; finding none leaves the table alone. *)
Lemma reuse_counted p slice (q q' : State) r : table_ok (s_dedup q.1) →
  reuse_blob p slice q = (Ok r, q') →
  l_dedup_misses q'.2 = l_dedup_misses q.2 ∧
  match r with
  | None => s_dedup q'.1 = s_dedup q.1
  | Some _ => table_ok (s_dedup q'.1) ∧ size (s_dedup q'.1) = size (s_dedup q.1) ∧
      ∀ d, dedup_refcount (s_dedup q'.1) d
           = (if decide (sl_digest slice = d) then 1 else 0) + dedup_refcount (s_dedup q.1) d
  end.
Proof.
  intros Hok. unfold reuse_blob. intros (t & q1 & [= <- <-] & Hrest)%st_bind_ok.
  apply st_bind_ok in Hrest as (lookup & q1 & Hl & Hrest).
  assert (q1 = q) as -> by (revert Hl; unfold lift_result; by destruct (dedup_lookup _ _ _); intros [= _ <-]).
  destruct (dl_result lookup); [by injection Hrest as <- <-| |by injection Hrest as <- <-].
  apply st_bind_ok in Hrest as (v & q2 & Hv & Hrest).
  pose proof (counted_in_store _ (table_on_backend p (verify (blob_key (sl_digest slice)) (sl_digest slice))) q) as Hc.
  rewrite Hv in Hc. injection Hc as Ht Hm. cbn [snd] in Ht, Hm.
  assert (∀ (b : bool) (k : State), (if b then
      _ ← in_store (bump_counter (λ c, c <| acct_integrity_failures ::= incr64 |>)); mret None
    else mret None) k = (Ok r, q') → r = None ∧ s_dedup q'.1 = s_dedup k.1 ∧ l_dedup_misses q'.2 = l_dedup_misses k.2)
    as Hnone by (by intros [] k [= <- <-]).
  destruct (dedup_find (s_dedup q.1) (sl_digest slice)) as [e|] eqn:Ef.
  - destruct (bool_decide (v = IntegrityState.kVerified)).
    + apply st_bind_ok in Hrest as (b & q3 & Ha & Hrest). injection Hrest as <- <-. cbn [fst snd].
      apply in_store_ok in Ha as (s3 & Ha & ->). apply on_dedup_ok in Ha. rewrite Ht in Ha.
      split; [done|]. eapply add_counted; [done| |exact Ha]. by eexists.
    + apply Hnone in Hrest as (-> & E1 & E2). split; congruence.
  - apply Hnone in Hrest as (-> & E1 & E2). split; congruence.
Qed.

(** Writing one counts a miss; the table grows unless the digest is in it. *)
Lemma write_counted p slice (q q' : State) : table_ok (s_dedup q.1) → write_blob p slice q = (Ok tt, q') →
  l_dedup_misses q'.2 = incr64 (l_dedup_misses q.2) ∧ table_ok (s_dedup q'.1) ∧
  (s_dedup q'.1 = s_dedup q.1 ∨ size (s_dedup q'.1) = S (size (s_dedup q.1)) ∧
     ∀ d, dedup_refcount (s_dedup q'.1) d
          = (if decide (sl_digest slice = d) then 1 else 0) + dedup_refcount (s_dedup q.1) d).
Proof.
  intros Hok. unfold write_blob. cbv zeta. intros ([] & q1 & H1 & Hrest)%st_bind_ok.
  pose proof (counted_in_store _ (table_on_backend p (put_temp (blob_key (sl_digest slice)) (sl_bytes slice))) q) as C1.
  rewrite H1 in C1. injection C1 as T1 M1. cbn [snd] in T1, M1.
  apply st_bind_ok in Hrest as ([] & q2 & H2 & Hrest).
  pose proof (counted_in_store _ (table_on_backend p (commit (blob_key (sl_digest slice)))) q1) as C2.
  rewrite H2 in C2. injection C2 as T2 M2. cbn [snd] in T2, M2.
  apply st_bind_ok in Hrest as (b & q3 & H3 & Hrest). injection Hrest as <-. cbn [fst snd].
  apply in_store_ok in H3 as (s3 & H3 & ->). apply on_dedup_ok in H3. cbn [fst snd].
  rewrite T2, T1 in H3. split; [cbn; congruence|]. by eapply insert_counted.
Qed.

(** The invariant of the loop: while every miss made the table grow, the
    counters have grown by the pieces done. *)
Definition accounted (t0 : DedupTable) (done : list ChunkSlice) (q : State) : Prop :=
  table_ok (s_dedup q.1) ∧ 0 ≤ l_dedup_misses q.2 ≤ zlen done ∧
  Z.of_nat (size (s_dedup q.1)) ≤ Z.of_nat (size t0) + l_dedup_misses q.2 ∧
  (Z.of_nat (size (s_dedup q.1)) = Z.of_nat (size t0) + l_dedup_misses q.2 →
   ∀ d, dedup_refcount (s_dedup q.1) d = dedup_refcount t0 d + occurrences d (sl_digest <$> done)).
Lemma accounted_same t0 done q q' : same_counted q q' → accounted t0 done q → accounted t0 done q'.
Proof. intros E. unfold accounted. by injection E as -> ->. Qed.

Lemma slice_accounted p rid slice t0 done (q q' : State) : zlen done + 1 < 2 ^ 64 →
  accounted t0 done q → publish_slice p rid slice q = (Ok tt, q') → accounted t0 (done ++ [slice]) q'.
Proof.
  intros Hlen (Hok & Hm & Hsz & Hrc). unfold publish_slice. intros (r & q1 & H1 & Hrest)%st_bind_ok.
  apply (reuse_counted p slice q q1 r Hok) in H1 as [M1 R1].
  apply st_bind_ok in Hrest as (blob & q2 & H2 & Hrest).
  assert (∀ d, occurrences d (sl_digest <$> done ++ [slice]) =
    occurrences d (sl_digest <$> done) + (if decide (sl_digest slice = d) then 1 else 0)) as Hocc.
  { intros d. rewrite fmap_app, occurrences_app. f_equal. csimpl. rewrite occurrences_cons.
    change (occurrences d []) with 0. lia. }
  assert (zlen (done ++ [slice]) = zlen done + 1) as Hz by (rewrite zlen_app; done).
  assert (accounted t0 (done ++ [slice]) q2) as Ha.
  { unfold accounted. rewrite Hz. destruct r as [b|].
    - injection H2 as <- <-. destruct R1 as (Ok1 & S1 & C1). rewrite M1, S1. split_and!; [done|lia..|].
      intros E d. rewrite C1, (Hrc E), Hocc. lia.
    - apply st_bind_ok in H2 as ([] & q2' & H2 & H2'). injection H2' as _ <-.
      rewrite <- R1 in Hok. apply (write_counted p slice q1 q2' Hok) in H2 as (M2 & Ok2 & C2).
      rewrite M1 in M2. unfold incr64 in M2. rewrite u64_id in M2 by (unfold is_u64; lia). rewrite M2.
      destruct C2 as [->|[S2 C2]].
      + rewrite R1. rewrite R1 in Hok. split_and!; [done|lia..|]. intros E. exfalso. lia.
      + rewrite S2, R1. split_and!; [done|lia..|]. intros E d. rewrite C2, R1, Hrc, Hocc by lia. lia. }
  apply st_bind_ok in Hrest as ([] & q3 & H3 & Hrest).
  apply st_bind_ok in Hrest as (pl & q4 & H4 & Hrest). injection Hrest as <-.
  match type of H3 with in_store ?m _ = _ => pose proof (counted_in_store m (table_record_blob _ _) q2) as C3 end.
  match type of H4 with in_store ?m _ = _ => pose proof (counted_in_store m (table_record_placement _ _) q3) as C4 end.
  rewrite H3 in C3. rewrite H4 in C4. cbn [snd] in C3, C4.
  eapply accounted_same; [|exact Ha]. unfold same_counted, counted in *. cbn. congruence.
Qed.
Lemma loop_accounted p rid slices t0 done (q q' : State) : zlen (done ++ slices) < 2 ^ 64 →
  accounted t0 done q → for_each slices (publish_slice p rid) q = (Ok tt, q') →
  accounted t0 (done ++ slices) q'.
Proof.
  revert done q. induction slices as [|slice slices IH]; intros done q Hz Ha.
  - intros [= <-]. by rewrite app_nil_r.
  - cbn [for_each]. intros ([] & q1 & H1 & H2)%st_bind_ok. rewrite cons_middle, app_assoc in Hz |- *.
    eapply IH; [done| |exact H2]. eapply slice_accounted; [|exact Ha|exact H1].
    rewrite !zlen_app in Hz. pose proof (zlen_nonneg slices). change (zlen [slice]) with 1 in Hz. lia.
Qed.

(** Every piece that was not shared went to an object the table did not know. *)
Definition stored_anew s (res : PublishedCheckpoint) s' : Prop :=
  dedup_size (s_dedup s') = dedup_size (s_dedup s) + pub_dedup_misses res.

Lemma publish_accounted descriptor data s res s' : is_u64 (zlen data) → table_ok (s_dedup s) →
  publish descriptor data s = (Ok res, s') →
  table_ok (s_dedup s') ∧
  (stored_anew s res s' → ∀ d, dedup_refcount (s_dedup s') d
     = dedup_refcount (s_dedup s) d + occurrences d (cd_digest <$> pub_chunks res)).
Proof.
  intros Hd Hok. intros [(e' & ? & ?)|(p & slices & Hauth & Hcs & Hrest)]%publish_cases; [done|].
  destruct Hauth as (_ & Hn & _ & Hv & _). rewrite (chunk_stream_ok data _ Hv) in Hcs. injection Hcs as Hsl.
  pose proof (slice_loop_count data _ Hv Hd) as Hcount. rewrite Hsl in Hcount. unfold is_u64 in Hd.
  revert Hrest. set (rid := mkId _). unfold try_publish.
  destruct (publish_body _ _ _ _ _ _) as [[res'|e'] [s5 l]] eqn:E5; [|by destruct (rollback p l s5)].
  intros [= <- <-]. revert E5. unfold publish_body. intros ([] & q1 & H1 & Hrest)%st_bind_ok.
  assert (accounted (s_dedup s) slices q1) as (Ok1 & _ & _ & Hrc).
  { eapply (loop_accounted p rid slices _ []); [cbn [app]; lia| |exact H1].
    split; [done|]. split; [done|]. cbn [after_fresh s_dedup l_dedup_misses default_PublishLocals fst snd].
    split; [cbn; lia|]. intros _ d. change (occurrences d _) with 0. cbn. lia. }
  destruct (publish_loop_locals p rid slices [] _ q1 H1) as [Hcds _]; [by split; [constructor|]|]. cbn [app] in Hcds.
  apply st_bind_ok in Hrest as (cds & q2 & [= <- <-] & Hrest).
  apply st_bind_ok in Hrest as (digest & q3 & H3 & Hrest).
  apply st_bind_ok in Hrest as (l3 & q4 & [= <- <-] & Hrest). cbv zeta in Hrest.
  apply st_bind_ok in Hrest as ([] & q5 & H5 & Hrest).
  assert (q5 = q3) as -> by (revert H5; unfold lift_result; by destruct (check_manifest _ _ _) as [[]|]; [intros [= <-]|]).
  apply in_store_ok in H3 as (s3 & H3 & ->).
  pose proof (table_verify_content p (l_chunk_descriptors q1.2) data q1.1) as T3. rewrite H3 in T3. cbn [snd] in T3.
  unfold commit_metadata, in_store, fresh_id, get_impl, modify_impl, zoom, gets, modify, mbind, ST_bind, mret, ST_ret in Hrest.
  cbn [fst snd] in Hrest. injection Hrest as <- <- _. unfold stored_anew, dedup_size. cbn. rewrite T3.
  split; [done|]. intros Hnew d. rewrite Hrc by done. f_equal. f_equal.
  clear -Hcds. induction Hcds as [|sl cd sls cds Hc _ IH]; [done|]. csimpl. rewrite IH. f_equal. symmetry. apply Hc.
Qed.

Lemma publish_balanced descriptor data s res s' : is_u64 (zlen data) → balanced s →
  publish descriptor data s = (Ok res, s') → stored_anew s res s' → balanced s'.
Proof.
  intros Hd [Hok Hb] Hp Hnew. destruct (publish_accounted _ _ _ _ _ Hd Hok Hp) as [Hok' Hc].
  split; [done|]. intros d. rewrite (Hc Hnew), Hb.
  destruct (publish_ok _ _ _ _ _ Hd Hp) as (p & slices & (_ & Hn & _) & _ & _ & Hpub).
  destruct Hpub as (p' & cds & rbs & mid & rid & w & _ & _ & _ & _ & _ & -> & _ & Hcom).
  destruct Hcom as (Hck & _). unfold live_references, held. rewrite Hck, fmap_insert, total_insert.
  - change (references (record_for _ _ _ _ _ _)) with (cd_digest <$> cds). unfold held. lia.
  - by rewrite lookup_fmap, Hn.
Qed.

(** ** The rollback of a publication whose pieces are all new *)

(** Steps that leave the table and the digests to roll back alone. *)
Definition books (q : State) := (s_dedup q.1, l_new_digests q.2).
Definition same_books (q q' : State) : Prop := books q' = books q.
#[local] Instance same_books_preorder : PreOrder same_books.
Proof. split; [done|]. unfold same_books. intros ???. congruence. Qed.
Lemma books_in_store {A} (m : ST (CheckpointStore B) CheckpointStoreError A) :
  frames same_table m → frames same_books (in_store m).
Proof.
  intros Hm q. specialize (Hm q.1). unfold in_store, zoom, same_books, books.
  destruct (m q.1) as [r s']. cbn in *. by rewrite Hm.
Qed.

(** The digests [ds] are the ones the table has gained since [t0], each with the
    one reference of the piece that brought it. *)
Definition undoable (t0 : DedupTable) (ds : list Sha256Digest) (t : DedupTable) : Prop :=
  NoDup ds ∧ (∀ d, d ∉ ds → t !! d = t0 !! d) ∧
  ∀ d, d ∈ ds → t0 !! d = None ∧ ∃ e, t !! d = Some e ∧ de_refcount e = 1.
Lemma undoable_snoc t0 ds t d e : undoable t0 ds t → t !! d = None → de_refcount e = 1 →
  undoable t0 (ds ++ [d]) (<[d := e]> t).
Proof.
  intros (Hnd & Hout & Hin) Hn He.
  assert (d ∉ ds) as Hd by (intros Hd; destruct (Hin d Hd) as (_ & e' & He' & _); congruence).
  split; [|split].
  - apply NoDup_app. split_and!; [done| |apply NoDup_singleton]. by intros x Hx ->%list_elem_of_singleton.
  - intros d' Hx. assert (d' ∉ ds ∧ d ≠ d') as [? ?] by set_solver. rewrite lookup_insert_ne by done. by apply Hout.
  - intros d' [Hx| ->%list_elem_of_singleton]%elem_of_app.
    + rewrite lookup_insert_ne by (intros ->; done). by apply Hin.
    + rewrite lookup_insert_eq, <- Hout by done. split; [done|]. by exists e.
Qed.

(** A piece the table does not know is not shared. *)
Lemma reuse_new p slice (q : State) : s_dedup q.1 !! sl_digest slice = None →
  reuse_blob p slice q = (Ok None, q).
Proof.
  intros Hn. unfold reuse_blob, gets, lift_result, mbind, ST_bind, dedup_lookup. rewrite Hn.
  by destruct (zlen (sl_bytes slice) =? 0).
Qed.

(** Writing it fails before the table changes, or adds exactly its entry. *)
Lemma write_new p slice (q q' : State) r : s_dedup q.1 !! sl_digest slice = None →
  write_blob p slice q = (r, q') →
  same_books q q' ∨
  ∃ e, de_refcount e = 1 ∧ books q' = (<[sl_digest slice := e]> (s_dedup q.1), l_new_digests q.2 ++ [sl_digest slice]).
Proof.
  intros Hn. unfold write_blob. cbv zeta.
  set (put := in_store (on_backend p (put_temp _ _))). set (com := in_store (on_backend p (commit _))).
  assert (frames same_books put) as Fp by apply books_in_store, table_on_backend.
  assert (frames same_books com) as Fc by apply books_in_store, table_on_backend.
  specialize (Fp q). unfold mbind, ST_bind.
  destruct (put q) as [[[]|e] q1]; cbn [snd] in Fp; [|intros [= <- <-]; by left].
  specialize (Fc q1). destruct (com q1) as [[[]|e] q2]; cbn [snd] in Fc.
  2: { intros [= <- <-]. left. by etrans. }
  assert (same_books q q2) as [= Ht Hl] by (by etrans).
  unfold in_store, zoom, on_dedup, zoom, dedup_insert, get, modify, mbind, ST_bind, mret, ST_ret.
  rewrite Ht, Hn. cbn. intros [= _ <-]. right. unfold books. cbn. rewrite Hl. eexists. by split; [|reflexivity].
Qed.

(** The rest of the work on a piece keeps the books. *)
Lemma publish_slice_new p rid slice (q q' : State) r : s_dedup q.1 !! sl_digest slice = None →
  publish_slice p rid slice q = (r, q') →
  same_books q q' ∨
  ∃ e, de_refcount e = 1 ∧ books q' = (<[sl_digest slice := e]> (s_dedup q.1), l_new_digests q.2 ++ [sl_digest slice]).
Proof.
  intros Hn. unfold publish_slice. rewrite (st_bind_run _ _ _ _ _ (reuse_new p slice q Hn)).
  unfold mbind at 1, ST_bind at 1. unfold mbind at 1, ST_bind at 1.
  destruct (write_blob p slice q) as [rw q1] eqn:Ew.
  apply (write_new p slice q q1 rw Hn) in Ew.
  intros Hrest. enough (books q' = books q1) as E by (unfold same_books; by rewrite E).
  revert Hrest. destruct rw as [[]|ew]; [|by intros [= <- <-]]. unfold mret at 1, ST_ret at 1.
  match goal with |- ?m q1 = _ → _ => assert (frames same_books m) as Fm end.
  { repeat first [ apply books_in_store; (apply table_record_blob || apply table_record_placement)
                 | (by intros ?) | frame_step ]. }
  specialize (Fm q1). intros E. by rewrite E in Fm.
Qed.

(** All pieces are new: they differ, and the table knows none of them. *)
Definition fresh_slices (t : DedupTable) (slices : list ChunkSlice) : Prop :=
  NoDup (sl_digest <$> slices) ∧ Forall (λ sl, t !! sl_digest sl = None) slices.
Lemma loop_undoable t0 p rid slices (q q' : State) r : fresh_slices (s_dedup q.1) slices →
  undoable t0 (l_new_digests q.2) (s_dedup q.1) → for_each slices (publish_slice p rid) q = (r, q') →
  undoable t0 (l_new_digests q'.2) (s_dedup q'.1).
Proof.
  revert q. induction slices as [|slice slices IH]; intros q [Hnd Hf] Hu; [by intros [= _ <-]|].
  csimpl in Hnd. apply NoDup_cons in Hnd as [Hni Hnd]. apply Forall_cons in Hf as [Hn Hf].
  cbn [for_each]. unfold mbind, ST_bind. destruct (publish_slice p rid slice q) as [r1 q1] eqn:E1.
  apply (publish_slice_new p rid slice q q1 r1 Hn) in E1 as [[= Ht Hl]|(e & He & [= Ht Hl])].
  - destruct r1; [|intros [= <- <-]; by rewrite Ht, Hl]. apply IH; rewrite ?Ht, ?Hl; done.
  - assert (undoable t0 (l_new_digests q1.2) (s_dedup q1.1)) as Hu1 by (rewrite Ht, Hl; by apply undoable_snoc).
    destruct r1; [|by intros [= <- <-]]. apply IH; [|done]. split; [done|]. rewrite Ht.
    apply Forall_forall. intros sl Hsl. rewrite lookup_insert_ne; [by eapply Forall_forall in Hf|].
    intros Ed. apply Hni. rewrite Ed. by apply list_elem_of_fmap_2.
Qed.

(** The second loop of the rollback takes the new entries out again. *)
Lemma undo_run t0 ds s : undoable t0 ds (s_dedup s) →
  s_dedup (for_each ds (λ d,
    _ ← attempt (_ ← on_dedup (B:=B) (dedup_release_reference d); on_dedup (dedup_release_until_orphan d));
    mret tt) s).2 = t0.
Proof.
  revert s. induction ds as [|d ds IH]; intros s (Hnd & Hout & Hin).
  { apply map_eq. intros d. apply Hout, not_elem_of_nil. }
  apply NoDup_cons in Hnd as [Hni Hnd]. destruct (Hin d) as (_ & e & He & Hc); [by left|].
  assert ((_ ← on_dedup (B:=B) (dedup_release_reference d); on_dedup (dedup_release_until_orphan d)) s
    = (Ok true, s <| s_dedup := delete d (s_dedup s) |>)) as E.
  { unfold mbind at 1, ST_bind at 1. unfold on_dedup at 1, zoom at 1, dedup_release_reference. dedup_unfold.
    rewrite He, Hc. cbn. unfold on_dedup, zoom, dedup_release_until_orphan. dedup_unfold.
    rewrite lookup_insert_eq. cbn. change (u64 (1 - 1) >? 0) with false. cbn. by rewrite delete_insert_eq. }
  cbn [for_each]. unfold mbind at 1, ST_bind at 1. unfold mbind at 1, ST_bind at 1. unfold attempt at 1. rewrite E.
  apply IH. cbn. split; [done|]. split.
  - intros d' Hd'. destruct (decide (d = d')) as [<-|Hne].
    + rewrite lookup_delete_eq. symmetry. by apply Hin; left.
    + rewrite lookup_delete_ne by done. apply Hout. set_solver.
  - intros d' Hd'. rewrite lookup_delete_ne by (intros ->; done). apply Hin. by right.
Qed.
Lemma rollback_undoes t0 p l s : undoable t0 (l_new_digests l) (s_dedup s) → s_dedup (rollback p l s).2 = t0.
Proof.
  intros Hu. unfold rollback. set (keys := for_each (l_new_blob_keys l) _).
  assert (frames same_table keys) as Fk.
  { apply frames_for_each; [apply _|]. intros key _. repeat first [ apply table_on_backend | frame_step ]. }
  assert (is_ok (keys s).1 = true) as Hok.
  { clear. subst keys. revert s. induction (l_new_blob_keys l) as [|key keys IH]; intros s; [done|].
    cbn [for_each]. unfold mbind at 1, ST_bind at 1, mbind at 1, ST_bind at 1, attempt at 1.
    destruct (on_backend p (remove key) s) as [r s1]. apply IH. }
  specialize (Fk s). unfold mbind at 1, ST_bind at 1. destruct (keys s) as [[[]|e] s1]; [|done]. cbn [snd] in *.
  apply undo_run. by rewrite Fk.
Qed.

(** A publication all of whose pieces are new and that fails leaves the table as
    it was. *)
Definition new_pieces (data : list byte) s : Prop := ∀ slices,
  chunk_stream data (opt_chunk_size (s_options s)) = Ok slices → fresh_slices (s_dedup s) slices.

Lemma guards_same_table descriptor : frames same_table (publish_guards (B:=B) descriptor).
Proof.
  unfold publish_guards, bump_counter. repeat first [ (by intros ?) | progress unfold raise_if, raise | frame_step ].
Qed.
Lemma failed_body_undoes t0 descriptor data p rid slices s e q : fresh_slices (s_dedup s) slices → s_dedup s = t0 →
  publish_body descriptor data p rid slices (s, default_PublishLocals) = (Throw e, q) →
  undoable t0 (l_new_digests q.2) (s_dedup q.1).
Proof.
  intros Hf Ht. unfold publish_body, mbind at 1, ST_bind at 1.
  destruct (for_each slices _ _) as [r q1] eqn:E1. apply (loop_undoable t0) in E1; cbn [fst snd] in *; [|done|].
  2: { rewrite Ht. split; [constructor|]. split; [done|]. by intros d ?%elem_of_nil. }
  destruct r as [[]|e1]; [|by intros [= _ <-]].
  match goal with |- ?m q1 = _ → _ => enough (frames same_books m) as Fm end.
  { specialize (Fm q1). intros E. rewrite E in Fm. cbn [snd] in Fm. injection Fm as -> ->. done. }
  unfold commit_metadata, fresh_id, get_impl, modify_impl.
  repeat first [ apply books_in_store; first [ apply table_verify_content | by intros ? ] | frame_step ].
  all: apply books_in_store; by intros ?.
Qed.
Lemma publish_failed_new descriptor data s e s' : new_pieces data s →
  publish descriptor data s = (Throw e, s') → s_dedup s' = s_dedup s.
Proof.
  intros Hnew. unfold publish. unfold mbind at 1, ST_bind at 1.
  pose proof (guards_same_table descriptor s) as Fg.
  destruct (publish_guards descriptor s) as [[p|e1] s1] eqn:Eg; cbn [snd] in Fg; [|by intros [= _ <-]].
  apply publish_guards_ok in Eg as [-> Hauth].
  assert (valid_chunk_size (opt_chunk_size (s_options s)) = true) as Hv by apply Hauth.
  pose proof (chunk_stream_ok data _ Hv) as Hcs. specialize (Hnew _ Hcs). revert Hcs Hnew.
  set (slices := slice_loop _ _ _ _). intros Hcs Hf.
  intros Hp. assert (try_publish descriptor data p (mkId (im_next_id_counter (s_impl s))) slices (after_fresh s)
    = (Throw e, s')) as Hrest by (revert Hp; unfold gets, lift_result, mbind, ST_bind; by rewrite Hcs).
  revert Hrest. unfold try_publish.
  destruct (publish_body _ _ _ _ _ _) as [[res|e2] [s2 l]] eqn:E2; [done|].
  apply (failed_body_undoes (s_dedup s)) in E2; [|done..]. cbn [fst snd] in E2.
  apply (rollback_undoes _ p) in E2. destruct (rollback p l s2) as [r s3]. by intros [= _ <-].
Qed.

Lemma refused_same_table descriptor data s e e' s' : (publish_guards descriptor s).1 = Throw e →
  publish descriptor data s = (Throw e', s') → s_dedup s' = s_dedup s.
Proof.
  intros Hg. pose proof (guards_same_table descriptor s) as Fg. unfold publish, mbind at 1, ST_bind at 1.
  destruct (publish_guards descriptor s) as [[p|e1] s1]; [done|]. by intros [= _ <-].
Qed.
Lemma failed_keeps descriptor data s e s' : publish descriptor data s = (Throw e, s') →
  s_dedup s' = s_dedup s → keeps s s'.
Proof.
  intros Hp%publish_failed Ht. apply keeps_same; [|done]. unfold catalogue in Hp. congruence.
Qed.

(** ** Histories of a store

    The steps of a history.  The objects of the backends may change in any way
    between the operations, and the process may be restarted: another one loads
    the state file this one saved.  Of the publications: those the guards refuse;
    those that fail later, when all their pieces are new to the table (whatever
    the backend does, the rollback then restores the table); and those that
    succeed having written objects only for digests the table did not know.  The
    publications left out do break the counts: a failed one that had shared a
    piece, or had a new piece twice ([failed_publication_keeps_references]), and
    one that rewrites the object of a digest the table knows
    ([Publish.rewritten_blob_loses_reference]). *)
Inductive store_step : CheckpointStore B → CheckpointStore B → Prop :=
  | step_objects s heap : store_step s (s <| s_heap := heap |>)
  | step_register_backend id p s : store_step s (register_backend id p s).2
  | step_create_family owner prov s : store_step s (create_family owner prov s).2
  | step_make_descriptor now family owner size durability s :
      store_step s (make_full_descriptor now family owner size durability s).2
  | step_publish descriptor data s res s' : is_u64 (zlen data) →
      publish descriptor data s = (Ok res, s') → stored_anew s res s' → store_step s s'
  | step_publish_refused descriptor data s e s' : (publish_guards descriptor s).1 = Throw e →
      publish descriptor data s = (Throw e, s') → store_step s s'
  | step_publish_failed descriptor data s e s' : new_pieces data s →
      publish descriptor data s = (Throw e, s') → store_step s s'
  | step_verify id s : store_step s (verify_checkpoint id s).2
  | step_verify_chunk id chunk s : store_step s (verify_chunk id chunk s).2
  | step_restore elapsed rid id priority s : store_step s (restore elapsed rid id priority s).2
  | step_policy policy s : store_step s (set_retention_policy policy s).2
  | step_retire clock id s : store_step s (retire clock id s).2
  | step_gc_plan clock s : store_step s (gc_plan clock s).2
  | step_gc_run clock1 clock2 s : store_step s (gc_run clock1 clock2 s).2
  | step_reset s : store_step s (reset_authority s).2
  | step_boot boot s : store_step s (set_authority_boot boot s).2
  | step_epoch epoch s : store_step s (set_coordinator_epoch epoch s).2
  | step_restart s t fs r t' fs' : persistable s → s_dedup t = ∅ →
      file_at (fs_disk fs) (state_path t) = Some (state_frame (save_body s)) →
      load_state (t, fs) = (r, (t', fs')) → store_step s t'.

Lemma step_balanced s s' : store_step s s' → balanced s → balanced s'.
Proof.
  destruct 1 as [s heap|id [p|] s|owner prov s|now family owner size durability s
    |descriptor data s res s' Hd Hp Hnew|descriptor data s e s' Hg Hp|descriptor data s e s' Hnew Hp|id s|id chunk s|elapsed rid id priority s
    |policy s|clock id s|clock s|clock1 clock2 s|s|boot s|epoch s|s t fs r t' fs' Hs Ht Hf Hl];
    [| | | | |intros Hb; by eapply publish_balanced| | | | | | | | |by apply gc_run_balanced| | | |]; apply keeps_balanced;
    try (by apply keeps_same).
  - apply create_family_keeps.
  - apply make_full_descriptor_keeps.
  - apply (failed_keeps _ _ _ _ _ Hp). by eapply refused_same_table.
  - apply (failed_keeps _ _ _ _ _ Hp). by eapply publish_failed_new.
  - apply keeps_content, verify_checkpoint_frames.
  - apply verify_chunk_keeps.
  - apply keeps_content, restore_frames.
  - apply retire_keeps.
  - apply reset_authority_keeps.
  - rewrite (load_saved s t fs Hs Ht Hf) in Hl. injection Hl as _ <- _. split; [|done].
    unfold held, recovered. cbn. rewrite <- map_fmap_compose. by apply map_fmap_ext.
Qed.
Lemma history_balanced s s' : rtc store_step s s' → balanced s → balanced s'.
Proof. induction 1; eauto using step_balanced. Qed.
Lemma new_store_balanced options heap : balanced (new_store options heap).
Proof. split; [apply table_ok_empty|]. intros d. reflexivity. Qed.
End references.

(** ** The claim *)
Section claims.
Context `{IterOrder} {B : Type} `{HB : IBackend B} {HL : BackendLaws B}.

(** C6: The reference counts of the store are exact over the histories of
    [store_step].  Start with an empty store and let it live through creations,
    publications, verifications, restores, retirements, collections, resets and
    restarts from the saved state, while the backends' objects come and go as
    they like.  Publications may be refused by the guards; they may fail later if
    all their pieces are new to the table; and they may succeed if they wrote
    objects only for digests the table did not know.  Then for every digest the
    counter in the dedup table is the number of chunks with that digest in the
    checkpoints that have not been swept; so a digest such a checkpoint refers to
    has a positive count, which keeps collection off its object, and a count of
    zero means that no such checkpoint refers to the digest. *)
Theorem references_exact options heap (s : CheckpointStore B) d :
  rtc store_step (new_store options heap) s →
  dedup_refcount (s_dedup s) d = live_references s d ∧
  (dedup_refcount (s_dedup s) d = 0 ↔
   ∀ id rec cd, im_checkpoints (s_impl s) !! id = Some rec → swept_state (rec_lifecycle rec) = false →
     cd ∈ rec_chunks rec → cd_digest cd ≠ d).
Proof.
  intros Hs. destruct (history_balanced _ _ Hs (new_store_balanced options heap)) as [_ Hb].
  split; [by rewrite Hb|]. rewrite Hb. unfold live_references. rewrite total_zero. split.
  - intros Hz id rec cd Hrec Hl Hcd. specialize (Hz id (references rec)). unfold held, references in Hz.
    rewrite lookup_fmap, Hrec in Hz. cbn in Hz. rewrite Hl in Hz. intros <-.
    by apply (Hz eq_refl), list_elem_of_fmap_2.
  - intros Hz id ds. unfold held. rewrite lookup_fmap. destruct (im_checkpoints (s_impl s) !! id) as [rec|] eqn:E; [|done].
    cbn. intros [= <-]. unfold references. destruct (swept_state (rec_lifecycle rec)) eqn:El; [by intros ?%elem_of_nil|].
    intros (cd & -> & Hcd)%list_elem_of_fmap. by eapply Hz.
Qed.
End claims.

(** ** The demonstration store: two of the three chunks are alike *)
#[local] Existing Instance canonical_order.
Definition is_anew (s : CheckpointStore SyntheticBackend)
    (out : outcome PublishedCheckpoint * CheckpointStore SyntheticBackend) : bool :=
  match out.1 with
  | Ok res => dedup_size (s_dedup out.2) =? dedup_size (s_dedup s) + pub_dedup_misses res
  | Throw _ => false
  end.

(** The same store when its backend is away for a first attempt: the attempt
    fails, its pieces being new, and the next one succeeds. *)
Definition away (s : CheckpointStore SyntheticBackend) (v : bool) : CheckpointStore SyntheticBackend :=
  s <| s_heap := λ _, demo_backend <| sy_available := v |> |>.
Definition failed_data : list byte := [x61; x62; x63].
Definition failed_first : CheckpointStore SyntheticBackend :=
  (publish demo_descriptor failed_data (away demo_store false)).2.
Definition demo_retried : CheckpointStore SyntheticBackend :=
  (publish demo_descriptor demo_data (away failed_first true)).2.
Lemma failed_data_new : new_pieces failed_data (away demo_store false).
Proof.
  intros slices E. assert (slices = slice_loop 3 failed_data 0 2) as -> by (vm_compute in E |- *; congruence).
  split; [apply (bool_decide_unpack _); vm_compute; reflexivity|].
  apply (bool_decide_unpack _). vm_compute. reflexivity.
Qed.
Lemma demo_retried_history : rtc store_step
  (new_store (default_StoreOptions <| opt_chunk_size := 2 |>) (λ _, demo_backend)) demo_retried.
Proof.
  eapply rtc_l; [apply (step_register_backend (mkId 1) (Some 0%nat))|].
  eapply rtc_l; [apply (step_create_family (mkId 1) Provenance.kUnknown)|]. fold demo_store.
  eapply rtc_l; [apply (step_objects demo_store (λ _, demo_backend <| sy_available := false |>))|].
  assert (is_ok (publish demo_descriptor failed_data (away demo_store false)).1 = false) as Hf by (vm_compute; reflexivity).
  apply (rtc_l _ _ failed_first).
  { unfold failed_first. destruct (publish demo_descriptor failed_data (away demo_store false)) as [[res|e] s'] eqn:E;
      [discriminate Hf|]. exact (step_publish_failed _ _ _ _ _ failed_data_new E). }
  eapply rtc_l; [apply (step_objects failed_first (λ _, demo_backend <| sy_available := true |>))|].
  fold (away failed_first true).
  assert (is_anew (away failed_first true) (publish demo_descriptor demo_data (away failed_first true)) = true)
    as Hnew by (vm_compute; reflexivity).
  unfold demo_retried. destruct (publish demo_descriptor demo_data (away failed_first true)) as [[res|e] s'] eqn:E;
    [|discriminate Hnew].
  apply rtc_once. apply (step_publish demo_descriptor demo_data _ res s'); [exact demo_size|exact E|].
  by apply Z.eqb_eq.
Qed.
Lemma references_exact_witness :
  dedup_refcount (s_dedup demo_retried) (sha256 shared_bytes) = live_references demo_retried (sha256 shared_bytes).
Proof. exact (proj1 (references_exact _ _ demo_retried (sha256 shared_bytes) demo_retried_history)). Defined.
Example retried_counts : dedup_refcount (s_dedup demo_retried) (sha256 shared_bytes) = 2.
Proof. vm_compute. reflexivity. Qed.
(** ** What a failed publication leaves in the counters

    The rollback releases one reference for every object it wrote and none for
    the shares it took.  A piece shared with an earlier checkpoint keeps its
    extra reference for ever; a new piece that occurs twice keeps its entry,
    with one reference and no object. *)
Definition with_corrupt_entry (s : CheckpointStore SyntheticBackend) : CheckpointStore SyntheticBackend :=
  (on_dedup (insert_blob_entry_direct (mkDedupEntry (blob_id_from_digest (sha256 corrupt_tail))
     (sha256 corrupt_tail) 2 1 IntegrityState.kCorrupt (mkGen 1))) s).2.
Definition failed_share : CheckpointStore SyntheticBackend :=
  let s := with_corrupt_entry after_first in (publish (second_descriptor s) (shared_bytes ++ corrupt_tail) s).2.
Definition failed_twin : CheckpointStore SyntheticBackend :=
  (publish demo_descriptor (shared_bytes ++ shared_bytes ++ corrupt_tail) (with_corrupt_entry demo_store)).2.
Example failed_publication_keeps_references :
  dedup_refcount (s_dedup failed_share) (sha256 shared_bytes) = 2 ∧
  live_references failed_share (sha256 shared_bytes) = 1 ∧
  dedup_refcount (s_dedup failed_twin) (sha256 shared_bytes) = 1 ∧
  live_references failed_twin (sha256 shared_bytes) = 0 ∧ sy_objects (s_heap failed_twin 0%nat) = ∅.
Proof. vm_compute. by split_and!. Qed.
