(* ===== verification/Explain.v ===== *)
(** * Explain: the human-readable account of the state

    [src/explain.cpp].  Numbers are printed in decimal by [pretty], as
    [operator<<] prints them; identities in hexadecimal. *)
From stdpp Require Import pretty.
From S2P Require Import Prelude Base Hash Model Dedup Backend Store.

Section store.
Context {B : Type}.
Implicit Types s : CheckpointStore B.

(** The advice for a verdict; a value outside the enumeration gets none. *)
Definition integrity_advice (v : IntegrityState.t) : string :=
  match v with
  | IntegrityState.kVerified => "All chunk digests and the final checkpoint digest verified."
  | IntegrityState.kCorrupt =>
      "A chunk or the checkpoint digest did not match; do not restore from a corrupt sole source."
  | IntegrityState.kMissing => "A required chunk is missing from the backend."
  | IntegrityState.kUnknown | IntegrityState.kUnverified =>
      "Verification has not completed (no evidence yet)."
  | IntegrityState.other _ => ""
  end.

(** [CheckpointStore::explain_integrity] *)
Definition explain_checkpoint_integrity (id : CheckpointId) :
    ST (CheckpointStore B) CheckpointStoreError string :=
  s ← get;
  match im_checkpoints (s_impl s) !! id with
  | None => raise ErrorCode.kNotFound "checkpoint not found"
  | Some rec =>
      mret ("Checkpoint " +:+ to_hex_string (id_value id) +:+ " integrity is " +:+
            IntegrityState.to_string (rec_integrity rec) +:+ ". " +:+ integrity_advice (rec_integrity rec))
  end.
End store.

Definition explain_checkpoint (d : CheckpointDescriptor) : string :=
  "Checkpoint " +:+ to_hex_string (id_value (d_id d)) +:+ " (family " +:+
  to_hex_string (id_value (d_family_id d)) +:+ ", generation " +:+ pretty (gen_value (d_generation d)) +:+
  ") is " +:+ CheckpointKind.to_string (d_kind d) +:+ ", " +:+ pretty (d_logical_size d) +:+
  " logical bytes, retention " +:+ RetentionClass.to_string (d_retention d) +:+ ", durability " +:+
  DurabilityClass.to_string (d_durability d) +:+ ", provenance " +:+
  Provenance.to_string (d_provenance d) +:+ ", priority " +:+
  RestorePriority.to_string (d_restore_priority d) +:+ ".".

Definition explain_manifest (m : CheckpointManifest) : string :=
  "Manifest " +:+ to_hex_string (id_value (m_id m)) +:+ " covers " +:+ pretty (zlen (m_chunks m)) +:+
  " chunks (" +:+ pretty (m_logical_size m) +:+ " bytes) for checkpoint " +:+
  to_hex_string (id_value (m_checkpoint_id m)) +:+ " generation " +:+
  pretty (gen_value (m_checkpoint_generation m)) +:+ "; semantic digest " +:+
  hex (m_semantic_digest m) +:+ ".".

Definition explain_dedup (e : DedupEntry) (reused : bool) : string :=
  "Blob " +:+ to_hex_string (id_value (de_blob_id e)) +:+ " has " +:+ pretty (de_refcount e) +:+
  " references over " +:+ pretty (de_physical_size e) +:+ " physical bytes, integrity " +:+
  IntegrityState.to_string (de_integrity e) +:+ ". " +:+
  (if reused
   then "Chunk reused because SHA-256 and logical length exactly match an existing verified blob."
   else "Chunk required a new physical blob write.").

Definition explain_replica (r : ReplicaDescriptor) : string :=
  "Replica " +:+ to_hex_string (id_value (rp_id r)) +:+ " on backend " +:+
  to_hex_string (id_value (rp_backend_id r)) +:+ " (" +:+ StorageTierClass.to_string (rp_tier r) +:+
  ") is " +:+ IntegrityState.to_string (rp_integrity r) +:+ " with role " +:+
  ReplicaRole.to_string (rp_role r) +:+ ", " +:+ pretty (rp_physical_size r) +:+
  " bytes, provenance " +:+ Provenance.to_string (rp_provenance r) +:+ ".".

Definition explain_restore (ev : RestoreEvidence) : string :=
  "Restore " +:+ to_hex_string (id_value (ev_restore_id ev)) +:+ " of checkpoint " +:+
  to_hex_string (id_value (ev_source_checkpoint ev)) +:+ " restored " +:+
  pretty (ev_bytes_restored ev) +:+ " bytes across " +:+ pretty (ev_chunks_restored ev) +:+ " chunks" +:+
  match ev_fallback_source ev with
  | Some rid => ", fallback replica " +:+ to_hex_string (id_value rid)
  | None => ""
  end +:+
  ", duration " +:+ pretty (ev_duration ev) +:+ " ms, integrity " +:+
  IntegrityState.to_string (ev_integrity ev) +:+ ".".

Definition explain_retention (p : RetentionPolicy) (protected_ : bool) : string :=
  "Retention policy " +:+ to_hex_string (id_value (pol_id p)) +:+ " for family " +:+
  to_hex_string (id_value (pol_family_id p)) +:+ " is " +:+
  RetentionClass.to_string (pol_retention_class p) +:+
  (if bool_decide (pol_retention_class p = RetentionClass.kKeepLatestN)
   then " (latest " +:+ pretty (pol_latest_n p) +:+ ")"
   else if bool_decide (pol_retention_class p = RetentionClass.kTtl)
   then " (ttl " +:+ pretty (pol_ttl p) +:+ "s)"
   else "") +:+
  (if protected_ then ", protecting this checkpoint." else ", not protecting this checkpoint.").

Definition explain_gc (s : GcState) : string :=
  "GC epoch " +:+ to_hex_string (id_value (gc_epoch s)) +:+ " generation " +:+
  pretty (gen_value (gc_generation s)) +:+ " is " +:+ GcPhase.to_string (gc_phase s) +:+ "; " +:+
  pretty (zlen (gc_reachable_blobs s)) +:+ " reachable blobs, " +:+
  pretty (zlen (gc_reclaimable_blobs s)) +:+ " reclaimable candidates, " +:+
  pretty (gc_marked_bytes s) +:+ " marked bytes.".

Definition explain_integrity (state : IntegrityState.t) : string :=
  match state with
  | IntegrityState.kUnknown => "Integrity is UNKNOWN; not verified."
  | IntegrityState.kUnverified => "Integrity is UNVERIFIED; no evidence yet."
  | IntegrityState.kVerified => "Integrity is VERIFIED; digest matched."
  | IntegrityState.kCorrupt => "Integrity is CORRUPT; digest mismatch or bad bytes."
  | IntegrityState.kMissing => "Integrity is MISSING; object absent."
  | IntegrityState.other _ => "Integrity state unknown."
  end.

(** ** The texts tell apart what they must *)

(** The one-line texts of different verdicts differ. *)
Lemma explain_integrity_inj v w : explain_integrity v = explain_integrity w →
  v = w ∨ ∃ a b, v = IntegrityState.other a ∧ w = IntegrityState.other b.
Proof. destruct v, w; try discriminate; eauto. Qed.

Example explain_unknown_checkpoint (s : CheckpointStore unit) :
  im_checkpoints (s_impl s) = ∅ →
  outcome_code (explain_checkpoint_integrity (mkId 7) s).1 = ErrorCode.kNotFound.
Proof. intros E. unfold explain_checkpoint_integrity, get, mbind, ST_bind. by rewrite E. Qed.

Example explain_retention_latest :
  explain_retention (default_RetentionPolicy <| pol_id := mkId 1 |> <| pol_family_id := mkId 2 |>
    <| pol_retention_class := RetentionClass.kKeepLatestN |> <| pol_latest_n := 5 |>) true =
  "Retention policy 0000000000000001 for family 0000000000000002 is KEEP_LATEST_N (latest 5), protecting this checkpoint.".
Proof. vm_compute. reflexivity. Qed.

Example explain_gc_idle :
  explain_gc default_GcState =
  "GC epoch 0000000000000000 generation 1 is IDLE; 0 reachable blobs, 0 reclaimable candidates, 0 marked bytes.".
Proof. vm_compute. reflexivity. Qed.
