(* ===== verification/Liveness.v ===== *)
(** * Liveness: a publication that ought to succeed does

    The other theorems on [publish] say what holds when it returns.  Here: with
    the authority of the live incarnation, on a backend whose writes get
    through, it returns, and the store then holds the very bytes it was given. *)
From stdpp Require Import functions.
From S2P Require Import Prelude Base Hash Model Chunking Dedup BinFormat Backend SyntheticBackend Store Publish Restore.

(** A backend on which content-addressed writes get through, which answers when
    it is asked to verify, and is healthy.  [reliable] is preserved by the writes
    and by the removal of objects. *)
Class ReliableBackend (B : Type) `{IBackend B} := {
  reliable : B → Prop;
  reliable_write d data b : length d = 32%nat → reliable b →
    ∃ b1 b2, put_temp (blob_key d) data b = (Ok tt, b1) ∧ commit (blob_key d) b1 = (Ok tt, b2) ∧
      reliable b2 ∧ (read (blob_key d) b2).1 = Ok data ∧
      ∀ d', length d' = 32%nat → d' ≠ d → (read (blob_key d') b2).1 = (read (blob_key d') b).1;
  reliable_verify d b : length d = 32%nat → reliable b → ∃ v, (verify (blob_key d) d b).1 = Ok v;
  reliable_remove d b : reliable b → reliable (remove (blob_key d) b).2;
  reliable_health b : reliable b → (health b).1 = Ok true
}.

#[export] Program Instance synthetic_reliable : ReliableBackend SyntheticBackend := {
  reliable := λ b, sy_available b = true
}.
Next Obligation.
  intros d data b Hl Ha. pose proof (blob_key_valid d Hl) as Hk.
  destruct (sy_put_commit (blob_key d) data b Hk Ha) as (b1 & b2 & E1 & E2 & A2 & O2 & M2 & _).
  exists b1, b2. split; [exact E1|]. split; [exact E2|]. split; [done|]. split.
  - by eapply sy_commit_publishes.
  - intros d' Hl' Hne. assert (blob_key d' ≠ blob_key d) as Hkey by (by intros ?%blob_key_inj).
    pose proof (commit_other (blob_key d) (blob_key d') b1 Hkey) as Hc.
    pose proof (put_temp_invisible (blob_key d) data (blob_key d') b) as Ht.
    simpl in *. rewrite E2 in Hc. rewrite E1 in Ht. cbn [snd] in *. by rewrite Hc.
Qed.
Next Obligation. intros d b _ _. by eexists. Qed.
Next Obligation. by intros d b. Qed.
Next Obligation. intros b Ha. simpl in *. unfold sy_health, gets. cbn. by rewrite Ha. Qed.

Section liveness.
Context `{IterOrder} {B : Type} `{HB : IBackend B} {HL : BackendLaws B} {HR : ReliableBackend B}.
Implicit Types s : CheckpointStore B.
Abbreviation State := (CheckpointStore B * PublishLocals)%type.
Context (p : BackendPtr) (slices : list ChunkSlice).

(** ** What is assumed of the pieces and of what is stored already *)

(** The 64-bit chunk ids tell the pieces apart; the digests do so too, being
    what the ids are cut from. *)
Definition pieces_distinct : Prop := ∀ sl1 sl2, sl1 ∈ slices → sl2 ∈ slices →
  chunk_id_from_digest (sl_digest sl1) = chunk_id_from_digest (sl_digest sl2) →
  sl_bytes sl1 = sl_bytes sl2.
(** No stored object collides with a piece under SHA-256. *)
Definition no_collision (b : B) : Prop := ∀ sl rb, sl ∈ slices →
  (read (blob_key (sl_digest sl)) b).1 = Ok rb → sha256 rb = sl_digest sl → rb = sl_bytes sl.
(** The dedup entry of a piece has its size, is not recorded as corrupt, and
    has room for [n] more references. *)
Definition entry_fits (n : Z) (sl : ChunkSlice) (e : DedupEntry) : Prop :=
  de_physical_size e = zlen (sl_bytes sl) ∧ de_integrity e ≠ IntegrityState.kCorrupt ∧
  0 ≤ de_refcount e ∧ de_refcount e + n < 2 ^ 64.
Definition table_fits (n : Z) (t : DedupTable) : Prop := ∀ sl e, sl ∈ slices →
  t !! sl_digest sl = Some e → entry_fits n sl e.
(** The state can take [n] more pieces. *)
Definition accepts (n : Z) s : Prop :=
  reliable (s_heap s p) ∧ no_collision (s_heap s p) ∧ table_fits n (s_dedup s).

(** The backend holds the bytes of the pieces [done]. *)
Definition holds (done : list ChunkSlice) s : Prop :=
  Forall (λ sl, (read (blob_key (sl_digest sl)) (s_heap s p)).1 = Ok (sl_bytes sl)) done.
(** The table of chunk sizes after the pieces [done]. *)
Definition sizes_of (done : list ChunkSlice) (sizes : gmap ChunkId Z) : Prop :=
  (∀ sl, sl ∈ done → sizes !! chunk_id_from_digest (sl_digest sl) = Some (zlen (sl_bytes sl))) ∧
  ∀ id n, sizes !! id = Some n →
    ∃ sl, sl ∈ done ∧ id = chunk_id_from_digest (sl_digest sl) ∧ n = zlen (sl_bytes sl).

Context (Hdigests : Forall (λ sl, sl_digest sl = sha256 (sl_bytes sl)) slices).
Context (Hdistinct : pieces_distinct).

Lemma piece_digest_length sl : sl ∈ slices → length (sl_digest sl) = 32%nat.
Proof. rewrite Forall_forall in Hdigests. intros ->%Hdigests. apply length_sha256. Qed.
Lemma same_digest_same_bytes sl1 sl2 : sl1 ∈ slices → sl2 ∈ slices →
  sl_digest sl1 = sl_digest sl2 → sl_bytes sl1 = sl_bytes sl2.
Proof. intros H1 H2 E. apply Hdistinct; [done..|]. by rewrite E. Qed.

(** States that agree on the object and the table are alike. *)
Definition alike s s' : Prop := s_heap s' p = s_heap s p ∧ s_dedup s' = s_dedup s.
#[local] Instance alike_preorder : PreOrder alike.
Proof. split; [done|]. intros s1 s2 s3 [? ?] [? ?]. unfold alike. split; congruence. Qed.
Lemma alike_accepts n s s' : alike s s' → accepts n s → accepts n s'.
Proof. unfold accepts. by intros [-> ->]. Qed.
Lemma alike_holds done s s' : alike s s' → holds done s → holds done s'.
Proof. unfold holds. by intros [-> _]. Qed.
Lemma table_fits_weaken n m t : m ≤ n → table_fits n t → table_fits m t.
Proof. intros Hm Ht sl e Hsl He. destruct (Ht sl e Hsl He) as (?&?&?&?). split_and!; done || lia. Qed.

Lemma in_store_run {A} (m : ST (CheckpointStore B) CheckpointStoreError A) (q : State) r s' :
  m q.1 = (r, s') → in_store m q = (r, (s', q.2)).
Proof. intros E. unfold in_store, zoom. by rewrite E. Qed.
Lemma on_backend_pure_run {A} (m : ST B CheckpointStoreError A) s :
  (m (s_heap s p)).2 = s_heap s p →
  ∃ s', on_backend p m s = ((m (s_heap s p)).1, s') ∧ alike s s'.
Proof.
  intros Hm. unfold on_backend, zoom. destruct (m (s_heap s p)) as [r b]. cbn [fst snd] in *. subst b.
  eexists. split; [done|]. split; [|done]. apply fn_insert_id.
Qed.

(** ** One piece *)

(** Taking a reference to an entry with room for it. *)
Lemma add_reference_run sl e n s : sl ∈ slices → 0 ≤ n → table_fits (n + 1) (s_dedup s) →
  s_dedup s !! sl_digest sl = Some e →
  ∃ s', on_dedup (dedup_add_reference (sl_digest sl)) s = (Ok true, s') ∧ s_heap s' = s_heap s ∧
    table_fits n (s_dedup s').
Proof.
  intros Hsl Hn Hf He. destruct (Hf sl e Hsl He) as (Hsz & Hi & Hr & Hroom).
  unfold on_dedup, zoom, dedup_add_reference, get, mbind, ST_bind. rewrite He.
  rewrite bool_decide_eq_false_2 by done. unfold raise_if, throw_if, raise, throw. 
  rewrite (proj2 (Z.eqb_neq (de_refcount e) (2 ^ 64 - 1))) by lia. cbn.
  eexists. split; [done|]. split; [done|]. cbn. intros sl' e' Hsl'.
  destruct (decide (sl_digest sl' = sl_digest sl)) as [E|Hne].
  - rewrite E, lookup_insert_eq. intros [= <-]. unfold entry_fits. cbn. unfold incr64.
    rewrite u64_id by (unfold is_u64; lia). rewrite (same_digest_same_bytes sl' sl) by done. split_and!; done || lia.
  - rewrite lookup_insert_ne by done. intros He'. destruct (Hf sl' e' Hsl' He') as (?&?&?&?). split_and!; done || lia.
Qed.

(** Looking for a blob to share: either none is found, or one whose object
    holds the piece. *)
Lemma reuse_run sl n (q : State) : sl ∈ slices → 0 ≤ n → accepts (n + 1) q.1 →
  ∃ r q', reuse_blob p sl q = (Ok r, q') ∧ accepts n q'.1 ∧ s_heap q'.1 p = s_heap q.1 p ∧
    (is_Some r → holds [sl] q'.1).
Proof.
  intros Hsl Hn (Hrel & Hnc & Hf). pose proof (piece_digest_length sl Hsl) as Hlen.
  pose proof (blob_key_valid _ Hlen) as Hkey.
  unfold reuse_blob. rewrite (st_bind_run _ _ _ (s_dedup q.1) q) by done.
  assert (∀ s', s_heap s' p = s_heap q.1 p → table_fits n (s_dedup s') → accepts n s') as Hacc.
  { intros s' Eh Ht. split; [by rewrite Eh|]. split; [by rewrite Eh|done]. }
  assert (table_fits n (s_dedup q.1)) as Hfn by (eapply table_fits_weaken; [|exact Hf]; lia).
  unfold dedup_lookup. destruct (zlen (sl_bytes sl) =? 0).
  { rewrite (st_bind_run _ _ _ default_DedupLookup q) by done. cbn. eexists _, q. split; [done|].
    split; [by apply Hacc|]. split; [done|]. by intros [? ?]. }
  destruct (s_dedup q.1 !! sl_digest sl) as [e|] eqn:He.
  2: { rewrite (st_bind_run _ _ _ default_DedupLookup q) by done. cbn. eexists _, q. split; [done|].
    split; [by apply Hacc|]. split; [done|]. by intros [? ?]. }
  pose proof (Hf sl e Hsl He) as (Hsz & Hi & _).
  rewrite Hsz, Z.eqb_refl. cbn [negb]. rewrite (bool_decide_eq_false_2 (de_integrity e = _)) by done.
  erewrite st_bind_run by reflexivity. cbv beta iota zeta.
  destruct (on_backend_pure_run (verify (blob_key (sl_digest sl)) (sl_digest sl)) q.1) as (s1 & E1 & A1);
    [apply verify_pure|].
  destruct (reliable_verify (sl_digest sl) _ Hlen Hrel) as [v Hv]. rewrite Hv in E1.
  change (dl_result _) with DedupResult.kHit. cbn iota.
  rewrite (st_bind_run _ _ _ _ _ (in_store_run _ _ _ _ E1)). unfold dedup_find. rewrite He.
  destruct A1 as [Ah At]. case_bool_decide as Ev.
  - subst v. destruct (add_reference_run sl e n s1 Hsl Hn) as (s2 & E2 & H2 & F2); [by rewrite At..|].
    rewrite (st_bind_run _ _ _ true (s2, q.2)) by (by apply (in_store_run _ (s1, q.2))).
    eexists _, _. split; [reflexivity|]. cbn [fst]. rewrite H2, Ah. split; [|split; [done|]].
    + apply Hacc; [by rewrite H2|done].
    + intros _. apply Forall_singleton. rewrite H2, Ah.
      destruct (verify_read _ _ _ Hkey Hv) as (data & Hread & Hsha).
      rewrite Hread. f_equal. by eapply Hnc.
  - assert (accepts n s1) as Hs1 by (apply Hacc; [done|by rewrite At]).
    case_bool_decide.
    + eexists _, _. split; [reflexivity|]. cbn. split; [exact Hs1|]. split; [done|]. by intros [? ?].
    + eexists _, _. split; [reflexivity|]. cbn. split; [done|]. split; [done|]. by intros [? ?].
Qed.

(** Inserting an entry for a piece leaves room, whatever was there. *)
Lemma insert_run sl n s : sl ∈ slices → 0 ≤ n → n + 1 < 2 ^ 64 → table_fits n (s_dedup s) →
  ∃ b s', on_dedup (dedup_insert (blob_id_from_digest (sl_digest sl)) (sl_digest sl)
      (zlen (sl_bytes sl)) IntegrityState.kVerified (mkGen 1)) s = (Ok b, s') ∧
    s_heap s' = s_heap s ∧ table_fits n (s_dedup s').
Proof.
  intros Hsl Hn Hb Hf. unfold on_dedup, zoom, dedup_insert, get, mbind, ST_bind.
  destruct (s_dedup s !! sl_digest sl) as [e|] eqn:He.
  - destruct (Hf sl e Hsl He) as (Hsz & _). rewrite Hsz, Z.eqb_refl. cbn. eexists _, _. by split.
  - cbn. eexists _, _. split; [reflexivity|]. split; [done|]. cbn. intros sl' e' Hsl'.
    destruct (decide (sl_digest sl' = sl_digest sl)) as [E|Hne].
    + rewrite E, lookup_insert_eq. intros [= <-]. unfold entry_fits. cbn.
      rewrite (same_digest_same_bytes sl' sl) by done. split_and!; done || lia.
    + rewrite lookup_insert_ne by done. apply Hf. done.
Qed.

(** Writing a piece stores it and keeps the others. *)
Lemma write_run sl n (q : State) : sl ∈ slices → 0 ≤ n → n + 1 < 2 ^ 64 → accepts n q.1 →
  ∃ q', write_blob p sl q = (Ok tt, q') ∧ accepts n q'.1 ∧ holds [sl] q'.1 ∧
    ∀ sl', sl' ∈ slices → holds [sl'] q.1 → holds [sl'] q'.1.
Proof.
  intros Hsl Hn Hb (Hrel & Hnc & Hf). pose proof (piece_digest_length sl Hsl) as Hlen.
  destruct (reliable_write (sl_digest sl) (sl_bytes sl) _ Hlen Hrel) as (b1 & b2 & E1 & E2 & R2 & Hr & Ho).
  unfold write_blob. cbv zeta.
  rewrite (st_bind_run _ _ _ tt (q.1 <| s_heap ::= <[p := b1]> |>, q.2))
    by (apply in_store_run; unfold on_backend, zoom; by rewrite E1).
  set (s1 := q.1 <| s_heap ::= _ |>).
  rewrite (st_bind_run _ _ _ tt (s1 <| s_heap ::= <[p := b2]> |>, q.2)).
  2: { apply (in_store_run _ (s1, q.2)). unfold on_backend, zoom, s1. cbn. by rewrite fn_lookup_insert, E2. }
  set (s2 := s1 <| s_heap ::= _ |>).
  destruct (insert_run sl n s2 Hsl Hn Hb) as (b & s3 & E3 & H3 & F3); [done|].
  rewrite (st_bind_run _ _ _ b (s3, q.2)) by (by apply (in_store_run _ (s2, q.2))).
  eexists. split; [reflexivity|]. cbn [fst].
  assert (s_heap s3 p = b2) as Hheap by (rewrite H3; apply fn_lookup_insert).
  assert (∀ sl', sl' ∈ slices → sl_digest sl' = sl_digest sl →
    (read (blob_key (sl_digest sl')) b2).1 = Ok (sl_bytes sl')) as Hsame.
  { intros sl' Hsl' E. rewrite E, Hr. f_equal. symmetry. by apply same_digest_same_bytes. }
  unfold accepts, holds. rewrite Hheap. split; [split; [done|split; [|done]]|split].
  - intros sl' rb Hsl'. destruct (decide (sl_digest sl' = sl_digest sl)) as [E|Hne].
    + rewrite Hsame by done. by intros [= <-].
    + rewrite Ho by (done || by apply piece_digest_length). by apply Hnc.
  - apply Forall_singleton. by apply Hsame.
  - intros sl' Hsl' Hh. apply Forall_singleton. apply Forall_inv in Hh.
    destruct (decide (sl_digest sl' = sl_digest sl)) as [E|Hne]; [by apply Hsame|].
    by rewrite Ho by (done || by apply piece_digest_length).
Qed.

(** The bookkeeping in the blob and placement tables never fails and touches
    neither the backend nor the dedup table. *)
Lemma record_blob_run cd r s : ∃ s', record_blob cd r s = (Ok tt, s') ∧ alike s s'.
Proof.
  unfold record_blob, get, mbind, ST_bind. destruct (im_blobs _ !! _) as [bd|]; [case_bool_decide|];
    eexists; (split; [reflexivity|]); by split.
Qed.
Lemma record_placement_run cd r s : ∃ pl s', record_placement cd r s = (Ok pl, s') ∧ alike s s'.
Proof.
  unfold record_placement, fresh_id, get_impl, gets, modify_impl, modify, mbind, ST_bind, mret, ST_ret.
  cbv beta iota zeta. eexists _, _. split; [reflexivity|]. by split.
Qed.

(** The invariant of the loop over the pieces. *)
Definition progress (done : list ChunkSlice) (n : Z) (q : State) : Prop :=
  accepts n q.1 ∧ holds done q.1 ∧ sizes_of done (l_chunk_sizes q.2).

Lemma sizes_emplace done sl sizes : sl ∈ slices → (∀ sl', sl' ∈ done → sl' ∈ slices) → sizes_of done sizes →
  sizes_of (done ++ [sl]) (emplace (chunk_id_from_digest (sl_digest sl)) (zlen (sl_bytes sl)) sizes).
Proof.
  intros Hsl Hdone [H1 H2]. unfold emplace.
  destruct (sizes !! chunk_id_from_digest (sl_digest sl)) as [n|] eqn:E.
  - split.
    + intros sl' [Hd| ->%list_elem_of_singleton]%elem_of_app; [by apply H1|]. rewrite E.
      apply H2 in E as (sl' & Hd & E & ->). do 2 f_equal. symmetry. apply Hdistinct; auto.
    + intros id m Hm. apply H2 in Hm as (sl' & Hd & -> & ->). exists sl'. split; [|done]. apply elem_of_app. by left.
  - split.
    + intros sl' [Hd| ->%list_elem_of_singleton]%elem_of_app; [|apply lookup_insert_eq].
      rewrite lookup_insert_ne; [by apply H1|]. intros Eid. rewrite Eid, (H1 _ Hd) in E. done.
    + intros id m. destruct (decide (id = chunk_id_from_digest (sl_digest sl))) as [->|Hne].
      * rewrite lookup_insert_eq. intros [= <-]. exists sl. split; [|done]. apply elem_of_app. right.
        by apply list_elem_of_singleton.
      * rewrite lookup_insert_ne by done. intros (sl' & Hd & -> & ->)%H2. exists sl'. split; [|done].
        apply elem_of_app. by left.
Qed.

Lemma slice_run rid done sl n (q : State) : sl ∈ slices → (∀ sl', sl' ∈ done → sl' ∈ slices) →
  0 ≤ n → n + 1 < 2 ^ 64 → progress done (n + 1) q →
  ∃ q', publish_slice p rid sl q = (Ok tt, q') ∧ progress (done ++ [sl]) n q'.
Proof.
  intros Hsl Hdone Hn Hb (Ha & Hh & Hs). unfold publish_slice.
  destruct (reuse_run sl n q Hsl Hn Ha) as (r & q1 & E1 & A1 & H1 & R1).
  pose proof (reuse_keeps_chunks p sl q) as C1. rewrite E1 in C1. cbn [snd] in C1.
  rewrite (st_bind_run _ _ _ _ _ E1).
  assert (holds done q1.1) as Hh1 by (unfold holds; by rewrite H1).
  assert (∃ b q2, (match r with Some b => mret b | None => _ ← write_blob p sl; mret (blob_id_from_digest (sl_digest sl)) end)
    q1 = (Ok b, q2) ∧ accepts n q2.1 ∧ holds (done ++ [sl]) q2.1 ∧ same_chunks q1 q2) as (b & q2 & E2 & A2 & H2 & C2).
  { destruct r as [b|].
    - exists b, q1. split; [done|]. split; [done|]. split; [|done]. apply Forall_app. split; [done|]. by apply R1.
    - destruct (write_run sl n q1 Hsl Hn Hb A1) as (q2 & E2 & A2 & H2 & O2).
      pose proof (write_keeps_chunks p sl q1) as C2. rewrite E2 in C2. cbn [snd] in C2.
      exists (blob_id_from_digest (sl_digest sl)), q2. rewrite (st_bind_run _ _ _ _ _ E2). split; [done|].
      split; [done|]. split; [|done]. apply Forall_app. split; [|done]. apply Forall_forall. intros sl' Hd.
      unfold holds in *. rewrite Forall_forall in Hh1. specialize (Hh1 _ Hd).
      assert (holds [sl'] q2.1) as Hs2 by (apply O2; [auto|]; by apply Forall_singleton). by apply Forall_inv in Hs2. }
  rewrite (st_bind_run _ _ _ _ _ E2). cbv zeta.
  match goal with |- context [in_store (record_blob ?cd rid)] => set (cd_ := cd) end.
  destruct (record_blob_run cd_ rid q2.1) as (s3 & E3 & L3).
  rewrite (st_bind_run _ _ _ tt (s3, q2.2)) by (by apply in_store_run).
  destruct (record_placement_run cd_ rid s3) as (pl & s4 & E4 & L4).
  rewrite (st_bind_run _ _ _ pl (s4, q2.2)) by (by apply (in_store_run _ (s3, q2.2))).
  eexists. split; [reflexivity|]. assert (alike q2.1 s4) as L by (by etrans).
  split; [by eapply alike_accepts|]. split; [by eapply alike_holds|]. cbn.
  unfold same_chunks, chunk_locals in *.
  assert (l_chunk_sizes q2.2 = l_chunk_sizes q.2) as -> by congruence. by apply sizes_emplace.
Qed.

Lemma loop_run rid todo done (q : State) : slices = done ++ todo → zlen slices < 2 ^ 64 →
  progress done (zlen todo) q →
  ∃ q', for_each todo (publish_slice p rid) q = (Ok tt, q') ∧ progress slices 0 q'.
Proof.
  revert done q. induction todo as [|sl todo IH]; intros done q E Hb Hp.
  { rewrite app_nil_r in E. subst done. by exists q. }
  assert (∀ sl', sl' ∈ done ∨ sl' ∈ sl :: todo → sl' ∈ slices) as Hin by (intros sl' ?; rewrite E; by apply elem_of_app).
  assert (zlen (sl :: todo) = zlen todo + 1) as El by (unfold zlen; cbn [length]; lia).
  pose proof (zlen_nonneg todo). pose proof (zlen_nonneg done).
  assert (zlen slices = zlen done + (zlen todo + 1)) as Hz by (rewrite E, zlen_app; lia).
  rewrite El in Hp.
  destruct (slice_run rid done sl (zlen todo) q) as (q1 & E1 & P1); [by apply Hin; right; left| |lia|lia|done|].
  { intros sl' ?. apply Hin. by left. }
  destruct (IH (done ++ [sl]) q1) as (q2 & E2 & P2); [by rewrite <- app_assoc|done|done|].
  exists q2. split; [|done]. cbn [for_each]. by rewrite (st_bind_run _ _ _ _ _ E1).
Qed.

(** ** The checks pass *)
Lemma read_back_run sls cds h s : Forall2 chunk_of sls cds →
  Forall (λ sl, sl_digest sl = sha256 (sl_bytes sl)) sls → holds sls s →
  ∃ s', read_back p cds h s = (Ok (fold_left update_hasher (sl_bytes <$> sls) h), s') ∧ alike s s'.
Proof.
  intros Hf. revert h s. induction Hf as [|sl cd sls cds Hc Hf IH]; intros h s Hd Hh.
  { exists s. split; [done|reflexivity]. }
  apply Forall_cons in Hd as [Hd Hds]. apply Forall_cons in Hh as [Hh Hhs].
  destruct Hc as (_ & _ & _ & Hsz & Hdg & _). cbn [read_back fold_left fmap list_fmap].
  destruct (on_backend_pure_run (read (blob_key (cd_digest cd))) s) as (s1 & E1 & L1); [apply read_pure|].
  rewrite Hdg, Hh in E1. rewrite Hdg, (st_bind_run _ _ _ _ _ E1), Hsz, Z.eqb_refl. cbn [negb].
  erewrite st_bind_run by reflexivity. rewrite Hd. rewrite (proj2 (digest_equal_true _ _)) by done. cbn [negb].
  erewrite st_bind_run by reflexivity.
  destruct (IH (update_hasher h (sl_bytes sl)) s1 Hds) as (s2 & E2 & L2); [by eapply alike_holds|].
  exists s2. rewrite E2. split; [done|]. by etrans.
Qed.

Lemma verify_content_run cds data s : Forall2 chunk_of slices cds → concat (sl_bytes <$> slices) = data →
  holds slices s → ∃ s', verify_content p cds data s = (Ok (sha256 data), s') ∧ alike s s'.
Proof.
  intros Hf Hc Hh. unfold verify_content.
  destruct (read_back_run slices cds new_hasher s Hf Hdigests Hh) as (s1 & E1 & L1).
  rewrite (st_bind_run _ _ _ _ _ E1). cbv zeta. rewrite streaming_sha256, Hc.
  rewrite (proj2 (digest_equal_true _ _)) by done. exists s1. by split.
Qed.

Lemma walk_run sls off size c sizes : 0 ≤ off → is_u64 size → tiles off size c (sl_range <$> sls) →
  Forall (λ sl, zlen (sl_bytes sl) = cr_logical_size (sl_range sl)) sls →
  (∀ sl, sl ∈ sls → sizes !! chunk_id_from_digest (sl_digest sl) = Some (zlen (sl_bytes sl))) →
  walk_entries sizes (entry_of <$> sls) off = Ok size.
Proof.
  intros Ho Hs. revert off Ho. induction sls as [|sl sls IH]; intros off Ho Ht Hl Hsz; [by cbn in *; subst|].
  destruct Ht as (Hoff & Hp & Hmin & Ht). apply Forall_cons in Hl as [Hl Hls]. csimpl.
  rewrite Hoff, Z.eqb_refl. cbn [negb]. rewrite Hsz by left. rewrite Hl, u64_id.
  - apply IH; [lia|done..|]. intros sl' ?. apply Hsz. by right.
  - unfold is_u64 in *. lia.
Qed.
End liveness.

(** ** The claim *)
Section claims.
Context `{IterOrder} {B : Type} `{HB : IBackend B} {HL : BackendLaws B} {HR : ReliableBackend B}.

(** C4: A publication that ought to succeed does.  A producer of the live
    incarnation publishes under a fresh id and the family's next generation, on
    a backend whose writes get through; the pieces are told apart by their ids,
    nothing stored collides with them, and the dedup entries they may share are
    sound and have room for the references.  Then [publish] returns, whatever
    part of the data is stored already, and in the state it leaves the primary
    backend holds for every piece exactly its bytes: read in manifest order they
    are the data.  The backend is as reliable as before. *)
Theorem publish_succeeds descriptor data (s : CheckpointStore B) p slices :
  authorized descriptor s p → is_u64 (zlen data) →
  chunk_stream data (opt_chunk_size (s_options s)) = Ok slices → pieces_distinct slices →
  reliable (s_heap s p) → no_collision slices (s_heap s p) →
  table_fits slices (zlen slices) (s_dedup s) →
  ∃ res s', publish descriptor data s = (Ok res, s') ∧
    reliable (s_heap s' p) ∧ m_chunks (pub_manifest res) = entry_of <$> slices ∧
    concat (sl_bytes <$> slices) = data ∧
    Forall (λ sl, (read (blob_key (sl_digest sl)) (s_heap s' p)).1 = Ok (sl_bytes sl)) slices.
Proof.
  intros Hauth Hd Hcs Hdist Hrel Hnc Hfit. pose proof Hauth as (_ & Hn & _ & Hv & _).
  pose proof Hcs as Hcs'. rewrite (chunk_stream_ok data _ Hv) in Hcs'. injection Hcs' as Hsl.
  destruct (slice_loop_spec data _ Hv Hd) as (Hcat & Hdig & Hlen). pose proof (slice_loop_tiles data _ Hv Hd) as Ht.
  pose proof (slice_loop_count data _ Hv Hd) as Hcount. rewrite Hsl in *.
  unfold publish. rewrite (st_bind_run _ _ _ p s) by (by apply publish_guards_ok).
  rewrite (st_bind_run _ _ _ (opt_chunk_size (s_options s)) s) by done.
  rewrite (st_bind_run _ _ _ slices s) by (unfold lift_result; by rewrite Hcs).
  rewrite (st_bind_run _ _ _ (im_next_id_counter (s_impl s)) (after_fresh s)) by done.
  set (rid := mkId _). unfold try_publish, publish_body. set (q0 := (after_fresh s, default_PublishLocals)).
  destruct (loop_run p slices Hdig Hdist rid slices [] q0) as (q1 & E1 & (Ha & Hh & Hs1 & _)).
  { done. } { unfold is_u64 in Hd. lia. }
  { split; [done|]. split; [by constructor|]. split; [by intros ? ?%elem_of_nil|by intros ? ?]. }
  destruct (publish_loop_locals p rid slices [] q0 q1 E1) as [Hcds Hes]; [by split; [constructor|]|].
  rewrite (st_bind_run _ _ _ _ _ E1). rewrite (st_bind_run _ _ _ (l_chunk_descriptors q1.2) q1) by done.
  destruct (verify_content_run p slices Hdig (l_chunk_descriptors q1.2) data q1.1) as (s2 & E2 & L2); [done..|].
  rewrite (st_bind_run _ _ _ (sha256 data) (s2, q1.2)) by (by apply in_store_run).
  rewrite (st_bind_run _ _ _ q1.2 (s2, q1.2)) by done. cbv zeta.
  rewrite Hes, app_nil_l, sort_entries_sorted by (by eapply tiles_entries_sorted; [|exact Ht]).
  assert (check_manifest (l_chunk_sizes q1.2) (entry_of <$> slices) (zlen data) = Ok tt) as Ec.
  { unfold check_manifest. erewrite walk_run; [|lia|exact Hd|exact Ht|done|done].
    unfold mbind, result_bind. by rewrite Z.eqb_refl. }
  rewrite (st_bind_run _ _ _ tt (s2, q1.2)) by (unfold lift_result; by rewrite Ec).
  pose proof (publish_loop_frames p rid slices q0) as F1. rewrite E1 in F1.
  pose proof (verify_content_frames p (l_chunk_descriptors q1.2) data q1.1) as F2. rewrite E2 in F2.
  unfold on_store, same_catalogue, catalogue in F1, F2. cbn [fst snd q0 after_fresh] in F1, F2. rewrite F1 in F2.
  injection F2 as _ _ _ _ _ Hck _ _ _ _ _ _ _ _ _ _.
  destruct (commit_metadata_ok descriptor data rid (entry_of <$> slices) (sha256 data) s2 q1.2)
    as (mid & res & s3 & E3 & H3 & _ & _ & Hm & _); [by rewrite Hck|].
  rewrite E3. exists res, s3. split; [done|]. rewrite H3, Hm. destruct L2 as [Hheap _]. rewrite Hheap.
  split; [apply Ha|]. by split.
Qed.
End claims.

(** ** Evaluation: the data of the concrete store, one of whose pieces repeats *)
Lemma demo_pieces : ∃ slices, chunk_stream demo_data (opt_chunk_size (s_options demo_store)) = Ok slices ∧
  pieces_distinct slices ∧ zlen slices = 3 ∧ no_collision slices (s_heap demo_store 0%nat).
Proof.
  destruct (chunk_stream demo_data (opt_chunk_size (s_options demo_store))) as [slices|e] eqn:Ec; [|discriminate Ec].
  exists slices. split; [done|].
  assert (no_collision slices (s_heap demo_store 0%nat)) as Hn.
  { intros sl rb _ Hr. exfalso. revert Hr. simpl. unfold sy_read, raise_if, throw_if, get, mbind, ST_bind.
    destruct (validate_backend_key _); discriminate. }
  split; [|split; [|exact Hn]]; vm_compute in Ec; injection Ec as <-; [|reflexivity]. intros sl1 sl2.
  rewrite !elem_of_cons, !elem_of_nil. intros [->|[->|[->|[]]]] [->|[->|[->|[]]]]; try reflexivity; vm_compute; discriminate.
Qed.
Lemma publish_succeeds_witness :
  ∃ res s', publish (H:=canonical_order) demo_descriptor demo_data demo_store = (Ok res, s') ∧
    sy_available (s_heap s' 0%nat) = true ∧ zlen (m_chunks (pub_manifest res)) = 3.
Proof.
  destruct demo_pieces as (slices & Ec & Hd & Hl & Hn).
  assert (authorized demo_descriptor demo_store 0%nat) as Ha.
  { split; [vm_compute; reflexivity|]. split; [vm_compute; reflexivity|]. split; [vm_compute; reflexivity|].
    split; [vm_compute; reflexivity|]. split; [left; vm_compute; reflexivity|vm_compute; reflexivity]. }
  assert (table_fits slices (zlen slices) (s_dedup demo_store)) as Hf.
  { intros sl e _ He. discriminate He. }
  assert (reliable (s_heap demo_store 0%nat)) as Hr0 by (vm_compute; reflexivity).
  destruct (publish_succeeds (H:=canonical_order) demo_descriptor demo_data demo_store 0%nat slices Ha demo_size Ec Hd
    Hr0 Hn Hf) as (res & s' & E & Hr & Hm & _).
  exists res, s'. split; [exact E|]. split; [exact Hr|]. rewrite Hm. unfold zlen. rewrite length_fmap. exact Hl.
Defined.
