(* ===== verification/Catalogue.v ===== *)
(** * Catalogue: the store as a map from checkpoint ids to bytes

    What the whole store promises, and that it keeps it.  The specification is
    a machine whose state is a finite map: a publication adds the bytes under an
    id not used before, a collection takes ids out, nothing else is seen.  The
    refinement follows a history of the store's operations, restarts included. *)
From stdpp Require Import functions.
From S2P Require Import Prelude Base Hash Model Chunking Dedup BinFormat Backend SyntheticBackend Store Publish Restore Retention Gc FileSystem Persistence Recovery Accounting References Liveness.

(** ** The specification *)
Record Catalogue := mkCatalogue {
  live : gmap CheckpointId (list byte);
  used : gset CheckpointId
}.
Definition empty_catalogue : Catalogue := mkCatalogue ∅ ∅.
Inductive Event :=
  | Published (id : CheckpointId) (data : list byte)
  | Collected (ids : list CheckpointId)
  | Quiet.
Definition apply_event (A : Catalogue) (ev : Event) : option Catalogue :=
  match ev with
  | Published id data =>
      if bool_decide (id ∈ used A) then None
      else Some (mkCatalogue (<[id := data]> (live A)) ({[id]} ∪ used A))
  | Collected ids => Some (mkCatalogue (filter (λ kv, kv.1 ∉ ids) (live A)) (used A))
  | Quiet => Some A
  end.
Fixpoint apply_events (A : Catalogue) (evs : list Event) : option Catalogue :=
  match evs with
  | [] => Some A
  | ev :: evs' => match apply_event A ev with Some A' => apply_events A' evs' | None => None end
  end.
Lemma apply_events_snoc A evs ev : apply_events A (evs ++ [ev]) =
  match apply_events A evs with Some A' => apply_event A' ev | None => None end.
Proof.
  revert A. induction evs as [|ev' evs IH]; intros A; cbn; [by destruct (apply_event A ev)|].
  destruct (apply_event A ev'); [apply IH|done].
Qed.

(** ** What a publication does to the objects that are there *)
Section growth.
Context `{IterOrder} {B : Type} `{HB : IBackend B} {HL : BackendLaws B} {HR : ReliableBackend B}.
Implicit Types s : CheckpointStore B.
Context (p : BackendPtr) (slices : list ChunkSlice).
Context (Hdigests : Forall (λ sl, sl_digest sl = sha256 (sl_bytes sl)) slices).
Context (Hdistinct : pieces_distinct slices).

Definition sane s : Prop := reliable (s_heap s p) ∧ no_collision slices (s_heap s p).
(** Every object that has its digest is still there, unchanged. *)
Definition objects_kept s s' : Prop := ∀ q d rb,
  (read (blob_key d) (s_heap s q)).1 = Ok rb → sha256 rb = d → (read (blob_key d) (s_heap s' q)).1 = Ok rb.
Definition growth s s' : Prop :=
  im_placements (s_impl s) ⊆ im_placements (s_impl s') ∧
  (∀ q, q ≠ p → s_heap s' q = s_heap s q) ∧
  (sane s → sane s' ∧ objects_kept s s').
#[local] Instance growth_preorder : PreOrder growth.
Proof.
  split.
  - intros s. split; [done|]. split; [done|]. intros Hs. split; [done|]. by intros ?.
  - intros s1 s2 s3 (P12 & H12 & K12) (P23 & H23 & K23). split; [by etrans|]. split.
    { intros q Hq. by rewrite H23, H12. }
    intros Hs. destruct (K12 Hs) as [Hs2 O12]. destruct (K23 Hs2) as [Hs3 O23]. split; [done|].
    intros q d rb Hr Hd. by apply O23, Hd; apply O12.
Qed.
Lemma growth_same s s' : (∀ q, s_heap s' q = s_heap s q) →
  im_placements (s_impl s) ⊆ im_placements (s_impl s') → growth s s'.
Proof.
  intros Hh Hp. split; [done|]. split; [done|]. unfold sane. rewrite Hh. intros Hs. split; [done|].
  intros q d rb. by rewrite Hh.
Qed.

Lemma growth_on_backend_pure {A} (m : ST B CheckpointStoreError A) :
  (∀ b, (m b).2 = b) → frames growth (on_backend p m).
Proof.
  intros Hm s. destruct (on_backend_pure p m s (Hm _)) as (s' & -> & Hi & Hh). cbn [snd].
  apply growth_same; [done|by rewrite Hi].
Qed.
Lemma growth_on_dedup {A} (m : ST DedupTable CheckpointStoreError A) : frames growth (on_dedup m).
Proof. intros s. unfold on_dedup, zoom. destruct (m (s_dedup s)). by apply growth_same. Qed.
Lemma growth_bump f : frames growth (bump_counter (B:=B) f).
Proof. intros s. by apply growth_same. Qed.
Lemma growth_fresh : frames growth (fresh_id (B:=B)).
Proof. intros s. by apply growth_same. Qed.
Lemma growth_record_blob cd r : frames growth (record_blob (B:=B) cd r).
Proof. intros s. unfold record_blob, get, mbind, ST_bind. case_match; [case_bool_decide|]; by apply growth_same. Qed.
Lemma emplace_subseteq `{Countable K} {A} (k : K) (a : A) (m : gmap K A) : m ⊆ emplace k a m.
Proof. unfold emplace. destruct (m !! k) eqn:E; [done|by apply insert_subseteq]. Qed.
Lemma growth_record_placement cd r : frames growth (record_placement (B:=B) cd r).
Proof. intros s. apply growth_same; [done|]. cbn. apply emplace_subseteq. Qed.

(** Storing a piece replaces no object that has its digest by another one. *)
Lemma growth_write sl : sl ∈ slices → frames (Publish.on_store growth) (Publish.write_blob p sl).
Proof.
  intros Hsl q. pose proof (piece_digest_length slices Hdigests sl Hsl) as Hlen.
  assert (sane q.1 → ∃ b1 b2, put_temp (blob_key (sl_digest sl)) (sl_bytes sl) (s_heap q.1 p) = (Ok tt, b1) ∧
    commit (blob_key (sl_digest sl)) b1 = (Ok tt, b2) ∧ reliable b2 ∧ no_collision slices b2 ∧
    ∀ d rb, (read (blob_key d) (s_heap q.1 p)).1 = Ok rb → sha256 rb = d → (read (blob_key d) b2).1 = Ok rb) as Hw.
  { intros [Hrel Hnc].
    destruct (reliable_write (sl_digest sl) (sl_bytes sl) _ Hlen Hrel) as (b1 & b2 & E1 & E2 & R2 & Hr & Ho).
    exists b1, b2. do 3 (split; [done|]). split.
    - intros sl' rb Hsl'. destruct (decide (sl_digest sl' = sl_digest sl)) as [E|Hne].
      + rewrite E, Hr. intros [= <-] _. symmetry. by apply (same_digest_same_bytes slices Hdistinct).
      + rewrite Ho by (done || by eapply piece_digest_length). by apply Hnc.
    - intros d rb Hrd Hd. destruct (decide (d = sl_digest sl)) as [->|Hne].
      + rewrite Hr. f_equal. symmetry. by apply Hnc.
      + rewrite Ho; [done| |done]. rewrite <- Hd. apply length_sha256. }
  unfold Publish.on_store, Publish.write_blob, in_store, on_backend, on_dedup, modify_locals, zoom, modify, mbind, ST_bind. cbn [fst snd].
  destruct (put_temp _ _ (s_heap q.1 p)) as [r1 b1] eqn:E1.
  assert (∀ s', im_placements (s_impl s') = im_placements (s_impl q.1) → (∀ x, x ≠ p → s_heap s' x = s_heap q.1 x) →
    (∀ b1' b2', (r1, b1) = (Ok tt, b1') →
       commit (blob_key (sl_digest sl)) b1' = (Ok tt, b2') → s_heap s' p = b2') → growth q.1 s') as Hend.
  { intros s' Hp Hh Hb. split; [by rewrite Hp|]. split; [done|]. intros Hs.
    destruct (Hw Hs) as (b1' & b2' & W1 & W2 & R & N & K). pose proof (Hb _ _ W1 W2) as Hsp. unfold sane. rewrite Hsp.
    split; [done|]. intros x d rb Hrd Hd. destruct (decide (x = p)) as [->|Hne]; [rewrite Hsp; by apply K|by rewrite Hh]. }
  destruct r1 as [[]|e]; cbn [fst snd].
  2: { apply Hend; [done| |intros ? ? [=]]. intros x Hx. cbn. by apply fn_lookup_insert_ne. }
  cbn. rewrite fn_lookup_insert. destruct (commit (blob_key (sl_digest sl)) b1) as [r2 b2] eqn:E2.
  destruct r2 as [[]|e]; cbn [fst snd].
  2: { apply Hend; [done| |intros ? ? [= <-]; congruence]. intros x Hx. cbn. by rewrite !fn_lookup_insert_ne. }
  cbn. destruct (dedup_insert _ _ _ _ _ _) as [[b|e] t]; cbn;
    (apply Hend; [done| |intros ? ? [= <-] E2'; cbn; rewrite fn_lookup_insert; congruence]; intros x Hx; cbn;
     by rewrite !fn_lookup_insert_ne).
Qed.

Lemma growth_slice rid sl : sl ∈ slices → frames (Publish.on_store growth) (publish_slice p rid sl).
Proof.
  intros Hsl. unfold publish_slice, reuse_blob, modify_locals.
  repeat first
    [ by apply growth_write
    | apply frames_in_store; first [ apply growth_on_backend_pure; intros; apply verify_pure | apply growth_on_dedup
                                   | apply growth_bump | apply growth_record_blob | apply growth_record_placement ]
    | apply frames_modify_locals; apply _ | (intros q'; unfold Publish.on_store; reflexivity)
    | progress cbn beta iota zeta | frame_step ].
Qed.
Lemma growth_body descriptor data rid : frames (Publish.on_store growth) (publish_body descriptor data p rid slices).
Proof.
  unfold publish_body, commit_metadata, verify_content, raise_if, get_impl, modify_impl.
  assert (∀ cds h, frames growth (read_back p cds h)) as Hback.
  { induction cds as [|cd cds IH]; intros h; cbn [read_back];
      repeat first [ apply IH | apply growth_on_backend_pure; intros; apply read_pure | apply growth_bump
                   | progress unfold raise | frame_step ]. }
  repeat first
    [ by apply growth_slice | apply frames_in_store | apply Hback | apply growth_fresh
    | (intros s; by apply growth_same) | frame_step ].
Qed.
Lemma publish_growth descriptor data s res s' : authorized descriptor s p →
  chunk_stream data (opt_chunk_size (s_options s)) = Ok slices →
  publish descriptor data s = (Ok res, s') → growth s s'.
Proof.
  intros Ha Hcs [(e' & ? & ?)|(p' & slices' & Hauth & Hcs' & Hrest)]%publish_cases; [done|].
  assert (slices' = slices) as -> by congruence.
  assert (p' = p) as -> by (destruct Ha as (_&_&_&_&_&?), Hauth as (_&_&_&_&_&?); congruence).
  revert Hrest. unfold try_publish. pose proof (growth_body descriptor data (mkId (im_next_id_counter (s_impl s))) (after_fresh s, default_PublishLocals)) as G.
  destruct (publish_body _ _ _ _ _ _) as [[res'|e'] [s5 l]]; [|by destruct (rollback p l s5)]. intros [= <- <-].
  unfold Publish.on_store in G. cbn [fst snd] in G. etrans; [|exact G]. by apply growth_same.
Qed.
End growth.

(** ** What the bytes of a checkpoint hang on *)
Section carrying.
Context `{IterOrder} {B : Type} `{HB : IBackend B} {HL : BackendLaws B}.
Implicit Types s : CheckpointStore B.

Definition chunk_core (cd : ChunkDescriptor) := (cd_id cd, cd_digest cd, cd_placements cd).
Definition record_core (rec : CheckpointRecord) :=
  (m_chunks (rec_manifest rec), m_checkpoint_digest (rec_manifest rec), chunk_core <$> rec_chunks rec,
   swept_state (rec_lifecycle rec)).

(** Every entry of the manifest leads to an object, and the objects are [data]. *)
Definition kept_bytes s (rec : CheckpointRecord) (data : list byte) : Prop :=
  ∃ rbs, Forall2 (λ e rb, ∃ p, stored s p rec e rb) (m_chunks (rec_manifest rec)) rbs ∧
    concat rbs = data ∧ sha256 data = m_checkpoint_digest (rec_manifest rec).

(** A step keeps what leads to the objects with a digest in [P], and them. *)
Definition carries (P : Sha256Digest → Prop) s s' : Prop :=
  im_placements (s_impl s) ⊆ im_placements (s_impl s') ∧
  (∀ rid rd, im_replicas (s_impl s) !! rid = Some rd →
     ∃ rd', im_replicas (s_impl s') !! rid = Some rd' ∧ rp_backend_id rd' = rp_backend_id rd) ∧
  im_backends (s_impl s) ⊆ im_backends (s_impl s') ∧
  ∀ q d rb, P d → (read (blob_key d) (s_heap s q)).1 = Ok rb → sha256 rb = d →
    (read (blob_key d) (s_heap s' q)).1 = Ok rb.

Lemma find_chunk_core id cds cds' n cd : chunk_core <$> cds' = chunk_core <$> cds →
  find_chunk id cds = Some (n, cd) →
  ∃ cd', find_chunk id cds' = Some (n, cd') ∧ chunk_core cd' = chunk_core cd.
Proof.
  unfold find_chunk. revert cds' n. induction cds as [|c cds IH]; intros [|c' cds'] n; csimpl; try done.
  intros [= E1 E2 E3 E]. rewrite E1. case_decide as Ed.
  - intros [= <- <-]. exists c'. split; [done|]. unfold chunk_core. by rewrite E1, E2, E3.
  - destruct (list_find _ cds) as [[m c'']|]; [|done]. cbn. intros [= <- <-].
    destruct (IH cds' m E eq_refl) as (cd' & -> & Hc). by exists cd'.
Qed.
Lemma stored_carried P s s' p rec rec' e rb : carries P s s' →
  (∀ cd, cd ∈ rec_chunks rec → P (cd_digest cd)) → chunk_core <$> rec_chunks rec' = chunk_core <$> rec_chunks rec →
  stored s p rec e rb → stored s' p rec' e rb.
Proof.
  intros (Hpl & Hrp & Hbk & Hrd) HP Hc (n & cd & rid & rd & H1 & (pid & pd & P1 & P2 & P3) & H3 & H4 & H5 & H6).
  assert (P (cd_digest cd)) as Hcd.
  { apply HP. apply list_find_Some in H1 as (? & _). by eapply list_elem_of_lookup_2. }
  destruct (find_chunk_core _ _ _ _ _ Hc H1) as (cd' & F & [= _ Ed Ep]).
  destruct (Hrp _ _ H3) as (rd' & R1 & R2). exists n, cd', rid, rd'. rewrite Ed, R2. split; [done|].
  split; [exists pid, pd; rewrite Ep; split_and!; [done|by eapply lookup_weaken|done]|].
  split; [done|]. split; [by eapply lookup_weaken|]. split; [by apply Hrd|done].
Qed.

(** What the catalogue says of an id, true of the store. *)
Definition entry_ok s (id : CheckpointId) (od : option (list byte)) : Prop :=
  match od with
  | Some data => ∃ rec, im_checkpoints (s_impl s) !! id = Some rec ∧
      swept_state (rec_lifecycle rec) = false ∧ kept_bytes s rec data
  | None => ∀ rec, im_checkpoints (s_impl s) !! id = Some rec → swept_state (rec_lifecycle rec) = true
  end.
Definition represents (A : Catalogue) s : Prop :=
  used A = dom (im_checkpoints (s_impl s)) ∧ ∀ id, entry_ok s id (live A !! id).

Lemma entry_carried P s s' id od : carries P s s' →
  record_core <$> (im_checkpoints (s_impl s') !! id) = record_core <$> (im_checkpoints (s_impl s) !! id) →
  (∀ rec cd, im_checkpoints (s_impl s) !! id = Some rec → swept_state (rec_lifecycle rec) = false →
     cd ∈ rec_chunks rec → P (cd_digest cd)) →
  entry_ok s id od → entry_ok s' id od.
Proof.
  intros Hc Hrec HP. destruct od as [data|].
  - intros (rec & E & Hl & rbs & Hf & Hcat & Hd). rewrite E in Hrec.
    destruct (im_checkpoints (s_impl s') !! id) as [rec'|] eqn:E'; [|done]. injection Hrec as Hm Hdg Hch Hsw.
    exists rec'. split; [done|]. split; [congruence|]. exists rbs. rewrite Hm, Hdg. split; [|done].
    eapply Forall2_impl; [exact Hf|]. intros e rb [p Hs]. exists p. eapply stored_carried; [done| |done|done]. eauto.
  - intros He rec' E'. rewrite E' in Hrec.
    destruct (im_checkpoints (s_impl s) !! id) as [rec|] eqn:E; [|done]. injection Hrec as _ _ _ ->. by apply He.
Qed.

(** ** Operations that leave all of this alone *)
Definition steady s s' : Prop :=
  let i := s_impl s in let i' := s_impl s' in
  record_core <$> im_checkpoints i' = record_core <$> im_checkpoints i ∧
  (im_placements i', im_backends i', im_next_id_counter i') = (im_placements i, im_backends i, im_next_id_counter i) ∧
  rp_backend_id <$> im_replicas i' = rp_backend_id <$> im_replicas i ∧
  ∀ q, s_heap s' q = s_heap s q.
#[local] Instance steady_preorder : PreOrder steady.
Proof.
  split; [done|]. unfold steady. intros s1 s2 s3 (H1&H2&H3&H4) (H1'&H2'&H3'&H4').
  split_and!; [congruence..|]. intros q. by rewrite H4', H4.
Qed.
Lemma steady_carries s s' : steady s s' → carries (λ _, True) s s'.
Proof.
  intros (_ & [= Hp Hb _] & Hr & Hh). unfold carries. rewrite Hp, Hb. split; [done|]. split; [|split; [done|]].
  - intros rid rd E. apply (f_equal (lookup rid)) in Hr. rewrite !lookup_fmap, E in Hr.
    destruct (im_replicas (s_impl s') !! rid) as [rd'|]; [|done]. injection Hr as Hr. by exists rd'.
  - intros q d rb _. by rewrite Hh.
Qed.
Lemma steady_same s s' : im_checkpoints (s_impl s') = im_checkpoints (s_impl s) →
  (im_placements (s_impl s'), im_backends (s_impl s'), im_next_id_counter (s_impl s'), im_replicas (s_impl s'))
   = (im_placements (s_impl s), im_backends (s_impl s), im_next_id_counter (s_impl s), im_replicas (s_impl s)) →
  s_heap s' = s_heap s → steady s s'.
Proof. intros E [= E1 E2 E3 E4] Hh. unfold steady. rewrite E, E1, E2, E3, E4, Hh. done. Qed.

Lemma steady_on_backend_pure {A} p (m : ST B CheckpointStoreError A) :
  (∀ b, (m b).2 = b) → frames steady (on_backend p m).
Proof.
  intros Hm s. destruct (on_backend_pure p m s (Hm _)) as (s' & -> & Hi & Hh). cbn [snd].
  unfold steady. by rewrite Hi.
Qed.
Lemma steady_modify_record id f : (∀ rec, record_core (f rec) = record_core rec) →
  frames steady (modify_record (B:=B) id f).
Proof. intros Hf s. split; [|done]. by apply fmap_alter_id. Qed.
Lemma steady_bump f : frames steady (bump_counter (B:=B) f).
Proof. by intros s. Qed.
Lemma steady_quarantine id rid : frames steady (quarantine_source (B:=B) id rid).
Proof.
  unfold quarantine_source, get_impl, gets. intros s. unfold mbind at 1, ST_bind at 1. simpl.
  destruct (im_replicas (s_impl s) !! rid) as [rd|] eqn:E; [|done].
  case_bool_decide; [|done]. unfold steady. simpl. split; [by apply fmap_alter_id|]. split; [done|]. split; [|done].
  rewrite fmap_insert. apply insert_id. by rewrite lookup_fmap, E.
Qed.
Ltac steady_frames :=
  repeat first
    [ apply find_checkpoint_frames; apply _
    | apply steady_on_backend_pure; intros;
      first [apply read_pure|apply health_pure|apply verify_pure|apply exists_pure]
    | apply steady_bump | apply steady_quarantine | apply steady_modify_record; by intros
    | progress unfold raise_if, raise, fail_verification, count_integrity_failure, record_integrity
    | progress cbn beta iota zeta | frame_step | by intros s ].
Lemma restore_chunk_steady id cd cand l : frames steady (restore_chunk id cd cand l).
Proof. revert l. induction cand as [|rid cand IH]; intros l; cbn [restore_chunk]; repeat first [apply IH|progress steady_frames]. Qed.
Lemma restore_entries_steady id rec entries l : frames steady (restore_entries id rec entries l).
Proof.
  revert l. induction entries as [|e entries IH]; intros l; cbn [restore_entries];
    repeat first [apply IH|apply restore_chunk_steady|progress steady_frames].
Qed.
Lemma restore_steady elapsed rid id priority : frames steady (restore elapsed rid id priority).
Proof. unfold restore. repeat first [apply restore_entries_steady|progress steady_frames]. Qed.
Lemma verify_chunks_steady id p cds h : frames steady (verify_chunks id p cds h).
Proof. revert h. induction cds as [|cd cds IH]; intros h; cbn [verify_chunks]; repeat first [apply IH|progress steady_frames]. Qed.
Lemma verify_checkpoint_steady id : frames steady (verify_checkpoint (B:=B) id).
Proof. unfold verify_checkpoint. repeat first [apply verify_chunks_steady|progress steady_frames]. Qed.
Lemma verify_chunk_steady id chunk : frames steady (verify_chunk (B:=B) id chunk).
Proof.
  unfold verify_chunk. steady_frames. apply steady_modify_record. intros rec. unfold record_core. cbn. f_equal. f_equal.
  apply list_eq. intros i. rewrite !list_lookup_fmap.
  match goal with |- context [alter _ ?n _] => destruct (decide (n = i)) as [->|Hne] end;
    [rewrite list_lookup_alter_eq|by rewrite list_lookup_alter_ne]. by destruct (rec_chunks rec !! i).
Qed.
Lemma create_family_steady owner prov : frames steady (create_family (B:=B) owner prov).
Proof. unfold create_family, get_impl. repeat first [(intros s; by apply steady_same)|frame_step]. Qed.
Lemma reset_authority_steady : frames steady (reset_authority (B:=B)).
Proof.
  intros s. rewrite reset_authority_run. split; [|done]. cbn. rewrite <- map_fmap_compose.
  apply map_fmap_ext. by intros k [? ? ? ? [] ? ?] _.
Qed.
Lemma retire_steady clock id : frames steady (retire (B:=B) clock id).
Proof.
  intros s. unfold retire, find_checkpoint, get_impl, raise_if, throw_if, raise, throw, mbind, ST_bind, gets.
  destruct (im_checkpoints (s_impl s) !! id) as [rec|] eqn:E; [|done]. cbn [mret ST_ret].
  case_bool_decide as El; [done|]. split; [|done]. cbn. apply map_eq. intros k.
  rewrite !lookup_fmap. destruct (decide (id = k)) as [<-|Hne]; [|by rewrite lookup_alter_ne].
  rewrite lookup_alter_eq, E. cbn. unfold record_core. cbn.
  destruct (decide (rec_lifecycle rec = CheckpointLifecycle.kCommitted)) as [El'|]; [by rewrite El'|by destruct El].
Qed.
#[local] Existing Instance keeps_preorder.
Lemma plan_restore_keeps id priority : frames keeps (plan_restore (B:=B) id priority).
Proof.
  unfold plan_restore, fresh_id, get_impl.
  repeat first [apply find_checkpoint_frames; apply _|(intros s; by apply keeps_same)|by apply keeps_same|progress cbn beta iota zeta|frame_step].
Qed.
Lemma guards_steady descriptor : frames steady (publish_guards (B:=B) descriptor).
Proof.
  intros s. unfold publish_guards, raise_if, raise, throw_if, throw, get, mbind, ST_bind, mret, ST_ret, bump_counter, modify_impl, modify.
  repeat (case_match; simplify_eq/=; try done).
Qed.
Lemma guards_keeps descriptor : frames keeps (publish_guards (B:=B) descriptor).
Proof.
  intros s. unfold publish_guards, raise_if, raise, throw_if, throw, get, mbind, ST_bind, mret, ST_ret, bump_counter, modify_impl, modify.
  repeat (case_match; simplify_eq/=; try by apply keeps_same).
Qed.
End carrying.

(** ** The operations of a store and what they mean *)
Section refinement.
Context `{IterOrder} {B : Type} `{HB : IBackend B} {HL : BackendLaws B} {HR : ReliableBackend B}.
Implicit Types s : CheckpointStore B.

(** A step of a store, and the event it is.  Publications: those that succeed,
    under what [publish_restore_round_trip] and [publish_succeeds] ask for and
    with objects written only for new digests ([stored_anew]), and those the
    guards refuse.  The world around the store may do anything to the
    objects that keeps those that have their digest, and a restarted process may
    find its backends in any such state. *)
Inductive operation : Event → CheckpointStore B → CheckpointStore B → Prop :=
  | op_world s heap : (∀ q, reliable (heap q)) → objects_kept s (s <| s_heap := heap |>) →
      operation Quiet s (s <| s_heap := heap |>)
  | op_register_backend id q s : im_backends (s_impl s) !! id = None →
      operation Quiet s (register_backend id (Some q) s).2
  | op_create_family owner prov s : operation Quiet s (create_family owner prov s).2
  | op_make_descriptor now family owner size durability s : im_next_id_counter (s_impl s) + 1 < 2 ^ 64 →
      operation Quiet s (make_full_descriptor now family owner size durability s).2
  | op_publish descriptor data s res s' p slices : is_u64 (zlen data) →
      im_next_id_counter (s_impl s) + zlen data + 2 < 2 ^ 64 →
      im_backends (s_impl s) !! im_primary_backend_id (s_impl s) = Some p →
      chunk_stream data (opt_chunk_size (s_options s)) = Ok slices →
      pieces_distinct slices → no_collision slices (s_heap s p) →
      publish descriptor data s = (Ok res, s') → stored_anew s res s' →
      operation (Published (d_id descriptor) data) s s'
  | op_publish_refused descriptor data s e : (publish_guards descriptor s).1 = Throw e →
      operation Quiet s (publish descriptor data s).2
  | op_verify id s : operation Quiet s (verify_checkpoint id s).2
  | op_verify_chunk id chunk s : operation Quiet s (verify_chunk id chunk s).2
  | op_plan_restore id priority s : im_next_id_counter (s_impl s) + 2 < 2 ^ 64 →
      operation Quiet s (plan_restore id priority s).2
  | op_restore elapsed rid id priority s : operation Quiet s (restore elapsed rid id priority s).2
  | op_policy policy s : operation Quiet s (set_retention_policy policy s).2
  | op_retire clock id s : operation Quiet s (retire clock id s).2
  | op_gc_plan clock s : im_next_id_counter (s_impl s) + 1 < 2 ^ 64 → operation Quiet s (gc_plan clock s).2
  | op_gc_run clock1 clock2 s :
      operation (Collected (gc_eligible_unlocked clock1 (s_impl s))) s (gc_run clock1 clock2 s).2
  | op_reset s : operation Quiet s (reset_authority s).2
  | op_boot boot s : operation Quiet s (set_authority_boot boot s).2
  | op_epoch epoch s : operation Quiet s (set_coordinator_epoch epoch s).2
  | op_restart s t fs r t' fs' : persistable s → s_dedup t = ∅ →
      file_at (fs_disk fs) (state_path t) = Some (state_frame (save_body s)) →
      (∀ q, reliable (s_heap t q)) → objects_kept s t →
      im_backends (s_impl s) ⊆ im_backends (s_impl t) →
      load_state (t, fs) = (r, (t', fs')) → operation Quiet s t'.

(** The invariant of the refinement. *)
Definition sound s : Prop :=
  balanced s ∧ ids_below s ∧ 0 ≤ im_next_id_counter (s_impl s) ∧ ∀ q, reliable (s_heap s q).

Lemma steady_sound s s' : steady s s' → balanced s' → sound s → sound s'.
Proof.
  intros (_ & [= Hp _ Hc] & Hr & Hh) Hb (_ & [Hpl Hrp] & Hz & Hrel). unfold sound, ids_below. rewrite Hp, Hc.
  split; [done|]. split; [split; [done|]|]; [|split; [done|]; intros q; by rewrite Hh].
  intros rid [rd E]. apply Hrp. apply (f_equal (lookup rid)) in Hr. rewrite !lookup_fmap, E in Hr.
  destruct (im_replicas (s_impl s) !! rid); [by eexists|done].
Qed.
Lemma steady_represents A s s' : steady s s' → represents A s → represents A s'.
Proof.
  intros Hst [Hu He]. pose proof Hst as (Hrec & _). split.
  - rewrite Hu, <- (dom_fmap_L record_core (im_checkpoints (s_impl s'))), Hrec. by rewrite dom_fmap_L.
  - intros id. eapply (entry_carried (λ _, True)); [by apply steady_carries| |done|done].
    by rewrite <- !lookup_fmap, Hrec.
Qed.
(** A quiet step, perhaps after drawing [n] ids. *)
Definition drawn (n : nat) s : CheckpointStore B := Nat.iter n after_fresh s.
Lemma drawn_sound A n s : im_next_id_counter (s_impl s) + Z.of_nat n < 2 ^ 64 → sound s → represents A s →
  sound (drawn n s) ∧ represents A (drawn n s) ∧
  im_next_id_counter (s_impl (drawn n s)) = im_next_id_counter (s_impl s) + Z.of_nat n.
Proof.
  induction n as [|n IH]; intros Hroom Hs HA; [by rewrite Z.add_0_r|].
  destruct IH as ((Hb & [Hpl Hrp] & Hz & Hrel) & HA' & Ec); [lia|done..|]. change (drawn (S n) s) with (after_fresh (drawn n s)).
  assert (im_next_id_counter (s_impl (after_fresh (drawn n s))) = im_next_id_counter (s_impl (drawn n s)) + 1) as Ef.
  { cbn. unfold incr64. apply u64_id. unfold is_u64. lia. }
  split; [|split; [done|rewrite Ef, Ec; lia]]. split; [done|]. unfold ids_below. rewrite Ef. split; [|split; [lia|done]].
  split; intros x Hx; [apply Hpl in Hx|apply Hrp in Hx]; lia.
Qed.
Lemma quiet_step A n s s' : im_next_id_counter (s_impl s) + Z.of_nat n < 2 ^ 64 →
  steady (drawn n s) s' → keeps s s' → sound s → represents A s → sound s' ∧ represents A s'.
Proof.
  intros Hroom Hst Hk Hs HA. assert (balanced s') as Hb by (eapply keeps_balanced; [done|apply Hs]).
  destruct (drawn_sound A n s Hroom Hs HA) as (Hs0 & HA0 & _).
  split; [by eapply steady_sound|by eapply steady_represents].
Qed.

(** ** A publication adds the bytes *)
Lemma publish_sim A descriptor data s res s' p slices : is_u64 (zlen data) →
  im_next_id_counter (s_impl s) + zlen data + 2 < 2 ^ 64 →
  im_backends (s_impl s) !! im_primary_backend_id (s_impl s) = Some p →
  chunk_stream data (opt_chunk_size (s_options s)) = Ok slices →
  pieces_distinct slices → no_collision slices (s_heap s p) →
  publish descriptor data s = (Ok res, s') → stored_anew s res s' → sound s → represents A s →
  sound s' ∧ ∃ A', apply_event A (Published (d_id descriptor) data) = Some A' ∧ represents A' s'.
Proof.
  intros Hd Hroom Hp Hcs Hdist Hnc Hpub Hnew (Hb & Hids & Hc0 & Hrel) [Hu He].
  pose proof (publish_balanced _ _ _ _ _ Hd Hb Hpub Hnew) as Hb'.
  destruct (publish_sources descriptor data s res s') as (rid & rd & k & _ & Hrep & Hfresh & _ & Hk & Hrid & Hctr & Hplb);
    [done|done|done|lia|done|].
  pose proof Hpub as (p0 & sl0 & Hauth & Hcs0 & _ & Hpo)%publish_ok; [|done].
  assert (sl0 = slices) as -> by congruence. assert (p0 = p) as -> by (destruct Hauth as (_&_&_&_&_&?); congruence).
  pose proof Hauth as (_ & Hn & _ & Hv & _).
  destruct (slice_loop_spec data _ Hv Hd) as (Hcat & Hdig & _).
  assert (slice_loop (length data) data 0 (opt_chunk_size (s_options s)) = slices) as Hsl
    by (pose proof (chunk_stream_ok data _ Hv); congruence). rewrite Hsl in Hcat, Hdig. 
  pose proof (publish_growth p slices Hdig Hdist descriptor data s res s' Hauth Hcs Hpub) as (Gp & Gh & Gs).
  destruct (Gs (conj (Hrel p) Hnc)) as [[Hrel' Hnc'] Hkept].
  assert (ids_distinct slices) as Hidd.
  { intros sl1 sl2 H1 H2 E. rewrite Forall_forall in Hdig. rewrite (Hdig _ H1), (Hdig _ H2). f_equal. by apply Hdist. }
  destruct Hpo as (p1 & cds & rbs0 & mid & rid' & w & _ & _ & _ & _ & _ & _ & _ & (Hck & _ & _ & _ & _ & _ & Hbks & _)).
  set (rec := record_for _ _ _ _ _ _) in Hck.
  assert (im_checkpoints (s_impl s') !! d_id descriptor = Some rec) as Hrec by (by rewrite Hck, lookup_insert_eq).
  destruct (published_stored descriptor data s res s' p slices rec) as (_ & rbs & Hst & Hm & Hdg1 & Hdg2); try done; [lia|].
  assert (rbs = sl_bytes <$> slices) as ->.
  { clear -Hst Hnc'. assert (∀ sl, sl ∈ slices → sl ∈ slices) as Hin by done. revert Hin Hst.
    generalize slices at 1 3 4. intros todo Hin Hf. induction Hf as [|sl rb todo rbs (_ & Hr & Hsha) Hf IH]; [done|].
    csimpl. f_equal; [apply (Hnc' sl rb); [apply Hin; left|done..]|]. apply IH. intros sl' ?. apply Hin. by right. }
  rewrite Hcat in Hdg1. split.
  - assert (im_next_id_counter (s_impl s') = im_next_id_counter (s_impl s) + 2 + k) as Ectr.
    { rewrite Hctr. unfold incr64. rewrite u64_id by (unfold is_u64; lia). lia. }
    split; [done|]. split; [|split; [lia|]].
    + unfold ids_below. rewrite Ectr, Hrep. split; [intros pid Hpid%Hplb; lia|].
      intros rid0. rewrite lookup_insert_is_Some. intros [<-|[_ Hs%Hids]]; lia.
    + intros q. destruct (decide (q = p)) as [->|Hne]; [done|by rewrite Gh].
  - cbn. rewrite bool_decide_eq_false_2 by (rewrite Hu; by apply not_elem_of_dom). eexists. split; [done|].
    split; [cbn; by rewrite Hck, dom_insert_L, Hu|]. intros id. cbn. destruct (decide (d_id descriptor = id)) as [<-|Hne].
    + rewrite lookup_insert_eq. exists rec. split; [done|]. split; [done|]. exists (sl_bytes <$> slices).
      split; [|done]. rewrite Hm. apply Forall2_fmap_l. eapply Forall2_impl; [exact Hst|]. intros sl rb (? & _). by exists p.
    + rewrite lookup_insert_ne by done. eapply (entry_carried (λ _, True)); [| |done|apply He].
      * split; [done|]. rewrite Hbks, Hrep. split; [|split; [done|]].
        { intros rid0 rd0 E. exists rd0. rewrite lookup_insert_ne; [done|]. congruence. }
        intros q d rb _. apply Hkept.
      * by rewrite Hck, lookup_insert_ne.
Qed.

(** ** A collection takes the eligible checkpoints out *)
Definition sources s := (im_placements (s_impl s), im_replicas (s_impl s), im_backends (s_impl s), im_next_id_counter (s_impl s)).
(** Steps that leave the records alone, and the ways to the objects. *)
Definition same_index s s' : Prop := im_checkpoints (s_impl s') = im_checkpoints (s_impl s).
Definition same_sources s s' : Prop :=
  sources s' = sources s ∧ ((∀ q, reliable (s_heap s q)) → ∀ q, reliable (s_heap s' q)).
#[local] Instance same_index_preorder : PreOrder same_index.
Proof. split; [done|]. unfold same_index. intros ???. congruence. Qed.
#[local] Instance same_sources_preorder : PreOrder same_sources.
Proof. split; [done|]. unfold same_sources. intros s1 s2 s3 [? ?] [? ?]. split; [congruence|auto]. Qed.

Lemma index_on_dedup {A} (m : ST DedupTable CheckpointStoreError A) : frames same_index (on_dedup (B:=B) m).
Proof. intros s. unfold on_dedup, zoom. by destruct (m _). Qed.
Lemma index_on_backend {A} q (m : ST B CheckpointStoreError A) : frames same_index (on_backend q m).
Proof. intros s. unfold on_backend, zoom. by destruct (m _). Qed.
Lemma sources_on_dedup {A} (m : ST DedupTable CheckpointStoreError A) : frames same_sources (on_dedup (B:=B) m).
Proof. intros s. unfold on_dedup, zoom. by destruct (m _). Qed.
Lemma sources_remove d q : frames same_sources (on_backend q (remove (blob_key_for d))).
Proof.
  intros s. unfold on_backend, zoom. pose proof (reliable_remove d (s_heap s q)) as Hr. rewrite blob_key_for_eq.
  destruct (remove _ _) as [r b]. split; [done|]. intros Hrel q'. cbn in *.
  destruct (decide (q' = q)) as [->|Hne]; [rewrite fn_lookup_insert; auto|by rewrite fn_lookup_insert_ne].
Qed.
Ltac gc_frames :=
  repeat first [ apply index_on_dedup | apply index_on_backend | apply sources_on_dedup | apply sources_remove
               | by intros s | progress cbn beta iota zeta | frame_step ].
Lemma remove_index d rids a b : frames same_index (remove_replicas (B:=B) d rids a b).
Proof. revert a b. induction rids as [|rid rids IH]; intros a b; cbn [remove_replicas]; repeat first [apply IH|progress gc_frames]. Qed.
Lemma remove_sources d rids a b : frames same_sources (remove_replicas (B:=B) d rids a b).
Proof. revert a b. induction rids as [|rid rids IH]; intros a b; cbn [remove_replicas]; repeat first [apply IH|progress gc_frames]. Qed.
Lemma reclaim_index reachable bids result : frames same_index (reclaim_blobs (B:=B) reachable bids result).
Proof.
  revert result. induction bids as [|bid bids IH]; intros result; cbn [reclaim_blobs]; unfold reclaim_blob, get_impl;
    repeat first [apply IH|apply remove_index|progress gc_frames].
Qed.
Lemma reclaim_sources reachable bids result : frames same_sources (reclaim_blobs (B:=B) reachable bids result).
Proof.
  revert result. induction bids as [|bid bids IH]; intros result; cbn [reclaim_blobs]; unfold reclaim_blob, get_impl;
    repeat first [apply IH|apply remove_sources|progress gc_frames].
Qed.
Lemma release_index cds result : frames same_index (release_chunks (B:=B) cds result).
Proof. revert result. induction cds as [|cd cds IH]; intros result; cbn [release_chunks]; repeat first [apply IH|progress gc_frames]. Qed.
Lemma release_sources cds result : frames same_sources (release_chunks (B:=B) cds result).
Proof. revert result. induction cds as [|cd cds IH]; intros result; cbn [release_chunks]; repeat first [apply IH|progress gc_frames]. Qed.
Lemma sweep_sources eligible result : frames same_sources (sweep_checkpoints (B:=B) eligible result).
Proof.
  revert result. induction eligible as [|cid eligible IH]; intros result; cbn [sweep_checkpoints]; unfold get_impl;
    repeat first [apply IH|apply release_sources|progress gc_frames].
Qed.

(** Sweeping a checkpoint marks its record; a second time changes nothing. *)
Definition mark_deleted (rec : CheckpointRecord) : CheckpointRecord :=
  if swept_state (rec_lifecycle rec) then rec else rec <| rec_lifecycle := CheckpointLifecycle.kDeleted |>.
Lemma mark_deleted_swept rec : swept_state (rec_lifecycle (mark_deleted rec)) = true.
Proof. unfold mark_deleted. by destruct (swept_state (rec_lifecycle rec)) eqn:E. Qed.
Lemma mark_deleted_twice rec : mark_deleted (mark_deleted rec) = mark_deleted rec.
Proof. unfold mark_deleted at 1. by rewrite mark_deleted_swept. Qed.
Definition marked (ids : list CheckpointId) s s' : Prop := ∀ id,
  im_checkpoints (s_impl s') !! id =
    (if decide (id ∈ ids) then mark_deleted <$> im_checkpoints (s_impl s) !! id else im_checkpoints (s_impl s) !! id).
Lemma marked_cons cid ids s s1 s' : marked [cid] s s1 → marked ids s1 s' → marked (cid :: ids) s s'.
Proof.
  intros M1 M2 id. rewrite M2, M1. destruct (decide (id ∈ ids)) as [Hi|Hi], (decide (id = cid)) as [->|Hne];
    repeat first [rewrite decide_True by set_solver | rewrite decide_False by set_solver]; try done.
  destruct (im_checkpoints (s_impl s) !! cid); [|done]. cbn. by rewrite mark_deleted_twice.
Qed.
Lemma sweep_one cid result s : balanced s →
  ∃ r s1, (∀ ids, sweep_checkpoints (cid :: ids) result s = sweep_checkpoints ids r s1) ∧ marked [cid] s s1.
Proof.
  intros [Hok Hb]. assert (∀ f : option CheckpointRecord, im_checkpoints (s_impl s) !! cid = f → mark_deleted <$> f = f → marked [cid] s s) as Hskip.
  { intros f Hf Hm id. destruct (decide (id ∈ [cid])) as [->%list_elem_of_singleton|]; [by rewrite Hf|done]. }
  cbn [sweep_checkpoints]. unfold get_impl. destruct (im_checkpoints (s_impl s) !! cid) as [rec|] eqn:E.
  2: { exists result, s. split; [|by apply (Hskip None)]. intros ids.
       rewrite (st_bind_run _ _ _ (im_checkpoints (s_impl s)) s) by done. by rewrite E. }
  destruct (swept_state (rec_lifecycle rec)) eqn:El.
  { exists result, s. split.
    - intros ids. rewrite (st_bind_run _ _ _ (im_checkpoints (s_impl s)) s) by done. rewrite E.
      fold (swept_state (rec_lifecycle rec)). by rewrite El.
    - apply (Hskip (Some rec)); [done|]. cbn. unfold mark_deleted. by rewrite El. }
  destruct (release_chunks_run (rec_chunks rec) result s Hok) as (r & s1 & E1 & I1 & _).
  { intros d. rewrite Hb. eapply (total_ge d (held s) cid). unfold held. rewrite lookup_fmap, E. cbn. unfold references. by rewrite El. }
  eexists _, _. split.
  - intros ids. rewrite (st_bind_run _ _ _ (im_checkpoints (s_impl s)) s) by done. rewrite E.
    fold (swept_state (rec_lifecycle rec)). rewrite El. rewrite (st_bind_run _ _ _ _ _ E1).
    erewrite st_bind_run by reflexivity. erewrite st_bind_run by reflexivity. reflexivity.
  - intros id. cbn. rewrite I1. destruct (decide (id ∈ [cid])) as [->%list_elem_of_singleton|Hne].
    + rewrite lookup_alter_eq, E. cbn. unfold mark_deleted. by rewrite El.
    + apply lookup_alter_ne. intros ->. by apply Hne, list_elem_of_singleton.
Qed.
Lemma sweep_marks eligible result s : balanced s →
  ∃ r s', sweep_checkpoints eligible result s = (Ok r, s') ∧ marked eligible s s'.
Proof.
  revert result s. induction eligible as [|cid eligible IH]; intros result s Hb.
  { exists result, s. split; [done|]. intros id. by rewrite decide_False by apply not_elem_of_nil. }
  destruct (sweep_one cid result s Hb) as (r1 & s1 & E1 & M1).
  destruct (sweep_balanced [cid] result s Hb) as (r' & s1' & E1' & Hb1). rewrite E1 in E1'. injection E1' as _ <-.
  destruct (IH r1 s1 Hb1) as (r & s' & E2 & M2). exists r, s'. split; [by rewrite E1|by eapply marked_cons].
Qed.

(** The digests of a checkpoint that is not swept have references. *)
Lemma live_counted s id rec cd : balanced s → im_checkpoints (s_impl s) !! id = Some rec →
  swept_state (rec_lifecycle rec) = false → cd ∈ rec_chunks rec → dedup_refcount (s_dedup s) (cd_digest cd) ≠ 0.
Proof.
  intros [_ Hb] E El Hcd. rewrite Hb. unfold live_references. intros Hz.
  apply (proj1 (total_zero _ _) Hz id (references rec)).
  - unfold held. by rewrite lookup_fmap, E.
  - unfold references. rewrite El. by apply list_elem_of_fmap_2.
Qed.
Lemma gc_sim A clock1 clock2 s : sound s → represents A s →
  let s' := (gc_run clock1 clock2 s).2 in
  sound s' ∧ ∃ A', apply_event A (Collected (gc_eligible_unlocked clock1 (s_impl s))) = Some A' ∧ represents A' s'.
Proof.
  intros (Hb & Hids & Hz & Hrel) [Hu He]. cbv zeta. set (X := gc_eligible_unlocked clock1 (s_impl s)).
  pose proof (gc_run_balanced clock1 clock2 s Hb) as Hb'.
  pose proof (λ d, gc_run_guarded clock1 clock2 s d (proj1 Hb)) as Hreads.
  assert (marked X s (gc_run clock1 clock2 s).2 ∧ same_sources s (gc_run clock1 clock2 s).2) as [Hm [Hsrc Hrel']].
  { assert (∃ r rest, gc_run clock1 clock2 s = (sweep_checkpoints X r ≫= rest) s ∧
      (∀ res, frames same_index (rest res)) ∧ ∀ res, frames same_sources (rest res)) as (r & rest & -> & Hi & Hso).
    { eexists _, _. split; [reflexivity|]. split; intros res; unfold get_impl;
        repeat first [apply reclaim_index|apply reclaim_sources|done|progress gc_frames]. }
    destruct (sweep_marks X r s Hb) as (res & s1 & E1 & M1). rewrite (st_bind_run _ _ _ _ _ E1). split.
    - intros id. rewrite (Hi res s1). apply M1.
    - etrans; [|apply Hso]. pose proof (sweep_sources X r s) as Hs. by rewrite E1 in Hs. }
  set (s' := (gc_run clock1 clock2 s).2) in *. injection Hsrc as Hp Hr Hbk Hc. split.
  - split; [done|]. unfold ids_below. rewrite Hp, Hr, Hc. split; [done|]. split; [done|]. by apply Hrel'.
  - eexists. split; [done|]. split.
    + cbn. rewrite Hu. apply set_eq. intros id. rewrite !elem_of_dom, Hm. case_decide; [by rewrite fmap_is_Some|done].
    + intros id. cbn. specialize (He id). destruct (decide (id ∈ X)) as [HX|HX].
      * rewrite map_lookup_filter_None_2 by (right; intros ? _ Hn; by apply Hn). intros rec'. rewrite Hm, decide_True by done.
        intros (rec & _ & ->)%fmap_Some. apply mark_deleted_swept.
      * assert (filter (λ kv : CheckpointId * list byte, kv.1 ∉ X) (live A) !! id = live A !! id) as ->.
        { destruct (live A !! id) as [data|] eqn:E.
          - by apply map_lookup_filter_Some.
          - apply map_lookup_filter_None. by left. }
        assert (im_checkpoints (s_impl s') !! id = im_checkpoints (s_impl s) !! id) as Eid by (by rewrite Hm, decide_False).
        eapply (entry_carried (λ d, dedup_refcount (s_dedup s') d ≠ 0)); [|by rewrite Eid| |done].
        -- unfold carries. rewrite Hp, Hr, Hbk. split; [done|]. split; [intros rid rd ->; by exists rd|]. split; [done|].
           intros q d rb Hne Hrd _. by rewrite (Hreads d Hne).
        -- intros rec cd E El Hcd. eapply live_counted; [done|by rewrite Eid|done|done].
Qed.

(** ** The simulation *)
Definition simulated (ev : Event) (A : Catalogue) s' : Prop :=
  sound s' ∧ ∃ A', apply_event A ev = Some A' ∧ represents A' s'.
Lemma drawn_simulated A n s s' : im_next_id_counter (s_impl s) + Z.of_nat n < 2 ^ 64 →
  steady (drawn n s) s' → keeps s s' → sound s → represents A s → simulated Quiet A s'.
Proof. intros Hr Hst Hk Hs HA. destruct (quiet_step A n s s' Hr Hst Hk Hs HA). split; [done|]. by exists A. Qed.
Lemma quiet_simulated A s s' : steady s s' → keeps s s' → sound s → represents A s → simulated Quiet A s'.
Proof.
  intros Hst Hk Hs HA. assert (balanced s') as Hb by (eapply keeps_balanced; [done|apply Hs]).
  split; [by eapply steady_sound|]. exists A. split; [done|]. by eapply steady_represents.
Qed.
(** Other objects, of which those that have their digest are the same. *)
Lemma world_simulated A s s' : (∀ q, reliable (s_heap s' q)) → objects_kept s s' → balanced s' →
  record_core <$> im_checkpoints (s_impl s') = record_core <$> im_checkpoints (s_impl s) →
  (im_placements (s_impl s'), im_replicas (s_impl s'), im_next_id_counter (s_impl s')) =
    (im_placements (s_impl s), im_replicas (s_impl s), im_next_id_counter (s_impl s)) →
  im_backends (s_impl s) ⊆ im_backends (s_impl s') → sound s → represents A s → simulated Quiet A s'.
Proof.
  intros Hrel Hk Hb' Hrec [= Hp Hr Hc] Hbk (Hb & Hids & Hz & _) [Hu He]. split; [|exists A; split; [done|split]].
  - split; [done|]. unfold ids_below. by rewrite Hp, Hr, Hc.
  - by rewrite Hu, <- (dom_fmap_L record_core (im_checkpoints (s_impl s'))), Hrec, dom_fmap_L.
  - intros id. eapply (entry_carried (λ _, True)); [|by rewrite <- !lookup_fmap, Hrec|done|done].
    split; [by rewrite Hp|]. rewrite Hr. split; [by intros rid rd ->; exists rd|]. split; [done|]. intros q d rb _. apply Hk.
Qed.
Lemma operation_simulated A ev s s' : operation ev s s' → sound s → represents A s → simulated ev A s'.
Proof.
  destruct 1 as [s heap Hrel Hk|id q s Hn|owner prov s|now family owner size durability s Hroom
    |descriptor data s res s' p slices Hd Hroom Hp Hcs Hdist Hnc Hpub Hnew|descriptor data s e Hg
    |id s|id chunk s|id priority s Hroom|elapsed rid id priority s|policy s|clock id s|clock s Hroom|clock1 clock2 s|s|boot s|epoch s
    |s t fs r t' fs' Hps Ht Hf Hrel Hk Hbk Hl]; intros Hs HA.
  - apply (world_simulated A s); try done. eapply keeps_balanced; [by apply keeps_same|apply Hs].
  - apply (world_simulated A s); try done; [apply Hs|by intros q' d rb| |by apply insert_subseteq].
    eapply keeps_balanced; [by apply (keeps_same s)|apply Hs].
  - eapply quiet_simulated; [apply create_family_steady|apply create_family_keeps|done..].
  - pose proof (make_full_descriptor_keeps now family owner size durability s) as Hk. revert Hk.
    unfold make_full_descriptor, get_impl, gets, mbind, ST_bind.
    destruct (im_next_checkpoint_generation _ !! family); intros Hk.
    + apply (drawn_simulated A 1 s); done.
    + by apply (quiet_simulated A s).
  - by eapply publish_sim.
  - assert (publish descriptor data s = (Throw e, (publish_guards descriptor s).2)) as ->.
    { apply publish_rejected. by rewrite (surjective_pairing (publish_guards descriptor s)), Hg. }
    eapply quiet_simulated; [apply guards_steady|apply guards_keeps|done..].
  - eapply quiet_simulated; [apply verify_checkpoint_steady| |done..]. apply keeps_content, verify_checkpoint_frames.
  - eapply quiet_simulated; [apply verify_chunk_steady|apply verify_chunk_keeps|done..].
  - pose proof (plan_restore_keeps id priority s) as Hk. revert Hk.
    unfold plan_restore, find_checkpoint, get_impl, gets, raise, throw, mbind, ST_bind.
    destruct (im_checkpoints (s_impl s) !! id); intros Hk; [by apply (drawn_simulated A 2 s)|by apply (quiet_simulated A s)].
  - eapply quiet_simulated; [apply restore_steady| |done..]. apply keeps_content, restore_frames.
  - eapply quiet_simulated; [by apply steady_same|by apply keeps_same|done..].
  - eapply quiet_simulated; [apply retire_steady|apply retire_keeps|done..].
  - apply (drawn_simulated A 1 s); [done|by apply steady_same|apply gc_plan_keeps|done..].
  - by apply gc_sim.
  - eapply quiet_simulated; [apply reset_authority_steady|apply reset_authority_keeps|done..].
  - eapply quiet_simulated; [by apply steady_same|by apply keeps_same|done..].
  - eapply quiet_simulated; [by apply steady_same|by apply keeps_same|done..].
  - assert (balanced t') as Hb' by (eapply step_balanced; [by eapply step_restart|apply Hs]).
    rewrite (load_saved s t fs Hps Ht Hf) in Hl. injection Hl as _ <- _.
    apply (world_simulated A s); try done. cbn. rewrite <- map_fmap_compose. by apply map_fmap_ext.
Qed.

(** The histories of a store, with their events. *)
Inductive history : list Event → CheckpointStore B → CheckpointStore B → Prop :=
  | history_start s : history [] s s
  | history_step evs ev s s' s'' : history evs s s' → operation ev s' s'' → history (evs ++ [ev]) s s''.
Lemma history_simulated A evs s s' : history evs s s' → sound s → represents A s →
  sound s' ∧ ∃ A', apply_events A evs = Some A' ∧ represents A' s'.
Proof.
  induction 1 as [s|evs ev s s' s'' _ IH Hop]; intros Hs HA; [split; [done|]; by exists A|].
  destruct (IH Hs HA) as (Hs' & A' & E & HA'). rewrite apply_events_snoc, E. by eapply operation_simulated.
Qed.
Lemma new_store_sound options heap : (∀ q, reliable (heap q)) →
  sound (new_store options heap) ∧ represents empty_catalogue (new_store options heap).
Proof.
  intros Hrel. split.
  - split; [apply new_store_balanced|]. split; [split; intros x [y Hx]; discriminate Hx|]. by split.
  - split; [done|]. intros id. cbn. rewrite lookup_empty. cbn. intros rec. by rewrite lookup_empty.
Qed.

(** What the users see. *)
Definition refused {A} (r : outcome A) (code : ErrorCode.t) : Prop := ∃ msg, r = Throw (store_error code msg).
Lemma restore_live s id data elapsed rid priority : sound s → entry_ok s id (Some data) →
  ∃ rc s', restore elapsed rid id priority s = (Ok rc, s') ∧ rc_bytes rc = data.
Proof.
  intros (_ & _ & _ & Hrel) (rec & Hrec & Hl & rbs & Hf & <- & Hd). apply orb_false_elim in Hl as [Hl1%bool_decide_eq_false Hl2%bool_decide_eq_false].
  eapply (restore_complete elapsed rid id priority s rec rbs); [done..| |done].
  eapply Forall2_impl; [exact Hf|]. intros e rb (p & Hs). eapply stored_servable; [|exact Hs].
  by apply reliable_health.
Qed.
Lemma restore_not_live s id elapsed rid priority : entry_ok s id None →
  refused (restore elapsed rid id priority s).1 ErrorCode.kNotFound.
Proof.
  intros He. cbn in He. unfold restore. destruct (im_checkpoints (s_impl s) !! id) as [rec|] eqn:E.
  - rewrite (st_bind_run _ _ _ rec s) by (by apply find_checkpoint_ok). specialize (He rec eq_refl).
    unfold swept_state in He. rewrite He. by eexists.
  - erewrite st_bind_run_throw; [by eexists|]. unfold find_checkpoint, get_impl, gets, mbind, ST_bind. by rewrite E.
Qed.
End refinement.

(** ** The claim *)
Section claims.
Context `{IterOrder} {B : Type} `{HB : IBackend B} {HL : BackendLaws B} {HR : ReliableBackend B}.

(** C1: The store refines a map from checkpoint ids to bytes.  Start with an empty
    store on reliable backends and let it live through any history of its
    operations: registrations, families, publications that the guards refuse or
    that succeed having written objects only for new digests, verifications,
    restore plans, restores, policies, retirements, collections, resets, restarts
    from the saved state, changes of other objects around it.  Then the
    catalogue follows the history: no id is published twice; an id exists exactly
    when it was published; if it was not collected since, then a restore succeeds
    and returns exactly the bytes that were published, however the checkpoints
    share their chunks; and every other id is refused as not found. *)
Theorem store_refines_catalogue options heap evs (s : CheckpointStore B) :
  (∀ q, reliable (heap q)) → history evs (new_store options heap) s →
  ∃ A, apply_events empty_catalogue evs = Some A ∧
    ∀ id, checkpoint_exists id s = (Ok (bool_decide (id ∈ used A)), s) ∧
      ∀ elapsed rid priority,
        match live A !! id with
        | Some data =>
            ∃ rc s', restore elapsed rid id priority s = (Ok rc, s') ∧ rc_bytes rc = data
        | None => refused (restore elapsed rid id priority s).1 ErrorCode.kNotFound
        end.
Proof.
  intros Hrel Hh. destruct (new_store_sound options heap Hrel) as [Hs0 HA0].
  destruct (history_simulated _ _ _ _ Hh Hs0 HA0) as (Hs & A & EA & Hu & He). exists A. split; [done|]. intros id. split.
  - unfold checkpoint_exists, get_impl, gets. do 2 f_equal. rewrite Hu. apply bool_decide_ext. by rewrite elem_of_dom.
  - intros elapsed rid priority. specialize (He id). destruct (live A !! id); [by apply restore_live|by apply restore_not_live].
Qed.
End claims.

(** ** The demonstration store: published, restored, retired, collected *)
#[local] Existing Instance canonical_order.
Definition demo_events : list Event := [Quiet; Quiet; Published (d_id demo_descriptor) demo_data].
Definition demo_new : CheckpointStore SyntheticBackend :=
  new_store (default_StoreOptions <| opt_chunk_size := 2 |>) (λ _, demo_backend).
Lemma demo_run : history demo_events demo_new demo_published.
Proof.
  apply (history_step [Quiet; Quiet] _ demo_new demo_store).
  - apply (history_step [Quiet] _ demo_new (register_backend (mkId 1) (Some 0%nat) demo_new).2).
    + apply (history_step [] _ demo_new demo_new); [apply history_start|]. by apply op_register_backend.
    + apply (op_create_family (mkId 1) Provenance.kUnknown).
  - destruct demo_pieces as (slices & Ec & Hd & _ & Hn).
    assert (is_anew demo_store (publish demo_descriptor demo_data demo_store) = true) as Hnew by (vm_compute; reflexivity).
    unfold demo_published. destruct (publish demo_descriptor demo_data demo_store) as [[res|e] s'] eqn:E; [|discriminate Hnew].
    apply (op_publish demo_descriptor demo_data demo_store res s' 0%nat slices demo_size); [|done|done|done|done|exact E|by apply Z.eqb_eq].
    vm_compute. reflexivity.
Qed.
Definition demo_collected : list CheckpointId := gc_eligible_unlocked no_clock (s_impl demo_retired).
Lemma demo_long_run :
  history (demo_events ++ [Quiet] ++ [Quiet] ++ [Collected demo_collected]) demo_new (gc_run no_clock no_clock demo_retired).2.
Proof.
  rewrite !app_assoc. eapply history_step; [|apply op_gc_run]. unfold demo_retired.
  eapply history_step; [|apply op_gc_plan; vm_compute; reflexivity].
  eapply history_step; [apply demo_run|apply op_retire].
Qed.
Definition catalogue_entry (evs : list Event) (id : CheckpointId) : option (list byte) :=
  match apply_events empty_catalogue evs with Some A => live A !! id | None => None end.
Lemma demo_reliable (q : BackendPtr) : reliable ((λ _, demo_backend) q).
Proof. vm_compute. reflexivity. Qed.
Lemma store_refines_catalogue_witness :
  (∃ rc s', restore 7 (mkId 1) (d_id demo_descriptor) RestorePriority.kNormal demo_published = (Ok rc, s') ∧
     rc_bytes rc = demo_data) ∧
  refused (restore 7 (mkId 1) (d_id demo_descriptor) RestorePriority.kNormal (gc_run no_clock no_clock demo_retired).2).1
    ErrorCode.kNotFound.
Proof.
  split.
  - destruct (store_refines_catalogue _ _ _ _ demo_reliable demo_run) as (A & EA & HA).
    destruct (HA (d_id demo_descriptor)) as [_ Hr]. specialize (Hr 7 (mkId 1) RestorePriority.kNormal).
    assert (catalogue_entry demo_events (d_id demo_descriptor) = Some demo_data) as E by (vm_compute; reflexivity).
    unfold catalogue_entry in E. rewrite EA in E. rewrite E in Hr. exact Hr.
  - destruct (store_refines_catalogue _ _ _ _ demo_reliable demo_long_run) as (A & EA & HA).
    destruct (HA (d_id demo_descriptor)) as [_ Hr]. specialize (Hr 7 (mkId 1) RestorePriority.kNormal).
    assert (catalogue_entry (demo_events ++ [Quiet] ++ [Quiet] ++ [Collected demo_collected]) (d_id demo_descriptor) = None) as E
      by (vm_compute; reflexivity).
    unfold catalogue_entry in E. rewrite EA in E. rewrite E in Hr. exact Hr.
Defined.
