(* ===== verification/LocalLiveness.v ===== *)
(** * LocalLiveness: writes get through on a disk in order

    The filesystem backend is reliable when its disk has no faults and nothing
    of the wrong kind is in the way of a blob; writing blobs keeps it so. *)
From stdpp Require Import functions.
From S2P Require Import Prelude Base Hash Model Chunking Dedup Backend FileSystem LocalBackend Store Publish Restore Liveness.

(** ** Which directories an operation can make *)
Definition new_dirs (P : Path → Prop) (s s' : FileSystem) : Prop := ∀ q,
  is_dir (fs_disk s') q = true → is_dir (fs_disk s) q = true ∨ P q.
#[local] Instance new_dirs_preorder P : PreOrder (new_dirs P).
Proof.
  split; [by intros s q; left|]. intros s1 s2 s3 H12 H23 q Hq.
  apply H23 in Hq as [Hq|]; [|by right]. by apply H12 in Hq.
Qed.

Lemma make_dirs_new m start rest q : is_dir (make_dirs m start rest).2 q = true →
  is_dir m q = true ∨ is_prefix q (start ++ rest) = true.
Proof.
  revert m start. induction rest as [|c rest IH]; intros m start; simpl; [by left|].
  replace (start ++ c :: rest) with ((start ++ [c]) ++ rest) by (by rewrite <- app_assoc).
  destruct (node_at m (start ++ [c])) as [[d|]|]; [by left|by apply IH|].
  intros [Hq|Hq]%IH; [|by right]. destruct (decide (q = start ++ [c])) as [->|Hne].
  - right. apply is_prefix_spec. by exists rest.
  - left. unfold is_dir, node_at in *. destruct q; [done|]. by rewrite lookup_insert_ne in Hq.
Qed.

Lemma new_dirs_fault P s f s' : next_fault s = (f, s') → new_dirs P s s'.
Proof. intros E. destruct (next_fault_disk s) as [D _]. rewrite E in D. intros q. cbn in D. rewrite D. by left. Qed.
Lemma is_dir_insert_file_inv m p d q : p ≠ [] → is_dir (<[p := File d]> m) q = true → is_dir m q = true.
Proof.
  intros Hp. unfold is_dir, node_at. destruct q as [|x q]; [done|]. destruct (decide (p = x :: q)) as [->|Hne].
  - by rewrite lookup_insert_eq.
  - by rewrite lookup_insert_ne.
Qed.
Lemma is_dir_delete_inv m p q : is_dir (delete p m) q = true → is_dir m q = true.
Proof.
  unfold is_dir, node_at. destruct q as [|x q]; [done|]. destruct (decide (p = x :: q)) as [->|Hne].
  - by rewrite lookup_delete_eq.
  - by rewrite lookup_delete_ne.
Qed.

Lemma create_directories_new p : frames (new_dirs (λ q, is_prefix q p = true)) (create_directories p).
Proof.
  intros s. unfold create_directories. unfold mbind at 1, ST_bind at 1.
  destruct (next_fault s) as [[f|e] s1] eqn:E; pose proof (new_dirs_fault (λ q, is_prefix q p = true) _ _ _ E) as F; [|done].
  etrans; [exact F|]. unfold get, mbind, ST_bind. cbn beta iota.
  pose proof (make_dirs_new (fs_disk s1) [] (match f with Some n => take n p | None => p end)) as Hn.
  destruct (make_dirs _ _ _) as [ok m]. cbn in *. intros q [Hq|Hq]%Hn; [by left|right].
  destruct f as [n|]; [|done]. apply is_prefix_spec in Hq as [k Hk]. apply is_prefix_spec. exists (k ++ drop n p).
  by rewrite app_assoc, <- Hk, take_drop.
Qed.

Lemma remove_path_new P p : frames (new_dirs P) (remove_path p).
Proof.
  intros s. unfold remove_path. unfold mbind at 1, ST_bind at 1.
  destruct (next_fault s) as [[f|e] s1] eqn:E; pose proof (new_dirs_fault P _ _ _ E) as F; [|done].
  etrans; [exact F|]. unfold get, mbind, ST_bind. cbn beta iota. destruct f; [reflexivity|].
  destruct p as [|c p]; [reflexivity|].
  destruct (node_at _ _) as [[d|]|]; [|destruct (is_empty_dir _ _)|]; try reflexivity;
    intros q Hq; left; by apply is_dir_delete_inv in Hq.
Qed.

Lemma rename_file_new P a b d s : file_at (fs_disk s) a = Some d → b ≠ [] → new_dirs P s (rename_path a b s).2.
Proof.
  intros Ha Hb. destruct (next_fault_ok s) as (f & s1 & E & D & _). unfold rename_path.
  rewrite (st_bind_run _ _ _ _ _ E). etrans; [eapply new_dirs_fault; exact E|].
  rewrite <- D in Ha. unfold file_at in Ha. unfold get, mbind, ST_bind. cbn beta iota. destruct f; [reflexivity|].
  destruct (node_at (fs_disk s1) a) as [[d'|]|]; [|done..]. destruct (negb _); [reflexivity|].
  destruct (node_at (fs_disk s1) b) as [[]|]; try reflexivity;
    intros q Hq; left; cbn in Hq; by apply is_dir_insert_file_inv, is_dir_delete_inv in Hq.
Qed.

Lemma replace_file_new tmp p d s : file_at (fs_disk s) tmp = Some d → tmp ≠ p → p ≠ [] →
  new_dirs (λ q, is_prefix q (parent_path p) = true) s (replace_file tmp p s).2.
Proof.
  intros Hd Hne Hp. set (R := λ s s', new_dirs (λ q, is_prefix q (parent_path p) = true) s s' ∧
    file_at (fs_disk s') tmp = file_at (fs_disk s) tmp).
  set (Q := λ (_ : outcome unit) s', new_dirs (λ q, is_prefix q (parent_path p) = true) s s').
  change (Q (replace_file tmp p s).1 (replace_file tmp p s).2). unfold replace_file.
  rewrite (st_bind_run _ _ _ (exists_at (fs_disk s) p) s) by done.
  apply (run_framed R); [|by intros e s1 [? _]|].
  { intros s0. destruct (exists_at (fs_disk s) p); [|by split].
    pose proof (remove_path_new (λ q, is_prefix q (parent_path p) = true) p s0) as F.
    pose proof (remove_path_file_other p tmp s0 Hne) as K. unfold mbind, ST_bind.
    by destruct (remove_path p s0) as [[] ?]. }
  intros [] s1 _ [N1 D1]. apply (run_framed R); [| |].
  { intros s0. split; [apply create_directories_new|].
    apply (frames_create_directories (parent_path p) s0). by intros []. }
  { intros e s2 [N2 _]. unfold Q. by etrans. }
  intros made s2 _ [N2 D2]. rewrite <- D1, <- D2 in Hd.
  pose proof (rename_file_new (λ q, is_prefix q (parent_path p) = true) tmp p d s2 Hd Hp) as N3.
  unfold Q. do 2 (etrans; [eassumption|]). unfold mbind, ST_bind. by destruct (rename_path tmp p s2) as [[[]|] ?].
Qed.

(** ** The disk is in order *)
Definition in_order (b : LocalBackend) : Prop :=
  ready b ∧ (∀ f, is_dir (fs_disk (lo_fs b)) (lo_root b ++ ["temp"; f]) = false) ∧
  (∀ d, length d = 32%nat →
    ancestors_free (fs_disk (lo_fs b)) (parent_path (object_path b (blob_key d))) ∧
    is_dir (fs_disk (lo_fs b)) (object_path b (blob_key d)) = false) ∧
  is_dir (fs_disk (lo_fs b)) (lo_root b) = true.

Lemma object_path_blob b d : length d = 32%nat →
  object_path b (blob_key d) = lo_root b ++ ["blobs"; blob_prefix d; hex d].
Proof.
  intros Hl. unfold object_path. rewrite parse_valid_key by (by apply blob_key_valid).
  by rewrite blob_key_components.
Qed.
Lemma object_path_blob_length b d : length d = 32%nat →
  length (object_path b (blob_key d)) = (length (lo_root b) + 3)%nat.
Proof. intros Hl. rewrite object_path_blob by done. rewrite length_app. done. Qed.
Lemma blob_outside_temp d : outside_temp (blob_key d).
Proof. unfold outside_temp. by rewrite blob_key_components. Qed.
Lemma in_order_placeable b d : length d = 32%nat → in_order b → placeable (blob_key d) b.
Proof.
  intros Hl (_ & _ & Ho & _). destruct (Ho d Hl) as [Ha Hd].
  split; [by apply blob_key_valid|]. split; [apply blob_outside_temp|]. done.
Qed.

(** A proper ancestor of a blob is not the path of a blob. *)
Lemma ancestor_not_blob b d d' k : length d = 32%nat → length d' = 32%nat →
  take k (parent_path (object_path b (blob_key d))) ≠ object_path b (blob_key d').
Proof.
  intros Hl Hl' E. apply (f_equal length) in E. unfold parent_path in E.
  rewrite !length_take, !object_path_blob_length in E by done. lia.
Qed.

(** The disk a successful commit leaves is the one of its replacement. *)
Lemma lo_commit_disk key tmp b b' : validate_backend_key (key_value key) = true →
  lo_staged b !! key_value key = Some tmp → lo_commit key b = (Ok tt, b') →
  replace_file tmp (object_path b key) (lo_fs b) = (Ok tt, lo_fs b').
Proof.
  intros Hk Hs. unfold lo_commit. rewrite (st_bind_run _ _ _ (lo_staged b) b) by done. rewrite Hs.
  rewrite physical_path_run, Hk. intros ([] & b1 & E & Hrest)%st_bind_ok. injection Hrest as <-.
  unfold on_disk, zoom in E. destruct (replace_file _ _ _) as [r fs]. by injection E as -> <-.
Qed.

Lemma in_order_write d data b : length d = 32%nat → in_order b →
  ∃ b1 b2, lo_put_temp (blob_key d) data b = (Ok tt, b1) ∧ lo_commit (blob_key d) b1 = (Ok tt, b2) ∧
    in_order b2 ∧ (lo_read (blob_key d) b2).1 = Ok data ∧
    ∀ d', length d' = 32%nat → d' ≠ d → (lo_read (blob_key d') b2).1 = (lo_read (blob_key d') b).1.
Proof.
  intros Hl Hio. pose proof Hio as (Hready & Htemp & Hblobs & Hroot). set (key := blob_key d).
  pose proof (blob_key_valid d Hl) as Hk. fold key in Hk.
  destruct (in_order_placeable b d Hl Hio) as (_ & Ho & Ha & Hd). fold key in Ho, Ha, Hd.
  assert (∀ e, length e = 32%nat → object_path b (blob_key e) ≠ next_temp key b) as Hot.
  { intros e He. by apply outside_temp_path; [apply blob_key_valid|apply blob_outside_temp]. }
  destruct (lo_put_temp_run key data b Hready Hk) as (fs1 & E1 & Q1 & F1 & K1 & N1); [by apply Htemp|].
  set (b1 := b <| lo_seq := _ |> <| lo_fs := _ |> <| lo_staged ::= _ |>) in E1.
  assert (file_at fs1.(fs_disk) (next_temp key b) = Some data) as Ft by (by rewrite F1, bool_decide_eq_true_2).
  assert (placeable key b1) as Hp1.
  { split; [done|]. split; [done|]. change (object_path b1 key) with (object_path b key). split.
    - intros k. cbn. rewrite F1, bool_decide_eq_false_2; [apply Ha|]. unfold parent_path. rewrite take_take.
      by apply object_path_not_below_temp.
    - cbn. rewrite N1; [done|]. by apply Hot. }
  destruct (lo_commit_run key (next_temp key b) data b1 Q1 Hp1) as (fs2 & E2 & Q2 & F2 & K2).
  { apply lookup_insert_eq. } { done. } { by apply not_eq_sym, Hot. }
  change (object_path b1 key) with (object_path b key) in F2. cbn [lo_fs b1] in F2.
  set (b2 := b1 <| lo_fs := _ |> <| lo_staged ::= _ |>) in E2.
  assert (new_dirs (λ q, is_prefix q (parent_path (object_path b key)) = true) fs1 fs2) as Hnew.
  { pose proof (replace_file_new (next_temp key b) (object_path b key) data fs1 Ft) as Hn.
    assert (replace_file (next_temp key b) (object_path b key) fs1 = (Ok tt, fs2)) as Er; [|rewrite Er in Hn; apply Hn].
    - apply (lo_commit_disk key (next_temp key b) b1 b2 Hk); [apply lookup_insert_eq|done].
    - by apply not_eq_sym, Hot.
    - unfold key. rewrite object_path_blob by done. by destruct (lo_root b). }
  assert (∀ q, is_dir (fs_disk fs2) q = true → q ≠ next_temp key b →
    is_dir (fs_disk (lo_fs b)) q = true ∨ is_prefix q (parent_path (object_path b key)) = true) as Hdirs.
  { intros q Hq Hne. apply Hnew in Hq as [Hq|]; [|by right]. left. by rewrite <- (N1 q). }
  exists b1, b2. split; [done|]. split; [done|]. split; [|split].
  - split; [split; [done|]; apply K2, K1, Hready|]. split.
    + intros f. apply not_true_iff_false. intros Hq. change (lo_root b2) with (lo_root b) in Hq.
      cbn in Hq. destruct (decide (lo_root b ++ ["temp"; f] = next_temp key b)) as [Et|Hne].
      * apply Hnew in Hq as [Hq|Hq]; [rewrite Et in Hq; apply is_dir_no_file in Ft; congruence|].
        apply is_prefix_spec in Hq as [r Hr]. apply (object_path_not_below_temp key b f (length (object_path b key) - 1) r Hk Ho).
        unfold parent_path in Hr. by rewrite Hr, <- app_assoc.
      * apply Hdirs in Hq as [Hq|Hq]; [by rewrite Htemp in Hq| |done].
        apply is_prefix_spec in Hq as [r Hr]. apply (object_path_not_below_temp key b f (length (object_path b key) - 1) r Hk Ho).
        unfold parent_path in Hr. by rewrite Hr, <- app_assoc.
    + split; [|by apply K2, K1]. intros e He. change (object_path b2 (blob_key e)) with (object_path b (blob_key e)). cbn.
      destruct (Hblobs e He) as [Hae Hde]. split.
      * intros k. rewrite F2, bool_decide_eq_false_2 by (by apply ancestor_not_blob). case_bool_decide as Et; [done|].
        rewrite F1, bool_decide_eq_false_2 by done. apply Hae.
      * apply not_true_iff_false. intros Hq. apply Hdirs in Hq as [Hq|Hq]; [congruence| |by apply Hot].
        apply is_prefix_spec in Hq as [r Hr]. apply (f_equal length) in Hr. unfold parent_path, key in Hr.
        rewrite length_app, length_take, !object_path_blob_length in Hr by done. lia.
  - rewrite lo_read_run, Hk. unfold object_at. change (object_path b2 key) with (object_path b key). cbn.
    by rewrite F2, bool_decide_eq_true_2.
  - intros e He Hne. apply object_at_same; [done|]. cbn. rewrite F2, bool_decide_eq_false_2.
    + rewrite bool_decide_eq_false_2 by (by apply Hot). by rewrite F1, bool_decide_eq_false_2 by (by apply Hot).
    + intros E%object_path_inj; [|by apply blob_key_valid|done]. by apply blob_key_inj in E.
Qed.

(** Removing an object, or an empty directory in its place. *)
Lemma remove_path_quiet p s : quiet s → quiet (remove_path p s).2 ∧
  (fs_disk (remove_path p s).2 = fs_disk s ∨ fs_disk (remove_path p s).2 = delete p (fs_disk s)).
Proof.
  intros Hq. destruct (next_fault_quiet s Hq) as (s1 & E1 & Q1 & D1). unfold remove_path.
  rewrite (st_bind_run _ _ _ _ _ E1). unfold get, mbind, ST_bind. cbn beta iota. rewrite <- D1.
  destruct p as [|c p]; [by split; [|left]|].
  destruct (node_at (fs_disk s1) (c :: p)) as [[]|]; [|case_match|];
    (split; [done|]); first [by right|by left].
Qed.
Lemma file_at_delete_inv m p q : file_at m q = None → file_at (delete p m) q = None.
Proof.
  unfold file_at, node_at. destruct q as [|x q]; [done|]. destruct (decide (p = x :: q)) as [->|Hne].
  - by rewrite lookup_delete_eq.
  - by rewrite lookup_delete_ne.
Qed.
Lemma is_dir_delete_other m p q : p ≠ q → is_dir m q = true → is_dir (delete p m) q = true.
Proof. intros Hne. unfold is_dir, node_at. destruct q as [|x q]; [done|]. by rewrite lookup_delete_ne. Qed.
Lemma in_order_remove d b : in_order b → in_order (lo_remove (blob_key d) b).2.
Proof.
  intros Hio. pose proof Hio as ((Hq & Ht) & Htemp & Hblobs & Hroot). unfold lo_remove. rewrite physical_path_run.
  destruct (validate_backend_key _) eqn:Hk; [|done].
  assert (object_path b (blob_key d) ≠ lo_root b ++ ["temp"] ∧ object_path b (blob_key d) ≠ lo_root b) as [Hne Hne'].
  { unfold object_path. rewrite parse_valid_key, blob_key_components by done. split; [by intros [=]%app_inv_head|].
    intros E%(f_equal length). rewrite length_app in E. simpl in E. lia. }
  unfold on_disk, zoom. destruct (remove_path_quiet (object_path b (blob_key d)) (lo_fs b) Hq) as [Q1 D1].
  destruct (remove_path _ _) as [r fs]. cbn [snd] in *. destruct D1 as [D1|D1].
  - unfold in_order, ready. cbn. rewrite D1. by split_and!.
  - unfold in_order, ready. cbn. rewrite D1. split; [split; [done|by apply is_dir_delete_other]|]. split.
    + intros f. apply not_true_iff_false. intros Hd%is_dir_delete_inv. by rewrite Htemp in Hd.
    + split; [|by apply is_dir_delete_other]. intros e He. destruct (Hblobs e He) as [Ha Hd]. split.
      * intros k. by apply file_at_delete_inv, Ha.
      * apply not_true_iff_false. intros Hd'%is_dir_delete_inv. by rewrite <- not_true_iff_false in Hd.
Qed.

#[export] Program Instance local_reliable `{IterOrder} : ReliableBackend LocalBackend := { reliable := in_order }.
Next Obligation. intros Hord d data b Hl Hb. by apply in_order_write. Qed.
Next Obligation.
  intros Hord d b Hl Hb. simpl. rewrite lo_verify_run, (blob_key_valid d Hl). by eexists.
Qed.
Next Obligation. intros Hord d b. apply in_order_remove. Qed.
Next Obligation.
  intros Hord b (_ & _ & _ & Hroot). simpl. unfold lo_health, get, on_disk, zoom, is_directory, gets, mbind, ST_bind. cbn.
  by rewrite Hroot.
Qed.

(** ** A new backend on an empty root is in order *)
Lemma make_subdirs root subs s : quiet s → (∀ sub, ancestors_free (fs_disk s) (root ++ [sub])) →
  ∃ s', for_each subs (λ sub, _ ← create_directories (root ++ [sub]); mret tt) s = (Ok tt, s') ∧ quiet s' ∧
    (∀ q, file_at (fs_disk s') q = file_at (fs_disk s) q) ∧
    (∀ q, is_dir (fs_disk s) q = true → is_dir (fs_disk s') q = true) ∧
    new_dirs (λ q, (length q ≤ S (length root))%nat) s s' ∧
    ∀ sub, sub ∈ subs → is_dir (fs_disk s') (root ++ [sub]) = true.
Proof.
  revert s. induction subs as [|sub subs IH]; intros s Hq Hf.
  { exists s. split_and!; try done. by intros ? ?%elem_of_nil. }
  destruct (create_directories_ok (root ++ [sub]) s Hq (Hf sub)) as (s1 & E1 & Q1 & D1 & F1 & _ & K1).
  pose proof (create_directories_new (root ++ [sub]) s) as N1. rewrite E1 in N1. cbn [snd] in N1.
  destruct (IH s1 Q1) as (s2 & E2 & Q2 & F2 & K2 & N2 & D2); [intros sub' k; rewrite F1; apply Hf|].
  exists s2. split; [|split; [done|split; [|split; [|split]]]].
  - cbn [for_each]. rewrite (st_bind_run _ _ _ tt s1); [done|]. by rewrite (st_bind_run _ _ _ _ _ E1).
  - intros q. by rewrite F2, F1.
  - intros q Hd. by apply K2, K1.
  - intros q [Hd|Hd]%N2; [|by right]. apply N1 in Hd as [Hd|Hd]; [by left|right].
    apply is_prefix_spec in Hd as [k Hk]. apply (f_equal length) in Hk. rewrite !length_app in Hk. simpl in Hk. lia.
  - intros sub' [->|Hin]%elem_of_cons; [by apply K2|by apply D2].
Qed.

Lemma new_local_in_order root id fs : root ≠ "" → quiet fs → ancestors_free (fs_disk fs) (parse_path root) →
  (∀ q, below (parse_path root) q = true → node_at (fs_disk fs) q = None) →
  ∃ b, new_local root id fs = Ok b ∧ in_order b ∧ lo_root b = parse_path root ∧
    ∀ q, file_at (fs_disk (lo_fs b)) q = file_at (fs_disk fs) q.
Proof.
  intros Hr Hq Hf Hempty. set (rp := parse_path root) in *.
  assert (∀ q, q ≠ [] → is_dir (fs_disk fs) (rp ++ q) = false ∧ file_at (fs_disk fs) (rp ++ q) = None) as He.
  { intros q Hqn. unfold is_dir, file_at. rewrite Hempty; [done|]. apply below_spec. by exists q. }
  assert (∀ q, ancestors_free (fs_disk fs) (rp ++ q)) as Hanc.
  { intros q k. destruct (Nat.le_gt_cases k (length rp)) as [Hk|Hk].
    - rewrite take_app_le by done. apply Hf.
    - rewrite take_app_ge by lia. destruct (take (k - length rp) q) as [|c q'] eqn:E; [|by apply He].
      rewrite app_nil_r, <- (take_ge rp (length rp)) by done. apply Hf. }
  destruct (create_directories_ok rp fs Hq Hf) as (s1 & E1 & Q1 & D1 & F1 & _ & K1).
  pose proof (create_directories_new rp fs) as N1. rewrite E1 in N1. cbn [snd] in N1.
  destruct (make_subdirs rp local_subdirs s1 Q1) as (s2 & E2 & Q2 & F2 & K2 & N2 & D2).
  { intros sub k. rewrite F1. apply Hanc. }
  unfold new_local, init_root. rewrite (proj2 (String.eqb_neq _ _) Hr).
  rewrite (st_bind_run _ _ _ tt fs) by done. rewrite (st_bind_run _ _ _ _ _ E1).
  rewrite (st_bind_run _ _ _ (exists_at (fs_disk s1) rp) s1) by done. cbn [negb andb].
  rewrite (st_bind_run _ _ _ tt s1) by done. fold rp. rewrite E2. eexists. split; [reflexivity|].
  split; [|split; [done|]; intros q; cbn; by rewrite F2, F1].
  assert (∀ q, (S (length rp) < length (rp ++ q))%nat → q ≠ [] → is_dir (fs_disk s2) (rp ++ q) = false) as Hdeep.
  { intros q Hlen Hqn. apply not_true_iff_false. intros [Hd|Hd]%N2; [|lia].
    apply N1 in Hd as [Hd|Hd]; [by rewrite (proj1 (He q Hqn)) in Hd|].
    apply is_prefix_spec in Hd as [k Hk]. apply (f_equal length) in Hk. rewrite !length_app in *. lia. }
  split; [|split].
  - split; [done|]. cbn. apply D2. unfold local_subdirs. rewrite !elem_of_cons. auto.
  - intros f. cbn. apply Hdeep; [rewrite length_app; simpl; lia|done].
  - split; [|by apply K2]. intros d Hl. rewrite object_path_blob by done. cbn. split.
    + intros k. rewrite F2, F1. unfold parent_path. rewrite take_take. apply Hanc.
    + apply Hdeep; [rewrite length_app; simpl; lia|done].
Qed.
