(* ===== verification/Cli.v ===== *)
(** * Cli: the command line

    [cli/cli.cpp].  One process: it opens the store on the disk, runs one
    command, prints and exits.  The state file and the objects of the backend
    are on the same disk here: the disk is the one the backend object holds.
    Clock readings are arguments; what the program prints is part of the
    state.  Allocation does not fail. *)
From stdpp Require Import pretty functions.
From S2P Require Import Prelude Base Hash Model Dedup Backend Store Publish Restore Retention Gc FileSystem LocalBackend Persistence Accounting Explain.

(** ** The words of a command line *)

(** [isspace] in the C locale. *)
Definition is_space (c : ascii) : bool := bool_decide (c = " "%char) || code_in 9 13 c.
Definition is_digit (c : ascii) : bool := code_in 48 57 c.
Fixpoint skip_space (s : string) : string :=
  match s with
  | String c s' => if is_space c then skip_space s' else s
  | EmptyString => s
  end.
(** The value of the digits in front, and whether there was one. *)
Fixpoint read_digits (s : string) (seen : bool) (acc : Z) : bool * Z :=
  match s with
  | String c s' => if is_digit c then read_digits s' true (10 * acc + (char_code c - 48)) else (seen, acc)
  | EmptyString => (seen, acc)
  end.
Definition read_sign (s : string) : bool * string :=
  match s with
  | String "-" s' => (true, s')
  | String "+" s' => (false, s')
  | _ => (false, s)
  end.
(** [iss >> v] for an unsigned 64-bit [v]: a minus sign negates modulo 2^64, a
    value out of range reads as the largest one, no digits read as 0. *)
Definition parse_u64 (s : string) : Z :=
  let '(negative, s) := read_sign (skip_space s) in
  let '(_, v) := read_digits s false 0 in
  if v >? 2 ^ 64 - 1 then 2 ^ 64 - 1 else if negative : bool then u64 (- v) else v.

Definition parse_id (s : string) : CheckpointId := mkId (parse_u64 s).
Definition parse_family (s : string) : CheckpointFamilyId := mkId (parse_u64 s).
Definition parse_boot (s : string) : WorkerBootId := mkId (parse_u64 s).

(** The word after the first occurrence of an option that is not the last word. *)
Fixpoint opt (args : list string) (name def : string) : string :=
  match args with
  | a :: ((b :: _) as args') => if String.eqb a name then b else opt args' name def
  | _ => def
  end.
Definition has (args : list string) (name : string) : bool := existsb (λ a, String.eqb a name) args.

(** [s[0]]: the terminator for an empty string. *)
Definition first_char (s : string) : byte :=
  match s with String c _ => Ascii.byte_of_ascii c | EmptyString => x00 end.

Definition deterministic_data (fill : byte) (size : Z) : list byte := replicate (Z.to_nat size) fill.

(** [path / name] for a relative name. *)
Definition path_append (path name : string) : string :=
  if String.eqb path "" || bool_decide (back path = Some "/"%char) then path +:+ name
  else path +:+ "/" +:+ name.

(** ** The process *)
Record Cli := mkCli {
  cli_root : string;
  cli_state_path : string;
  cli_store_root : string;
  cli_boot : WorkerBootId;
  cli_chunk_size : Z
}.
#[export] Instance eta_Cli : Eta Cli := λ c,
  mkCli (cli_root c) (cli_state_path c) (cli_store_root c) (cli_boot c) (cli_chunk_size c).

(** What the clocks show during the run. *)
Record Clocks := mkClocks {
  ck_now : Z;
  ck_elapsed : Z;
  ck_retire : nat → CheckpointId → Z;
  ck_plan : nat → CheckpointId → Z;
  ck_run1 : nat → CheckpointId → Z;
  ck_run2 : nat → CheckpointId → Z;
  ck_ticks : Z;
  ck_pub_ms : Z;
  ck_restore_ms : Z
}.

(** How a process ends: with an exit code, or by an exception nobody catches. *)
Inductive Exit := Exited (code : Z) | Terminated (what : string).

Section cli.
Context `{IterOrder}.
Abbreviation St := (CheckpointStore LocalBackend).
(** The store, and what has been printed. *)
Abbreviation Cmd := (ST (St * string) CheckpointStoreError).

Definition disk_of (s : St) : FileSystem := lo_fs (s_heap s 0%nat).
Definition put_disk (fs : FileSystem) (s : St) : St :=
  s <| s_heap ::= λ h, <[0%nat := h 0%nat <| lo_fs := fs |>]> h |>.
Definition on_store_disk {A} (m : ST (St * FileSystem) CheckpointStoreError A) :
    ST St CheckpointStoreError A :=
  zoom (λ s, (s, disk_of s)) (λ p _, put_disk p.2 p.1) m.
Definition in_cmd {A} (m : ST St CheckpointStoreError A) : Cmd A := zoom fst (λ s p, (s, p.2)) m.
Definition print (text : string) : Cmd unit := modify (λ p, (p.1, p.2 +:+ text)).
Definition nl : string := String (Ascii.ascii_of_nat 10) "".

(** [Cli::make]: the store, or the exception, and the disk. *)
Definition make (c : Cli) (fs : FileSystem) : outcome St * FileSystem :=
  match new_local (cli_store_root c) (mkId 1) fs with
  | Throw e => (Throw e, (init_root (cli_store_root c) fs).2)
  | Ok b =>
      let o := default_StoreOptions <| opt_state_path := cli_state_path c |>
        <| opt_boot_id := cli_boot c |> <| opt_chunk_size := cli_chunk_size c |> in
      let '(r, s) :=
        (_ ← register_backend (mkId 1) (Some 0%nat);
         present ← gets (λ s, exists_at (fs_disk (disk_of s)) (parse_path (cli_state_path c)));
         if present : bool then on_store_disk load_state else mret tt) (new_store o (λ _, b)) in
      (match r with Ok _ => Ok s | Throw e => Throw e end, disk_of s)
  end.

Definition save_state_file (env : Clocks) : Cmd unit := in_cmd (on_store_disk (save_state (ck_ticks env))).

(** ** Printing *)
Definition print_checkpoint (d : CheckpointDescriptor) (m : CheckpointManifest)
    (chunks : list ChunkDescriptor) (reps : list ReplicaDescriptor) : Cmd unit :=
  let logical := d_logical_size d in
  let unique := fold_left (λ n c, u64 (n + cd_physical_size c)) chunks 0 in
  print ("id=" +:+ to_hex_string (id_value (d_id d)) +:+ nl +:+
         "family=" +:+ to_hex_string (id_value (d_family_id d)) +:+ nl +:+
         "generation=" +:+ pretty (gen_value (d_generation d)) +:+ nl +:+
         "kind=" +:+ CheckpointKind.to_string (d_kind d) +:+ nl +:+
         "digest=" +:+ hex (m_checkpoint_digest m) +:+ nl +:+
         "manifest=" +:+ to_hex_string (id_value (m_id m)) +:+ nl +:+
         "chunks=" +:+ pretty (zlen (m_chunks m)) +:+ nl +:+
         "logical_bytes=" +:+ pretty logical +:+ nl +:+
         "physical_bytes=" +:+ pretty unique +:+ nl +:+
         "dedup_bytes=" +:+ pretty (if logical >=? unique then logical - unique else 0) +:+ nl +:+
         "retention=" +:+ RetentionClass.to_string (d_retention d) +:+ nl +:+
         "durability=" +:+ DurabilityClass.to_string (d_durability d) +:+ nl +:+
         "provenance=" +:+ Provenance.to_string (d_provenance d) +:+ nl +:+
         "replicas=" +:+ pretty (zlen reps) +:+ nl +:+
         "authority_boot=" +:+ pretty (id_value (d_producer_boot d)) +:+ nl).

(** ** The commands, each with its exit code *)
Definition cmd_family_create (env : Clocks) (rest : list string) : Cmd Z :=
  fam ← in_cmd (create_family (mkId (parse_u64 (opt rest "--owner" "1"))) Provenance.kUnknown);
  _ ← print ("family=" +:+ to_hex_string (id_value fam) +:+ nl);
  _ ← save_state_file env;
  mret 0.

Definition cmd_checkpoint_create (env : Clocks) (rest : list string) : Cmd Z :=
  let fam := parse_family (opt rest "--family" "") in
  let size := parse_u64 (opt rest "--size" "1048576") in
  let fill := if has rest "--fill" then first_char (opt rest "--fill" "") else x41 in
  let data := deterministic_data fill size in
  d ← in_cmd (make_full_descriptor (ck_now env) fam (mkId (parse_u64 (opt rest "--owner" "1")))
        (zlen data) DurabilityClass.kLocal);
  pub ← in_cmd (publish d data);
  _ ← print ("published id=" +:+ to_hex_string (id_value (d_id (pub_descriptor pub))) +:+ nl);
  reps ← in_cmd (get_replicas (d_id (pub_descriptor pub)));
  _ ← print_checkpoint (pub_descriptor pub) (pub_manifest pub) (pub_chunks pub) reps;
  _ ← print ("dedup_hits=" +:+ pretty (pub_dedup_hits pub) +:+ " dedup_misses=" +:+
             pretty (pub_dedup_misses pub) +:+ nl);
  _ ← save_state_file env;
  mret 0.

Definition cmd_checkpoint_show (rest : list string) : Cmd Z :=
  let id := parse_id (opt rest "--id" "") in
  d ← in_cmd (get_checkpoint id);
  m ← in_cmd (get_manifest id);
  ch ← in_cmd (get_chunks id);
  reps ← in_cmd (get_replicas id);
  _ ← print_checkpoint d m ch reps;
  mret 0.

Definition cmd_verify (rest : list string) : Cmd Z :=
  iv ← in_cmd (verify_checkpoint (parse_id (opt rest "--id" "")));
  _ ← print ("integrity=" +:+ IntegrityState.to_string iv +:+ nl);
  mret (if bool_decide (iv = IntegrityState.kVerified) then 0 else 1).

(** [std::ofstream out(path); out.write(...)]: nobody looks at the state of the
    stream. *)
Definition write_out (path : string) (data : list byte) : Fs unit :=
  opened ← open_trunc (parse_path path);
  if opened : bool then _ ← write_stream (parse_path path) data; mret tt else mret tt.
Definition on_out {A} (m : Fs A) : Cmd A :=
  in_cmd (zoom disk_of put_disk m).

Definition cmd_restore (env : Clocks) (rest : list string) : Cmd Z :=
  let id := parse_id (opt rest "--id" "") in
  rc ← in_cmd (restore (ck_elapsed env) (mkId (parse_u64 (opt rest "--restore-id" "1"))) id
         RestorePriority.kNormal);
  _ ← print ("bytes=" +:+ pretty (zlen (rc_bytes rc)) +:+ " integrity=" +:+
             IntegrityState.to_string (rc_integrity rc) +:+ " source_replica=" +:+
             pretty (id_value (ev_source_replica (rc_evidence rc))) +:+ " duration_ms=" +:+
             pretty (ev_duration (rc_evidence rc)) +:+ nl);
  _ ← (if has rest "--out" then
         _ ← on_out (write_out (opt rest "--out" "") (rc_bytes rc));
         print ("wrote=" +:+ opt rest "--out" "" +:+ nl)
       else mret tt);
  mret 0.

Definition cmd_manifest (rest : list string) : Cmd Z :=
  m ← in_cmd (get_manifest (parse_id (opt rest "--id" "")));
  _ ← print ("manifest=" +:+ to_hex_string (id_value (m_id m)) +:+ " generation=" +:+
             pretty (gen_value (m_generation m)) +:+ " chunks=" +:+ pretty (zlen (m_chunks m)) +:+
             " logical_size=" +:+ pretty (m_logical_size m) +:+ " digest=" +:+
             hex (m_semantic_digest m) +:+ nl);
  _ ← for_each (m_chunks m) (λ e,
        print ("  chunk=" +:+ to_hex_string (id_value (e_chunk_id e)) +:+ " offset=" +:+
               pretty (e_logical_offset e) +:+ nl));
  mret 0.

Definition cmd_chunks (rest : list string) : Cmd Z :=
  ch ← in_cmd (get_chunks (parse_id (opt rest "--id" "")));
  _ ← print ("chunks=" +:+ pretty (zlen ch) +:+ nl);
  _ ← for_each ch (λ c,
        print ("  id=" +:+ to_hex_string (id_value (cd_id c)) +:+ " offset=" +:+
               pretty (cd_logical_offset c) +:+ " size=" +:+ pretty (cd_logical_size c) +:+
               " digest=" +:+ hex (cd_digest c) +:+ " integrity=" +:+
               IntegrityState.to_string (cd_integrity c) +:+ nl));
  mret 0.

Definition cmd_replicas (rest : list string) : Cmd Z :=
  reps ← in_cmd (get_replicas (parse_id (opt rest "--id" "")));
  _ ← print ("replicas=" +:+ pretty (zlen reps) +:+ nl);
  _ ← for_each reps (λ r,
        print ("  replica=" +:+ to_hex_string (id_value (rp_id r)) +:+ " backend=" +:+
               pretty (id_value (rp_backend_id r)) +:+ " tier=" +:+
               StorageTierClass.to_string (rp_tier r) +:+ " integrity=" +:+
               IntegrityState.to_string (rp_integrity r) +:+ " role=" +:+
               ReplicaRole.to_string (rp_role r) +:+ " provenance=" +:+
               Provenance.to_string (rp_provenance r) +:+ nl));
  mret 0.

Definition cmd_retain (env : Clocks) (rest : list string) : Cmd Z :=
  let fam := parse_family (opt rest "--family" "") in
  let p := default_RetentionPolicy <| pol_id := mkId (parse_u64 (opt rest "--id" "1")) |>
    <| pol_family_id := fam |> <| pol_retention_class := RetentionClass.kKeepLatestN |>
    <| pol_latest_n := parse_u64 (opt rest "--latest" "5") |> in
  _ ← in_cmd (set_retention_policy p);
  _ ← print ("retain family=" +:+ to_hex_string (id_value fam) +:+ " latest_n=" +:+
             pretty (pol_latest_n p) +:+ nl);
  _ ← save_state_file env;
  mret 0.

Definition cmd_retire (env : Clocks) (rest : list string) : Cmd Z :=
  let id := parse_id (opt rest "--id" "") in
  _ ← in_cmd (retire (ck_retire env) id);
  _ ← print ("retired=" +:+ to_hex_string (id_value id) +:+ nl);
  _ ← save_state_file env;
  mret 0.

Definition cmd_gc_plan (env : Clocks) : Cmd Z :=
  plan ← in_cmd (gc_plan (ck_plan env));
  _ ← print ("gc_epoch=" +:+ pretty (id_value (gr_epoch plan)) +:+ " generation=" +:+
             pretty (gen_value (gr_generation plan)) +:+ " marked_bytes=" +:+
             pretty (gr_marked_bytes plan) +:+ nl);
  mret 0.

Definition cmd_gc_run (env : Clocks) : Cmd Z :=
  _ ← in_cmd (gc_plan (ck_plan env));
  res ← in_cmd (gc_run (ck_run1 env) (ck_run2 env));
  _ ← print ("gc_epoch=" +:+ pretty (id_value (gr_epoch res)) +:+ " generation=" +:+
             pretty (gen_value (gr_generation res)) +:+ " reclaimed_blobs=" +:+
             pretty (zlen (gr_reclaimed_blobs res)) +:+ " reclaimed_bytes=" +:+
             pretty (gr_reclaimed_bytes res) +:+ " dereferenced=" +:+
             pretty (gr_dereferenced_blobs res) +:+ nl);
  _ ← save_state_file env;
  mret 0.

Definition cmd_explain (rest : list string) : Cmd Z :=
  let id := parse_id (opt rest "--id" "") in
  d ← in_cmd (get_checkpoint id);
  _ ← print (explain_checkpoint d +:+ nl);
  text ← in_cmd (explain_checkpoint_integrity id);
  _ ← print (text +:+ nl);
  mret 0.

Definition cmd_save (env : Clocks) (c : Cli) : Cmd Z :=
  _ ← save_state_file env;
  _ ← print ("saved=" +:+ cli_state_path c +:+ nl);
  mret 0.

(** A second store on the same disk; the first is not used again. *)
Definition reopen (c : Cli) : Cmd unit := λ p,
  match make c (disk_of p.1) with
  | (Ok s2, _) => (Ok tt, (s2, p.2))
  | (Throw e, fs) => (Throw e, (put_disk fs p.1, p.2))
  end.

Definition cmd_recover (c : Cli) : Cmd Z :=
  _ ← reopen c;
  _ ← in_cmd reset_authority;
  _ ← print ("recovered state=" +:+ cli_state_path c +:+ nl);
  ids ← in_cmd list_checkpoints;
  _ ← for_each ids (λ id,
        iv ← in_cmd (verify_checkpoint id);
        print ("  checkpoint=" +:+ to_hex_string (id_value id) +:+ " integrity=" +:+
               IntegrityState.to_string iv +:+ nl));
  mret 0.

Definition cmd_simulate (env : Clocks) : Cmd Z :=
  fam ← in_cmd (create_family (mkId 1) Provenance.kUnknown);
  let data := deterministic_data x53 (256 * 1024) in
  d ← in_cmd (make_full_descriptor (ck_now env) fam (mkId 1) (zlen data) DurabilityClass.kLocal);
  pub ← in_cmd (publish d data);
  _ ← print ("simulated publish id=" +:+ to_hex_string (id_value (d_id (pub_descriptor pub))) +:+ nl);
  cap ← in_cmd capacity_report;
  _ ← print ("capacity: total=" +:+ pretty (cap_total_bytes cap) +:+ " free=" +:+
             pretty (cap_free_bytes cap) +:+ " provenance=" +:+ Provenance.to_string (cap_provenance cap) +:+
             " freshness=" +:+ Freshness.to_string (cap_freshness cap) +:+ nl);
  _ ← save_state_file env;
  mret 0.

Definition cmd_benchmark (env : Clocks) (c : Cli) (rest : list string) : Cmd Z :=
  fam ← in_cmd (create_family (mkId 1) Provenance.kUnknown);
  let size := parse_u64 (opt rest "--size" "16777216") in
  let data := deterministic_data x42 size in
  d ← in_cmd (make_full_descriptor (ck_now env) fam (mkId 1) (zlen data) DurabilityClass.kLocal);
  _ ← in_cmd (publish d data);
  _ ← print ("pub_ms=" +:+ pretty (ck_pub_ms env) +:+ nl);
  rc ← in_cmd (restore (ck_elapsed env) (mkId 7) (d_id d) RestorePriority.kNormal);
  _ ← print ("restore_ms=" +:+ pretty (ck_restore_ms env) +:+ " bytes=" +:+ pretty (zlen (rc_bytes rc)) +:+
             " size=" +:+ pretty size +:+ " chunk_size=" +:+ pretty (cli_chunk_size c) +:+ nl);
  _ ← save_state_file env;
  mret 0.

Definition usage : string :=
  "usage: checkpoint-store <command> [--root DIR] [--boot N] ..." +:+ nl +:+
  "commands: family-create checkpoint-create checkpoint-show verify restore manifest chunks " +:+
  "replicas retain retire gc-plan gc-run explain save recover simulate benchmark" +:+ nl.

Definition run_command (env : Clocks) (c : Cli) (command : string) (rest : list string) : Cmd Z :=
  if String.eqb command "family-create" then cmd_family_create env rest
  else if String.eqb command "checkpoint-create" then cmd_checkpoint_create env rest
  else if String.eqb command "checkpoint-show" then cmd_checkpoint_show rest
  else if String.eqb command "verify" then cmd_verify rest
  else if String.eqb command "restore" then cmd_restore env rest
  else if String.eqb command "manifest" then cmd_manifest rest
  else if String.eqb command "chunks" then cmd_chunks rest
  else if String.eqb command "replicas" then cmd_replicas rest
  else if String.eqb command "retain" then cmd_retain env rest
  else if String.eqb command "retire" then cmd_retire env rest
  else if String.eqb command "gc-plan" then cmd_gc_plan env
  else if String.eqb command "gc-run" then cmd_gc_run env
  else if String.eqb command "explain" then cmd_explain rest
  else if String.eqb command "save" then cmd_save env c
  else if String.eqb command "recover" then cmd_recover c
  else if String.eqb command "simulate" then cmd_simulate env
  else if String.eqb command "benchmark" then cmd_benchmark env c rest
  else _ ← print usage; mret 2.

(** The options every command shares; [cwd] is the current directory. *)
Definition configure (cwd : string) (rest : list string) : Cli :=
  let root := if has rest "--root" then opt rest "--root" ""
              else path_append cwd "checkpoint-store-data" in
  mkCli root (path_append (path_append root "metadata") "checkpoint-store.state")
    (path_append root "store")
    (if has rest "--boot" then parse_boot (opt rest "--boot" "") else mkId 1)
    (if has rest "--chunk-size" then parse_u64 (opt rest "--chunk-size" "") else 64 * 1024).

(** [main]: how the process ends, its standard output and its standard error,
    and the disk it leaves. *)
Definition main (env : Clocks) (cwd : string) (args : list string) (fs : FileSystem) :
    Exit * (string * string) * FileSystem :=
  let command := match args with a :: _ => a | [] => "" end in
  let rest := match args with _ :: l => l | [] => [] end in
  let c := configure cwd rest in
  let caught (e : CheckpointStoreError) (out : string) (fs : FileSystem) :=
    (Exited 1, (out, "error[" +:+ ErrorCode.to_string (error_code e) +:+ "]: " +:+ error_message e +:+ nl), fs) in
  match create_directories (parse_path (cli_store_root c)) fs with
  | (Ok true, fs1) =>
      match make c fs1 with
      | (Throw e, fs2) => caught e "" fs2
      | (Ok s, _) =>
          match run_command env c command rest (s, "") with
          | (Ok code, (s', out)) => (Exited code, (out, ""), disk_of s')
          | (Throw e, (s', out)) => caught e out (disk_of s')
          end
      end
  | (Ok false, fs1) => (Terminated "filesystem_error", ("", ""), fs1)
  | (Throw e, fs1) => caught e "" fs1
  end.
End cli.
