(* ===== verification/CliReads.v ===== *)
(** * CliReads: the commands that only look

    Every command of the command line but the eight that save: opening the
    store, loading the state and running the command change no file, on the way
    or at the end. *)
From stdpp Require Import functions.
From S2P Require Import Prelude Base Hash Model Dedup BinFormat Backend Store Publish Restore Retention Gc FileSystem StateCodec LocalBackend Persistence Recovery Accounting Explain Cli.

(** ** Loading leaves the backends alone *)
Section loading.
Context `{IterOrder} {B : Type}.
Implicit Types s : CheckpointStore B.

Definition same_heap s s' : Prop := s_heap s' = s_heap s.
#[export] Instance same_heap_preorder : PreOrder same_heap.
Proof. split; [done|]. unfold same_heap. intros s1 s2 s3 H12 H23. congruence. Qed.
Definition same_heap1 (p p' : CheckpointStore B * BinReader) : Prop := same_heap p.1 p'.1.
#[export] Instance same_heap1_preorder : PreOrder same_heap1.
Proof. split; [by intros ?|]. unfold same_heap1. intros p1 p2 p3 H12 H23. by etrans. Qed.

Lemma heap_on_store {A} (m : ST (CheckpointStore B) CheckpointStoreError A) :
  frames same_heap m → frames same_heap1 (on_store m).
Proof. intros Hm [s r]. specialize (Hm s). unfold on_store, zoom, same_heap1. cbn. by destruct (m s). Qed.
Lemma heap_on_reader {A} (p : Reader A) : frames same_heap1 (on_reader (B:=B) p).
Proof. intros [s r]. unfold on_reader, zoom, same_heap1. cbn. by destruct (p r). Qed.
Lemma heap_impl {A} (f : Impl → A) : frames same_heap (get_impl (B:=B) f).
Proof. by intros s. Qed.
Lemma heap_modify (f : Impl → Impl) : frames same_heap (modify_impl (B:=B) f).
Proof. by intros s. Qed.
Lemma heap_on_dedup {A} (m : ST DedupTable CheckpointStoreError A) : frames same_heap (on_dedup (B:=B) m).
Proof. intros s. unfold on_dedup, zoom. by destruct (m (s_dedup s)). Qed.

Create HintDb heap.
#[local] Hint Resolve heap_on_store heap_on_reader heap_impl heap_modify heap_on_dedup : heap.
Ltac heap_steps := unfold raise_if, raise; solve_frames; eauto with heap; try done.

Lemma heap_field {A} (p : Reader A) (assign : A → CheckpointStore B → CheckpointStore B) :
  (∀ a s, same_heap s (assign a s)) → frames same_heap1 (load_field p assign).
Proof.
  intros Ha. unfold load_field. apply frames_bind; [apply _|apply heap_on_reader|].
  intros a. apply heap_on_store. intros s. apply Ha.
Qed.
Lemma heap_each {A} (p : Reader A) (add : A → ST (CheckpointStore B) CheckpointStoreError unit) :
  (∀ a, frames same_heap (add a)) → frames same_heap1 (load_each p add).
Proof.
  intros Ha. unfold load_each. solve_frames; [apply heap_on_reader|].
  match goal with |- frames _ (times ?n _) => generalize n end. intros n.
  induction n as [|n IH]; simpl; [apply frames_ret, _|].
  apply frames_bind; [apply _|apply frames_bind; [apply _|apply heap_on_reader|auto with heap]|done].
Qed.
Lemma heap_add_unique `{Countable K} {A} (field : Impl → gmap K A) put key (a : A) msg :
  frames same_heap (add_unique (B:=B) field put key a msg).
Proof. unfold add_unique. heap_steps. Qed.
#[local] Hint Resolve heap_add_unique : heap.

Lemma heap_load_body : frames same_heap1 (load_body (B:=B)).
Proof.
  unfold load_body. apply frames_bind; [apply _| |intros _].
  2: { heap_steps; apply heap_on_store; by intros s. }
  unfold load_records, advance_generations. frames_chain;
    first [ apply heap_each; intros a; unfold add_family, add_record, add_blob, add_replica, add_placement,
              add_policy, add_dedup; heap_steps
          | unfold load_header; frames_chain; apply heap_field; intros a s; exact eq_refl
          | unfold load_gc; frames_chain; apply heap_field; intros a s; exact eq_refl
          | auto with heap ].
Qed.

(** Loading neither writes to the disk nor touches a backend. *)
Lemma load_state_disk s fs : (load_state (s, fs)).2.2 = fs ∧ same_heap s (load_state (s, fs)).2.1.
Proof.
  unfold load_state, gets, on_fs, zoom, read_file, read_stream, lift_result, mbind, ST_bind. cbn [fst snd].
  unfold gets. cbn [fst snd]. destruct (file_at (fs_disk fs) _) as [raw|]; [|done].
  unfold mret, ST_ret. cbn [fst snd]. destruct (check_frame raw) as [body|e]; [|done].
  unfold rebuild. pose proof (heap_load_body (s, new_reader body)) as Hb. unfold same_heap1 in Hb.
  destruct (load_body (s, new_reader body)) as [r [s' rd]]. by split.
Qed.
End loading.

(** ** What a command changes on the disk *)
Section reads.
Context `{IterOrder}.
Abbreviation St := (CheckpointStore LocalBackend).
Abbreviation Cmd := (ST (St * string) CheckpointStoreError).

(** From one state to the next only files in [X] change. *)
Definition store_touches (X : Path → Prop) (s s' : St) : Prop := touches X (disk_of s) (disk_of s').
Definition cmd_touches (X : Path → Prop) (p p' : St * string) : Prop := store_touches X p.1 p'.1.
#[export] Instance store_touches_preorder X : PreOrder (store_touches X).
Proof. split; [intros s; unfold store_touches; reflexivity|]. intros s1 s2 s3. unfold store_touches. apply transitivity. Qed.
#[export] Instance cmd_touches_preorder X : PreOrder (cmd_touches X).
Proof. split; [intros p; unfold cmd_touches; reflexivity|]. intros p1 p2 p3. unfold cmd_touches. apply transitivity. Qed.

Lemma disk_put fs (s : St) : disk_of (put_disk fs s) = fs.
Proof. unfold disk_of, put_disk. cbn. by rewrite fn_lookup_insert. Qed.
Lemma heap_touches X (s s' : St) : s_heap s' 0%nat = s_heap s 0%nat → store_touches X s s'.
Proof. intros E. unfold store_touches, disk_of. rewrite E. reflexivity. Qed.

Lemma frames_in_cmd X {A} (m : ST St CheckpointStoreError A) :
  frames (store_touches X) m → frames (cmd_touches X) (in_cmd m).
Proof. intros Hm [s out]. specialize (Hm s). unfold in_cmd, zoom, cmd_touches. cbn in *. by destruct (m s). Qed.
Lemma frames_print X text : frames (cmd_touches X) (print text).
Proof. intros p. unfold cmd_touches. reflexivity. Qed.
Lemma frames_same_heap X {A} (m : ST St CheckpointStoreError A) : frames same_heap m → frames (store_touches X) m.
Proof. intros Hm s. apply heap_touches. by rewrite (Hm s). Qed.
Lemma frames_content X {A} (m : ST St CheckpointStoreError A) : frames content_kept m → frames (store_touches X) m.
Proof. intros Hm s. destruct (Hm s) as (_ & _ & _ & E). apply heap_touches, E. Qed.
Lemma frames_on_out (X : Path → Prop) {A} (m : Fs A) : frames (touches X) m → frames (cmd_touches X) (on_out m).
Proof.
  intros Hm. apply frames_in_cmd. intros s. specialize (Hm (disk_of s)). unfold zoom, store_touches.
  destruct (m (disk_of s)) as [r fs]. cbn. by rewrite disk_put.
Qed.

Lemma get_checkpoint_heap id : frames same_heap (get_checkpoint (B:=LocalBackend) id).
Proof. unfold get_checkpoint. solve_frames. apply find_checkpoint_frames, _. Qed.
Lemma get_manifest_heap id : frames same_heap (get_manifest (B:=LocalBackend) id).
Proof. unfold get_manifest. solve_frames. apply find_checkpoint_frames, _. Qed.
Lemma get_chunks_heap id : frames same_heap (get_chunks (B:=LocalBackend) id).
Proof. unfold get_chunks. solve_frames. apply find_checkpoint_frames, _. Qed.
Lemma get_replicas_heap id : frames same_heap (get_replicas (B:=LocalBackend) id).
Proof. unfold get_replicas, get_impl. solve_frames. apply find_checkpoint_frames, _. Qed.
Lemma explain_heap id : frames same_heap (explain_checkpoint_integrity (B:=LocalBackend) id).
Proof. intros s. unfold explain_checkpoint_integrity, get, mbind, ST_bind. by destruct (_ !! id). Qed.
Lemma list_checkpoints_heap : frames same_heap (list_checkpoints (B:=LocalBackend)).
Proof. by intros s. Qed.
Lemma reset_authority_heap : frames same_heap (reset_authority (B:=LocalBackend)).
Proof. by intros s. Qed.
Lemma gc_plan_heap clock : frames same_heap (gc_plan (B:=LocalBackend) clock).
Proof. by intros s. Qed.

Create HintDb cli.
#[local] Hint Resolve get_checkpoint_heap get_manifest_heap get_chunks_heap get_replicas_heap explain_heap
  list_checkpoints_heap reset_authority_heap gc_plan_heap : cli.
(** The frames of the statements of a command. *)
Ltac cli_frames := solve_frames;
  first [ apply frames_print
        | apply frames_in_cmd;
          first [ apply frames_content; first [apply restore_frames | apply verify_checkpoint_frames]
                | apply frames_same_heap; solve [auto with cli] ]
        | idtac ].

(** ** Opening the store *)
Lemma frames_init_root root : frames (touches (λ _, False)) (init_root root).
Proof.
  unfold init_root, raise_if.
  repeat first [apply frames_create_directories | progress solve_frames | by intros s; unfold path_exists, gets; reflexivity].
Qed.
Lemma new_local_disk root id fs : match new_local root id fs with
  | Ok b => touches (λ _, False) fs (lo_fs b)
  | Throw _ => True
  end.
Proof.
  pose proof (frames_init_root root fs) as F. unfold new_local. destruct (init_root root fs) as [[[]|e] fs']; exact F || done.
Qed.

Lemma make_touches c fs : touches (λ _, False) fs (make c fs).2 ∧
  ∀ s, (make c fs).1 = Ok s → disk_of s = (make c fs).2.
Proof.
  unfold make. pose proof (new_local_disk (cli_store_root c) (mkId 1) fs) as Hn.
  pose proof (frames_init_root (cli_store_root c) fs) as Hi.
  destruct (new_local (cli_store_root c) (mkId 1) fs) as [b|e]; [|by split].
  set (s0 := new_store _ _). rewrite (st_bind_run _ _ _ tt (set_impl (λ i, i <| im_backends ::= <[mkId 1 := 0%nat]> |>) s0)) by done.
  set (s1 := set_impl _ s0). rewrite (st_bind_run _ _ _ (exists_at (fs_disk (lo_fs b)) (parse_path (cli_state_path c))) s1) by done.
  assert (touches (λ _, False) fs (disk_of s1)) as H1 by done.
  destruct (exists_at _ _); [|by split; [|intros s [= <-]]].
  unfold on_store_disk, zoom. pose proof (load_state_disk s1 (disk_of s1)) as [D _].
  destruct (load_state (s1, disk_of s1)) as [r [s2 fs2]]. cbn in D. subst fs2. cbn. rewrite disk_put.
  split; [done|]. destruct r; [|done]. intros s [= <-]. apply disk_put.
Qed.

Lemma frames_reopen X c : frames (cmd_touches X) (reopen c).
Proof.
  intros p. unfold reopen, cmd_touches. destruct (make_touches c (disk_of p.1)) as [T D].
  assert (touches X (disk_of p.1) (make c (disk_of p.1)).2) as T' by (eapply touches_weaken; [|exact T]; by intros q []).
  destruct (make c (disk_of p.1)) as [[s2|e] fs]; cbn in *; unfold store_touches; [by rewrite (D s2)|by rewrite disk_put].
Qed.

(** ** The commands *)
Definition writers : list string :=
  ["family-create"; "checkpoint-create"; "retain"; "retire"; "gc-run"; "save"; "simulate"; "benchmark"].
(** The file a restore is asked to write. *)
Definition out_file (command : string) (rest : list string) (q : Path) : Prop :=
  command = "restore" ∧ has rest "--out" = true ∧ q = parse_path (opt rest "--out" "").

Lemma frames_write_out path data : frames (touches (λ q, q = parse_path path)) (write_out path data).
Proof.
  intros s. unfold write_out.
  apply (run_framed (touches (λ q, q = parse_path path)) _ _ (λ _ s', touches (λ q, q = parse_path path) s s')).
  - apply frames_open_trunc.
  - done.
  - intros opened s1 E T. destruct opened; [|done]. etrans; [exact T|].
    assert (parse_path path ≠ []) as Hn.
    { intros Hp. unfold open_trunc in E. rewrite Hp in E. apply st_bind_ok in E as ([f|] & s2 & _ & E); discriminate E. }
    assert (frames (touches (λ q, q = parse_path path)) (_ ← write_stream (parse_path path) data; mret tt)) as F; [|apply F].
    apply frames_bind; [apply _|by apply frames_write_stream|by intros ? ?].
Qed.

Lemma frames_cmd_restore env rest : frames (cmd_touches (out_file "restore" rest)) (cmd_restore env rest).
Proof.
  unfold cmd_restore. destruct (has rest "--out") eqn:Eo; cli_frames. apply frames_on_out. intros s.
  eapply touches_weaken; [|apply frames_write_out]. intros q ->. by split.
Qed.

Lemma command_touches env c command rest : command ∉ writers →
  frames (cmd_touches (out_file command rest)) (run_command env c command rest).
Proof.
  unfold writers. rewrite !not_elem_of_cons. intros (H1 & H2 & H3 & H4 & H5 & H6 & H7 & H8 & _). unfold run_command.
  apply String.eqb_neq in H1, H2, H3, H4, H5, H6, H7, H8. rewrite H1, H2, H3, H4, H5, H6, H7, H8.
  destruct (String.eqb_spec command "checkpoint-show") as [->|_]; [unfold cmd_checkpoint_show, print_checkpoint; cli_frames|].
  destruct (String.eqb_spec command "verify") as [->|_]; [unfold cmd_verify; cli_frames|].
  destruct (String.eqb_spec command "restore") as [->|_]; [apply frames_cmd_restore|].
  destruct (String.eqb_spec command "manifest") as [->|_]; [unfold cmd_manifest; cli_frames|].
  destruct (String.eqb_spec command "chunks") as [->|_]; [unfold cmd_chunks; cli_frames|].
  destruct (String.eqb_spec command "replicas") as [->|_]; [unfold cmd_replicas; cli_frames|].
  destruct (String.eqb_spec command "gc-plan") as [->|_]; [unfold cmd_gc_plan; cli_frames|].
  destruct (String.eqb_spec command "explain") as [->|_]; [unfold cmd_explain; cli_frames|].
  destruct (String.eqb_spec command "recover") as [->|_].
  { unfold cmd_recover. apply frames_bind; [apply _|apply frames_reopen|intros _]. cli_frames. }
  cli_frames.
Qed.

End reads.

(** ** The claim *)

(** C39: The commands that only look change no file.  Whatever the disk, the
    environment and the rest of the command line, and however the process ends
    (normally, with a reported error or by an uncaught exception), a command
    word that is not one of the eight that save leaves every file as it was,
    in every state the disk goes through; a restore told to write its result
    may change that one file.  In particular opening the store, loading the
    state and verifying never touch the state file or an object. *)
Theorem reading_commands_keep_files `{IterOrder} env cwd command rest fs :
  command ∉ writers → touches (out_file command rest) fs (main env cwd (command :: rest) fs).2.
Proof.
  intros Hw. unfold main. set (c := configure cwd rest).
  assert (∀ fs1 fs2, touches (λ _, False) fs1 fs2 → touches (out_file command rest) fs1 fs2) as Hweak.
  { intros fs1 fs2. apply touches_weaken. by intros q []. }
  pose proof (frames_create_directories (parse_path (cli_store_root c)) fs) as Fc.
  destruct (create_directories (parse_path (cli_store_root c)) fs) as [[[]|e] fs1]; cbn [snd] in *; [|by apply Hweak..].
  etrans; [by apply Hweak|]. destruct (make_touches c fs1) as [Tm Dm].
  destruct (make c fs1) as [[s|e] fs2]; cbn [fst snd] in *; [|by apply Hweak].
  rewrite <- (Dm s) in Tm by done. etrans; [apply Hweak, Tm|].
  pose proof (command_touches env c command rest Hw (s, "")) as Fr. unfold cmd_touches, store_touches in Fr. cbn [fst] in Fr.
  by destruct (run_command env c command rest (s, "")) as [[code|e] [s' out]].
Qed.

(** ** Sessions *)
#[local] Existing Instance canonical_order.
Definition demo_clocks : Clocks := mkClocks 5000000 1 no_clock no_clock no_clock no_clock 42 3 4.
Definition cli_run (args : list string) (fs : FileSystem) : Exit * (string * string) * FileSystem :=
  main demo_clocks "home" (args ++ ["--root"; "d"; "--chunk-size"; "2"]) fs.
Definition from_ok {A} (d : A) (r : outcome A) : A := match r with Ok a => a | Throw _ => d end.
(** The disk after one process has created a family. *)
Definition demo_disk : FileSystem := (cli_run ["family-create"] blank_disk).2.

Lemma reading_commands_keep_files_witness :
  touches (out_file "verify" ["--id"; "1000"; "--root"; "d"]) demo_disk
    (main demo_clocks "home" ["verify"; "--id"; "1000"; "--root"; "d"] demo_disk).2.
Proof.
  assert ("verify" ∉ writers) as Hw.
  { unfold writers. rewrite !not_elem_of_cons. repeat split; discriminate || apply not_elem_of_nil. }
  exact (reading_commands_keep_files demo_clocks "home" "verify" ["--id"; "1000"; "--root"; "d"] demo_disk Hw).
Defined.

(** Nobody looks at the stream a restore writes to: when the file cannot be
    opened, the statement returns all the same, and "wrote=" is printed. *)
Example restore_claims_to_have_written :
  let out := write_out "nowhere/x.bin" [x41] blank_disk in
  out.1 = Ok tt ∧ file_at (fs_disk out.2) ["nowhere"; "x.bin"] = None.
Proof. vm_compute. by split. Qed.

(** Every process starts from the state file, which does not hold the next
    family id: [family-create] names the same family each time. *)
Example every_family_is_the_first :
  (cli_run ["family-create"] demo_disk).1 = (Exited 0, ("family=0000000000000001" +:+ nl, "")).
Proof. vm_compute. reflexivity. Qed.

(** The policy a [retain] sets has the id 1 unless told otherwise, and policies
    are kept by id: retaining a second family drops the first one's policy. *)
Example retain_forgets_other_family :
  let new := new_store default_StoreOptions (λ _, demo_local) in
  let s := (cmd_retain demo_clocks ["--family"; "1"; "--latest"; "9"] (new, "")).2 in
  let s' := (cmd_retain demo_clocks ["--family"; "2"; "--latest"; "9"] s).2 in
  let policies (p : CheckpointStore LocalBackend * string) :=
    pol_family_id <$> (map_to_list (im_retention (s_impl p.1))).*2 in
  policies s = [mkId 1] ∧ policies s' = [mkId 2].
Proof. vm_compute. by split. Qed.

(** [--boot] names the authority of a new store only: loading the state puts the
    saved one back. *)
Example boot_option_overridden :
  let new := new_store (default_StoreOptions <| opt_boot_id := mkId 77 |>) (λ _, demo_local) in
  opt_boot_id (s_options (from_ok new (make (configure "home" ["--root"; "d"; "--boot"; "77"]) demo_disk).1)) = mkId 1.
Proof. vm_compute. reflexivity. Qed.

(** A number that is not one reads as 0, a negative one wraps around, one out of
    range is the largest. *)
Example words_that_are_no_numbers :
  (parse_u64 "", parse_u64 "x7", parse_u64 " +12x", parse_u64 "-1", parse_u64 "18446744073709551616") =
  (0, 0, 12, 18446744073709551615, 18446744073709551615).
Proof. reflexivity. Qed.

(** An unknown command is found out after the store has been opened, and created
    if need be. *)
Example unknown_command_creates_the_store :
  let out := cli_run ["frobnicate"] blank_disk in
  out.1.1 = Exited 2 ∧ is_dir (fs_disk out.2) ["d"; "store"; "blobs"] = true.
Proof. vm_compute. by split. Qed.
