(* ===== verification/Restart.v ===== *)
(** * Restart: what was published survives the process

    A publication, the saving of the state and the opening of a new process on
    the same directories, composed: the disk holds the objects and the state
    file together, and the new process restores from them. *)
From stdpp Require Import pretty functions.
From S2P Require Import Prelude Base Hash Model Chunking Dedup BinFormat Backend Store Publish Restore FileSystem StateCodec LocalBackend Persistence Recovery Cli CliReads.

(** ** The paths of a configuration *)
Lemma split_on_slash_app a b : split_on is_slash (a +:+ String "/" b) = split_on is_slash a ++ split_on is_slash b.
Proof.
  induction a as [|c a IH]; [done|]. change (String c a +:+ String "/" b) with (String c (a +:+ String "/" b)).
  cbn [split_on]. rewrite IH. destruct (is_slash c); [done|].
  pose proof (split_on_not_nil is_slash a). by destruct (split_on is_slash a).
Qed.
Lemma parse_path_slash a b : parse_path (a +:+ String "/" b) = parse_path a ++ parse_path b.
Proof. unfold parse_path. by rewrite split_on_slash_app, filter_app. Qed.

Lemma back_slash path : back path = Some "/"%char → ∃ a, path = a +:+ "/".
Proof.
  unfold back. induction path as [|c path IH]; [done|]. destruct path as [|c' path].
  - cbn. intros [= ->]. by exists "".
  - intros E. destruct IH as [a Ha].
    + cbn [String.length] in *. rewrite Nat.sub_succ, Nat.sub_0_r in *. exact E.
    + exists (String c a). by rewrite Ha.
Qed.
Lemma string_app_assoc (a b c : string) : (a +:+ b) +:+ c = a +:+ (b +:+ c).
Proof. induction a as [|x a IH]; [done|]. change (String x ((a +:+ b) +:+ c) = String x (a +:+ (b +:+ c))). by rewrite IH. Qed.

Lemma parse_path_append a b : parse_path (path_append a b) = parse_path a ++ parse_path b.
Proof.
  unfold path_append. destruct (String.eqb_spec a "") as [->|Ha]; [done|]. cbn [orb]. case_bool_decide as E.
  - apply back_slash in E as [a' ->]. rewrite string_app_assoc. change ("/" +:+ b) with (String "/" b).
    rewrite parse_path_slash. change (a' +:+ "/") with (a' +:+ String "/" ""). rewrite parse_path_slash.
    change (parse_path "") with ([] : Path). by rewrite app_nil_r.
  - change ("/" +:+ b) with (String "/" b). apply parse_path_slash.
Qed.
Lemma path_append_app a b t : path_append a b +:+ t = path_append a (b +:+ t).
Proof. unfold path_append. destruct (_ || _); by rewrite !string_app_assoc. Qed.

(** The directories of a configuration below its root. *)
Definition state_file (root : Path) : Path := root ++ ["metadata"; "checkpoint-store.state"].
Lemma configure_paths cwd rest : let c := configure cwd rest in
  parse_path (cli_state_path c) = state_file (parse_path (cli_root c)) ∧
  parse_path (cli_store_root c) = parse_path (cli_root c) ++ ["store"] ∧
  ∀ ticks, parse_path (temp_name (cli_state_path c) ticks) =
    parse_path (cli_root c) ++ "metadata" :: parse_path ("checkpoint-store.state.tmp." +:+ pretty ticks).
Proof.
  unfold configure, state_file. cbn [cli_root cli_state_path cli_store_root].
  split; [|split].
  - by rewrite !parse_path_append, <- app_assoc.
  - by rewrite parse_path_append.
  - intros ticks. unfold temp_name. rewrite path_append_app, !parse_path_append, <- app_assoc. done.
Qed.

(** ** Saving the state leaves the objects alone *)
Lemma atomic_write_touches ticks path data : parse_path path ≠ [] →
  frames (touches (λ q, is_prefix (parse_path path) q = true ∨
                        is_prefix (parse_path (temp_name path ticks)) q = true))
    (atomic_write_file ticks path data).
Proof.
  intros Hp. destruct (temp_path_spec path ticks) as (_ & Ht & _).
  set (X := λ q, is_prefix (parse_path path) q = true ∨ is_prefix (parse_path (temp_name path ticks)) q = true).
  assert (∀ p, is_prefix p p = true) as Hpp by (intros p; apply is_prefix_spec; exists []; by rewrite app_nil_r).
  assert (∀ p (m : Fs bool), X p → frames (touches (λ q, q = p)) m → frames (touches X) m) as Hw.
  { intros p m Hx Hm s. eapply touches_weaken; [|apply Hm]. by intros q ->. }
  unfold atomic_write_file, raise_if, raise, path_exists. solve_frames.
  - intros s. eapply touches_weaken; [|apply frames_create_directories]. by intros q [].
  - apply (Hw (parse_path (temp_name path ticks))); [right; apply Hpp|apply frames_open_trunc].
  - apply (Hw (parse_path (temp_name path ticks))); [right; apply Hpp|by apply frames_write_stream].
  - apply (Hw (parse_path (temp_name path ticks))); [right; apply Hpp|apply frames_remove_path].
  - apply (Hw (parse_path path)); [left; apply Hpp|apply frames_remove_path].
  - intros s. eapply touches_weaken; [|apply rename_path_touches, Hp]. unfold X. tauto.
Qed.

(** ** Opening the store again *)
Section restart.
Context `{IterOrder}.
Abbreviation St := (CheckpointStore LocalBackend).
Implicit Types s : St.

(** [s] is a store of the configuration [c]. *)
Definition opened_with (c : Cli) s : Prop :=
  opt_state_path (s_options s) = cli_state_path c ∧ im_backends (s_impl s) = {[mkId 1 := 0%nat]} ∧
  lo_root (s_heap s 0%nat) = parse_path (cli_store_root c).

(** The tables a restore reads. *)
Definition restorable s := (im_replicas (s_impl s), im_placements (s_impl s), im_backends (s_impl s)).

Lemma save_disk ticks s s' : parse_path (opt_state_path (s_options s)) ≠ [] →
  on_store_disk (save_state ticks) s = (Ok tt, s') →
  file_at (fs_disk (disk_of s')) (parse_path (opt_state_path (s_options s))) = Some (state_frame (save_body s)) ∧
  touches (λ q, is_prefix (parse_path (opt_state_path (s_options s))) q = true ∨
                is_prefix (parse_path (temp_name (opt_state_path (s_options s)) ticks)) q = true)
    (disk_of s) (disk_of s').
Proof.
  intros Hp. unfold on_store_disk, zoom. unfold save_state, gets, mbind, ST_bind. cbn [fst snd].
  unfold on_fs, zoom. cbn [fst snd].
  pose proof (atomic_write_touches ticks (opt_state_path (s_options s)) (state_frame (save_body s)) Hp (disk_of s)) as Ht.
  destruct (write_state_file ticks (opt_state_path (s_options s)) (state_frame (save_body s)) Hp (disk_of s)) as [_ Hok].
  destruct (atomic_write_file _ _ _ (disk_of s)) as [r fs]. cbn [fst snd] in *. intros [= -> <-].
  rewrite disk_put. split; [by apply Hok|done].
Qed.

Lemma new_local_root root id fs b : new_local root id fs = Ok b → lo_root b = parse_path root.
Proof. unfold new_local. destruct (init_root root fs) as [[[]|] fs']; [|done]. by intros [= <-]. Qed.

(** What a process finds that opens the store on a disk with a saved state. *)
Lemma make_saved c s fs s' : persistable s → file_at (fs_disk fs) (parse_path (cli_state_path c)) = Some (state_frame (save_body s)) →
  (make c fs).1 = Ok s' →
  im_checkpoints (s_impl s') = canon_record <$> im_checkpoints (s_impl s) ∧
  restorable s' = (im_replicas (s_impl s), im_placements (s_impl s), {[mkId 1 := 0%nat]}) ∧
  lo_root (s_heap s' 0%nat) = parse_path (cli_store_root c) ∧ touches (λ _, False) fs (disk_of s').
Proof.
  intros Hs Hf Hmk. destruct (make_touches c fs) as [Tm Dm]. rewrite <- (Dm s' Hmk) in Tm. unfold make in Hmk.
  pose proof (new_local_disk (cli_store_root c) (mkId 1) fs) as Hn.
  destruct (new_local (cli_store_root c) (mkId 1) fs) as [b|e] eqn:Eb; [|done]. apply new_local_root in Eb.
  revert Hmk. set (s0 := new_store _ _).
  rewrite (st_bind_run _ _ _ tt (set_impl (λ i, i <| im_backends ::= <[mkId 1 := 0%nat]> |>) s0)) by done.
  set (s1 := set_impl _ s0). rewrite (st_bind_run _ _ _ (exists_at (fs_disk (lo_fs b)) (parse_path (cli_state_path c))) s1) by done.
  assert (file_at (fs_disk (disk_of s1)) (state_path s1) = Some (state_frame (save_body s))) as Hf1.
  { rewrite <- Hf. apply Hn. tauto. }
  assert (exists_at (fs_disk (lo_fs b)) (parse_path (cli_state_path c)) = true) as ->.
  { change (lo_fs b) with (disk_of s1). change (state_path s1) with (parse_path (cli_state_path c)) in Hf1.
    unfold file_at in Hf1. unfold exists_at. by destruct (node_at (fs_disk (disk_of s1)) (parse_path (cli_state_path c))). }
  unfold on_store_disk, zoom. rewrite (load_saved s s1 (disk_of s1) Hs) by done.
  cbn [fst snd]. intros [= <-]. split; [done|]. split; [done|]. split; [|done].
  unfold put_disk. cbn. rewrite fn_lookup_insert. exact Eb.
Qed.

(** An object of the store is at no path that saving writes. *)
Lemma object_not_state root d (r : Path) b : length d = 32%nat → lo_root b = root ++ ["store"] →
  is_prefix (root ++ "metadata" :: r) (object_path b (blob_key d)) = false.
Proof.
  intros Hl Hr. apply not_true_iff_false. intros (k & E)%is_prefix_spec. unfold object_path in E.
  rewrite Hr, <- !app_assoc in E. apply app_inv_head in E. discriminate E.
Qed.

(** Reading a blob after the restart. *)
Lemma read_after_restart cwd rest cwd' rest' ticks s1 s2 s3 d :
  let c := configure cwd rest in let c' := configure cwd' rest' in
  cli_root c' = cli_root c → opened_with c s1 → persistable s1 → length d = 32%nat →
  on_store_disk (save_state ticks) s1 = (Ok tt, s2) → (make c' (disk_of s2)).1 = Ok s3 →
  im_checkpoints (s_impl s3) = canon_record <$> im_checkpoints (s_impl s1) ∧ restorable s3 = restorable s1 ∧
  (lo_read (blob_key d) (s_heap s3 0%nat)).1 = (lo_read (blob_key d) (s_heap s1 0%nat)).1.
Proof.
  intros c c' Hroot (Hpath & Hbk & Hlr) Hs Hl Hsave Hmk.
  destruct (configure_paths cwd rest) as (P1 & P2 & P3). destruct (configure_paths cwd' rest') as (Q1 & Q2 & _).
  fold c in P1, P2, P3. fold c' in Q1, Q2. rewrite Hroot in Q1, Q2.
  destruct (save_disk ticks s1 s2) as [Hf Ht]; [rewrite Hpath, P1; by destruct (parse_path (cli_root c))|done|].
  rewrite Hpath, P1 in Hf. rewrite Hpath, P1, P3 in Ht.
  destruct (make_saved c' s1 (disk_of s2) s3 Hs) as (Hck & Hres & Hlr3 & Tm); [by rewrite Q1|done|].
  split; [done|]. split; [rewrite Hres; unfold restorable; by rewrite Hbk|].
  apply object_at_same; [by rewrite Hlr, Hlr3, P2, Q2|].
  assert (file_at (fs_disk (lo_fs (s_heap s3 0%nat))) (object_path (s_heap s1 0%nat) (blob_key d)) =
    file_at (fs_disk (disk_of s2)) (object_path (s_heap s1 0%nat) (blob_key d))) as -> by (apply Tm; tauto).
  apply Ht. unfold state_file. rewrite !object_not_state by (done || by rewrite Hlr). naive_solver.
Qed.
End restart.

(** ** The claim *)
Section claim.
Context `{IterOrder}.
Abbreviation St := (CheckpointStore LocalBackend).

Lemma servable_after (s1 s3 : St) rec e rb :
  im_backends (s_impl s1) = {[mkId 1 := 0%nat]} → restorable s3 = restorable s1 →
  (health (s_heap s3 0%nat)).1 = Ok true →
  (∀ d, length d = 32%nat →
    (lo_read (blob_key d) (s_heap s3 0%nat)).1 = (lo_read (blob_key d) (s_heap s1 0%nat)).1) →
  servable s1 rec e rb → servable s3 (canon_record rec) e rb.
Proof.
  intros Hb [= Hr Hpl Hbk] Hh Hread (n & cd & rid & Hfind & Hp & rd & p & H1 & H2 & H3 & H4 & H5).
  exists n, cd, rid. split; [done|]. rewrite Hpl. split; [done|]. exists rd, p. rewrite Hr, Hbk. split; [done|]. split; [done|].
  rewrite Hb in H2. apply lookup_singleton_Some in H2 as [_ <-]. split; [done|]. split; [|done].
  rewrite <- H4. apply Hread. rewrite <- H5. apply length_sha256.
Qed.

(** C9: What was published survives the process.  A checkpoint is published into
    a store of the program, the state is saved (both on the one disk, at a
    moment of any clock), and the process ends; another process, with any
    incarnation and chunk size but the same root, opens the store.  Then the
    checkpoint can be restored there, and its bytes have the digest of the data
    that was published. *)
Theorem published_survives_restart cwd rest cwd' rest' ticks descriptor data (s s1 s2 s3 : St) res slices
    elapsed rid priority :
  publish descriptor data s = (Ok res, s1) → is_u64 (zlen data) → ids_below s →
  0 ≤ im_next_id_counter (s_impl s) → im_next_id_counter (s_impl s) + zlen data + 1 < 2 ^ 64 →
  chunk_stream data (opt_chunk_size (s_options s)) = Ok slices → ids_distinct slices →
  opened_with (configure cwd rest) s1 → persistable s1 → (health (s_heap s1 0%nat)).1 = Ok true →
  on_store_disk (save_state ticks) s1 = (Ok tt, s2) →
  cli_root (configure cwd' rest') = cli_root (configure cwd rest) →
  (make (configure cwd' rest') (disk_of s2)).1 = Ok s3 → (health (s_heap s3 0%nat)).1 = Ok true →
  ∃ rc s4, restore elapsed rid (d_id descriptor) priority s3 = (Ok rc, s4) ∧
    sha256 (rc_bytes rc) = sha256 data.
Proof.
  intros Hpub Hd Hids Hc0 Hbound Hcs Hdist Hopen Hpers Hh1 Hsave Hroot Hmk Hh3.
  pose proof Hopen as (_ & Hbk & _).
  destruct (publish_ok _ _ _ _ _ Hd Hpub) as (p & sl & Hauth & _ & _ & (?&?&?&?&?&?&_&_&_&_&_&_&_&Hcom)).
  destruct Hcom as (Hck & _ & _ & _ & _ & _ & Hbks & _). destruct Hauth as (_ & _ & _ & _ & _ & Hp).
  assert (p = 0%nat) as ->.
  { rewrite <- Hbks, Hbk in Hp. by apply lookup_singleton_Some in Hp as [_ ->]. }
  set (rec := record_for descriptor data _ _ _ _) in Hck.
  assert (im_checkpoints (s_impl s1) !! d_id descriptor = Some rec) as Hrec by (by rewrite Hck, lookup_insert_eq).
  destruct (published_servable descriptor data s res s1 0%nat slices rec) as (Hl & rbs & Hf & Hsha & Hdig); [done..|].
  destruct (read_after_restart cwd rest cwd' rest' ticks s1 s2 s3 (sha256 []) Hroot Hopen Hpers) as (Hck3 & Hres & _);
    [apply length_sha256|done..|].
  destruct (restore_complete elapsed rid (d_id descriptor) priority s3 (canon_record rec) rbs) as (rc & s4 & Hrun & Hbytes).
  - rewrite Hck3, lookup_fmap, Hrec. done.
  - change (rec_lifecycle (canon_record rec)) with (rec_lifecycle rec). by rewrite Hl.
  - change (rec_lifecycle (canon_record rec)) with (rec_lifecycle rec). by rewrite Hl.
  - eapply Forall2_impl; [exact Hf|]. intros e rb. apply servable_after; [done..|]. intros d Hlen.
    by eapply read_after_restart.
  - done.
  - exists rc, s4. split; [done|]. rewrite Hbytes, Hsha. exact Hdig.
Qed.
End claim.

(** ** Evaluation *)
#[local] Existing Instance canonical_order.

(** A store opened on an empty disk, with one family, publishes a byte. *)
Definition demo_args : list string := ["--root"; "d"; "--chunk-size"; "2"].
Definition demo_open : CheckpointStore LocalBackend :=
  (create_family (mkId 1) Provenance.kUnknown
    (from_ok (new_store default_StoreOptions (λ _, demo_local)) (make (configure "home" demo_args) blank_disk).1)).2.
Definition restart_descriptor : CheckpointDescriptor :=
  from_ok default_CheckpointDescriptor
    (make_full_descriptor 5000000 (mkId 1) (mkId 1) 1 DurabilityClass.kLocal demo_open).1.
Definition restart_data : list byte := [x07].
(** Another process, elsewhere and of another incarnation. *)
Definition other_args : list string := ["--boot"; "9"; "--root"; "d"].

(** The run: publish, save, open again. *)
Definition healthy_store (s : CheckpointStore LocalBackend) : bool :=
  bool_decide ((health (s_heap s 0%nat)).1 = Ok true).
Definition restart_run : bool :=
  match publish restart_descriptor restart_data demo_open with
  | (Ok _, s1) =>
      bool_decide (persistable s1) && healthy_store s1 &&
      bool_decide (opt_state_path (s_options s1) = cli_state_path (configure "home" demo_args)) &&
      bool_decide (im_backends (s_impl s1) = {[mkId 1 := 0%nat]}) &&
      bool_decide (lo_root (s_heap s1 0%nat) = parse_path (cli_store_root (configure "home" demo_args))) &&
      match on_store_disk (save_state 42) s1 with
      | (Ok _, s2) =>
          match (make (configure "elsewhere" other_args) (disk_of s2)).1 with
          | Ok s3 => healthy_store s3
          | Throw _ => false
          end
      | _ => false
      end
  | _ => false
  end.
Lemma restart_runs : restart_run = true.
Proof. vm_compute. reflexivity. Qed.

Lemma published_survives_restart_witness :
  ∃ s3 rc s4, restore 1 (mkId 3) (d_id restart_descriptor) RestorePriority.kHigh s3 = (Ok rc, s4) ∧
    sha256 (rc_bytes rc) = sha256 restart_data.
Proof.
  pose proof restart_runs as Hrun. unfold restart_run in Hrun.
  destruct (chunk_stream restart_data (opt_chunk_size (s_options demo_open))) as [slices|e] eqn:Ec;
    [|exfalso; vm_compute in Ec; discriminate Ec].
  assert (ids_distinct slices) as Rd.
  { vm_compute in Ec. injection Ec as <-. intros sl1 sl2 ->%list_elem_of_singleton ->%list_elem_of_singleton _. exact eq_refl. }
  assert (ids_below demo_open) as Ri by (split; intros id [x Hx]; vm_compute in Hx; discriminate Hx).
  assert (0 ≤ im_next_id_counter (s_impl demo_open)) as Rc by (vm_compute; discriminate).
  assert (im_next_id_counter (s_impl demo_open) + zlen restart_data + 1 < 2 ^ 64) as Rb by (vm_compute; reflexivity).
  assert (is_u64 (zlen restart_data)) as Rz by (by split).
  assert (cli_root (configure "elsewhere" other_args) = cli_root (configure "home" demo_args)) as Er by (vm_compute; reflexivity).
  revert Ec Ri Rc Rb Hrun. generalize demo_open, restart_descriptor. intros s descriptor Ec Ri Rc Rb Hrun.
  destruct (publish descriptor restart_data s) as [[res|e] s1] eqn:E1; [|discriminate Hrun].
  destruct (on_store_disk (save_state 42) s1) as [[[]|e] s2] eqn:E2; [|by rewrite andb_false_r in Hrun].
  destruct (make (configure "elsewhere" other_args) (disk_of s2)).1 as [s3|e] eqn:E3; [|by rewrite andb_false_r in Hrun].
  rewrite !andb_true_iff in Hrun. unfold healthy_store in Hrun. destruct Hrun as (((((H1 & H2) & H3) & H4) & H5) & H6).
  apply bool_decide_eq_true in H1, H2, H3, H4, H5, H6.
  exists s3.
  exact (published_survives_restart "home" demo_args "elsewhere" other_args 42 descriptor
    restart_data s s1 s2 s3 res slices 1 (mkId 3) RestorePriority.kHigh E1 Rz Ri Rc Rb Ec Rd (conj H3 (conj H4 H5)) H1 H2 E2
    Er E3 H6).
Defined.
