(* ===== verification/Tools.v ===== *)
(** * Tools: the coordinator and worker programs

    The [main] functions of [tools/coordinator.cpp] and [tools/worker.cpp] and
    the worker's commands.  Sockets are reduced to what they deliver: the
    coordinator is given the connections it accepts, one after the other, and
    the worker talks to a coordinator over a connection of its own.  What the
    worker prints is part of its state; sleeping is not modelled. *)
From stdpp Require Import pretty.
From S2P Require Import Prelude Base Hash Model BinFormat Protocol Backend Store FileSystem Persistence LocalBackend ProtoOps Coordinator Cli.

(** ** Numbers on a command line *)

(** How a program leaves the code modelled here: by an error it may catch, by
    an exception of the standard library, or by undefined behaviour. *)
Inductive Failure := Reported (e : CheckpointStoreError) | Escaped (what : string) | Undefined.

(** [std::stoull] and [std::stoi] with base 10. *)
Definition stoull (s : string) : result Failure Z :=
  let '(negative, s) := read_sign (skip_space s) in
  let '(seen, v) := read_digits s false 0 in
  if negb seen then Throw (Escaped "std::invalid_argument")
  else if v >? 2 ^ 64 - 1 then Throw (Escaped "std::out_of_range")
  else Ok (if negative : bool then u64 (- v) else v).
Definition stoi (s : string) : result Failure Z :=
  let '(negative, s) := read_sign (skip_space s) in
  let '(seen, v) := read_digits s false 0 in
  let v := if negative : bool then - v else v in
  if negb seen then Throw (Escaped "std::invalid_argument")
  else if (v <? - 2 ^ 31) || (v >? 2 ^ 31 - 1) then Throw (Escaped "std::out_of_range")
  else Ok v.
Definition to_port (n : Z) : Z := n mod 2 ^ 16.

(** ** The worker's arguments *)
Record WorkerArgs := mkWorkerArgs {
  wa_host : string; wa_port : Z; wa_boot : Z; wa_epoch : Z; wa_command : string; wa_args : list string
}.
#[export] Instance eta_WorkerArgs : Eta WorkerArgs := λ r,
  mkWorkerArgs (wa_host r) (wa_port r) (wa_boot r) (wa_epoch r) (wa_command r) (wa_args r).
Definition default_WorkerArgs : WorkerArgs := mkWorkerArgs "127.0.0.1" 33123 1 1 "" [].

(** A word that is no option: the command, or an argument of it. *)
Definition add_word (a : string) (w : WorkerArgs) : WorkerArgs :=
  if String.eqb (wa_command w) "" then w <| wa_command := a |> else w <| wa_args ::= λ l, l ++ [a] |>.
(** An option and its value, or [None] for another word. *)
Definition worker_option (a v : string) (w : WorkerArgs) : option (result Failure WorkerArgs) :=
  if String.eqb a "--host" then Some (Ok (w <| wa_host := v |>))
  else if String.eqb a "--port" then Some (p ← stoi v; mret (w <| wa_port := to_port p |>))
  else if String.eqb a "--boot" then Some (n ← stoull v; mret (w <| wa_boot := n |>))
  else if String.eqb a "--epoch" then Some (n ← stoull v; mret (w <| wa_epoch := n |>))
  else None.
Fixpoint worker_args (l : list string) (w : WorkerArgs) : result Failure WorkerArgs :=
  match l with
  | [] => Ok w
  | a :: l' =>
      match l' with
      | v :: l'' =>
          match worker_option a v w with
          | Some r => w ← r; worker_args l'' w
          | None => worker_args l' (add_word a w)
          end
      | [] => Ok (add_word a w)
      end
  end.

(** ** The worker's commands *)
Record Worker (B : Type) := mkWorker { wk_co : Coordinator B; wk_epoch : Z; wk_out : string }.
Arguments mkWorker {B}.
Arguments wk_co {B}.
Arguments wk_epoch {B}.
Arguments wk_out {B}.
#[export] Instance eta_Worker {B} : Eta (Worker B) := λ r, mkWorker (wk_co r) (wk_epoch r) (wk_out r).

Section tools.
Context `{IterOrder} {B : Type} `{IBackend B}.
Abbreviation Wk := (ST (Worker B) Failure).

Definition reported {A} (r : outcome A) : result Failure A :=
  match r with Ok a => Ok a | Throw e => Throw (Reported e) end.
(** [Client::request] *)
Definition request (env : nat → Readings) (kind : MessageKind.t) (payload : list byte) : Wk (list byte) := λ w,
  let '(r, co) := client_request env kind payload (wk_co w) in (reported r, w <| wk_co := co |>).
Definition say (text : string) : Wk unit := modify (λ w, w <| wk_out ::= λ o, o +:+ text |>).
(** [args[i]]: undefined out of range. *)
Definition arg (args : list string) (i : nat) : Wk string :=
  match args !! i with Some a => mret a | None => throw Undefined end.
Definition number (s : string) : Wk Z := lift_result (stoull s).
Definition reply_u64 (reply : list byte) : Wk Z := lift_result (reported (decode_u64 reply)).

Section commands.
Variables (env : nat → Readings) (boot : Z) (args : list string).
Let tag : string := "WORKER[" +:+ pretty boot +:+ "] ".

(** The envelope the commands that need authority send. *)
Definition envelope : Wk AuthorityEnvelope := gets (λ w, mkEnvelope boot (wk_epoch w) 1).

Definition register_worker : Wk unit :=
  let root := default "cps-worker" (args !! 0%nat) in
  reply ← request env MessageKind.kRegisterBackend (encode_register boot root);
  epoch ← reply_u64 reply;
  modify (λ w, w <| wk_epoch := epoch |>).

Definition wk_register : Wk unit :=
  _ ← register_worker;
  epoch ← gets wk_epoch;
  say (tag +:+ "registered; coordinator epoch=" +:+ pretty epoch +:+ nl).

Definition wk_family : Wk unit :=
  a ← arg args 0;
  owner ← number a;
  reply ← request env MessageKind.kCreateFamily (encode_u64 owner);
  fam ← lift_result (reported (decode_family_reply reply));
  say (tag +:+ "family=" +:+ pretty fam +:+ nl).

Definition wk_publish : Wk unit :=
  a ← arg args 0;
  family ← number a;
  f ← arg args 1;
  n ← arg args 2;
  size ← number n;
  auth ← envelope;
  reply ← request env MessageKind.kPublish (encode_publish auth family (first_char f) size);
  pr ← lift_result (reported (decode_publish_reply reply));
  say (tag +:+ "published id=" +:+ pretty (pr_id pr) +:+ " chunks=" +:+ pretty (pr_chunks pr) +:+
       " hits=" +:+ pretty (pr_hits pr) +:+ " misses=" +:+ pretty (pr_misses pr) +:+ nl).

Definition wk_verify : Wk unit :=
  a ← arg args 0;
  id ← number a;
  reply ← request env MessageKind.kVerify (encode_u64 id);
  iv ← reply_u64 reply;
  say (tag +:+ "verify id=" +:+ a +:+ " integrity=" +:+ pretty iv +:+ nl).

Definition wk_restore : Wk unit :=
  a ← arg args 0;
  id ← number a;
  auth ← envelope;
  reply ← request env MessageKind.kRestore (encode_restore auth id);
  p ← lift_result (reported (decode_restore_reply reply));
  say (tag +:+ "restore id=" +:+ pretty id +:+ " integrity=" +:+ pretty p.1 +:+
       " bytes=" +:+ pretty p.2 +:+ nl).

Definition wk_advance : Wk unit :=
  reply ← request env MessageKind.kAdvanceEpoch (encode_u64 0);
  e ← reply_u64 reply;
  say (tag +:+ "epoch advanced to " +:+ pretty e +:+ nl).

Definition wk_save : Wk unit :=
  _ ← request env MessageKind.kSave (encode_u64 0);
  say (tag +:+ "saved" +:+ nl).

Definition wk_gc : Wk unit :=
  auth ← envelope;
  reply ← request env MessageKind.kGcRun (encode_restore auth 0);
  n ← reply_u64 reply;
  say (tag +:+ "gc reclaimed=" +:+ pretty n +:+ nl).

(** The arguments of [encode_retain] are evaluated in an order of the
    compiler's choice; both are parsed before anything else happens. *)
Definition wk_retain : Wk unit :=
  a ← arg args 0;
  family ← number a;
  b ← arg args 1;
  latest ← number b;
  reply ← request env MessageKind.kRetain (encode_retain family latest);
  n ← reply_u64 reply;
  say (tag +:+ "retention set latest=" +:+ pretty n +:+ nl).

Definition wk_retire : Wk unit :=
  a ← arg args 0;
  id ← number a;
  auth ← envelope;
  _ ← request env MessageKind.kRetire (encode_restore auth id);
  say (tag +:+ "retired id=" +:+ pretty id +:+ nl).

Definition wk_hold : Wk unit :=
  _ ← register_worker;
  epoch ← gets wk_epoch;
  say (tag +:+ "holding (registered; epoch=" +:+ pretty epoch +:+ ")").

Definition wk_sleep : Wk unit :=
  a ← arg args 0;
  _ ← number a;
  say (tag +:+ "slept" +:+ nl).

Definition worker_command (command : string) : Wk unit :=
  if String.eqb command "register" then wk_register
  else if String.eqb command "family" then wk_family
  else if String.eqb command "publish" then wk_publish
  else if String.eqb command "verify" then wk_verify
  else if String.eqb command "restore" then wk_restore
  else if String.eqb command "advance" then wk_advance
  else if String.eqb command "save" then wk_save
  else if String.eqb command "gc" then wk_gc
  else if String.eqb command "retain" then wk_retain
  else if String.eqb command "retire" then wk_retire
  else if String.eqb command "hold" then wk_hold
  else if String.eqb command "sleep" then wk_sleep
  else say ("worker: unknown command " +:+ command +:+ nl).
End commands.

(** [main] of the worker: a reported error is printed, and the exit code is 0
    all the same. *)
Definition worker_main (env : nat → Readings) (connected : bool) (args : list string) (co : Coordinator B) :
    result Failure Z * (string * Coordinator B) :=
  match worker_args args default_WorkerArgs with
  | Throw f => (Throw f, ("", co))
  | Ok w =>
      if negb connected then (Ok 1, ("", co))
      else
        match worker_command env (wa_boot w) (wa_args w) (wa_command w) (mkWorker co (wa_epoch w) "") with
        | (Ok _, s) => (Ok 0, (wk_out s, wk_co s))
        | (Throw (Reported e), s) =>
            (Ok 0, (wk_out s +:+ "WORKER[" +:+ pretty (wa_boot w) +:+ "] ERROR code=" +:+
                    ErrorCode.to_string (error_code e) +:+ " msg=" +:+ error_message e +:+ nl, wk_co s))
        | (Throw f, s) => (Throw f, (wk_out s, wk_co s))
        end
  end.

(** ** The coordinator's program *)
Record CoordinatorArgs := mkCoordinatorArgs { ca_port : Z; ca_root : string; ca_chunk : Z }.
#[local] Instance eta_CoordinatorArgs : Eta CoordinatorArgs := λ r,
  mkCoordinatorArgs (ca_port r) (ca_root r) (ca_chunk r).

(** Words that are no option, and an option without a value, are skipped. *)
Definition coordinator_option (a v : string) (c : CoordinatorArgs) : option (result Failure CoordinatorArgs) :=
  if String.eqb a "--port" then Some (p ← stoi v; mret (c <| ca_port := to_port p |>))
  else if String.eqb a "--root" then Some (Ok (c <| ca_root := v |>))
  else if String.eqb a "--chunk-size" then Some (n ← stoull v; mret (c <| ca_chunk := n |>))
  else None.
Fixpoint coordinator_args (l : list string) (c : CoordinatorArgs) : result Failure CoordinatorArgs :=
  match l with
  | a :: ((v :: l'') as l') =>
      match coordinator_option a v c with
      | Some r => c ← r; coordinator_args l'' c
      | None => coordinator_args l' c
      end
  | _ => Ok c
  end.

(** The accept loop: each connection is served until it closes, and only then
    the next one.  What is sent over each, and how the loop ends. *)
Fixpoint accept_loop (env : nat → nat → Readings) (turn : nat) (conns : list Connection)
    (co : Coordinator B) : result Failure unit * (list (list byte) * Coordinator B) :=
  match conns with
  | [] => (Ok tt, ([], co))
  | conn :: conns =>
      match serve (env turn) (co, conn) with
      | (Throw e, (co', conn')) => (Throw (Reported e), ([cn_out conn'], co'))
      | (Ok _, (co', conn')) =>
          let '(r, (outs, co'')) := accept_loop env (S turn) conns co' in (r, (cn_out conn' :: outs, co''))
      end
  end.

(** [main]: nothing catches what the constructor or the loop throws.
    [open_backend] makes the backend rooted at [root/store]. *)
Definition coordinator_main (env : nat → nat → Readings) (tmp : string) (args : list string)
    (open_backend : string → FileSystem → outcome B) (listening : bool) (conns : list Connection)
    (disk : FileSystem) : result Failure Z * list (list byte) :=
  match coordinator_args args (mkCoordinatorArgs 33123 (path_append tmp "cps_coordinator") (64 * 1024)) with
  | Throw f => (Throw f, [])
  | Ok c =>
      match create_directories (parse_path (ca_root c)) disk with
      | (Ok true, disk) =>
          if negb listening then (Ok 1, [])
          else
            match create_directories (parse_path (path_append (ca_root c) "store")) disk with
            | (Ok true, disk) =>
                match open_backend (path_append (ca_root c) "store") disk with
                | Throw e => (Throw (Reported e), [])
                | Ok backend =>
                    match new_coordinator (ca_root c) (ca_chunk c) backend disk with
                    | (Throw e, _) => (Throw (Reported e), [])
                    | (Ok _, co) =>
                        let '(r, (outs, _)) := accept_loop env 0 conns co in
                        (match r with Ok _ => Ok 0 | Throw f => Throw f end, outs)
                    end
                end
            | (_, _) => (Throw (Escaped "filesystem_error"), [])
            end
      | (Ok false, _) => (Throw (Escaped "filesystem_error"), [])
      | (Throw e, _) => (Throw (Reported e), [])
      end
  end.
End tools.

(** ** Numbers read from the command line fit 64 bits *)
Lemma read_digits_nonneg s seen acc : 0 ≤ acc → 0 ≤ (read_digits s seen acc).2.
Proof.
  revert seen acc. induction s as [|c s IH]; intros seen acc Ha; [done|]. cbn [read_digits].
  destruct (is_digit c) eqn:E; [|done]. apply IH. unfold is_digit, code_in in E.
  apply andb_true_iff in E as [E _]. apply Z.leb_le in E. lia.
Qed.
Lemma stoull_range s v : stoull s = Ok v → is_u64 v.
Proof.
  unfold stoull. destruct (read_sign (skip_space s)) as [negative t].
  pose proof (read_digits_nonneg t false 0 ltac:(lia)) as Hn. destruct (read_digits t false 0) as [seen n].
  cbn [snd] in Hn. destruct (negb seen); [done|]. destruct (Z.gtb_spec n (2 ^ 64 - 1)); [done|].
  intros [= <-]. destruct negative; [apply u64_range|]. unfold is_u64. lia.
Qed.

Definition args_in_range (w : WorkerArgs) : Prop := is_u64 (wa_boot w) ∧ is_u64 (wa_epoch w).
Lemma worker_option_range a v w w' : args_in_range w → worker_option a v w = Some (Ok w') → args_in_range w'.
Proof.
  intros [Hb He]. unfold worker_option, args_in_range.
  destruct (String.eqb a "--host"); [by intros [= <-]|].
  destruct (String.eqb a "--port"); [destruct (stoi v); [by intros [= <-]|done]|].
  destruct (String.eqb a "--boot").
  { destruct (stoull v) as [n|] eqn:E; [|done]. apply stoull_range in E. by intros [= <-]. }
  destruct (String.eqb a "--epoch"); [|done].
  destruct (stoull v) as [n|] eqn:E; [|done]. apply stoull_range in E. by intros [= <-].
Qed.
Lemma add_word_range a w : args_in_range w → args_in_range (add_word a w).
Proof. intros []. unfold add_word. by destruct (String.eqb _ _). Qed.
Lemma worker_args_range l w w' : args_in_range w → worker_args l w = Ok w' → args_in_range w'.
Proof.
  remember (length l) as n eqn:Hn. assert (length l ≤ n)%nat as Hl by lia. clear Hn. revert l Hl w.
  induction n as [|n IH]; intros [|a [|v l]] Hl w Hw; cbn [worker_args length] in *;
    try lia; try (intros [= <-]; first [done|by apply add_word_range]).
  - destruct (worker_option a v w) as [[w1|f]|] eqn:E; try done.
    + intros Hr. apply (IH l ltac:(lia) w1); [|done]. by eapply worker_option_range.
    + intros Hr. apply (IH (v :: l) ltac:(cbn [length]; lia) (add_word a w)); [by apply add_word_range|done].
Qed.

(** ** The worker's commands that need authority *)

(** Such a command with the arguments it expects. *)
Variant authorised_command : string → list string → Prop :=
  | authorised_publish a f n rest family size :
      stoull a = Ok family → stoull n = Ok size → authorised_command "publish" (a :: f :: n :: rest)
  | authorised_restore a rest id : stoull a = Ok id → authorised_command "restore" (a :: rest)
  | authorised_retire a rest id : stoull a = Ok id → authorised_command "retire" (a :: rest)
  | authorised_gc rest : authorised_command "gc" rest.

Section claims.
Context `{IterOrder} {B : Type} `{IBackend B}.
Implicit Types co : Coordinator B.

(** A request whose envelope carries an epoch that is not the current one. *)
Lemma request_refused env kind payload a (w : Worker B) :
  kind_ok kind → zlen payload ≤ kMaxPayloadBytes → carries kind payload a → ae_epoch a ≠ co_epoch (wk_co w) →
  ∃ msg, request env kind payload w
         = (Throw (Reported (store_error ErrorCode.kStaleAuthority msg)), w <| wk_co := refused (wk_co w) |>).
Proof.
  intros Hk Hp Hc Ha.
  destruct (stale_epoch_throws (env 0%nat) kind payload a (wk_co w) Hc Ha) as (msg & E & Hm).
  exists msg. unfold request. rewrite (client_request_dispatch env kind payload (wk_co w) Hk Hp).
  - by rewrite E.
  - rewrite E. intros e [= <-]. split; [done|]. cbn [error_message store_error]. unfold kMaxPayloadBytes. lia.
Qed.

Lemma zlen_authority_payload a rest : zlen rest ≤ 100 →
  zlen (w_u64 (ae_boot a) ++ w_u64 (ae_epoch a) ++ w_u64 (ae_generation a) ++ rest) ≤ kMaxPayloadBytes.
Proof.
  intros Hr. assert (∀ x, zlen (w_u64 x) = 8) as E by reflexivity.
  rewrite !zlen_app, !E. unfold kMaxPayloadBytes. lia.
Qed.

Lemma carries_publish a family fill size : wf_envelope a → is_u64 family → is_u64 size →
  carries MessageKind.kPublish (encode_publish a family fill size) a ∧
  zlen (encode_publish a family fill size) ≤ kMaxPayloadBytes.
Proof.
  intros. split; [|by apply zlen_authority_payload].
  eexists. rewrite <- (app_nil_r (encode_publish _ _ _ _)). split; [by apply decode_publish_ok|done].
Qed.
Lemma carries_restore kind a id : kind ∈ [MessageKind.kRestore; MessageKind.kRetire; MessageKind.kGcRun] →
  wf_envelope a → is_u64 id →
  carries kind (encode_restore a id) a ∧ zlen (encode_restore a id) ≤ kMaxPayloadBytes.
Proof.
  intros Hk Ha Hi. split; [|by apply zlen_authority_payload].
  assert (decode_restore (encode_restore a id) = Ok (a, id)) as E
    by (rewrite <- (app_nil_r (encode_restore _ _)); by apply decode_restore_ok).
  repeat (apply elem_of_cons in Hk as [->|Hk]; [by exists id|]). by apply elem_of_nil in Hk.
Qed.

(** The request of a command that carries such an envelope ends it. *)
Lemma bind_refused {A} env kind payload a (k : list byte → ST (Worker B) Failure A) (w : Worker B) :
  kind_ok kind → carries kind payload a ∧ zlen payload ≤ kMaxPayloadBytes → ae_epoch a ≠ co_epoch (wk_co w) →
  ∃ msg, (request env kind payload ≫= k) w
         = (Throw (Reported (store_error ErrorCode.kStaleAuthority msg)), w <| wk_co := refused (wk_co w) |>).
Proof.
  intros Hk [Hc Hp] Ha. destruct (request_refused env kind payload a w Hk Hp Hc Ha) as [msg E].
  exists msg. by apply st_bind_run_throw.
Qed.

Lemma number_run x n (w : Worker B) : stoull x = Ok n → number x w = (Ok n, w).
Proof. unfold number. by intros ->. Qed.
Lemma worker_command_refused env boot args command epoch co :
  is_u64 boot → is_u64 epoch → authorised_command command args → epoch ≠ co_epoch co →
  ∃ msg, worker_command env boot args command (mkWorker co epoch "")
         = (Throw (Reported (store_error ErrorCode.kStaleAuthority msg)), mkWorker (refused co) epoch "").
Proof.
  intros Hb Hep Hc He.
  set (a := mkEnvelope boot epoch 1). assert (wf_envelope a) as Ha by (by unfold wf_envelope).
  destruct Hc as [x f n rest family size Hx Hn|x rest id Hx|x rest id Hx|rest]; unfold worker_command; cbn [String.eqb Ascii.eqb Bool.eqb].
  - unfold wk_publish. erewrite st_bind_run by reflexivity. erewrite st_bind_run by by apply number_run.
    do 2 erewrite st_bind_run by reflexivity. erewrite st_bind_run by by apply number_run.
    erewrite st_bind_run by reflexivity.
    apply (bind_refused env _ _ a _ (mkWorker co epoch "")); [done|apply carries_publish; by eauto using stoull_range|done].
  - unfold wk_restore. erewrite st_bind_run by reflexivity. erewrite st_bind_run by by apply number_run.
    erewrite st_bind_run by reflexivity.
    apply (bind_refused env _ _ a _ (mkWorker co epoch "")); [done| |done].
    apply carries_restore; [set_solver|done|by eapply stoull_range].
  - unfold wk_retire. erewrite st_bind_run by reflexivity. erewrite st_bind_run by by apply number_run.
    erewrite st_bind_run by reflexivity.
    apply (bind_refused env _ _ a _ (mkWorker co epoch "")); [done| |done].
    apply carries_restore; [set_solver|done|by eapply stoull_range].
  - unfold wk_gc. erewrite st_bind_run by reflexivity.
    apply (bind_refused env _ _ a _ (mkWorker co epoch "")); [done| |done].
    apply carries_restore; [set_solver|done|done].
Qed.

(** C12: A worker without authority changes nothing.  A worker started with an
    epoch that is not the coordinator's, to publish, restore, retire or collect
    with well-formed arguments, prints the stale-authority error (and exits
    with 0 all the same), and all the coordinator keeps of it is the count of
    refusals, whatever its state and the clock readings. *)
Theorem stale_worker_is_refused env args w co :
  worker_args args default_WorkerArgs = Ok w → authorised_command (wa_command w) (wa_args w) →
  wa_epoch w ≠ co_epoch co →
  ∃ msg, worker_main env true args co =
    (Ok 0, ("WORKER[" +:+ pretty (wa_boot w) +:+ "] ERROR code=stale_authority msg=" +:+ msg +:+ nl, refused co)).
Proof.
  intros Hw Hc He. unfold worker_main. rewrite Hw. cbn [negb].
  destruct (worker_args_range args default_WorkerArgs w) as [Hb Hep]; [by vm_compute|done|].
  destruct (worker_command_refused env (wa_boot w) (wa_args w) (wa_command w) (wa_epoch w) co) as [msg E]; [done..|].
  exists msg. by rewrite E.
Qed.
End claims.

(** ** A worker left behind *)
#[local] Existing Instance canonical_order.
Definition stale_args : list string := ["--boot"; "7"; "publish"; "1"; "A"; "5"; "--epoch"; "9"].
Lemma stale_worker_is_refused_witness :
  ∃ msg, worker_main demo_env true stale_args demo_coordinator =
    (Ok 0, ("WORKER[7] ERROR code=stale_authority msg=" +:+ msg +:+ nl, refused demo_coordinator)).
Proof.
  apply (stale_worker_is_refused demo_env stale_args (mkWorkerArgs "127.0.0.1" 33123 7 9 "publish" ["1"; "A"; "5"])
           demo_coordinator).
  - by vm_compute.
  - by apply (authorised_publish "1" "A" "5" [] 1 5).
  - by vm_compute.
Defined.
