(* ===== verification/Examples.v ===== *)
(** * Examples: the example programs

    [src/examples/*.cpp] and [example_util.hpp].  Each program is its [main] over
    a disk, with what it prints and how it ends.  The sources give sizes in units
    of 1024 bytes; the unit is a parameter here, so that the programs can be
    evaluated with a unit of one byte. *)
From stdpp Require Import functions pretty.
From S2P Require Import Prelude Base Hash Model Chunking Dedup BinFormat Backend Store Publish Restore Retention Gc FileSystem Persistence Recovery LocalBackend Accounting Liveness LocalLiveness Cli Restart.

(** What a program finds: the directory for temporary files, the readings of the
    system clock by [make_full_descriptor], those of the protection loop, the
    time a restore takes, the clock in the name of a temporary file, and whether
    it was built with the CUDA proof. *)
Record Surroundings := mkSurroundings {
  temp_directory : string;
  clock_now : nat → Z;
  clock_protect : nat → nat → CheckpointId → Z;
  clock_elapsed : Z;
  clock_ticks : Z;
  cuda_proof : bool
}.

Section examples.
Context `{IterOrder} (kib : Z) (env : Surroundings).
Abbreviation St := (CheckpointStore LocalBackend).
Abbreviation Cmd := (ST (St * string) CheckpointStoreError).

(** ** example_util.hpp *)

(** [remove_all(p)]: [p] and everything below it. *)
Definition remove_all (p : Path) : Fs bool :=
  fault ← next_fault;
  s ← get;
  match fault with
  | Some _ => mret false
  | None => _ ← set_disk (filter (λ kv, is_prefix p kv.1 = false) (fs_disk s)); mret true
  end.

(** An error of the filesystem is an exception nobody catches. *)
Definition checked (m : Fs bool) : Fs unit :=
  ok ← m; raise_if (negb ok) ErrorCode.kIo "filesystem_error".

Definition temp_root (name : string) : Fs string :=
  let p := path_append (temp_directory env) name in
  _ ← checked (remove_all (parse_path p));
  _ ← checked (create_directories (parse_path (path_append p "store")));
  mret p.

Definition pattern (c : byte) (n : Z) : list byte := replicate (Z.to_nat n) c.

Definition make_store (root : string) (boot : WorkerBootId) (chunk : Z) (fs : FileSystem) :
    outcome St * FileSystem :=
  match new_local (path_append root "store") (mkId 1) fs with
  | Throw e => (Throw e, (init_root (path_append root "store") fs).2)
  | Ok b =>
      let o := default_StoreOptions
        <| opt_state_path := path_append (path_append root "metadata") "checkpoint-store.state" |>
        <| opt_boot_id := boot |> <| opt_chunk_size := chunk |> in
      let '(r, s) := register_backend (mkId 1) (Some 0%nat) (new_store o (λ _, b)) in
      (match r with Ok _ => Ok s | Throw e => Throw e end, disk_of s)
  end.

(** The first two lines of most programs, and what follows them. *)
Definition with_store (name : string) (body : string → Cmd Z) (fs : FileSystem) :
    Exit * string * FileSystem :=
  match temp_root name fs with
  | (Throw e, fs1) => (Terminated (error_message e), "", fs1)
  | (Ok root, fs1) =>
      match make_store root (mkId 1) (32 * kib) fs1 with
      | (Throw e, fs2) => (Terminated (error_message e), "", fs2)
      | (Ok s, _) =>
          match body root (s, "") with
          | (Ok code, (s', out)) => (Exited code, out, disk_of s')
          | (Throw e, (s', out)) => (Terminated (error_message e), out, disk_of s')
          end
      end
  end.

(** [std::cout << b] for a [bool]. *)
Definition show_bool (b : bool) : string := if b then "1" else "0".
(** [make_full_descriptor(fam, OwnerId(1), size)], the [n]-th of the program. *)
Definition describe (n : nat) (fam : CheckpointFamilyId) (size : Z) : Cmd CheckpointDescriptor :=
  in_cmd (make_full_descriptor (clock_now env n) fam (mkId 1) size DurabilityClass.kLocal).
Definition family : Cmd CheckpointFamilyId := in_cmd (create_family (mkId 1) Provenance.kUnknown).

(** ** The programs *)
Definition main_01 : string :=
  let cp : CheckpointId := mkId 7 in
  let cp2 : CheckpointId := mkId 7 in
  let auth : ScopedAuthority CheckpointGeneration := mkAuthority (mkId 42) (mkGen 5) in
  "checkpoint id " +:+ to_hex_string (id_value cp) +:+ " == replicate " +:+ to_hex_string (id_value cp2) +:+ nl +:+
  "generation ordering: g1<g2 " +:+ show_bool (precedes (mkGen 1 : CheckpointGeneration) (mkGen 2)) +:+ nl +:+
  "authority boot=" +:+ pretty (id_value (auth_boot auth)) +:+ " gen=" +:+ pretty (gen_value (auth_generation auth)) +:+ nl.

Definition main_02 : FileSystem → Exit * string * FileSystem := with_store "cps_ex02" (λ root,
  fam ← family;
  let data := pattern x41 (96 * kib) in
  d ← describe 0 fam (zlen data);
  pub ← in_cmd (publish d data);
  l ← in_cmd (lifecycle (d_id d));
  _ ← print ("published " +:+ to_hex_string (id_value (d_id (pub_descriptor pub))) +:+ " lifecycle=" +:+
             CheckpointLifecycle.to_string l +:+ " chunks=" +:+ pretty (zlen (m_chunks (pub_manifest pub))) +:+ nl);
  mret 0).

Definition main_03 : FileSystem → Exit * string * FileSystem := with_store "cps_ex03" (λ root,
  fam ← family;
  let data := pattern x43 (100 * kib) in
  d ← describe 0 fam (zlen data);
  pub ← in_cmd (publish d data);
  let m := pub_manifest pub in
  _ ← print ("manifest " +:+ to_hex_string (id_value (m_id m)) +:+ " loops=" +:+ pretty (zlen (m_chunks m)) +:+
             " logical=" +:+ pretty (m_logical_size m) +:+ " digest=" +:+ hex (m_checkpoint_digest m) +:+ nl);
  _ ← for_each (m_chunks m) (λ e,
        print ("  chunk@" +:+ pretty (e_logical_offset e) +:+ " id=" +:+ to_hex_string (id_value (e_chunk_id e)) +:+ nl));
  mret 0).

Definition main_04 : FileSystem → Exit * string * FileSystem := with_store "cps_ex04" (λ root,
  fam ← family;
  let data := pattern x44 (100 * kib) in
  d ← describe 0 fam (zlen data);
  _ ← in_cmd (publish d data);
  v ← in_cmd (verify_checkpoint (d_id d));
  _ ← print ("verify=" +:+ IntegrityState.to_string v +:+ nl);
  chunks ← in_cmd (get_chunks (d_id d));
  let digest := match chunks with c :: _ => cd_digest c | [] => [] end in
  let p := path_append (path_append (path_append (path_append root "store") "blobs")
             (String.substring 0 2 (hex digest))) (hex digest) in
  _ ← on_out (write_out p (make_bytes "CORRUPT"));
  v ← in_cmd (verify_checkpoint (d_id d));
  _ ← print ("after corrupt verify=" +:+ IntegrityState.to_string v +:+ nl);
  mret 0).

Definition main_05 : FileSystem → Exit * string * FileSystem := with_store "cps_ex05" (λ root,
  fam ← family;
  let data := pattern x45 (96 * kib) in
  d1 ← describe 0 fam (zlen data);
  p1 ← in_cmd (publish d1 data);
  d2 ← describe 1 fam (zlen data);
  p2 ← in_cmd (publish d2 data);
  _ ← print ("second same-content publish hits=" +:+ pretty (pub_dedup_hits p2) +:+ " misses=" +:+
             pretty (pub_dedup_misses p2) +:+ nl);
  acct ← in_cmd dedup_accounting;
  _ ← print ("logical=" +:+ pretty (da_logical_bytes acct) +:+ " unique=" +:+
             pretty (da_unique_physical_bytes acct) +:+ " dedup=" +:+ pretty (da_deduplicated_bytes acct) +:+ nl);
  mret 0).

Definition main_06 : FileSystem → Exit * string * FileSystem := with_store "cps_ex06" (λ root,
  fam ← family;
  let base := pattern x41 (64 * kib) in
  d1 ← describe 0 fam (zlen base);
  _ ← in_cmd (publish d1 base);
  let suffix := pattern x5a (32 * kib) in
  let changed := take (Z.to_nat (32 * kib)) base ++ suffix ++ drop (Z.to_nat (32 * kib) + length suffix) base in
  d2 ← describe 1 fam (zlen changed);
  p2 ← in_cmd (publish d2 changed);
  _ ← print ("partial-change publish hits=" +:+ pretty (pub_dedup_hits p2) +:+ " misses=" +:+
             pretty (pub_dedup_misses p2) +:+ " (reused changed region, wrote only new blocks)" +:+ nl);
  mret 0).

Definition main_07 : FileSystem → Exit * string * FileSystem := with_store "cps_ex07" (λ root,
  fam ← family;
  let data := pattern x52 (80 * kib) in
  d ← describe 0 fam (zlen data);
  _ ← in_cmd (publish d data);
  reps ← in_cmd (get_replicas (d_id d));
  _ ← print ("replicas=" +:+ pretty (zlen reps) +:+ nl);
  _ ← for_each reps (λ r,
        print ("  replica=" +:+ to_hex_string (id_value (rp_id r)) +:+ " role=" +:+ ReplicaRole.to_string (rp_role r) +:+
               " integrity=" +:+ IntegrityState.to_string (rp_integrity r) +:+ " provenance=" +:+
               Provenance.to_string (rp_provenance r) +:+ nl));
  _ ← print ("durability=" +:+ ReplicaDurabilityState.to_string (evaluate_replica_durability 1 reps) +:+ nl);
  mret 0).

Definition main_08 : FileSystem → Exit * string * FileSystem := with_store "cps_ex08" (λ root,
  fam ← family;
  let data := pattern x53 (128 * kib) in
  d ← describe 0 fam (zlen data);
  _ ← in_cmd (publish d data);
  rc ← in_cmd (restore (clock_elapsed env) (mkId 1) (d_id d) RestorePriority.kNormal);
  _ ← print ("restored " +:+ pretty (zlen (rc_bytes rc)) +:+ " bytes, parity=" +:+
             show_bool (bool_decide (rc_bytes rc = data)) +:+
             " integrity=" +:+ IntegrityState.to_string (rc_integrity rc) +:+ " source_replica=" +:+
             pretty (id_value (ev_source_replica (rc_evidence rc))) +:+ " dur_ms=" +:+
             pretty (ev_duration (rc_evidence rc)) +:+ nl);
  mret 0).

Definition main_09 : FileSystem → Exit * string * FileSystem := with_store "cps_ex09" (λ root,
  fam ← family;
  let data := pattern x50 (96 * kib) in
  d ← describe 0 fam (zlen data);
  _ ← in_cmd (publish d data);
  plan ← in_cmd (plan_restore (d_id d) RestorePriority.kCritical);
  _ ← print ("restore plan priority=" +:+ RestorePriority.to_string (plan_priority plan) +:+ " steps=" +:+
             pretty (zlen (plan_steps plan)) +:+ " expected=" +:+ pretty (plan_expected_bytes plan) +:+ nl);
  rc ← in_cmd (restore (clock_elapsed env) (mkId 2) (d_id d) RestorePriority.kHigh);
  _ ← print ("restored integrity=" +:+ IntegrityState.to_string (rc_integrity rc) +:+ " bytes=" +:+
             pretty (zlen (rc_bytes rc)) +:+ nl);
  mret 0).

(** The policy of the retention examples. *)
Definition keep_latest (fam : CheckpointFamilyId) (n : Z) : RetentionPolicy :=
  default_RetentionPolicy <| pol_id := mkId 1 |> <| pol_family_id := fam |>
    <| pol_retention_class := RetentionClass.kKeepLatestN |> <| pol_latest_n := n |>.

Definition main_10 : FileSystem → Exit * string * FileSystem := with_store "cps_ex10" (λ root,
  fam ← family;
  _ ← for_each [(0%nat, x41); (1%nat, x42); (2%nat, x43)] (λ nc,
        let data := pattern nc.2 (40 * kib) in
        d ← describe nc.1 fam (zlen data);
        _ ← in_cmd (publish d data); mret tt);
  _ ← in_cmd (set_retention_policy (keep_latest fam 2));
  el ← in_cmd (gc_eligible_checkpoints (clock_protect env 0));
  _ ← print ("latest_n=2 eligible=" +:+ pretty (zlen el) +:+ " (oldest is GC-eligible)" +:+ nl);
  mret 0).

Definition main_11 : FileSystem → Exit * string * FileSystem := with_store "cps_ex11" (λ root,
  fam ← family;
  let da := pattern x41 (40 * kib) in
  a ← describe 0 fam (zlen da);
  _ ← in_cmd (publish a da);
  let db := pattern x42 (40 * kib) in
  b ← describe 1 fam (zlen db);
  _ ← in_cmd (publish (b <| d_parent_checkpoint := Some (d_id a) |> <| d_lineage := [d_id a] |>) db);
  _ ← in_cmd (set_retention_policy (keep_latest fam 1));
  el ← in_cmd (gc_eligible_checkpoints (clock_protect env 0));
  _ ← print ("ancestry: eligible=" +:+ pretty (zlen el) +:+ " (parent protected by retained child lineage)" +:+ nl);
  mret 0).

Definition main_12 : FileSystem → Exit * string * FileSystem := with_store "cps_ex12" (λ root,
  fam ← family;
  let base := pattern x41 (64 * kib) in
  d1 ← describe 0 fam (zlen base);
  _ ← in_cmd (publish d1 base);
  let d2d := base ++ pattern x47 (32 * kib) in
  d2 ← describe 1 fam (zlen d2d);
  _ ← in_cmd (publish d2 d2d);
  _ ← in_cmd (retire (clock_protect env 0) (d_id d1));
  _ ← in_cmd (gc_plan (clock_protect env 1));
  res ← in_cmd (gc_run (clock_protect env 2) (clock_protect env 3));
  rc ← in_cmd (restore (clock_elapsed env) (mkId 3) (d_id d2) RestorePriority.kNormal);
  _ ← print ("after retiring shared checkpoint 1, checkpoint 2 restores parity=" +:+
             show_bool (bool_decide (rc_bytes rc = d2d)) +:+ " reclaimed=" +:+
             pretty (zlen (gr_reclaimed_blobs res)) +:+ nl);
  _ ← in_cmd (retire (clock_protect env 4) (d_id d2));
  _ ← in_cmd (gc_plan (clock_protect env 5));
  res2 ← in_cmd (gc_run (clock_protect env 6) (clock_protect env 7));
  _ ← print ("after retiring all: reclaimed=" +:+ pretty (zlen (gr_reclaimed_blobs res2)) +:+ nl);
  mret 0).

(** Another store on the same root; the disk goes over to it. *)
Definition second_store (root : string) (boot : WorkerBootId) : Cmd unit := λ p,
  match make_store root boot (32 * kib) (disk_of p.1) with
  | (Ok s2, _) => (Ok tt, (s2, p.2))
  | (Throw e, fs) => (Throw e, (put_disk fs p.1, p.2))
  end.

Definition main_13 : FileSystem → Exit * string * FileSystem := with_store "cps_ex13" (λ root,
  fam ← family;
  let data := pattern x50 (96 * kib) in
  d ← describe 0 fam (zlen data);
  _ ← in_cmd (publish d data);
  _ ← in_cmd (on_store_disk (save_state (clock_ticks env)));
  _ ← second_store root (mkId 1);
  _ ← in_cmd (on_store_disk load_state);
  ids ← in_cmd list_checkpoints;
  _ ← print ("recovered checkpoints=" +:+ pretty (zlen ids) +:+ nl);
  _ ← for_each ids (λ id, print ("  " +:+ to_hex_string (id_value id) +:+ nl));
  mret 0).

Definition main_14 : FileSystem → Exit * string * FileSystem := with_store "cps_ex14" (λ root,
  fam ← family;
  let data := pattern x41 (80 * kib) in
  d ← describe 0 fam (zlen data);
  _ ← in_cmd (publish d data);
  _ ← second_store root (mkId 99);
  fam2 ← family;
  d2 ← describe 1 fam2 (zlen data);
  r ← attempt (in_cmd (publish (d2 <| d_producer_boot := mkId 1 |>) data));
  _ ← match r with
      | Ok _ => mret tt
      | Throw e => print ("stale authority rejected: " +:+ ErrorCode.to_string (error_code e) +:+ nl)
      end;
  mret 0).

Definition main_15 : FileSystem → Exit * string * FileSystem := with_store "cps_ex15" (λ root,
  fam ← family;
  let data := pattern x43 (96 * kib) in
  d ← describe 0 fam (zlen data);
  _ ← in_cmd (publish d data);
  rc ← in_cmd (restore (clock_elapsed env) (mkId 1) (d_id d) RestorePriority.kNormal);
  _ ← print ("CPU reference restored " +:+ pretty (zlen (rc_bytes rc)) +:+ " bytes, integrity=" +:+
             IntegrityState.to_string (rc_integrity rc) +:+ nl);
  _ ← print (if cuda_proof env
       then "CUDA proof is enabled (see test_cuda.cpp for the real H2D/kernel/D2H path)." +:+ nl
       else "CUDA proof is a separate optional build (CHECKPOINTSTORE_ENABLE_CUDA_PROOF)." +:+ nl);
  mret 0).
End examples.

(** ** A fresh root *)
Section roots.
Context (env : Surroundings).

Lemma remove_all_ok p s : quiet s → ∃ s', remove_all p s = (Ok true, s') ∧ quiet s' ∧
  (∀ q, q ≠ [] → node_at (fs_disk s') q = if is_prefix p q then None else node_at (fs_disk s) q).
Proof.
  intros Hq. destruct (next_fault_quiet s Hq) as (s1 & E1 & Q1 & D1). unfold remove_all.
  rewrite (st_bind_run _ _ _ _ _ E1). rewrite (st_bind_run _ _ _ s1 s1) by done.
  eexists. split; [reflexivity|]. split; [done|]. intros [|c q] Hne; [done|]. cbn [node_at fs_disk]. cbn. rewrite D1.
  destruct (is_prefix p (c :: q)) eqn:E.
  - apply map_lookup_filter_None_2. right. intros n _ Hf. cbn in Hf. congruence.
  - destruct (fs_disk s !! (c :: q)) as [n|] eqn:En.
    + by apply map_lookup_filter_Some_2.
    + apply map_lookup_filter_None_2. by left.
Qed.

(** The root of an example: there, and nothing below its store directory. *)
Lemma temp_root_ok name s : let p := path_append (temp_directory env) name in
  parse_path p ≠ [] → quiet s → ancestors_free (fs_disk s) (parent_path (parse_path p)) →
  ∃ s', temp_root env name s = (Ok p, s') ∧ quiet s' ∧
    ancestors_free (fs_disk s') (parse_path (path_append p "store")) ∧
    ∀ q, below (parse_path (path_append p "store")) q = true → node_at (fs_disk s') q = None.
Proof.
  intros p Hp Hq Hf. destruct (remove_all_ok (parse_path p) s Hq) as (s1 & E1 & Q1 & N1).
  assert (parse_path (path_append p "store") = parse_path p ++ ["store"]) as Estore by apply parse_path_append.
  assert (∀ k, k ≠ [] → is_prefix (parse_path p) k = true → file_at (fs_disk s1) k = None) as Hbelow.
  { intros k Hk Hpre. unfold file_at. by rewrite N1, Hpre. }
  assert (ancestors_free (fs_disk s1) (parse_path (path_append p "store"))) as Hfree.
  { intros k. rewrite Estore. destruct (Nat.lt_ge_cases k (length (parse_path p))) as [Hk|Hk].
    - rewrite take_app_le by lia. specialize (Hf k). unfold parent_path in Hf. rewrite take_take, Nat.min_l in Hf by lia.
      unfold file_at in *. destruct (take k (parse_path p)) as [|c q] eqn:E; [done|]. rewrite N1 by done. by destruct (is_prefix _ _).
    - apply Hbelow; [|apply is_prefix_spec; rewrite take_app_ge by done; by eexists].
      rewrite take_app_ge by done. by destruct (parse_path p). }
  destruct (create_directories_ok _ s1 Q1 Hfree) as (s2 & E2 & Q2 & _ & F2 & N2 & _).
  exists s2. split; [|split; [done|split]].
  - unfold temp_root. fold p. cbv zeta. unfold checked.
    rewrite (st_bind_run _ _ _ tt s1); [|by rewrite (st_bind_run _ _ _ _ _ E1)].
    rewrite (st_bind_run _ _ _ tt s2); [done|]. by rewrite (st_bind_run _ _ _ _ _ E2).
  - intros k. rewrite F2. apply Hfree.
  - intros q (k & Hk & ->)%below_spec. rewrite N2, N1; rewrite Estore.
    + rewrite (proj2 (is_prefix_spec _ _)); [done|]. exists (["store"] ++ k). by rewrite app_assoc.
    + by destruct (parse_path p).
    + rewrite !length_app. destruct k; [done|]. simpl. lia.
Qed.
End roots.

(** ** Data of one byte, cut into equal pieces *)
Lemma tiles_equal off size c rs : 0 < c → (c | off) → (c | size) → tiles off size c rs →
  Forall (λ r, cr_logical_size r = c) rs.
Proof.
  intros Hc. revert off. induction rs as [|r rs IH]; intros off Ho Hs; [done|]. intros (_ & Hp & Hmin & Ht).
  destruct (Z.divide_sub_r _ _ _ Hs Ho) as [m Hm]. rewrite Hm in Hmin.
  assert (0 < m) by (apply (Z.mul_pos_cancel_r m c); lia). assert (c ≤ m * c) by nia. assert (cr_logical_size r = c) as E by lia.
  constructor; [done|]. eapply IH; [|done|exact Ht]. rewrite E. apply Z.divide_add_r; [done|apply Z.divide_refl].
Qed.
Lemma pattern_pieces b n c : valid_chunk_size c = true → is_u64 n → (c | n) →
  ∃ slices, chunk_stream (pattern b n) c = Ok slices ∧ pieces_distinct slices.
Proof.
  intros Hv Hn Hdiv. eexists. split; [by apply chunk_stream_ok|].
  assert (zlen (pattern b n) = n) as Ez.
  { unfold pattern, zlen. rewrite length_replicate. unfold is_u64 in Hn. lia. }
  assert (is_u64 (zlen (pattern b n))) as Hz by (by rewrite Ez).
  pose proof (slice_loop_tiles _ _ Hv Hz) as Ht. destruct (slice_loop_spec _ _ Hv Hz) as (Hcat & _ & Hlen).
  set (slices := slice_loop _ _ _ _) in *. rewrite Ez in Ht.
  apply (tiles_equal 0 n c) in Ht; [|apply valid_chunk_size_spec in Hv; lia|apply Z.divide_0_r|done].
  assert (∀ sl, sl ∈ slices → sl_bytes sl = pattern b c) as Hall.
  { intros sl Hsl. rewrite Forall_forall in Hlen. specialize (Hlen _ Hsl). rewrite Forall_fmap, Forall_forall in Ht.
    rewrite (Ht _ Hsl) in Hlen. unfold pattern. rewrite <- Hlen. unfold zlen. rewrite Nat2Z.id. symmetry. apply replicate_as_elem_of.
    split; [done|]. intros x Hx. assert (x ∈ pattern b n) as Hin.
    { rewrite <- Hcat. apply list_elem_of_In, in_concat. exists (sl_bytes sl). split; apply list_elem_of_In; [|done].
      by apply list_elem_of_fmap_2. }
    by apply elem_of_replicate in Hin as [-> _]. }
  intros sl1 sl2 H1 H2 _. by rewrite (Hall _ H1), (Hall _ H2).
Qed.

(** ** Publishing and restoring such data *)
Section round_trip.
Context `{IterOrder} (kib : Z) (env : Surroundings).
Abbreviation St := (CheckpointStore LocalBackend).

(** The store a program has just opened. *)
Definition opened (b : LocalBackend) (root : string) : St :=
  (register_backend (mkId 1) (Some 0%nat) (new_store (default_StoreOptions
     <| opt_state_path := path_append (path_append root "metadata") "checkpoint-store.state" |>
     <| opt_boot_id := mkId 1 |> <| opt_chunk_size := 32 * kib |>) (λ _, b))).2.

Lemma with_store_ok name body fs : let root := path_append (temp_directory env) name in
  parse_path root ≠ [] → quiet fs → ancestors_free (fs_disk fs) (parent_path (parse_path root)) →
  ∃ b, in_order b ∧ (∀ d, length d = 32%nat → object_at b (blob_key d) = None) ∧
    with_store kib env name body fs =
      match body root (opened b root, "") with
      | (Ok code, (s', out)) => (Exited code, out, disk_of s')
      | (Throw e, (s', out)) => (Terminated (error_message e), out, disk_of s')
      end.
Proof.
  intros root Hp Hq Hf. destruct (temp_root_ok env name fs Hp Hq Hf) as (fs1 & E1 & Q1 & F1 & N1). fold root in E1, F1, N1.
  destruct (new_local_in_order (path_append root "store") (mkId 1) fs1) as (b & Eb & Hb & Hroot & Hfiles); [|done..|].
  { intros E. apply (f_equal parse_path) in E. rewrite parse_path_append in E. by destruct (parse_path root). }
  exists b. split; [done|]. split.
  - intros d Hl. unfold object_at. rewrite object_path_blob, Hfiles, Hroot by done. unfold file_at. rewrite N1; [done|].
    apply below_spec. exists ["blobs"; blob_prefix d; hex d]. by split.
  - unfold with_store. rewrite E1. unfold make_store. rewrite Eb. reflexivity.
Qed.

(** The descriptor and the store when the data are about to be published. *)
Definition described (b : LocalBackend) (root : string) (size : Z) : outcome CheckpointDescriptor * St :=
  make_full_descriptor (clock_now env 0) (mkId 1) (mkId 1) size DurabilityClass.kLocal
    (create_family (mkId 1) Provenance.kUnknown (opened b root)).2.
Lemma describe_run now fam owner size durability (s : St) g :
  im_next_checkpoint_generation (s_impl s) !! fam = Some g →
  ∃ d, make_full_descriptor now fam owner size durability s = (Ok d, after_fresh s) ∧
    d_id d = mkId (im_next_id_counter (s_impl s)) ∧ d_family_id d = fam ∧ d_generation d = g ∧
    d_kind d = CheckpointKind.kFull ∧ d_producer_boot d = opt_boot_id (s_options s).
Proof.
  intros E. unfold make_full_descriptor, get_impl, gets. unfold mbind at 1, ST_bind at 1. rewrite E.
  eexists. by split_and!.
Qed.
Lemma described_ok b root size : ∃ d s, described b root size = (Ok d, s) ∧
  s_heap s = (λ _, b) ∧ s_dedup s = ∅ ∧ opt_chunk_size (s_options s) = 32 * kib ∧ ids_below s ∧
  im_next_id_counter (s_impl s) = 1001 ∧ (valid_chunk_size (32 * kib) = true → authorized d s 0%nat).
Proof.
  set (s0 := (create_family (mkId 1) Provenance.kUnknown (opened b root)).2).
  assert (im_next_checkpoint_generation (s_impl s0) !! (mkId 1 : CheckpointFamilyId) = Some (mkGen 1)) as Hg by reflexivity.
  assert (im_next_id_counter (s_impl s0) = 1000) as Hctr by reflexivity.
  assert (im_placements (s_impl s0) = ∅ ∧ im_replicas (s_impl s0) = ∅ ∧ im_checkpoints (s_impl s0) = ∅) as (Hpl & Hrp & Hck) by done.
  assert (im_backends (s_impl s0) !! im_primary_backend_id (s_impl s0) = Some 0%nat) as Hbk by reflexivity.
  assert (opt_boot_id (s_options s0) = mkId 1 ∧ opt_chunk_size (s_options s0) = 32 * kib ∧ s_dedup s0 = ∅ ∧ s_heap s0 = (λ _, b))
    as (Hboot & Hcs & Ht & Hh) by done.
  destruct (describe_run (clock_now env 0) (mkId 1) (mkId 1) size DurabilityClass.kLocal s0 (mkGen 1) Hg)
    as (d & Ed & D1 & D2 & D3 & D4 & D5).
  unfold described. fold s0. rewrite Ed. clearbody s0. exists d, (after_fresh s0).
  split; [done|]. split; [done|]. split; [done|]. split; [done|]. unfold ids_below, authorized.
  unfold after_fresh. cbn. rewrite Hctr, Hpl, Hrp, Hck, D2, D3, D4, D5. split; [|split; [reflexivity|]].
  - by split; intros x [y Hx].
  - intros Hv. rewrite Hcs. split_and!; try done. by left.
Qed.

Lemma round_trip_ok b root c n elapsed rid priority : valid_chunk_size (32 * kib) = true → (32 * kib | n) →
  0 ≤ n < 2 ^ 63 → in_order b → (∀ d, length d = 32%nat → object_at b (blob_key d) = None) →
  ∃ d s res s1 rc s2, described b root n = (Ok d, s) ∧ publish d (pattern c n) s = (Ok res, s1) ∧
    restore elapsed rid (d_id d) priority s1 = (Ok rc, s2) ∧ rc_bytes rc = pattern c n ∧
    rc_integrity rc = IntegrityState.kVerified.
Proof.
  intros Hv Hdiv Hn Hb Hnone. destruct (described_ok b root n) as (d & s & Ed & Hheap & Htab & Hc & Hids & Hctr & Hauth).
  assert (zlen (pattern c n) = n) as Ez by (unfold pattern, zlen; rewrite length_replicate; lia).
  assert (is_u64 (zlen (pattern c n))) as Hz by (rewrite Ez; unfold is_u64; lia).
  destruct (pattern_pieces c n (32 * kib)) as (slices & Hcs & Hdist); [done|unfold is_u64; lia|done|]. rewrite <- Hc in Hcs.
  specialize (Hauth Hv). pose proof Hauth as (_ & _ & _ & Hv' & _ & Hp).
  destruct (publish_succeeds d (pattern c n) s 0%nat slices) as (res & s1 & Epub & Hrel & Hm & Hcat & Hread); try done.
  { by rewrite Hheap. }
  { intros sl rb Hsl Hr Hsha. exfalso. revert Hr. rewrite Hheap. simpl. rewrite lo_read_run.
    destruct (slice_loop_spec _ _ Hv' Hz) as (_ & Hdig & _). rewrite (chunk_stream_ok _ _ Hv') in Hcs. injection Hcs as Hsl'.
    rewrite Hsl', Forall_forall in Hdig.
    rewrite Hnone; [by destruct (validate_backend_key _)|]. rewrite (Hdig _ Hsl). apply length_sha256. }
  { intros sl e _. by rewrite Htab. }
  destruct (publish_ok _ _ _ _ _ Hz Epub) as (p0 & sl0 & _ & _ & _ & (p1 & cds & rb0 & mid & rid' & w & _ & _ & _ & _ & _ & _ & _ & (Hck & _))).
  set (rec := record_for _ _ _ _ _ _) in Hck.
  assert (im_checkpoints (s_impl s1) !! d_id d = Some rec) as Hrec by (by rewrite Hck, lookup_insert_eq).
  assert (ids_distinct slices) as Hidd.
  { intros sl1 sl2 H1 H2 E. destruct (slice_loop_spec _ _ Hv' Hz) as (_ & Hdig & _).
    rewrite (chunk_stream_ok _ _ Hv') in Hcs. injection Hcs as Hsl. rewrite Hsl, Forall_forall in Hdig.
    rewrite (Hdig _ H1), (Hdig _ H2). f_equal. by apply Hdist. }
  destruct (published_stored d (pattern c n) s res s1 0%nat slices rec) as (Hl & rbs & Hst & Hmc & Hsha & _); try done;
    [rewrite Hctr; lia|rewrite Hctr, Ez; lia|].
  assert (rbs = sl_bytes <$> slices) as ->.
  { clear -Hst Hread. induction Hst as [|sl rb todo rbs (_ & Hr & _) Hf IH]; [done|]. apply Forall_cons in Hread as [H1 H2].
    csimpl. f_equal; [congruence|by apply IH]. }
  destruct (restore_complete elapsed rid (d_id d) priority s1 rec (sl_bytes <$> slices)) as (rc & s2 & Er & Hbytes);
    [done|by rewrite Hl..| |by rewrite Hsha|].
  { rewrite Hmc. apply Forall2_fmap_l. eapply Forall2_impl; [exact Hst|]. intros sl rb (Hs & _).
    eapply stored_servable; [|exact Hs]. by apply reliable_health. }
  exists d, s, res, s1, rc, s2. split; [done|]. split; [done|]. split; [done|]. split; [by rewrite Hbytes|].
  apply restore_sound in Er as (? & ? & _ & _ & _ & _ & _ & _ & Hi & _). exact Hi.
Qed.

Lemma in_cmd_run {A} (m : ST St CheckpointStoreError A) s out r s' : m s = (r, s') → in_cmd m (s, out) = (r, (s', out)).
Proof. intros E. unfold in_cmd, zoom. cbn [fst snd]. by rewrite E. Qed.
(** The programs up to the restore, and what they hand to the rest. *)
Lemma restored_run b root c m rid :
  valid_chunk_size (32 * kib) = true → 0 ≤ m ≤ 1024 → in_order b →
  (∀ d, length d = 32%nat → object_at b (blob_key d) = None) →
  ∃ rc s, rc_bytes rc = pattern c (32 * m * kib) ∧ rc_integrity rc = IntegrityState.kVerified ∧
    ∀ A (k : RestoredCheckpoint → ST (St * string) CheckpointStoreError A),
    (fam ← family; d ← describe env 0 fam (zlen (pattern c (32 * m * kib)));
     _ ← in_cmd (publish d (pattern c (32 * m * kib)));
     rc ← in_cmd (restore (clock_elapsed env) rid (d_id d) RestorePriority.kNormal); k rc) (opened b root, "")
    = k rc (s, "").
Proof.
  intros Hv Hm Hb Hnone. pose proof Hv as Hk%valid_chunk_size_spec.
  destruct (round_trip_ok b root c (32 * m * kib) (clock_elapsed env) rid RestorePriority.kNormal)
    as (d & s & res & s1 & rc & s2 & Ed & Epub & Er & Hbytes & Hint); [done|exists m; lia|nia|done..|].
  exists rc, s2. split; [done|]. split; [done|]. intros A k.
  assert (zlen (pattern c (32 * m * kib)) = 32 * m * kib) as Ez by (unfold pattern, zlen; rewrite length_replicate; nia).
  set (data := pattern c (32 * m * kib)) in *.
  set (s0 := (create_family (mkId 1) Provenance.kUnknown (opened b root)).2) in *.
  rewrite (st_bind_run _ _ _ (mkId 1) (s0, "")).
  2: { apply in_cmd_run. rewrite (surjective_pairing (create_family _ _ _)). reflexivity. }
  rewrite (st_bind_run _ _ _ d (s, "")) by (apply in_cmd_run; rewrite Ez; exact Ed).
  rewrite (st_bind_run _ _ _ res (s1, "")) by (by apply in_cmd_run).
  by rewrite (st_bind_run _ _ _ rc (s2, "")) by (by apply in_cmd_run).
Qed.
End round_trip.

(** ** The claim *)
Section claims.
Context `{IterOrder} (kib : Z) (env : Surroundings).

(** C38: The restore examples 08 and 15 work, with the sizes they have in the
    sources and with any other unit.  On a disk without faults, whatever is at the place of their
    root (unless a file is above it), the two programs that publish and restore
    run to their end and exit with 0; the restored bytes are those published
    ("parity=1"), all of them, and verified.  The bytes are cut into equal
    chunks, so no assumption on SHA-256 is needed. *)
Theorem restore_examples_succeed fs : valid_chunk_size (32 * kib) = true → quiet fs →
  (∀ name, name ∈ ["cps_ex08"; "cps_ex15"] →
     let root := parse_path (path_append (temp_directory env) name) in
     root ≠ [] ∧ ancestors_free (fs_disk fs) (parent_path root)) →
  (∃ tail fs', main_08 kib env fs = (Exited 0, "restored " +:+ pretty (128 * kib) +:+
     " bytes, parity=1 integrity=VERIFIED" +:+ tail, fs')) ∧
  ∃ fs', main_15 kib env fs = (Exited 0, "CPU reference restored " +:+ pretty (96 * kib) +:+
     " bytes, integrity=VERIFIED" +:+ nl +:+
     (if cuda_proof env
      then "CUDA proof is enabled (see test_cuda.cpp for the real H2D/kernel/D2H path)." +:+ nl
      else "CUDA proof is a separate optional build (CHECKPOINTSTORE_ENABLE_CUDA_PROOF)." +:+ nl), fs').
Proof.
  intros Hv Hq Hroots. pose proof Hv as Hk%valid_chunk_size_spec.
  assert (∀ name body, name ∈ ["cps_ex08"; "cps_ex15"] → ∃ b root, in_order b ∧
    (∀ d, length d = 32%nat → object_at b (blob_key d) = None) ∧ with_store kib env name body fs =
      match body root (opened kib b root, "") with
      | (Ok code, (s', out)) => (Exited code, out, disk_of s')
      | (Throw e, (s', out)) => (Terminated (error_message e), out, disk_of s')
      end) as Hopen.
  { intros name body [Hp Hf]%Hroots. destruct (with_store_ok kib env name body fs Hp Hq Hf) as (b & Hb & Hn & E). by eexists b, _. }
  assert (∀ c m, 0 ≤ m → zlen (pattern c (m * kib)) = m * kib) as Hz.
  { intros c m Hm. unfold pattern, zlen. rewrite length_replicate. lia. }
  split.
  - unfold main_08. match goal with |- context [with_store kib env ?n ?body fs] =>
      destruct (Hopen n body) as (b & root & Hb & Hnone & ->); [left|] end.
    cbv beta zeta. change (128 * kib) with (32 * 4 * kib).
    destruct (restored_run kib env b root x53 4 (mkId 1)) as (rc & s & Hbytes & Hint & E); [done|lia|done|done|]. rewrite E.
    unfold print, modify, mbind, ST_bind, mret, ST_ret. cbn [fst snd]. rewrite Hbytes, Hint, Hz, bool_decide_eq_true_2 by done.
    exists (" source_replica=" +:+ pretty (id_value (ev_source_replica (rc_evidence rc))) +:+ " dur_ms=" +:+
            pretty (ev_duration (rc_evidence rc)) +:+ nl), (disk_of s).
    generalize (pretty (32 * 4 * kib)), (pretty (id_value (ev_source_replica (rc_evidence rc)))), (pretty (ev_duration (rc_evidence rc))).
    reflexivity.
  - unfold main_15. match goal with |- context [with_store kib env ?n ?body fs] =>
      destruct (Hopen n body) as (b & root & Hb & Hnone & ->); [right; left|] end.
    cbv beta zeta. change (96 * kib) with (32 * 3 * kib).
    destruct (restored_run kib env b root x43 3 (mkId 1)) as (rc & s & Hbytes & Hint & E); [done|lia|done|done|]. rewrite E.
    unfold print, modify, mbind, ST_bind, mret, ST_ret. cbn [fst snd]. rewrite Hbytes, Hint, Hz by done.
    exists (disk_of s). generalize (pretty (32 * 3 * kib)). intros n.
    destruct (cuda_proof env); do 3 rewrite string_app_assoc; reflexivity.
Qed.
End claims.

(** ** Evaluation *)
#[local] Existing Instance canonical_order.
Definition surroundings : Surroundings :=
  mkSurroundings "/tmp" (λ n, Z.of_nat n * 1000) (λ _ _ _, 0) 3 42 false.
Definition bare_disk : FileSystem := mkFs ∅ [] [] None.

(** With the sizes of the sources. *)
Lemma restore_examples_succeed_witness :
  (∃ tail fs', main_08 1024 surroundings bare_disk =
     (Exited 0, "restored 131072 bytes, parity=1 integrity=VERIFIED" +:+ tail, fs')) ∧
  ∃ fs', main_15 1024 surroundings bare_disk =
     (Exited 0, "CPU reference restored 98304 bytes, integrity=VERIFIED" +:+ nl +:+
        "CUDA proof is a separate optional build (CHECKPOINTSTORE_ENABLE_CUDA_PROOF)." +:+ nl, fs').
Proof.
  assert (valid_chunk_size (32 * 1024) = true) as Hv by reflexivity.
  assert (quiet bare_disk) as Hq by constructor.
  destruct (restore_examples_succeed 1024 surroundings bare_disk Hv Hq) as [(tail & fs1 & E1) (fs2 & E2)].
  { intros name [->|[->|[]%not_elem_of_nil]%elem_of_cons]%elem_of_cons; (split; [vm_compute; discriminate|]);
      intros k; unfold file_at; by destruct (take k _). }
  split; [exists tail, fs1; exact E1|exists fs2; exact E2].
Defined.

(** With a unit of one byte: what the examples on retention, collection and
    fencing print. *)
Definition printed (m : FileSystem → Exit * string * FileSystem) : Exit * string := (m bare_disk).1.
Example ancestry_example_prints : printed (main_11 1 surroundings) =
  (Exited 0, "ancestry: eligible=0 (parent protected by retained child lineage)" +:+ nl).
Proof. vm_compute. reflexivity. Qed.
Example gc_example_prints : printed (main_12 1 surroundings) =
  (Exited 0, "after retiring shared checkpoint 1, checkpoint 2 restores parity=1 reclaimed=0" +:+ nl +:+
             "after retiring all: reclaimed=2" +:+ nl).
Proof. vm_compute. reflexivity. Qed.
Example authority_example_prints : printed (main_14 1 surroundings) =
  (Exited 0, "stale authority rejected: stale_authority" +:+ nl).
Proof. vm_compute. reflexivity. Qed.
